(** * Swarm trading orchestrator: a shallow embedding of

      - [src/swarm/src/llm.ts]      (reasoning client),
      - [src/swarm/src/trading.ts]  (market data and swap execution),
      - [src/swarm/src/swarm.ts]    (orchestrator, agents, executor),

    and the properties of the specification that can be settled on it.

    Conventions of the embedding.
    - A JavaScript [number] is an exact rational ([Q]); the timestamps that
      [Date.now()] returns are integers ([Z]).  The places where the program
      shows that it leaves the rationals are modelled as the program has
      them: a product under [Math.floor] and a quotient that is printed with
      [toFixed] are rounded to a double first ([Js.double]), and the division
      that gives [pnl_pct] yields an infinity or NULL when the entry price is
      zero ([Pnl.t]).  Elsewhere rounding, overflow and [NaN] are outside the
      model, and so is a trade of an amount of zero, whose price the program
      computes by a division by zero.
    - What the market, the reasoning service and the clients send has the
      type that the program declares for it, except where noted: the reply
      of the narrative analysis is any JSON value.
    - A string is a [string] of bytes; an absent or empty string is
      [EmptyString], which is what JavaScript treats as falsy.
    - An [await] is a call into the environment.  Every result the
      environment can give is an argument of the model, so each method is a
      function of the state and of what the outside world answers.
    - A method runs to completion before the next one starts: timer ticks
      that overlap in time are not interleaved here. *)

From Stdlib Require Import QArith Qround Qpower.
From stdpp Require Import base option list strings pretty gmap.

Local Open Scope string_scope.

(** ** JavaScript values and completions *)

Module Js.

(** A thrown [Error] object. *)
Record Error := { name : string; message : string }.

(** [Error.prototype.toString], which is what [String(e)] calls. *)
Definition toString (e : Error) : string :=
  match name e, message e with
  | EmptyString, m => m
  | n, EmptyString => n
  | n, m => n ++ ": " ++ m
  end.

(** The outcome of evaluating something that may throw. *)
Inductive Completion (A : Type) : Type :=
| Normal (a : A)
| Throw (e : Error).
Arguments Normal {A} a.
Arguments Throw {A} e.

(** [try { body } catch { handler }] on a pure computation. *)
Definition try_catch {A} (body : Completion A) (handler : Error → Completion A)
  : Completion A :=
  match body with
  | Normal a => Normal a
  | Throw e => handler e
  end.

(** [a || b] on strings: the empty string is falsy. *)
Definition str_or (a b : string) : string :=
  match a with EmptyString => b | _ => a end.

(** [a || b] where [a] is an optional string field. *)
Definition ostr_or (a : option string) (b : string) : string :=
  match a with Some s => str_or s b | None => b end.

(** [a || b] on numbers: zero is falsy. *)
Definition num_or (a b : Q) : Q := if Qeq_bool a 0 then b else a.

(** [a || b] where [a] is an optional number field. *)
Definition onum_or (a : option Q) (b : Q) : Q :=
  match a with Some x => num_or x b | None => b end.

(** [!s] for a string. *)
Definition falsy (s : string) : bool :=
  match s with EmptyString => true | _ => false end.

(** The [TypeError] that the engine throws when a property is read from
    [null] or a value that is no function is called.  The wording of its
    message is the engine's and is not modelled: the text given where one is
    thrown stands for it. *)
Definition TypeError (message : string) : Error :=
  {| name := "TypeError"; message := message |}.

(** The integer nearest to [x]; of two that are equally near, the even one. *)
Definition nearest_even (x : Q) : Z :=
  let f := Qfloor x in
  match (x - inject_Z f ?= 1 # 2)%Q with
  | Lt => f
  | Gt => (f + 1)%Z
  | Eq => if Z.even f then f else (f + 1)%Z
  end.

(** [floor (log2 |x|)] for an [x] other than zero. *)
Definition binade (x : Q) : Z :=
  let n := Z.abs (Qnum x) in
  let e := (Z.log2 n - Z.log2 (Z.pos (Qden x)))%Z in
  if Qle_bool (Qpower 2 e) (n # Qden x) then e else (e - 1)%Z.

(** The double nearest to [x], which is what an arithmetic operation whose
    exact result is [x] returns: 53 significant bits, ties to the even
    neighbour, and steps of [2^-1074] near zero.  Beyond the largest double
    the operation returns an infinity; that range is outside the model. *)
Definition double (x : Q) : Q :=
  if Qeq_bool x 0 then 0%Q
  else
    let ulp := Qpower 2 (Z.max (binade x - 52) (-1074)) in
    Qred (inject_Z (nearest_even (x / ulp)) * ulp).

End Js.

(** ** JSON values, as [JSON.parse] returns them *)

Module Json.

#[warnings="-register-all"]
Inductive value : Type :=
| Null
| Bool (b : bool)
| Num (q : Q)
| Str (s : string)
| Arr (items : list value)
| Obj (fields : list (string * value)).

(** Property access [v.key]. *)
Definition field (key : string) (v : value) : option value :=
  match v with
  | Obj fields => snd <$> List.find (λ kv, String.eqb (fst kv) key) fields
  | _ => None
  end.

End Json.

(** ** llm.ts *)

Module LLM.

Definition newline : Ascii.ascii := Ascii.ascii_of_nat 10.

(** Deleting every match of [/pat/g] for a literal [pat], and, when [opt_nl]
    is set, of [/pat\n?/g].  The scan goes left to right; [skip] counts
    the characters of the current match still to drop and [pending] records
    that a match has just ended, so that one newline may follow it. *)
Fixpoint remove_matches (pat : string) (opt_nl : bool)
    (skip : nat) (pending : bool) (s : string) : string :=
  match s with
  | EmptyString => EmptyString
  | String c s' =>
      match skip with
      | S k => remove_matches pat opt_nl k pending s'
      | O =>
          if pending && Ascii.eqb c newline
          then remove_matches pat opt_nl 0 false s'
          else if String.prefix pat s
          then remove_matches pat opt_nl (String.length pat - 1) opt_nl s'
          else String c (remove_matches pat opt_nl 0 false s')
      end
  end.

(** ASCII white space and line terminators, which [trim] removes. *)
Definition is_space (c : Ascii.ascii) : bool :=
  let n := Ascii.nat_of_ascii c in
  Nat.eqb n 32 || (Nat.leb 9 n && Nat.leb n 13).

Fixpoint trimStart (s : string) : string :=
  match s with
  | EmptyString => EmptyString
  | String c s' => if is_space c then trimStart s' else s
  end.

Fixpoint trimEnd (s : string) : string :=
  match s with
  | EmptyString => EmptyString
  | String c s' =>
      match trimEnd s' with
      | EmptyString => if is_space c then EmptyString else String c EmptyString
      | t => String c t
      end
  end.

Definition trim (s : string) : string := trimEnd (trimStart s).

(** The fences [/```json\n?/g] and then [/```/g] are deleted from [raw],
    and the rest is trimmed. *)
Definition cleaned (raw : string) : string :=
  trim (remove_matches "```" false 0 false
         (remove_matches "```json" true 0 false raw)).

(** The fallback of [llmScore]. *)
Definition score_sentinel : Json.value :=
  Json.Obj [("score", Json.Num 0);
            ("reasoning", Json.Str "Failed to parse LLM response");
            ("signal", Json.Str "SKIP")].

(** The fallback of [llmNarrativeAnalysis]. *)
Definition narratives_sentinel : Json.value :=
  Json.Obj [("narratives", Json.Arr [])].

Section client.

(** [JSON.parse]: a value, or a thrown [SyntaxError]. *)
Variable JSON_parse : string → Js.Completion Json.value.

(** [llmScore], from the point where [llmChat] has answered.  [chat] is the
    completion of [await llmChat(...)]: a failed request throws before the
    [try] block is entered and so leaves [llmScore] as an exception. *)
Definition llmScore (chat : Js.Completion string) : Js.Completion Json.value :=
  match chat with
  | Js.Throw e => Js.Throw e
  | Js.Normal raw =>
      Js.try_catch (JSON_parse (cleaned raw))
                   (λ _, Js.Normal score_sentinel)
  end.

Definition llmNarrativeAnalysis (chat : Js.Completion string)
  : Js.Completion Json.value :=
  match chat with
  | Js.Throw e => Js.Throw e
  | Js.Normal raw =>
      Js.try_catch (JSON_parse (cleaned raw))
                   (λ _, Js.Normal narratives_sentinel)
  end.

End client.

(** A parser that accepts the literal [null] only; it stands in for
    [JSON.parse] where a concrete function is needed. *)
Definition parse_null_literal (s : string) : Js.Completion Json.value :=
  if String.eqb s "null" then Js.Normal Json.Null
  else Js.Throw {| Js.name := "SyntaxError"; Js.message := "Unexpected token" |}.

End LLM.

(** ** Numbers *)

Definition Qltb (a b : Q) : bool := negb (Qle_bool b a).

(** [Math.min] *)
Definition Math_min (a b : Q) : Q := if Qle_bool a b then a else b.

(** [Math.pow(10, d)] for an integer [d]. *)
Definition pow10 (d : Z) : Q := Qpower 10 d.

Definition LAMPORTS_PER_SOL : Q := 1000000000.

(** ** trading.ts *)

Module Token.

(** [TokenInfo].  The fields kept are those that swarm.ts reads to decide
    something or to store; the others ([priceChange*], [pairAddress],
    [dexId], [createdAt], [txns24h.sells], [fdv], [url], [holders]) only feed
    the text sent to the reasoning service. *)
Record info := {
  address : string;
  symbol : string;
  name : string;
  mcap : Q;
  price : Q;
  volume24h : Q;
  liquidity : Q;
  buys24h : Q
}.

End Token.

Module Trade.

(** [TradeResult] *)
Record result := {
  success : bool;
  txHash : option string;
  error : option string;
  inputAmount : Q;
  outputAmount : option Q;
  price : option Q;
  timestamp : Z
}.

End Trade.

Module Swap.

(** What [getQuote] is asked. *)
Record request := {
  inputMint : string;
  outputMint : string;
  amount : Z;
  slippageBps : Q
}.

(** What a completed swap gives back: the two fields read from the quote and
    the signature that [sendRawTransaction] returned. *)
Record filled := {
  outAmount : Q;
  outputDecimals : option Z;
  signature : string
}.

(** The body of the [try] block of [executeBuy] and [executeSell]: quote,
    swap transaction, signing, sending and confirmation.  It either runs
    through or throws at some step. *)
Definition gateway : Type := request → Js.Completion filled.

End Swap.

Definition SOL_MINT : string := "So11111111111111111111111111111111111111112".

(** [quote.outputDecimals || 6] *)
Definition decimals_or_6 (d : option Z) : Z :=
  match d with
  | Some z => if Z.eqb z 0 then 6%Z else z
  | None => 6%Z
  end.

Definition executeBuy (jupiter : Swap.gateway) (tokenAddress : string)
    (solAmount slippageBps : Q) (timestamp : Z) : Trade.result :=
  let lamports :=
    Qfloor (Js.double (Js.double solAmount * LAMPORTS_PER_SOL)) in
  match jupiter {| Swap.inputMint := SOL_MINT; Swap.outputMint := tokenAddress;
                   Swap.amount := lamports; Swap.slippageBps := slippageBps |} with
  | Js.Normal f =>
      let outAmount :=
        (Swap.outAmount f / pow10 (decimals_or_6 (Swap.outputDecimals f)))%Q in
      {| Trade.success := true;
         Trade.txHash := Some (Swap.signature f);
         Trade.error := None;
         Trade.inputAmount := solAmount;
         Trade.outputAmount := Some outAmount;
         Trade.price := Some (solAmount / outAmount)%Q;
         Trade.timestamp := timestamp |}
  | Js.Throw e =>
      {| Trade.success := false;
         Trade.txHash := None;
         Trade.error := Some (Js.str_or (Js.message e) (Js.toString e));
         Trade.inputAmount := solAmount;
         Trade.outputAmount := None;
         Trade.price := None;
         Trade.timestamp := timestamp |}
  end.

(** The amount [executeSell] asks a quote for:
    [Math.floor(tokenAmount * Math.pow(10, tokenDecimals))], the product
    being the double that the multiplication returns. *)
Definition rawAmount (tokenAmount : Q) (tokenDecimals : Z) : Z :=
  Qfloor (Js.double (Js.double tokenAmount * Js.double (pow10 tokenDecimals))).

Definition executeSell (jupiter : Swap.gateway) (tokenAddress : string)
    (tokenAmount : Q) (tokenDecimals : Z) (slippageBps : Q) (timestamp : Z)
  : Trade.result :=
  match jupiter {| Swap.inputMint := tokenAddress; Swap.outputMint := SOL_MINT;
                   Swap.amount := rawAmount tokenAmount tokenDecimals;
                   Swap.slippageBps := slippageBps |} with
  | Js.Normal f =>
      let outLamports := Swap.outAmount f in
      let outSol := (outLamports / LAMPORTS_PER_SOL)%Q in
      {| Trade.success := true;
         Trade.txHash := Some (Swap.signature f);
         Trade.error := None;
         Trade.inputAmount := tokenAmount;
         Trade.outputAmount := Some outSol;
         Trade.price := Some (outSol / tokenAmount)%Q;
         Trade.timestamp := timestamp |}
  | Js.Throw e =>
      {| Trade.success := false;
         Trade.txHash := None;
         Trade.error := Some (Js.str_or (Js.message e) (Js.toString e));
         Trade.inputAmount := tokenAmount;
         Trade.outputAmount := None;
         Trade.price := None;
         Trade.timestamp := timestamp |}
  end.

(** [getNewPairs(minLiquidity)]: of the latest profiles that have pair data
    ([latest]), those with enough liquidity. *)
Definition getNewPairs (latest : list Token.info) (minLiquidity : Q)
  : list Token.info :=
  List.filter (λ t, Qle_bool minLiquidity (Token.liquidity t)) latest.

(** ** swarm.ts: types and tables *)

Record SwarmConfig := {
  openrouterKey : string;
  model : string;
  rpcUrl : string;
  walletKey : string;
  maxPositionSol : Q;
  stopLossPct : Q;
  takeProfitPct : Q;
  maxConcurrentTrades : Q;
  minScoreToTrade : Q;
  scanIntervalMs : Q;
  slippageBps : Q
}.

Record LLMConfig := { apiKey : string; llm_model : string }.

(** The [status] column of [positions]. *)
Inductive Status := OPEN | CLOSED | STOPPED | TP_HIT.

#[global] Instance Status_eq_dec : EqDecision Status.
Proof. solve_decision. Defined.

Module Pnl.

(** What the column [pnl_pct] holds: a number, an infinity or NULL.  The
    price updater computes it by a division, which returns an infinity for a
    divisor of zero and [NaN] for zero by zero; SQLite stores [NaN] as NULL,
    and NULL is read back as [null]. *)
Inductive t := Num (q : Q) | Infinity | NegInfinity | Null.

(** [((price - entry) / entry) * 100], as it is stored. *)
Definition of_prices (price entry : Q) : t :=
  if Qeq_bool entry 0
  then match (price ?= 0)%Q with
       | Gt => Infinity
       | Lt => NegInfinity
       | Eq => Null
       end
  else Num ((price - entry) / entry * 100).

(** [pnl <= x]; in a comparison [null] counts as 0. *)
Definition le (pnl : t) (x : Q) : bool :=
  match pnl with
  | Num q => Qle_bool q x
  | Infinity => false
  | NegInfinity => true
  | Null => Qle_bool 0 x
  end.

(** [pnl >= x] *)
Definition ge (pnl : t) (x : Q) : bool :=
  match pnl with
  | Num q => Qle_bool x q
  | Infinity => true
  | NegInfinity => false
  | Null => Qle_bool x 0
  end.

(** [pnl.toFixed(1)]: reading [toFixed] from [null] throws.  The text that
    it returns is not modelled; the value stands for it. *)
Definition toFixed (pnl : t) : Js.Completion t :=
  match pnl with
  | Null => Js.Throw (Js.TypeError "null is not an object")
  | _ => Js.Normal pnl
  end.

End Pnl.

Module Pos.

(** A row of the table [positions]. *)
Record row := {
  id : nat;
  token_address : string;
  symbol : string;
  entry_price : Q;
  entry_sol : Q;
  token_amount : Q;
  token_decimals : Z;
  current_price : Q;
  pnl_pct : Pnl.t;
  status : Status;
  entry_tx : string;
  exit_tx : option string;
  entry_time : Z;
  exit_time : option Z;
  score : Q;
  narrative : string
}.

Definition is_open (r : row) : bool := bool_decide (status r = OPEN).

(** [SET current_price = ?, pnl_pct = ?] *)
Definition set_price (price : Q) (pnl : Pnl.t) (r : row) : row :=
  {| id := id r; token_address := token_address r; symbol := symbol r;
     entry_price := entry_price r; entry_sol := entry_sol r;
     token_amount := token_amount r; token_decimals := token_decimals r;
     current_price := price; pnl_pct := pnl; status := status r;
     entry_tx := entry_tx r; exit_tx := exit_tx r;
     entry_time := entry_time r; exit_time := exit_time r;
     score := score r; narrative := narrative r |}.

(** [SET status = ?, exit_tx = ?, exit_time = ?, current_price = ?, pnl_pct = ?] *)
Definition set_closed (st : Status) (tx : string) (time : Z) (price : Q)
    (pnl : Pnl.t) (r : row) : row :=
  {| id := id r; token_address := token_address r; symbol := symbol r;
     entry_price := entry_price r; entry_sol := entry_sol r;
     token_amount := token_amount r; token_decimals := token_decimals r;
     current_price := price; pnl_pct := pnl; status := st;
     entry_tx := entry_tx r; exit_tx := Some tx;
     entry_time := entry_time r; exit_time := Some time;
     score := score r; narrative := narrative r |}.

End Pos.

Module Ledger.

Inductive side := BUY | SELL.

(** A row of the table [trade_history]; its row id is its place in the list. *)
Record row := {
  token_address : string;
  symbol : string;
  trade_side : side;
  sol_amount : Q;
  token_amount : Q;
  price : Q;
  tx_hash : string;
  success : Z;
  error : string;
  timestamp : Z
}.

End Ledger.

Module Narr.

(** An entry of the reply of [llmNarrativeAnalysis] that has the shape which
    the signature of the function declares. *)
Record item := {
  name : string;
  score : Q;
  tokens : list Json.value;
  trend : string
}.

(** The entry [n] of a reply, read at the declared shape if it has it. *)
Definition typed (n : Json.value) : option item :=
  match Json.field "name" n, Json.field "score" n,
        Json.field "tokens" n, Json.field "trend" n with
  | Some (Json.Str name), Some (Json.Num score),
    Some (Json.Arr tokens), Some (Json.Str trend) =>
      Some {| name := name; score := score; tokens := tokens; trend := trend |}
  | _, _, _, _ => None
  end.

(** The entry with the fields of [i]. *)
Definition entry (i : item) : Json.value :=
  Json.Obj [("name", Json.Str (name i)); ("score", Json.Num (score i));
            ("tokens", Json.Arr (tokens i)); ("trend", Json.Str (trend i))].

(** A string as [for ... of] goes through it, one entry for each character. *)
Fixpoint characters (s : string) : list Json.value :=
  match s with
  | EmptyString => []
  | String c s' => Json.Str (String c EmptyString) :: characters s'
  end.

(** The values that [for (const n of analysis.narratives)] goes through.
    Reading [narratives] from [null] throws, and so does the loop over a
    value that is neither an array nor a string. *)
Definition entries (analysis : Json.value) : Js.Completion (list Json.value) :=
  match analysis with
  | Json.Null => Js.Throw (Js.TypeError "null is not an object")
  | _ =>
      match Json.field "narratives" analysis with
      | Some (Json.Arr items) => Js.Normal items
      | Some (Json.Str s) => Js.Normal (characters s)
      | _ => Js.Throw (Js.TypeError "analysis.narratives is not iterable")
      end
  end.

(** [n.tokens.join(", ")]: only an array has [join].  The text is not
    modelled. *)
Definition joined (n : Json.value) : Js.Completion unit :=
  match Json.field "tokens" n with
  | Some (Json.Arr _) => Js.Normal tt
  | _ => Js.Throw (Js.TypeError "n.tokens.join is not a function")
  end.

(** A row of the table [narratives].  The columns [trend] and [tokens] may
    hold NULL; [tokens] holds the array that was stored serialised. *)
Record row := {
  row_name : string;
  row_score : Q;
  row_trend : option string;
  row_tokens : option (list Json.value);
  updated_at : Z
}.

End Narr.

Module Scan.

(** The reply of [llmScore], with the shape its signature declares. *)
Record reply := { score : Q; reasoning : string; signal : string }.

(** A row of the table [scanned_tokens], keyed by [address]. *)
Record row := {
  symbol : string;
  row_score : Q;
  row_signal : string;
  row_reasoning : string;
  narrative : string;
  mcap : Q;
  liquidity : Q;
  first_seen : Z;
  last_seen : Z;
  times_seen : Z
}.

End Scan.

Module Agent.

Inductive state := idle | running | error | waiting.

(** [AgentStatus] *)
Record t := {
  id : string;
  name : string;
  status : state;
  lastRun : option Z;
  lastResult : option string
}.

End Agent.

Module Log.

Inductive type := info | success | warn | error | cmd | trade.

(** The message of a log entry, kept as its template and the values that the
    template interpolates; rendering numbers to text is not modelled. *)
Inductive msg :=
| Initializing
| MissingOpenRouterKey
| MissingRpcUrl
| WalletLoaded (publicKey : string) (lamports : Z)
| WalletError (message : string)
| ScanOnlyMode
| Deployed (agentName : string)
| AllAgentsOnline
| AllAgentsRecalled
| ScanningNarratives
| NoTokensFound
| NarrativeFound (n : Json.value)
| NarrativeScanFailed (message : string)
| Hunting
| CandidatesFound (count : nat)
| Scored (symbol : string) (r : Scan.reply)
| ScoreFailed (symbol message : string)
| CoinHunterFailed (message : string)
| HitStopLoss (symbol : string) (pnl : Pnl.t)
| HitTakeProfit (symbol : string) (pnl : Pnl.t)
| LiquidityDropped (symbol : string) (liquidity : Q)
| PortfolioHeat (heatPct : Q) (openPositions : nat) (exposure : Q)
| RiskCheckFailed (message : string)
| WouldBuyNoWallet (symbol : string)
| MaxConcurrentReached (limit : Q) (symbol : string)
| AlreadyHolding (symbol : string)
| InsufficientBalance (solBal : Q)
| ExecutingBuy (symbol : string) (tradeSize score : Q)
| Bought (symbol : string) (tradeSize : Q) (tx : option string)
| BuyFailed (symbol : string) (err : option string)
| Closing (symbol : string) (reason : Status)
| Sold (symbol : string) (reason : Status) (pnl : Pnl.t) (tx : option string)
| SellFailed (symbol : string) (err : option string)
| NoWalletConfigured
| TokenNotFound (tokenAddress : string)
| ManualBuyStart (symbol : string) (solAmount : Q)
| ManualBought (symbol : string) (tx : option string)
| ManualBuyFailed (err : option string)
| PositionNotOpen (positionId : nat)
| ManualSellStart (symbol : string).

(** [SwarmLog] *)
Record entry := {
  timestamp : Z;
  agent : string;
  kind : type;
  message : msg
}.

End Log.

(** The recurring tasks that [start] hands to [setInterval]. *)
Inductive Task := NarrativeScan | HunterScan | RiskCheck | PriceUpdate.

Record Timer := { task : Task; delay : Q }.

(** An entry of [tokenCache]. *)
Record Cached := {
  cached_token : Token.info;
  cached_score : Q;
  cached_signal : string;
  cached_narrative : string
}.

(** The SQLite database behind [this.db].  [positions] lists the rows in the
    order of insertion and [positions_seq] is the largest row id handed out so
    far, which is what AUTOINCREMENT continues from. *)
Record DB := {
  positions : list Pos.row;
  positions_seq : nat;
  trade_history : list Ledger.row;
  narratives : list Narr.row;
  scanned_tokens : gmap string Scan.row
}.

Definition empty_db : DB :=
  {| positions := []; positions_seq := 0; trade_history := [];
     narratives := []; scanned_tokens := ∅ |}.

(** The fields of class [Swarm].  [wallet] holds the public key of the loaded
    key pair, [connection] the endpoint it was opened on, and [emitted] what
    was passed to the [onLog] callback so far. *)
Record Swarm := {
  config : SwarmConfig;
  db : DB;
  connection : option string;
  wallet : option string;
  llmConfig : option LLMConfig;
  running : bool;
  agents : gmap string Agent.t;
  intervals : list Timer;
  tokenCache : gmap string Cached;
  emitted : list Log.entry
}.

(** What the outside world answers while one method, or one pass of a loop
    inside it, runs.  The world is also asked what the libraries and the run
    time do where the model does not compute it:
    - [getConnection url] is [new Connection(url, ...)] of the Solana client,
      which returns or throws, as it does for an endpoint that does not start
      with [http:] or [https:];
    - [llmNarrativeAnalysis] is the outcome of the function of that name:
      its reply is whatever [JSON.parse] made of the text, so it need not
      have the declared shape;
    - [storeNarrative n] is the INSERT into [narratives] for an entry [n] of
      the reply that lacks the declared shape: the row that SQLite stores, or
      the error of the binding or of a NOT NULL column;
    - [exceeds v x] is [v > x] for a [v] that is a string, an array or an
      object, which JavaScript converts to a number first. *)
Record World := {
  now : Z;
  getBalance : Js.Completion Z;
  jupiter : Swap.gateway;
  getTokenByAddress : string → option Token.info;
  getTrendingTokens : list Token.info;
  latestProfiles : list Token.info;
  llmScore : Js.Completion Scan.reply;
  llmNarrativeAnalysis : Js.Completion Json.value;
  createWallet : Js.Completion string;
  getConnection : string → Js.Completion unit;
  storeNarrative : Json.value → Js.Completion Narr.row;
  exceeds : Json.value → Q → bool
}.

(** ** Field updates *)

Definition set_db (d : DB) (s : Swarm) : Swarm :=
  {| config := config s; db := d; connection := connection s;
     wallet := wallet s; llmConfig := llmConfig s; running := running s;
     agents := agents s; intervals := intervals s;
     tokenCache := tokenCache s; emitted := emitted s |}.

Definition set_connection (c : option string) (s : Swarm) : Swarm :=
  {| config := config s; db := db s; connection := c;
     wallet := wallet s; llmConfig := llmConfig s; running := running s;
     agents := agents s; intervals := intervals s;
     tokenCache := tokenCache s; emitted := emitted s |}.

Definition set_wallet (k : option string) (s : Swarm) : Swarm :=
  {| config := config s; db := db s; connection := connection s;
     wallet := k; llmConfig := llmConfig s; running := running s;
     agents := agents s; intervals := intervals s;
     tokenCache := tokenCache s; emitted := emitted s |}.

Definition set_llmConfig (c : option LLMConfig) (s : Swarm) : Swarm :=
  {| config := config s; db := db s; connection := connection s;
     wallet := wallet s; llmConfig := c; running := running s;
     agents := agents s; intervals := intervals s;
     tokenCache := tokenCache s; emitted := emitted s |}.

Definition set_running (b : bool) (s : Swarm) : Swarm :=
  {| config := config s; db := db s; connection := connection s;
     wallet := wallet s; llmConfig := llmConfig s; running := b;
     agents := agents s; intervals := intervals s;
     tokenCache := tokenCache s; emitted := emitted s |}.

Definition set_agents (a : gmap string Agent.t) (s : Swarm) : Swarm :=
  {| config := config s; db := db s; connection := connection s;
     wallet := wallet s; llmConfig := llmConfig s; running := running s;
     agents := a; intervals := intervals s;
     tokenCache := tokenCache s; emitted := emitted s |}.

Definition set_intervals (l : list Timer) (s : Swarm) : Swarm :=
  {| config := config s; db := db s; connection := connection s;
     wallet := wallet s; llmConfig := llmConfig s; running := running s;
     agents := agents s; intervals := l;
     tokenCache := tokenCache s; emitted := emitted s |}.

Definition set_tokenCache (c : gmap string Cached) (s : Swarm) : Swarm :=
  {| config := config s; db := db s; connection := connection s;
     wallet := wallet s; llmConfig := llmConfig s; running := running s;
     agents := agents s; intervals := intervals s;
     tokenCache := c; emitted := emitted s |}.

Definition set_emitted (l : list Log.entry) (s : Swarm) : Swarm :=
  {| config := config s; db := db s; connection := connection s;
     wallet := wallet s; llmConfig := llmConfig s; running := running s;
     agents := agents s; intervals := intervals s;
     tokenCache := tokenCache s; emitted := l |}.

(** ** Statements on the database *)

(** [SELECT * FROM positions WHERE status = 'OPEN'] *)
Definition open_positions (d : DB) : list Pos.row :=
  List.filter Pos.is_open (positions d).

(** [SELECT COUNT( * ) FROM positions WHERE status = 'OPEN'] *)
Definition count_open (d : DB) : nat := length (open_positions d).

Definition holds (tokenAddress : string) (r : Pos.row) : bool :=
  String.eqb (Pos.token_address r) tokenAddress && Pos.is_open r.

(** [SELECT * FROM positions WHERE token_address = ? AND status = 'OPEN'],
    first row. *)
Definition open_position_of (tokenAddress : string) (d : DB) : option Pos.row :=
  List.find (holds tokenAddress) (positions d).

(** [SELECT * FROM positions WHERE id = ?], first row. *)
Definition position_by_id (positionId : nat) (d : DB) : option Pos.row :=
  List.find (λ r, Nat.eqb (Pos.id r) positionId) (positions d).

(** [INSERT INTO positions (...)]: the new row takes the next row id. *)
Definition insert_position (mk : nat → Pos.row) (d : DB) : DB :=
  {| positions := positions d ++ [mk (S (positions_seq d))];
     positions_seq := S (positions_seq d);
     trade_history := trade_history d; narratives := narratives d;
     scanned_tokens := scanned_tokens d |}.

(** [UPDATE positions SET ... WHERE id = ?] *)
Definition update_position (positionId : nat) (f : Pos.row → Pos.row) (d : DB)
  : DB :=
  {| positions :=
       List.map (λ r, if Nat.eqb (Pos.id r) positionId then f r else r)
                (positions d);
     positions_seq := positions_seq d;
     trade_history := trade_history d; narratives := narratives d;
     scanned_tokens := scanned_tokens d |}.

(** [INSERT INTO trade_history (...)] *)
Definition insert_trade (t : Ledger.row) (d : DB) : DB :=
  {| positions := positions d; positions_seq := positions_seq d;
     trade_history := trade_history d ++ [t]; narratives := narratives d;
     scanned_tokens := scanned_tokens d |}.

Definition set_narratives (l : list Narr.row) (d : DB) : DB :=
  {| positions := positions d; positions_seq := positions_seq d;
     trade_history := trade_history d; narratives := l;
     scanned_tokens := scanned_tokens d |}.

Definition set_scanned_tokens (m : gmap string Scan.row) (d : DB) : DB :=
  {| positions := positions d; positions_seq := positions_seq d;
     trade_history := trade_history d; narratives := narratives d;
     scanned_tokens := m |}.

(** The row that both buy paths write to [trade_history]. *)
Definition buy_record (tokenAddress symbol : string) (solAmount : Q)
    (result : Trade.result) : Ledger.row :=
  {| Ledger.token_address := tokenAddress;
     Ledger.symbol := symbol;
     Ledger.trade_side := Ledger.BUY;
     Ledger.sol_amount := solAmount;
     Ledger.token_amount := Js.onum_or (Trade.outputAmount result) 0;
     Ledger.price := Js.onum_or (Trade.price result) 0;
     Ledger.tx_hash := Js.ostr_or (Trade.txHash result) EmptyString;
     Ledger.success := if Trade.success result then 1%Z else 0%Z;
     Ledger.error := Js.ostr_or (Trade.error result) EmptyString;
     Ledger.timestamp := Trade.timestamp result |}.

(** The row that [closePosition] writes to [trade_history]. *)
Definition sell_record (pos : Pos.row) (result : Trade.result) : Ledger.row :=
  {| Ledger.token_address := Pos.token_address pos;
     Ledger.symbol := Pos.symbol pos;
     Ledger.trade_side := Ledger.SELL;
     Ledger.sol_amount := Js.onum_or (Trade.outputAmount result) 0;
     Ledger.token_amount := Pos.token_amount pos;
     Ledger.price := Js.onum_or (Trade.price result) 0;
     Ledger.tx_hash := Js.ostr_or (Trade.txHash result) EmptyString;
     Ledger.success := if Trade.success result then 1%Z else 0%Z;
     Ledger.error := Js.ostr_or (Trade.error result) EmptyString;
     Ledger.timestamp := Trade.timestamp result |}.

(** The row that both buy paths insert into [positions]; the columns that the
    INSERT does not name take their defaults ([pnl_pct] 0, exit columns NULL). *)
Definition opened_position (tokenAddress symbol : string) (price solAmount : Q)
    (result : Trade.result) (tokenDecimals : Z) (entryTime : Z) (score : Q)
    (narrative : string) (rowid : nat) : Pos.row :=
  {| Pos.id := rowid;
     Pos.token_address := tokenAddress;
     Pos.symbol := symbol;
     Pos.entry_price := price;
     Pos.entry_sol := solAmount;
     Pos.token_amount := Js.onum_or (Trade.outputAmount result) 0;
     Pos.token_decimals := tokenDecimals;
     Pos.current_price := price;
     Pos.pnl_pct := Pnl.Num 0;
     Pos.status := OPEN;
     Pos.entry_tx := Js.ostr_or (Trade.txHash result) EmptyString;
     Pos.exit_tx := None;
     Pos.entry_time := entryTime;
     Pos.exit_time := None;
     Pos.score := score;
     Pos.narrative := narrative |}.

(** ** Methods as state transformers that may throw *)

Definition M (A : Type) : Type := Swarm → Swarm * Js.Completion A.

Definition ret {A} (a : A) : M A := λ s, (s, Js.Normal a).

Definition bind {A B} (m : M A) (k : A → M B) : M B :=
  λ s, match m s with
       | (s', Js.Normal a) => k a s'
       | (s', Js.Throw e) => (s', Js.Throw e)
       end.

(** [await c], for an answer [c] of the world. *)
Definition await {A} (c : Js.Completion A) : M A := λ s, (s, c).

Definition gets {A} (f : Swarm → A) : M A := λ s, (s, Js.Normal (f s)).

Definition modify (f : Swarm → Swarm) : M unit := λ s, (f s, Js.Normal tt).

(** [try { body } catch (e) { handler e }]; what [body] changed before it
    threw stays changed. *)
Definition try_catch {A} (body : M A) (handler : Js.Error → M A) : M A :=
  λ s, match body s with
       | (s', Js.Normal a) => (s', Js.Normal a)
       | (s', Js.Throw e) => handler e s'
       end.

(** The state a method leaves behind. *)
Definition exec {A} (m : M A) (s : Swarm) : Swarm := fst (m s).

Declare Scope swarm_scope.
Delimit Scope swarm_scope with M.
Notation "x ← y ; z" := (bind y (λ x, z))
  (at level 20, y at level 100, z at level 200, only parsing) : swarm_scope.
Notation "x ;; z" := (bind x (λ _, z))
  (at level 100, z at level 200, only parsing, right associativity)
  : swarm_scope.

(** [for (const x of xs) body] *)
Fixpoint for_of {A} (xs : list A) (body : A → M unit) : M unit :=
  match xs with
  | [] => ret tt
  | x :: xs' => (body x ;; for_of xs' body)%M
  end.

Definition modify_db (f : DB → DB) : M unit :=
  modify (λ s, set_db (f (db s)) s).

(** ** swarm.ts: the methods of [Swarm] *)

Definition log (w : World) (agent : string) (kind : Log.type)
    (message : Log.msg) : M unit :=
  modify (λ s, set_emitted
    (emitted s ++ [{| Log.timestamp := now w; Log.agent := agent;
                      Log.kind := kind; Log.message := message |}]) s).

(** The body of [setAgentStatus(id, status, lastResult?)]; an omitted
    [lastResult] is the empty string, which is falsy like [undefined]. *)
Definition mark (w : World) (id : string) (status : Agent.state)
    (lastResult : string) (s : Swarm) : Swarm :=
  match agents s !! id with
  | Some agent =>
      set_agents
        (<[id := {| Agent.id := Agent.id agent;
                    Agent.name := Agent.name agent;
                    Agent.status := status;
                    Agent.lastRun := Some (now w);
                    Agent.lastResult :=
                      if Js.falsy lastResult then Agent.lastResult agent
                      else Some lastResult |}]> (agents s)) s
  | None => s
  end.

Definition setAgentStatus (w : World) (id : string) (status : Agent.state)
    (lastResult : string) : M unit :=
  modify (mark w id status lastResult).

Definition executeTrade (w : World) (token : Token.info) (score : Q)
    (narrative : string) : M unit :=
  (wal ← gets wallet;
   match wal with
   | None =>
       log w "executor" Log.warn (Log.WouldBuyNoWallet (Token.symbol token))
   | Some _ =>
       cfg ← gets config;
       (* Check max concurrent *)
       openCount ← gets (λ s, count_open (db s));
       if Qle_bool (maxConcurrentTrades cfg) (inject_Z (Z.of_nat openCount))
       then log w "executor" Log.warn
              (Log.MaxConcurrentReached (maxConcurrentTrades cfg)
                                        (Token.symbol token))
       else
         (* Check if already holding *)
         existing ← gets (λ s, open_position_of (Token.address token) (db s));
         match existing with
         | Some _ =>
             log w "executor" Log.info (Log.AlreadyHolding (Token.symbol token))
         | None =>
             (* Check balance *)
             balance ← await (getBalance w);
             let solBal := (inject_Z balance / LAMPORTS_PER_SOL)%Q in
             let tradeSize :=
               Math_min (maxPositionSol cfg) (solBal * (3 # 10))%Q in
             if Qltb tradeSize (5 # 1000)
             then log w "executor" Log.error (Log.InsufficientBalance solBal)
             else
               setAgentStatus w "executor" Agent.running EmptyString;;
               log w "executor" Log.cmd
                 (Log.ExecutingBuy (Token.symbol token) tradeSize score);;
               let result :=
                 executeBuy (jupiter w) (Token.address token) tradeSize
                            (slippageBps cfg) (now w) in
               (* Record trade *)
               modify_db (insert_trade
                 (buy_record (Token.address token) (Token.symbol token)
                             tradeSize result));;
               if Trade.success result
               then
                 (* Create position *)
                 modify_db (insert_position
                   (opened_position (Token.address token) (Token.symbol token)
                      (Token.price token) tradeSize result 6 (now w)
                      score narrative));;
                 log w "executor" Log.success
                   (Log.Bought (Token.symbol token) tradeSize
                               (Trade.txHash result))
               else
                 log w "executor" Log.error
                   (Log.BuyFailed (Token.symbol token) (Trade.error result))
         end
   end)%M.

Definition closePosition (w : World) (positionId : nat) (reason : Status)
  : M unit :=
  (wal ← gets wallet;
   match wal with
   | None => ret tt
   | Some _ =>
       found ← gets (λ s, position_by_id positionId (db s));
       match found with
       | None => ret tt
       | Some pos =>
           if negb (Pos.is_open pos) then ret tt
           else
             cfg ← gets config;
             log w "executor" Log.cmd (Log.Closing (Pos.symbol pos) reason);;
             let result :=
               executeSell (jupiter w) (Pos.token_address pos)
                 (Pos.token_amount pos) (Pos.token_decimals pos)
                 (slippageBps cfg) (now w) in
             (* Record trade *)
             modify_db (insert_trade (sell_record pos result));;
             if Trade.success result
             then
               modify_db (update_position positionId
                 (Pos.set_closed reason
                    (Js.ostr_or (Trade.txHash result) EmptyString)
                    (now w)
                    (Js.onum_or (Trade.price result) (Pos.current_price pos))
                    (Pos.pnl_pct pos)));;
               pnl ← await (Pnl.toFixed (Pos.pnl_pct pos));
               log w "executor" Log.success
                 (Log.Sold (Pos.symbol pos) reason pnl (Trade.txHash result))
             else
               log w "executor" Log.error
                 (Log.SellFailed (Pos.symbol pos) (Trade.error result))
       end
   end)%M.

Definition manualBuy (w : World) (tokenAddress : string) (solAmount : Q)
  : M (option Trade.result) :=
  (wal ← gets wallet;
   match wal with
   | None =>
       log w "executor" Log.error Log.NoWalletConfigured;;
       ret None
   | Some _ =>
       match getTokenByAddress w tokenAddress with
       | None =>
           log w "executor" Log.error (Log.TokenNotFound tokenAddress);;
           ret None
       | Some token =>
           cfg ← gets config;
           log w "executor" Log.cmd
             (Log.ManualBuyStart (Token.symbol token) solAmount);;
           let result :=
             executeBuy (jupiter w) tokenAddress solAmount (slippageBps cfg)
                        (now w) in
           modify_db (insert_trade
             (buy_record tokenAddress (Token.symbol token) solAmount result));;
           (if Trade.success result
            then
              modify_db (insert_position
                (opened_position tokenAddress (Token.symbol token)
                   (Token.price token) solAmount result 6 (now w)
                   0 "Manual"));;
              log w "executor" Log.success
                (Log.ManualBought (Token.symbol token) (Trade.txHash result))
            else
              log w "executor" Log.error
                (Log.ManualBuyFailed (Trade.error result)));;
           ret (Some result)
       end
   end)%M.

Definition manualSell (w : World) (positionId : nat)
  : M (option Trade.result) :=
  (wal ← gets wallet;
   match wal with
   | None =>
       log w "executor" Log.error Log.NoWalletConfigured;;
       ret None
   | Some _ =>
       found ← gets (λ s,
         List.find (λ r, Nat.eqb (Pos.id r) positionId && Pos.is_open r)
                   (positions (db s)));
       match found with
       | None =>
           log w "executor" Log.error (Log.PositionNotOpen positionId);;
           ret None
       | Some pos =>
           log w "executor" Log.cmd (Log.ManualSellStart (Pos.symbol pos));;
           closePosition w positionId CLOSED;;
           ret (Some {| Trade.success := true;
                        Trade.txHash := None;
                        Trade.error := None;
                        Trade.inputAmount := Pos.token_amount pos;
                        Trade.outputAmount := None;
                        Trade.price := None;
                        Trade.timestamp := now w |})
       end
   end)%M.

(** One pass of the loop of [runPriceUpdater]. *)
Definition updatePrice (w : World) (pos : Pos.row) : M unit :=
  try_catch
    (match getTokenByAddress w (Pos.token_address pos) with
     | Some tokenData =>
         let pnlPct :=
           Pnl.of_prices (Token.price tokenData) (Pos.entry_price pos) in
         modify_db (update_position (Pos.id pos)
                      (Pos.set_price (Token.price tokenData) pnlPct))
     | None => ret tt
     end)
    (λ _, ret tt).

(** [runPriceUpdater]; [each id] is the world as it answers while the position
    with row id [id] is being refreshed. *)
Definition runPriceUpdater (each : nat → World) : M unit :=
  (r ← gets running;
   if negb r then ret tt
   else
     openPositions ← gets (λ s, open_positions (db s));
     for_of openPositions (λ pos, updatePrice (each (Pos.id pos)) pos))%M.

(** One pass of the loop of [runRiskManager]. *)
Definition riskCheck (w : World) (pos : Pos.row) : M unit :=
  (cfg ← gets config;
   (* Check stop loss *)
   if Pnl.le (Pos.pnl_pct pos) (- stopLossPct cfg)
   then
     pnl ← await (Pnl.toFixed (Pos.pnl_pct pos));
     log w "risk" Log.error (Log.HitStopLoss (Pos.symbol pos) pnl);;
     closePosition w (Pos.id pos) STOPPED
   (* Check take profit *)
   else if Pnl.ge (Pos.pnl_pct pos) (takeProfitPct cfg)
   then
     pnl ← await (Pnl.toFixed (Pos.pnl_pct pos));
     log w "risk" Log.success (Log.HitTakeProfit (Pos.symbol pos) pnl);;
     closePosition w (Pos.id pos) TP_HIT
   (* Check if liquidity dropped dangerously *)
   else
     match getTokenByAddress w (Pos.token_address pos) with
     | Some tokenData =>
         if Qltb (Token.liquidity tokenData) 3000
         then
           log w "risk" Log.warn
             (Log.LiquidityDropped (Pos.symbol pos) (Token.liquidity tokenData));;
           closePosition w (Pos.id pos) STOPPED
         else ret tt
     | None => ret tt
     end)%M.

(** [runRiskManager]; [w] answers the balance request of the heat check and
    [each id] the requests made while position [id] is examined. *)
Definition runRiskManager (w : World) (each : nat → World) : M unit :=
  (r ← gets running;
   if negb r then ret tt
   else
     setAgentStatus w "risk" Agent.running EmptyString;;
     try_catch
       (openPositions ← gets (λ s, open_positions (db s));
        match openPositions with
        | [] => setAgentStatus w "risk" Agent.running "No open positions"
        | _ =>
            for_of openPositions (λ pos, riskCheck (each (Pos.id pos)) pos);;
            (* Portfolio heat check *)
            let totalExposure :=
              fold_left (λ sum p, sum + Pos.entry_sol p)%Q openPositions 0%Q in
            wal ← gets wallet;
            match wal with
            | Some _ =>
                bal ← await (getBalance w);
                let solBal := (inject_Z bal / LAMPORTS_PER_SOL)%Q in
                let heatPct :=
                  (totalExposure / (solBal + totalExposure) * 100)%Q in
                log w "risk" Log.info
                  (Log.PortfolioHeat heatPct (length openPositions)
                                     totalExposure)
            | None => ret tt
            end;;
            setAgentStatus w "risk" Agent.running
              ("Monitoring " ++ pretty (length openPositions) ++ " positions")
        end)
       (λ e,
          log w "risk" Log.error (Log.RiskCheckFailed (Js.message e));;
          setAgentStatus w "risk" Agent.error (Js.message e)))%M.

(** *** Narrative scanner *)

(** The row that the INSERT stores for an entry of the declared shape. *)
Definition narrative_row (w : World) (n : Narr.item) : Narr.row :=
  {| Narr.row_name := Narr.name n; Narr.row_score := Narr.score n;
     Narr.row_trend := Some (Narr.trend n);
     Narr.row_tokens := Some (Narr.tokens n);
     Narr.updated_at := now w |}.

(** [n.score > 80] *)
Definition hot (w : World) (n : Json.value) : bool :=
  match Json.field "score" n with
  | Some (Json.Num score) => Qltb 80 score
  | Some (Json.Null) | Some (Json.Bool _) | None => false
  | Some v => exceeds w v 80
  end.

(** One pass of the loop of [runNarrativeScanner]: the INSERT, then the log
    entry, whose text cannot be made when [n.tokens] is no array. *)
Definition saveNarrative (w : World) (n : Json.value) : M unit :=
  match n with
  | Json.Null => await (Js.Throw (Js.TypeError "null is not an object"))
  | _ =>
      (row ← await (match Narr.typed n with
                    | Some item => Js.Normal (narrative_row w item)
                    | None => storeNarrative w n
                    end);
       modify_db (λ d, set_narratives (narratives d ++ [row]) d);;
       await (Narr.joined n);;
       log w "narrative" (if hot w n then Log.success else Log.info)
         (Log.NarrativeFound n))%M
  end.

Definition runNarrativeScanner (w : World) : M unit :=
  (r ← gets running;
   if negb r then ret tt
   else
     setAgentStatus w "narrative" Agent.running EmptyString;;
     try_catch
       (log w "narrative" Log.info Log.ScanningNarratives;;
        let trending := getTrendingTokens w in
        let newPairs := getNewPairs (latestProfiles w) 3000 in
        let allTokens := (trending ++ newPairs)%list in
        match allTokens with
        | [] => log w "narrative" Log.warn Log.NoTokensFound
        | _ =>
            analysis ← await (llmNarrativeAnalysis w);
            (* Save narratives *)
            modify_db (set_narratives []);;
            found ← await (Narr.entries analysis);
            for_of found (saveNarrative w);;
            setAgentStatus w "narrative" Agent.running
              ("Found " ++ pretty (length found) ++ " narratives")
        end)
       (λ e,
          log w "narrative" Log.error (Log.NarrativeScanFailed (Js.message e));;
          setAgentStatus w "narrative" Agent.error (Js.message e)))%M.

(** *** Coin hunter *)

(** ASCII [toLowerCase]. *)
Definition lower (c : Ascii.ascii) : Ascii.ascii :=
  let n := Ascii.nat_of_ascii c in
  if Nat.leb 65 n && Nat.leb n 90 then Ascii.ascii_of_nat (n + 32) else c.

Fixpoint toLowerCase (s : string) : string :=
  match s with
  | EmptyString => EmptyString
  | String c s' => String (lower c) (toLowerCase s')
  end.

(** [s.split(" ")[0]] *)
Fixpoint first_word (s : string) : string :=
  match s with
  | EmptyString => EmptyString
  | String c s' =>
      if Ascii.eqb c (Ascii.ascii_of_nat 32) then EmptyString
      else String c (first_word s')
  end.

(** [hay.includes(needle)] *)
Fixpoint includes (hay needle : string) : bool :=
  String.prefix needle hay ||
  match hay with
  | EmptyString => false
  | String _ hay' => includes hay' needle
  end.

(** [ORDER BY score DESC]; rows of equal score keep their order of insertion. *)
Fixpoint insert_by_score (r : Narr.row) (l : list Narr.row) : list Narr.row :=
  match l with
  | [] => [r]
  | x :: l' =>
      if Qltb (Narr.row_score x) (Narr.row_score r) then r :: l
      else x :: insert_by_score r l'
  end.

Definition by_score_desc (l : list Narr.row) : list Narr.row :=
  fold_left (λ sorted r, insert_by_score r sorted) l [].

(** The narrative a token is filed under: the best-scored narrative whose
    first word occurs in the symbol or the name of the token. *)
Definition narrative_of (d : DB) (token : Token.info) : string :=
  let names := Narr.row_name <$> by_score_desc (narratives d) in
  let hit :=
    List.find (λ n,
      includes (toLowerCase (Token.symbol token))
               (first_word (toLowerCase n))
      || includes (toLowerCase (Token.name token))
                  (first_word (toLowerCase n))) names in
  Js.ostr_or hit "Unknown".

(** Drop the tokens whose address was seen before. *)
Fixpoint unique (seen : gset string) (l : list Token.info) : list Token.info :=
  match l with
  | [] => []
  | t :: l' =>
      if bool_decide (Token.address t ∈ seen) then unique seen l'
      else t :: unique ({[Token.address t]} ∪ seen) l'
  end.

Definition candidate (t : Token.info) : bool :=
  Qle_bool 5000 (Token.liquidity t)
  && Qltb 10000 (Token.mcap t)
  && Qltb (Token.mcap t) 50000000
  && Qltb 1000 (Token.volume24h t)
  && Qltb 5 (Token.buys24h t).

(** [INSERT INTO scanned_tokens ... ON CONFLICT(address) DO UPDATE SET ...] *)
Definition upsert_scanned (w : World) (token : Token.info) (result : Scan.reply)
    (narrative : string) (d : DB) : DB :=
  let fresh :=
    {| Scan.symbol := Token.symbol token;
       Scan.row_score := Scan.score result;
       Scan.row_signal := Scan.signal result;
       Scan.row_reasoning := Scan.reasoning result;
       Scan.narrative := narrative;
       Scan.mcap := Token.mcap token;
       Scan.liquidity := Token.liquidity token;
       Scan.first_seen := now w;
       Scan.last_seen := now w;
       Scan.times_seen := 1 |} in
  let row :=
    match scanned_tokens d !! Token.address token with
    | None => fresh
    | Some old =>
        {| Scan.symbol := Scan.symbol old;
           Scan.row_score := Scan.score result;
           Scan.row_signal := Scan.signal result;
           Scan.row_reasoning := Scan.reasoning result;
           Scan.narrative := narrative;
           Scan.mcap := Token.mcap token;
           Scan.liquidity := Token.liquidity token;
           Scan.first_seen := Scan.first_seen old;
           Scan.last_seen := now w;
           Scan.times_seen := (Scan.times_seen old + 1)%Z |}
    end in
  set_scanned_tokens (<[Token.address token := row]> (scanned_tokens d)) d.

(** The [try] block in the loop of [runCoinHunter]; the result tells whether
    the token counts as scored. *)
Definition scoreToken (w : World) (token : Token.info) : M bool :=
  try_catch
    (result ← await (llmScore w);
     (* Get narrative context *)
     narrative ← gets (λ s, narrative_of (db s) token);
     (* Upsert scanned token *)
     modify_db (upsert_scanned w token result narrative);;
     modify (λ s, set_tokenCache
       (<[Token.address token :=
            {| cached_token := token; cached_score := Scan.score result;
               cached_signal := Scan.signal result;
               cached_narrative := narrative |}]> (tokenCache s)) s);;
     log w "hunter"
       (if Qle_bool 85 (Scan.score result) then Log.success
        else if Qle_bool 70 (Scan.score result) then Log.warn
        else Log.info)
       (Log.Scored (Token.symbol token) result);;
     (* AUTO-BUY if score is high enough *)
     cfg ← gets config;
     wal ← gets wallet;
     (if String.eqb (Scan.signal result) "BUY"
         && Qle_bool (minScoreToTrade cfg) (Scan.score result)
         && bool_decide (is_Some wal)
      then executeTrade w token (Scan.score result) narrative
      else ret tt);;
     ret true)%M
    (λ e,
       log w "hunter" Log.error
         (Log.ScoreFailed (Token.symbol token) (Js.message e));;
       ret false)%M.

(** The scoring loop of [runCoinHunter]: it stops when the swarm is no longer
    running, skips a token scored within the last five minutes and returns
    the number of tokens scored. *)
Fixpoint huntLoop (each : string → World) (tokens : list Token.info)
    (scored : nat) : M nat :=
  match tokens with
  | [] => ret scored
  | token :: rest =>
      (r ← gets running;
       if negb r then ret scored
       else
         let w := each (Token.address token) in
         (* Check if already scored recently *)
         existing ← gets (λ s, scanned_tokens (db s) !! Token.address token);
         match existing with
         | Some row =>
             if bool_decide (now w - Scan.last_seen row < 300000)%Z
             then huntLoop each rest scored
             else
               ok ← scoreToken w token;
               huntLoop each rest (if ok then S scored else scored)
         | None =>
             ok ← scoreToken w token;
             huntLoop each rest (if ok then S scored else scored)
         end)%M
  end.

(** [runCoinHunter]; [w] answers the two market requests and [each a] the
    requests made while the token with address [a] is processed. *)
Definition runCoinHunter (w : World) (each : string → World) : M unit :=
  (r ← gets running;
   if negb r then ret tt
   else
     setAgentStatus w "hunter" Agent.running EmptyString;;
     try_catch
       (log w "hunter" Log.info Log.Hunting;;
        (* Get trending + new *)
        let trending := getTrendingTokens w in
        let newPairs := getNewPairs (latestProfiles w) 5000 in
        let allTokens := (trending ++ newPairs)%list in
        (* Deduplicate *)
        let uniq := unique ∅ allTokens in
        (* Filter basics *)
        let filtered := List.filter candidate uniq in
        log w "hunter" Log.info (Log.CandidatesFound (length filtered));;
        (* Score each with LLM *)
        scored ← huntLoop each (take 15 filtered) 0;
        setAgentStatus w "hunter" Agent.running
          ("Scored " ++ pretty scored ++ " tokens"))
       (λ e,
          log w "hunter" Log.error (Log.CoinHunterFailed (Js.message e));;
          setAgentStatus w "hunter" Agent.error (Js.message e)))%M.

(** *** Construction, start and stop *)

Definition agentDefs : list (string * string) :=
  [("narrative", "Narrative Scanner");
   ("hunter", "Coin Hunter");
   ("whale", "Whale Tracker");
   ("risk", "Risk Manager");
   ("executor", "Executor");
   ("backtest", "Backtester")].

(** [new Swarm(config, onLog)]; [stored] is what the database file holds when
    it is opened. *)
Definition new_Swarm (cfg : SwarmConfig) (stored : DB) : Swarm :=
  {| config := cfg;
     db := stored;
     connection := None;
     wallet := None;
     llmConfig := None;
     running := false;
     agents :=
       fold_left
         (λ m a, <[fst a := {| Agent.id := fst a; Agent.name := snd a;
                               Agent.status := Agent.idle;
                               Agent.lastRun := None;
                               Agent.lastResult := None |}]> m)
         agentDefs ∅;
     intervals := [];
     tokenCache := ∅;
     emitted := [] |}.

Definition deploy (w : World) (id name : string) : M unit :=
  (setAgentStatus w id Agent.running EmptyString;;
   log w id Log.success (Log.Deployed name))%M.

(** The wallet block of [start]: [true] when [start] is to go on. *)
Definition loadWallet (w : World) (cfg : SwarmConfig) : M bool :=
  if Js.falsy (walletKey cfg)
  then (log w "orchestrator" Log.warn Log.ScanOnlyMode;; ret true)%M
  else
    try_catch
      (key ← await (createWallet w);
       modify (set_wallet (Some key));;
       bal ← await (getBalance w);
       log w "orchestrator" Log.success (Log.WalletLoaded key bal);;
       ret true)%M
      (λ e,
         log w "orchestrator" Log.error (Log.WalletError (Js.message e));;
         ret false)%M.

(** The four [setInterval] calls of [start]. *)
Definition schedule (cfg : SwarmConfig) : list Timer :=
  let scanInterval := Js.num_or (scanIntervalMs cfg) 60000 in
  [ {| task := NarrativeScan; delay := (scanInterval * 2)%Q |};
    {| task := HunterScan; delay := scanInterval |};
    {| task := RiskCheck; delay := 30000 |};
    {| task := PriceUpdate; delay := 20000 |} ].

(** The block of [start] that sets the running flag and deploys the agents. *)
Definition deployAll (w : World) : M unit :=
  (modify (set_running true);;
   (* Deploy agents with staggered starts *)
   deploy w "narrative" "Narrative Scanner";;
   deploy w "hunter" "Coin Hunter";;
   deploy w "whale" "Whale Tracker";;
   deploy w "risk" "Risk Manager";;
   deploy w "executor" "Executor";;
   deploy w "backtest" "Backtester";;
   log w "orchestrator" Log.success Log.AllAgentsOnline)%M.

(** [start]; [w] answers for the connection and the wallet, [wn] the initial
    narrative scan, [wh] and [each] the initial hunter scan. *)
Definition start (w wn wh : World) (each : string → World) : M unit :=
  (r ← gets running;
   if r then ret tt
   else
     log w "orchestrator" Log.cmd Log.Initializing;;
     cfg ← gets config;
     (* Validate config *)
     if Js.falsy (openrouterKey cfg)
     then log w "orchestrator" Log.error Log.MissingOpenRouterKey
     else if Js.falsy (rpcUrl cfg)
     then log w "orchestrator" Log.error Log.MissingRpcUrl
     else
       modify (set_llmConfig
         (Some {| apiKey := openrouterKey cfg;
                  llm_model := Js.str_or (model cfg) "deepseek/deepseek-chat" |}));;
       await (getConnection w (rpcUrl cfg));;
       modify (set_connection (Some (rpcUrl cfg)));;
       loaded ← loadWallet w cfg;
       if negb loaded then ret tt
       else
         deployAll w;;
         (* Run initial scan *)
         runNarrativeScanner wn;;
         runCoinHunter wh each;;
         (* Schedule recurring agent loops *)
         modify (λ s, set_intervals (intervals s ++ schedule cfg) s))%M.

(** [stop]: every agent goes back to idle. *)
Definition recall (w : World) (a : Agent.t) : Agent.t :=
  {| Agent.id := Agent.id a; Agent.name := Agent.name a;
     Agent.status := Agent.idle; Agent.lastRun := Some (now w);
     Agent.lastResult := Agent.lastResult a |}.

Definition stop (w : World) : M unit :=
  (modify (set_running false);;
   modify (set_intervals []);;
   modify (λ s, set_agents (recall w <$> agents s) s);;
   log w "orchestrator" Log.warn Log.AllAgentsRecalled)%M.

(** ** Operations on a swarm and the states they reach *)

Inductive Op :=
| OpStart (w wn wh : World) (each : string → World)
| OpStop (w : World)
| OpNarrativeScan (w : World)
| OpHunterScan (w : World) (each : string → World)
| OpRiskCheck (w : World) (each : nat → World)
| OpPriceUpdate (each : nat → World)
| OpExecuteTrade (w : World) (token : Token.info) (score : Q)
    (narrative : string)
| OpClosePosition (w : World) (positionId : nat) (reason : Status)
| OpManualBuy (w : World) (tokenAddress : string) (solAmount : Q)
| OpManualSell (w : World) (positionId : nat).

(** The state after an operation has run to its end.  An exception that
    leaves a timer callback is dropped; what was written before it stays. *)
Definition apply (op : Op) (s : Swarm) : Swarm :=
  match op with
  | OpStart w wn wh each => exec (start w wn wh each) s
  | OpStop w => exec (stop w) s
  | OpNarrativeScan w => exec (runNarrativeScanner w) s
  | OpHunterScan w each => exec (runCoinHunter w each) s
  | OpRiskCheck w each => exec (runRiskManager w each) s
  | OpPriceUpdate each => exec (runPriceUpdater each) s
  | OpExecuteTrade w token score narrative =>
      exec (executeTrade w token score narrative) s
  | OpClosePosition w positionId reason =>
      exec (closePosition w positionId reason) s
  | OpManualBuy w tokenAddress solAmount =>
      exec (manualBuy w tokenAddress solAmount) s
  | OpManualSell w positionId => exec (manualSell w positionId) s
  end.

Definition run (ops : list Op) (s : Swarm) : Swarm :=
  fold_left (λ s op, apply op s) ops s.

Definition is_manual_buy (op : Op) : bool :=
  match op with OpManualBuy _ _ _ => true | _ => false end.

(** ** Invariants of the [positions] table *)

(** Row ids are distinct and none exceeds the sequence counter. *)
Definition db_wf (d : DB) : Prop :=
  NoDup (Pos.id <$> positions d)
  ∧ Forall (λ r, (Pos.id r ≤ positions_seq d)%nat) (positions d).

Definition decimals_6 (d : DB) : Prop :=
  Forall (λ r, Pos.token_decimals r = 6%Z) (positions d).

(** The OPEN rows of one token. *)
Definition open_of (tokenAddress : string) (d : DB) : list Pos.row :=
  List.filter (holds tokenAddress) (positions d).

Definition one_open_per_token (d : DB) : Prop :=
  ∀ tokenAddress, (length (open_of tokenAddress d) ≤ 1)%nat.


(** The single writes that the methods make to the database.  [manual] tells
    whether the write of [manualBuy] to [positions] is among them. *)
Inductive db_move (cfg : SwarmConfig) (manual : bool) : DB → DB → Prop :=
| move_trade d t :
    db_move cfg manual d (insert_trade t d)
| move_narratives d l :
    db_move cfg manual d (set_narratives l d)
| move_scanned d m :
    db_move cfg manual d (set_scanned_tokens m d)
| move_price d positionId price pnl :
    db_move cfg manual d
      (update_position positionId (Pos.set_price price pnl) d)
| move_close d positionId pos reason tx time price pnl :
    position_by_id positionId d = Some pos →
    Pos.is_open pos = true →
    db_move cfg manual d
      (update_position positionId (Pos.set_closed reason tx time price pnl) d)
| move_buy d tokenAddress symbol price size result time score narrative :
    Qle_bool (maxConcurrentTrades cfg) (inject_Z (Z.of_nat (count_open d)))
      = false →
    open_position_of tokenAddress d = None →
    db_move cfg manual d
      (insert_position
         (opened_position tokenAddress symbol price size result 6 time
                          score narrative) d)
| move_manual_buy d tokenAddress symbol price size result time :
    manual = true →
    db_move cfg manual d
      (insert_position
         (opened_position tokenAddress symbol price size result 6 time
                          0 "Manual") d).

(** [s'] comes after [s]: same configuration, and the database of [s'] is the
    one of [s] after some writes. *)
Definition follows (manual : bool) (s s' : Swarm) : Prop :=
  config s' = config s
  ∧ rtc (db_move (config s) manual) (db s) (db s').

(** [s'] comes after [s] and, besides, the wallet, the running flag and the
    timers are those of [s]. *)
Definition quiet (manual : bool) (s s' : Swarm) : Prop :=
  config s' = config s
  ∧ wallet s' = wallet s
  ∧ running s' = running s
  ∧ intervals s' = intervals s
  ∧ rtc (db_move (config s) manual) (db s) (db s').

(** Every run of [m] ends in a state related to the one it starts in. *)
Definition keeps (R : Swarm → Swarm → Prop) {A} (m : M A) : Prop :=
  ∀ s, R s (exec m s).

(** [m] does not throw. *)
Definition returns {A} (m : M A) : Prop :=
  ∀ s, ∃ a, snd (m s) = Js.Normal a.

(** [s'] is [s] as far as the agents, the timers, the running flag and the
    database go: nothing was deployed, scheduled or written. *)
Definition untouched (s s' : Swarm) : Prop :=
  agents s' = agents s
  ∧ intervals s' = intervals s
  ∧ running s' = running s
  ∧ db s' = db s.

(** ** Auxiliary notions of the proofs *)

(** Agent [id] is marked running. *)
Definition marked (s : Swarm) (id : string) : Prop :=
  Agent.status <$> agents s !! id = Some Agent.running.

(** The state in which [start] reaches its wallet block. *)
Definition validated (w : World) (s : Swarm) : Swarm :=
  set_connection (Some (rpcUrl (config s)))
    (set_llmConfig
       (Some {| apiKey := openrouterKey (config s);
                llm_model :=
                  Js.str_or (model (config s)) "deepseek/deepseek-chat" |})
       (exec (log w "orchestrator" Log.cmd Log.Initializing) s)).


(** [s'] has the database of [s]. *)
Definition same_db (s s' : Swarm) : Prop := db s' = db s.

(** The row that a risk tick adds to [trade_history] when it sells the
    position [pos]. *)
Definition risk_sale (each : nat → World) (cfg : SwarmConfig) (pos : Pos.row)
  : Ledger.row :=
  sell_record pos
    (executeSell (jupiter (each (Pos.id pos))) (Pos.token_address pos)
       (Pos.token_amount pos) (Pos.token_decimals pos) (slippageBps cfg)
       (now (each (Pos.id pos)))).

(** The data of [token] under the address [address]. *)
Definition filed_under (address : string) (token : Token.info) : Token.info :=
  {| Token.address := address; Token.symbol := Token.symbol token;
     Token.name := Token.name token; Token.mcap := Token.mcap token;
     Token.price := Token.price token; Token.volume24h := Token.volume24h token;
     Token.liquidity := Token.liquidity token;
     Token.buys24h := Token.buys24h token |}.

(** ** Sample data *)

Module Sample.

Definition cfg : SwarmConfig :=
  {| openrouterKey := "sk-or"; model := EmptyString; rpcUrl := "https://rpc";
     walletKey := "key"; maxPositionSol := 5 # 100; stopLossPct := 30;
     takeProfitPct := 100; maxConcurrentTrades := 1; minScoreToTrade := 80;
     scanIntervalMs := 60000; slippageBps := 500 |}.

(** The same configuration with an endpoint that has no scheme. *)
Definition no_scheme : SwarmConfig :=
  {| openrouterKey := "sk-or"; model := EmptyString; rpcUrl := "rpc";
     walletKey := "key"; maxPositionSol := 5 # 100; stopLossPct := 30;
     takeProfitPct := 100; maxConcurrentTrades := 1; minScoreToTrade := 80;
     scanIntervalMs := 60000; slippageBps := 500 |}.

(** The same configuration with room for three positions. *)
Definition roomy : SwarmConfig :=
  {| openrouterKey := "sk-or"; model := EmptyString; rpcUrl := "https://rpc";
     walletKey := "key"; maxPositionSol := 5 # 100; stopLossPct := 30;
     takeProfitPct := 100; maxConcurrentTrades := 3; minScoreToTrade := 80;
     scanIntervalMs := 60000; slippageBps := 500 |}.

Definition token (a : string) : Token.info :=
  {| Token.address := a; Token.symbol := "SYM"; Token.name := "Name";
     Token.mcap := 20000; Token.price := 2; Token.volume24h := 5000;
     Token.liquidity := 9000; Token.buys24h := 10 |}.

Definition filled : Swap.filled :=
  {| Swap.outAmount := 2000000; Swap.outputDecimals := None;
     Swap.signature := "sig" |}.

Definition down : Js.Error := {| Js.name := "Error"; Js.message := "down" |}.

(** The check that the Solana client makes of an endpoint. *)
Definition connect (url : string) : Js.Completion unit :=
  if String.prefix "http:" url || String.prefix "https:" url
  then Js.Normal tt
  else Js.Throw (Js.TypeError "Endpoint URL must start with http: or https:").

(** The error of an INSERT that leaves a NOT NULL column without a value. *)
Definition refused : Js.Error :=
  {| Js.name := "SQLiteError"; Js.message := "NOT NULL constraint failed" |}.

(** A world with one SOL in the wallet, an empty market, a swap gateway that
    fills every request and a reasoning service that is down. *)
Definition calm : World :=
  {| now := 1000;
     getBalance := Js.Normal 1000000000%Z;
     jupiter := λ _, Js.Normal filled;
     getTokenByAddress := λ a, Some (token a);
     getTrendingTokens := [];
     latestProfiles := [];
     llmScore := Js.Throw down;
     llmNarrativeAnalysis := Js.Normal LLM.narratives_sentinel;
     createWallet := Js.Normal "pubkey";
     getConnection := connect;
     storeNarrative := λ _, Js.Throw refused;
     exceeds := λ _ _, false |}.

(** The same world with a market whose first pair for every address is
    the pair of token Z. *)
Definition listing : World :=
  {| now := 1000;
     getBalance := Js.Normal 1000000000%Z;
     jupiter := λ _, Js.Normal filled;
     getTokenByAddress := λ _, Some (token "Z");
     getTrendingTokens := [];
     latestProfiles := [];
     llmScore := Js.Throw down;
     llmNarrativeAnalysis := Js.Normal LLM.narratives_sentinel;
     createWallet := Js.Normal "pubkey";
     getConnection := connect;
     storeNarrative := λ _, Js.Throw refused;
     exceeds := λ _ _, false |}.

(** The same world with a market that has no price for any token, which
    reads as a price of zero. *)
Definition unpriced : World :=
  {| now := 1000;
     getBalance := Js.Normal 1000000000%Z;
     jupiter := λ _, Js.Normal filled;
     getTokenByAddress := λ a,
       Some {| Token.address := a; Token.symbol := "SYM"; Token.name := "Name";
               Token.mcap := 20000; Token.price := 0; Token.volume24h := 5000;
               Token.liquidity := 9000; Token.buys24h := 10 |};
     getTrendingTokens := [];
     latestProfiles := [];
     llmScore := Js.Throw down;
     llmNarrativeAnalysis := Js.Normal LLM.narratives_sentinel;
     createWallet := Js.Normal "pubkey";
     getConnection := connect;
     storeNarrative := λ _, Js.Throw refused;
     exceeds := λ _ _, false |}.

(** A world in which token A has moved to a price of 5 while its liquidity
    has dropped to 1000. *)
Definition soaring : World :=
  {| now := 2000;
     getBalance := Js.Normal 1000000000%Z;
     jupiter := λ _, Js.Normal filled;
     getTokenByAddress := λ a,
       Some {| Token.address := a; Token.symbol := "SYM"; Token.name := "Name";
               Token.mcap := 20000; Token.price := 5; Token.volume24h := 5000;
               Token.liquidity := 1000; Token.buys24h := 10 |};
     getTrendingTokens := [];
     latestProfiles := [];
     llmScore := Js.Throw down;
     llmNarrativeAnalysis := Js.Normal LLM.narratives_sentinel;
     createWallet := Js.Normal "pubkey";
     getConnection := connect;
     storeNarrative := λ _, Js.Throw refused;
     exceeds := λ _ _, false |}.

(** The same world with a swap gateway that rejects every request. *)
Definition rejecting : World :=
  {| now := 1000;
     getBalance := Js.Normal 1000000000%Z;
     jupiter := λ _, Js.Throw down;
     getTokenByAddress := λ a, Some (token a);
     getTrendingTokens := [];
     latestProfiles := [];
     llmScore := Js.Throw down;
     llmNarrativeAnalysis := Js.Normal LLM.narratives_sentinel;
     createWallet := Js.Normal "pubkey";
     getConnection := connect;
     storeNarrative := λ _, Js.Throw refused;
     exceeds := λ _ _, false |}.

(** The same world where the wallet key cannot be decoded. *)
Definition bad_key : World :=
  {| now := 1000;
     getBalance := Js.Normal 1000000000%Z;
     jupiter := λ _, Js.Normal filled;
     getTokenByAddress := λ a, Some (token a);
     getTrendingTokens := [];
     latestProfiles := [];
     llmScore := Js.Throw down;
     llmNarrativeAnalysis := Js.Normal LLM.narratives_sentinel;
     createWallet :=
       Js.Throw {| Js.name := "Error"; Js.message := "Non-base58 character" |};
     getConnection := connect;
     storeNarrative := λ _, Js.Throw refused;
     exceeds := λ _ _, false |}.

(** A started swarm on an empty database. *)
Definition started : Swarm :=
  apply (OpStart calm calm calm (λ _, calm)) (new_Swarm cfg empty_db).

Definition started_roomy : Swarm :=
  apply (OpStart calm calm calm (λ _, calm)) (new_Swarm roomy empty_db).

(** Two positions bought by hand, in tokens A and B. *)
Definition two_open : Swarm :=
  run [OpStart calm calm calm (λ _, calm);
       OpManualBuy calm "A" (1 # 100); OpManualBuy calm "B" (1 # 100)]
      (new_Swarm roomy empty_db).

(** A world in which token A has moved to a price of 3 and the data of every
    other token cannot be fetched. *)
Definition moved : World :=
  {| now := 2000;
     getBalance := Js.Normal 1000000000%Z;
     jupiter := λ _, Js.Normal filled;
     getTokenByAddress := λ a,
       if String.eqb a "A"
       then Some {| Token.address := a; Token.symbol := "SYM";
                    Token.name := "Name"; Token.mcap := 20000;
                    Token.price := 3; Token.volume24h := 5000;
                    Token.liquidity := 9000; Token.buys24h := 10 |}
       else None;
     getTrendingTokens := [];
     latestProfiles := [];
     llmScore := Js.Throw down;
     llmNarrativeAnalysis := Js.Normal LLM.narratives_sentinel;
     createWallet := Js.Normal "pubkey";
     getConnection := connect;
     storeNarrative := λ _, Js.Throw refused;
     exceeds := λ _ _, false |}.

(** A configuration on the boundary: stop loss and take profit both at 0. *)
Definition edge : SwarmConfig :=
  {| openrouterKey := "sk-or"; model := EmptyString; rpcUrl := "https://rpc";
     walletKey := "key"; maxPositionSol := 5 # 100; stopLossPct := 0;
     takeProfitPct := 0; maxConcurrentTrades := 3; minScoreToTrade := 80;
     scanIntervalMs := 60000; slippageBps := 500 |}.

(** The position that a manual buy of token A for 0.01 SOL opens first. *)
Definition bought : Pos.row :=
  opened_position "A" "SYM" 2 (1 # 100)
    (executeBuy (jupiter calm) "A" (1 # 100) 500 1000) 6 1000 0 "Manual" 1.

(** A started swarm with the boundary configuration and that one position. *)
Definition on_edge : Swarm :=
  run [OpStart calm calm calm (λ _, calm); OpManualBuy calm "A" (1 # 100)]
      (new_Swarm edge empty_db).

End Sample.

(** * The rest of the program *)

(** ** Further notions of the proofs *)

(** Row [r'] is row [r] up to the two columns that a price tick writes. *)
Definition same_but_price (r r' : Pos.row) : Prop :=
  Pos.id r' = Pos.id r
  ∧ Pos.token_address r' = Pos.token_address r
  ∧ Pos.symbol r' = Pos.symbol r
  ∧ Pos.entry_price r' = Pos.entry_price r
  ∧ Pos.entry_sol r' = Pos.entry_sol r
  ∧ Pos.token_amount r' = Pos.token_amount r
  ∧ Pos.token_decimals r' = Pos.token_decimals r
  ∧ Pos.status r' = Pos.status r
  ∧ Pos.entry_tx r' = Pos.entry_tx r
  ∧ Pos.exit_tx r' = Pos.exit_tx r
  ∧ Pos.entry_time r' = Pos.entry_time r
  ∧ Pos.exit_time r' = Pos.exit_time r
  ∧ Pos.score r' = Pos.score r
  ∧ Pos.narrative r' = Pos.narrative r.

Definition backtick : Ascii.ascii := Ascii.ascii_of_nat 96.

(** The number of backticks that [s] starts with. *)
Fixpoint ticks (s : string) : nat :=
  match s with
  | String c s' => if Ascii.eqb c backtick then S (ticks s') else 0%nat
  | EmptyString => 0%nat
  end.

(** Row [r] is a position that the hunter opened for [token] under [cfg]. *)
Definition hunted (cfg : SwarmConfig) (token : Token.info) (r : Pos.row)
  : Prop :=
  Pos.status r = OPEN
  ∧ Pos.token_address r = Token.address token
  ∧ Pos.symbol r = Token.symbol token
  ∧ Pos.entry_price r = Token.price token
  ∧ (minScoreToTrade cfg <= Pos.score r)%Q.

(** In [s'] the books are those of [s] whenever [s] has no wallet and no
    wallet key to load one from: no wallet, the same rows in [trade_history],
    and the same positions up to their price columns. *)
Definition scan_only (s s' : Swarm) : Prop :=
  config s' = config s
  ∧ (Js.falsy (walletKey (config s)) = true →
     wallet s = None →
     wallet s' = None
     ∧ trade_history (db s') = trade_history (db s)
     ∧ Forall2 same_but_price (positions (db s)) (positions (db s'))).

(** The INSERT of the narrative scanner for the entry [n] of a reply stores
    [row]. *)
Definition inserted (w : World) (n : Json.value) (row : Narr.row) : Prop :=
  n ≠ Json.Null
  ∧ match Narr.typed n with
    | Some item => row = narrative_row w item
    | None => storeNarrative w n = Js.Normal row
    end.

(** [s'] has the tables of [s] other than [narratives]. *)
Definition other_tables (s s' : Swarm) : Prop :=
  positions (db s') = positions (db s)
  ∧ trade_history (db s') = trade_history (db s)
  ∧ scanned_tokens (db s') = scanned_tokens (db s).

(** Agent [id] of [s'] is the agent of [s] in the state [status]. *)
Definition agent_went (id : string) (status : Agent.state) (s s' : Swarm)
  : Prop :=
  Agent.status <$> agents s' !! id = (λ _, status) <$> agents s !! id.

(** ** Further sample data *)

Module Demo.

(** A position in token A bought by hand and sold by hand. *)
Definition sold : Swarm :=
  run [OpStart Sample.calm Sample.calm Sample.calm (λ _, Sample.calm);
       OpManualBuy Sample.calm "A" (1 # 100);
       OpManualSell Sample.calm 1]
      (new_Swarm Sample.roomy empty_db).

(** The row of that position after the sale. *)
Definition sold_row : Pos.row :=
  let result :=
    executeSell (jupiter Sample.calm) "A" (Pos.token_amount Sample.bought) 6
                500 1000 in
  Pos.set_closed CLOSED "sig" 1000
    (Js.onum_or (Trade.price result) (Pos.current_price Sample.bought))
    (Pos.pnl_pct Sample.bought) Sample.bought.

(** A configuration without a wallet key. *)
Definition no_key : SwarmConfig :=
  {| openrouterKey := "sk-or"; model := EmptyString; rpcUrl := "https://rpc";
     walletKey := EmptyString; maxPositionSol := 5 # 100; stopLossPct := 30;
     takeProfitPct := 100; maxConcurrentTrades := 3; minScoreToTrade := 80;
     scanIntervalMs := 60000; slippageBps := 500 |}.

(** What the reasoning service makes of the market. *)
Definition themes : list Narr.item :=
  [ {| Narr.name := "Dog coins"; Narr.score := 85; Narr.tokens := [Json.Str "$SYM"];
       Narr.trend := "rising" |};
    {| Narr.name := "AI agents"; Narr.score := 60; Narr.tokens := [];
       Narr.trend := "stable" |} ].

(** A world with two tokens on the market, A trending and B newly listed,
    and a reasoning service that answers: it rates every token a BUY at 90. *)
Definition busy : World :=
  {| now := 3000;
     getBalance := Js.Normal 1000000000%Z;
     jupiter := λ _, Js.Normal Sample.filled;
     getTokenByAddress := λ a, Some (Sample.token a);
     getTrendingTokens := [Sample.token "A"];
     latestProfiles := [Sample.token "B"];
     llmScore :=
       Js.Normal {| Scan.score := 90; Scan.reasoning := "momentum";
                    Scan.signal := "BUY" |};
     llmNarrativeAnalysis :=
       Js.Normal (Json.Obj [("narratives", Json.Arr (Narr.entry <$> themes))]);
     createWallet := Js.Normal "pubkey";
     getConnection := Sample.connect;
     storeNarrative := λ _, Js.Throw Sample.refused;
     exceeds := λ _ _, false |}.

(** The same market with a reasoning service whose reply parses to an object
    without narratives. *)
Definition garbled : World :=
  {| now := 3500;
     getBalance := Js.Normal 1000000000%Z;
     jupiter := λ _, Js.Normal Sample.filled;
     getTokenByAddress := λ a, Some (Sample.token a);
     getTrendingTokens := [Sample.token "A"];
     latestProfiles := [Sample.token "B"];
     llmScore := Js.Throw Sample.down;
     llmNarrativeAnalysis := Js.Normal (Json.Obj []);
     createWallet := Js.Normal "pubkey";
     getConnection := Sample.connect;
     storeNarrative := λ _, Js.Throw Sample.refused;
     exceeds := λ _ _, false |}.

(** An entry of a reply that has no tokens, and the row that is stored for
    it, with NULL in the column [tokens]. *)
Definition bare : Json.value :=
  Json.Obj [("name", Json.Str "Cat coins"); ("score", Json.Num 70);
            ("trend", Json.Str "rising")].

Definition bare_row : Narr.row :=
  {| Narr.row_name := "Cat coins"; Narr.row_score := 70;
     Narr.row_trend := Some "rising"; Narr.row_tokens := None;
     Narr.updated_at := 3600 |}.

(** The same market with a reply whose first entry has no tokens. *)
Definition sloppy : World :=
  {| now := 3600;
     getBalance := Js.Normal 1000000000%Z;
     jupiter := λ _, Js.Normal Sample.filled;
     getTokenByAddress := λ a, Some (Sample.token a);
     getTrendingTokens := [Sample.token "A"];
     latestProfiles := [Sample.token "B"];
     llmScore := Js.Throw Sample.down;
     llmNarrativeAnalysis :=
       Js.Normal
         (Json.Obj [("narratives", Json.Arr (bare :: (Narr.entry <$> themes)))]);
     createWallet := Js.Normal "pubkey";
     getConnection := Sample.connect;
     storeNarrative := λ _, Js.Normal bare_row;
     exceeds := λ _ _, false |}.

(** A world in which the liquidity of token A has dropped to 1000 and the
    data of every other token cannot be fetched. *)
Definition thin : World :=
  {| now := 4000;
     getBalance := Js.Normal 1000000000%Z;
     jupiter := λ _, Js.Normal Sample.filled;
     getTokenByAddress := λ a,
       if String.eqb a "A"
       then Some {| Token.address := a; Token.symbol := "SYM";
                    Token.name := "Name"; Token.mcap := 20000;
                    Token.price := 2; Token.volume24h := 5000;
                    Token.liquidity := 1000; Token.buys24h := 10 |}
       else None;
     getTrendingTokens := [];
     latestProfiles := [];
     llmScore := Js.Throw Sample.down;
     llmNarrativeAnalysis := Js.Normal LLM.narratives_sentinel;
     createWallet := Js.Normal "pubkey";
     getConnection := Sample.connect;
     storeNarrative := λ _, Js.Throw Sample.refused;
     exceeds := λ _ _, false |}.

(** A world in which every token has lost its price and most of its
    liquidity. *)
Definition drained : World :=
  {| now := 4500;
     getBalance := Js.Normal 1000000000%Z;
     jupiter := λ _, Js.Normal Sample.filled;
     getTokenByAddress := λ a,
       Some {| Token.address := a; Token.symbol := "SYM"; Token.name := "Name";
               Token.mcap := 20000; Token.price := 0; Token.volume24h := 5000;
               Token.liquidity := 1000; Token.buys24h := 10 |};
     getTrendingTokens := [];
     latestProfiles := [];
     llmScore := Js.Throw Sample.down;
     llmNarrativeAnalysis := Js.Normal LLM.narratives_sentinel;
     createWallet := Js.Normal "pubkey";
     getConnection := Sample.connect;
     storeNarrative := λ _, Js.Throw Sample.refused;
     exceeds := λ _ _, false |}.

(** A started swarm after one hunter scan of that market. *)
Definition hunted_once : Swarm :=
  run [OpStart Sample.calm Sample.calm Sample.calm (λ _, Sample.calm);
       OpHunterScan busy (λ _, busy)]
      (new_Swarm Sample.roomy empty_db).

(** The row that the scan wrote for either token. *)
Definition scored_row : Scan.row :=
  {| Scan.symbol := "SYM"; Scan.row_score := 90; Scan.row_signal := "BUY";
     Scan.row_reasoning := "momentum"; Scan.narrative := "Unknown";
     Scan.mcap := 20000; Scan.liquidity := 9000; Scan.first_seen := 3000;
     Scan.last_seen := 3000; Scan.times_seen := 1 |}.

End Demo.

(** ** trading.ts: formatting *)

(** [formatAge(createdAt)], with [now] for what [Date.now()] returns.  The
    three numbers are integers, which a template prints in decimal. *)
Definition formatAge (now : Z) (createdAt : Q) : string :=
  let diff := (inject_Z now - createdAt)%Q in
  let mins := Qfloor (diff / 60000) in
  if (mins <? 60)%Z then pretty mins +:+ "m"
  else
    let hours := Qfloor (inject_Z mins / 60) in
    if (hours <? 24)%Z then pretty hours +:+ "h"
    else
      let days := Qfloor (inject_Z hours / 24) in
      pretty days +:+ "d".

Fixpoint zeros (k : nat) : string :=
  match k with
  | O => EmptyString
  | S k' => "0" +:+ zeros k'
  end.

Section formatting.

(** A number of 10^21 or more is printed in exponent notation, which is left
    open. *)
Variable exponent_notation : Q → string.

(** [x.toFixed(digits)]: the decimal notation of [n / 10^digits] for the
    integer [n] that is nearest to the size of [x] times [10^digits], the
    larger one when two are as near, behind a minus sign when [x] is
    negative. *)
Definition toFixed (digits : nat) (x : Q) : string :=
  let size := if Qltb x 0 then (- x)%Q else x in
  let m :=
    if Qle_bool (pow10 21) size then exponent_notation size
    else
      let scale := (10 ^ Z.of_nat digits)%Z in
      let n := Qfloor (size * inject_Z scale + (1 # 2)) in
      match digits with
      | O => pretty n
      | S _ =>
          let b := pretty (n `mod` scale)%Z in
          pretty (n `div` scale)%Z +:+ "." +:+
          zeros (digits - String.length b) +:+ b
      end in
  if Qltb x 0 then "-" +:+ m else m.

(** [formatMcap(n)]; a division returns the double nearest to the
    quotient. *)
Definition formatMcap (n : Q) : string :=
  if Qle_bool 1000000000 n
  then toFixed 1 (Js.double (n / 1000000000)) +:+ "B"
  else if Qle_bool 1000000 n
  then toFixed 1 (Js.double (n / 1000000)) +:+ "M"
  else if Qle_bool 1000 n
  then toFixed 1 (Js.double (n / 1000)) +:+ "K"
  else toFixed 0 n.

End formatting.

(** ** swarm.ts: the methods that the server reads through *)

(** [ORDER BY key DESC] on rows listed in the order of their row ids.  SQL
    leaves the order of rows with equal keys open; here they keep the order of
    their row ids. *)
Fixpoint insert_desc {A} (key : A → Q) (r : A) (l : list A) : list A :=
  match l with
  | [] => [r]
  | x :: l' =>
      if Qltb (key x) (key r) then r :: l else x :: insert_desc key r l'
  end.

Definition order_desc {A} (key : A → Q) (l : list A) : list A :=
  fold_left (λ sorted r, insert_desc key r sorted) l [].

(** [l] is in descending order of [key]. *)
Fixpoint descending {A} (key : A → Q) (l : list A) : Prop :=
  match l with
  | [] => True
  | x :: l' => Forall (λ y, key y <= key x)%Q l' ∧ descending key l'
  end.

(** [top] are the first rows of a table [rows] in descending order of [key]:
    at most [limit] of them, with the other rows of the table, none of which
    has a larger key, left out. *)
Definition first_rows {A} (limit : nat) (key : A → Q) (rows top : list A)
  : Prop :=
  (length top ≤ limit)%nat
  ∧ (length top = limit ∨ length top = length rows)
  ∧ descending key top
  ∧ ∃ rest,
      (top ++ rest)%list ≡ₚ rows
      ∧ ∀ x y, x ∈ top → y ∈ rest → (key y <= key x)%Q.

Module Position.

(** [Position], the shape in which [getPositions] hands out a row. *)
Record t := {
  id : nat;
  tokenAddress : string;
  symbol : string;
  entryPrice : Q;
  entrySol : Q;
  tokenAmount : Q;
  tokenDecimals : Z;
  currentPrice : Q;
  pnlPct : Pnl.t;
  status : Status;
  entryTx : string;
  exitTx : option string;
  entryTime : Z;
  exitTime : option Z;
  score : Q;
  narrative : string
}.

Definition of_row (r : Pos.row) : t :=
  {| id := Pos.id r;
     tokenAddress := Pos.token_address r;
     symbol := Pos.symbol r;
     entryPrice := Pos.entry_price r;
     entrySol := Pos.entry_sol r;
     tokenAmount := Pos.token_amount r;
     tokenDecimals := Pos.token_decimals r;
     currentPrice := Pos.current_price r;
     pnlPct := Pos.pnl_pct r;
     status := Pos.status r;
     entryTx := Pos.entry_tx r;
     exitTx := Pos.exit_tx r;
     entryTime := Pos.entry_time r;
     exitTime := Pos.exit_time r;
     score := Pos.score r;
     narrative := Pos.narrative r |}.

End Position.

Module Query.

(** [getAgentStatuses]: the values of the map [agents] in the order in which
    the constructor inserted their keys. *)
Definition getAgentStatuses (s : Swarm) : list Agent.t :=
  omap (λ a, agents s !! fst a) agentDefs.

(** [SELECT * FROM positions ORDER BY entry_time DESC], each row as a
    [Position]. *)
Definition getPositions (s : Swarm) : list Position.t :=
  Position.of_row
    <$> order_desc (λ r, inject_Z (Pos.entry_time r)) (positions (db s)).

(** [SELECT * FROM scanned_tokens ORDER BY score DESC LIMIT 50] *)
Definition getScannedTokens (s : Swarm) : list (string * Scan.row) :=
  take 50 (order_desc (λ kv, Scan.row_score (snd kv))
                      (map_to_list (scanned_tokens (db s)))).

(** [SELECT * FROM narratives ORDER BY score DESC LIMIT 10] *)
Definition getNarratives (s : Swarm) : list Narr.row :=
  take 10 (order_desc Narr.row_score (narratives (db s))).

(** [SELECT * FROM trade_history ORDER BY timestamp DESC LIMIT 100] *)
Definition getTradeHistory (s : Swarm) : list Ledger.row :=
  take 100 (order_desc (λ t, inject_Z (Ledger.timestamp t))
                       (trade_history (db s))).

(** [getBalance]: the balance in SOL and the address of the wallet. *)
Definition getBalance (w : World) : M (option (Q * string)) :=
  (wal ← gets wallet;
   match wal with
   | None => ret None
   | Some address =>
       bal ← await (getBalance w);
       ret (Some ((inject_Z bal / LAMPORTS_PER_SOL)%Q, address))
   end)%M.

End Query.

(** ** index.ts: the server *)

Module Http.

(** What the handlers read from the JSON body of a request.  A field is
    [None] when the body lacks it or has [null] for it; the fields have the
    types that the handlers pass on: those of [Partial<SwarmConfig>] for
    [/start], of the parameters of [manualBuy] for [/buy], and a row id for
    [/sell]. *)
Record Fields := {
  openrouterKey : option string;
  model : option string;
  rpcUrl : option string;
  walletKey : option string;
  maxPositionSol : option Q;
  stopLossPct : option Q;
  takeProfitPct : option Q;
  maxConcurrentTrades : option Q;
  minScoreToTrade : option Q;
  scanIntervalMs : option Q;
  slippageBps : option Q;
  tokenAddress : option string;
  solAmount : option Q;
  positionId : option nat
}.

(** [await req.json()], and the reading of its fields: it throws when the
    body is not JSON or is [null]. *)
Inductive Body :=
| Unreadable (e : Js.Error)
| Object (fields : Fields).

Record Request := {
  method : string;
  pathname : string;
  (* [url.searchParams.get] of the parameter q *)
  q : option string;
  body : Body
}.

(** The bodies of the responses. *)
Inductive Reply :=
| Ok (message : string)
| Error (error : string)
| Running (running : bool) (agents : list Agent.t)
| Positions (rows : list Position.t)
| Tokens (rows : list (string * Scan.row))
| Narratives (rows : list Narr.row)
| History (rows : list Ledger.row)
| Logs (entries : list Log.entry)
| Balance (sol : Q) (address : string)
| Traded (result : Trade.result)
| Found (tokens : list Token.info).

(** A response: the one to a preflight request, which has no body, or a JSON
    response with its status. *)
Inductive Response :=
| Preflight
| Json (status : nat) (reply : Reply).

(** What [broadcast] is given as [data]. *)
Inductive Payload :=
| LogData (entry : Log.entry)
| StatusData (running : bool) (agents : option (list Agent.t))
| TradeData (result : option Trade.result)
| InitData (running : bool) (logs : list Log.entry) (agents : list Agent.t).

(** A message to a client; the one sent on connection has no timestamp. *)
Record Message := {
  type : string;
  data : Payload;
  timestamp : option Z
}.

End Http.

(** [process.env], as far as [/start] reads it. *)
Record Env := {
  OPENROUTER_API_KEY : option string;
  LLM_MODEL : option string;
  SOLANA_RPC_URL : option string;
  WALLET_PRIVATE_KEY : option string
}.

(** The state of the server: the module variables [swarm], [wsClients] and
    [logBuffer].  [file] is what the database file holds while no swarm has
    it open, and [sent] lists the messages that the clients took, oldest
    first.  A client is a number; [wsClients] lists the set in the order of
    insertion. *)
Record Server := {
  swarm : option Swarm;
  file : DB;
  wsClients : list nat;
  logBuffer : list Log.entry;
  sent : list (nat * Http.Message)
}.

(** What the outside world answers while the server handles one event. *)
Record Net := {
  clock : Z;
  (* whether [ws.send] to a client returns; it throws otherwise *)
  delivers : nat → bool;
  stopping : World;
  starting : World;
  narrating : World;
  hunting : World;
  hunting_each : string → World;
  trading : World;
  searchTokens : string → list Token.info
}.

Definition set_swarm (s : option Swarm) (srv : Server) : Server :=
  {| swarm := s; file := file srv; wsClients := wsClients srv;
     logBuffer := logBuffer srv; sent := sent srv |}.

Definition set_wsClients (l : list nat) (srv : Server) : Server :=
  {| swarm := swarm srv; file := file srv; wsClients := l;
     logBuffer := logBuffer srv; sent := sent srv |}.

Definition set_logBuffer (l : list Log.entry) (srv : Server) : Server :=
  {| swarm := swarm srv; file := file srv; wsClients := wsClients srv;
     logBuffer := l; sent := sent srv |}.

Definition set_sent (l : list (nat * Http.Message)) (srv : Server) : Server :=
  {| swarm := swarm srv; file := file srv; wsClients := wsClients srv;
     logBuffer := logBuffer srv; sent := l |}.

(** One pass of the loop of [broadcast]: [ws.send(msg)], and on an exception
    [wsClients.delete(ws)]. *)
Definition send_or_drop (net : Net) (msg : Http.Message) (srv : Server)
    (ws : nat) : Server :=
  if delivers net ws then set_sent (sent srv ++ [(ws, msg)]) srv
  else set_wsClients (List.filter (λ c, negb (Nat.eqb c ws)) (wsClients srv)) srv.

Definition broadcast (net : Net) (type : string) (data : Http.Payload)
    (srv : Server) : Server :=
  let msg :=
    {| Http.type := type; Http.data := data;
       Http.timestamp := Some (clock net) |} in
  fold_left (send_or_drop net msg) (wsClients srv) srv.

(** [logBuffer.slice(-n)] *)
Definition last_n {A} (n : nat) (l : list A) : list A :=
  drop (length l - n) l.

Definition onSwarmLog (net : Net) (log : Log.entry) (srv : Server) : Server :=
  let pushed := (logBuffer srv ++ [log])%list in
  let kept :=
    if (500 <? length pushed)%nat then drop 100 pushed else pushed in
  broadcast net "log" (Http.LogData log) (set_logBuffer kept srv).

(** The calls of [onSwarmLog] that a method of the swarm made: one for each
    entry that the method added to what the swarm has emitted. *)
Definition relay (net : Net) (before : Swarm) (after : Swarm) (srv : Server)
  : Server :=
  fold_left (λ srv log, onSwarmLog net log srv)
            (drop (length (emitted before)) (emitted after)) srv.

(** A method of the swarm [s], run from the server. *)
Definition call {A} (net : Net) (m : M A) (s : Swarm) (srv : Server)
  : Server * Js.Completion A :=
  let out := m s in
  (relay net s (fst out) (set_swarm (Some (fst out)) srv), snd out).

(** The [SwarmConfig] that [/start] builds from the body and the
    environment: [||] for the strings, [??] for the numbers. *)
Definition config_of (env : Env) (b : Http.Fields) : SwarmConfig :=
  {| openrouterKey :=
       Js.ostr_or (Http.openrouterKey b)
         (Js.ostr_or (OPENROUTER_API_KEY env) EmptyString);
     model :=
       Js.ostr_or (Http.model b)
         (Js.ostr_or (LLM_MODEL env) "deepseek/deepseek-chat");
     rpcUrl :=
       Js.ostr_or (Http.rpcUrl b)
         (Js.ostr_or (SOLANA_RPC_URL env)
                     "https://api.mainnet-beta.solana.com");
     walletKey :=
       Js.ostr_or (Http.walletKey b)
         (Js.ostr_or (WALLET_PRIVATE_KEY env) EmptyString);
     maxPositionSol := default (5 # 100)%Q (Http.maxPositionSol b);
     stopLossPct := default 30%Q (Http.stopLossPct b);
     takeProfitPct := default 100%Q (Http.takeProfitPct b);
     maxConcurrentTrades := default 3%Q (Http.maxConcurrentTrades b);
     minScoreToTrade := default 80%Q (Http.minScoreToTrade b);
     scanIntervalMs := default 60000%Q (Http.scanIntervalMs b);
     slippageBps := default 500%Q (Http.slippageBps b) |}.

(** [s] without its first [n] characters. *)
Fixpoint skip (n : nat) (s : string) : string :=
  match n, s with
  | S n', String _ s' => skip n' s'
  | _, _ => s
  end.

(** [s.replace(pat, empty)] for a string [pat]: the first occurrence goes. *)
Fixpoint remove_first (pat s : string) : string :=
  if String.prefix pat s then skip (String.length pat) s
  else match s with
       | EmptyString => EmptyString
       | String c s' => String c (remove_first pat s')
       end.

(** The response of the [catch] of [handleAPI]. *)
Definition failed (e : Js.Error) : Http.Response :=
  Http.Json 500 (Http.Error (Js.message e)).

Definition bad_request (error : string) : Http.Response :=
  Http.Json 400 (Http.Error error).

Definition ok (reply : Http.Reply) : Http.Response := Http.Json 200 reply.

(** [POST /start] *)
Definition handle_start (env : Env) (net : Net) (req : Http.Request)
    (srv : Server) : Server * Http.Response :=
  match Http.body req with
  | Http.Unreadable e => (srv, failed e)
  | Http.Object b =>
      let config := config_of env b in
      (* if (swarm) swarm.stop() *)
      let stopped :=
        match swarm srv with
        | Some old => call net (stop (stopping net)) old srv
        | None => (srv, Js.Normal tt)
        end in
      match snd stopped with
      | Js.Throw e => (fst stopped, failed e)
      | Js.Normal _ =>
          (* swarm = new Swarm(config, onSwarmLog) *)
          let stored :=
            match swarm (fst stopped) with
            | Some old => db old
            | None => file (fst stopped)
            end in
          let fresh := new_Swarm config stored in
          (* await swarm.start() *)
          let started :=
            call net
              (start (starting net) (narrating net) (hunting net)
                     (hunting_each net))
              fresh (fst stopped) in
          match snd started with
          | Js.Throw e => (fst started, failed e)
          | Js.Normal _ =>
              let agents :=
                match swarm (fst started) with
                | Some s => Query.getAgentStatuses s
                | None => []
                end in
              (broadcast net "status" (Http.StatusData true (Some agents))
                 (fst started),
               ok (Http.Ok "Swarm started"))
          end
      end
  end.

(** [POST /stop] *)
Definition handle_stop (net : Net) (srv : Server) : Server * Http.Response :=
  match swarm srv with
  | Some s =>
      let stopped := call net (stop (stopping net)) s srv in
      match snd stopped with
      | Js.Throw e => (fst stopped, failed e)
      | Js.Normal _ =>
          (broadcast net "status" (Http.StatusData false None) (fst stopped),
           ok (Http.Ok "Swarm stopped"))
      end
  | None => (srv, ok (Http.Ok "Swarm stopped"))
  end.

(** [GET /balance] *)
Definition handle_balance (net : Net) (srv : Server)
  : Server * Http.Response :=
  match swarm srv with
  | Some s =>
      let asked := call net (Query.getBalance (trading net)) s srv in
      match snd asked with
      | Js.Throw e => (fst asked, failed e)
      | Js.Normal (Some (sol, address)) =>
          (fst asked, ok (Http.Balance sol address))
      | Js.Normal None => (fst asked, ok (Http.Balance 0 EmptyString))
      end
  | None => (srv, ok (Http.Balance 0 EmptyString))
  end.

(** [!solAmount] for an optional number *)
Definition no_number (x : option Q) : bool :=
  match x with Some a => Qeq_bool a 0 | None => true end.

(** [POST /buy] *)
Definition handle_buy (net : Net) (req : Http.Request) (srv : Server)
  : Server * Http.Response :=
  match swarm srv with
  | None => (srv, bad_request "Swarm not running")
  | Some s =>
      match Http.body req with
      | Http.Unreadable e => (srv, failed e)
      | Http.Object b =>
          if Js.falsy (default EmptyString (Http.tokenAddress b))
             || no_number (Http.solAmount b)
          then (srv, bad_request "tokenAddress and solAmount required")
          else
            let bought :=
              call net
                (manualBuy (trading net)
                   (default EmptyString (Http.tokenAddress b))
                   (default 0%Q (Http.solAmount b)))
                s srv in
            match snd bought with
            | Js.Throw e => (fst bought, failed e)
            | Js.Normal result =>
                (broadcast net "trade" (Http.TradeData result) (fst bought),
                 ok (match result with
                     | Some r => Http.Traded r
                     | None => Http.Error "Trade failed"
                     end))
            end
      end
  end.

(** [POST /sell] *)
Definition handle_sell (net : Net) (req : Http.Request) (srv : Server)
  : Server * Http.Response :=
  match swarm srv with
  | None => (srv, bad_request "Swarm not running")
  | Some s =>
      match Http.body req with
      | Http.Unreadable e => (srv, failed e)
      | Http.Object b =>
          match Http.positionId b with
          | None | Some O => (srv, bad_request "positionId required")
          | Some positionId =>
              let sold :=
                call net (manualSell (trading net) positionId) s srv in
              match snd sold with
              | Js.Throw e => (fst sold, failed e)
              | Js.Normal result =>
                  (broadcast net "trade" (Http.TradeData result) (fst sold),
                   ok (match result with
                       | Some r => Http.Traded r
                       | None => Http.Error "Trade failed"
                       end))
              end
          end
      end
  end.

(** [handleAPI(req, url)] *)
Definition handleAPI (env : Env) (net : Net) (req : Http.Request)
    (srv : Server) : Server * Http.Response :=
  let path := remove_first "/api" (Http.pathname req) in
  let method := Http.method req in
  let route (p m : string) := String.eqb path p && String.eqb method m in
  if String.eqb method "OPTIONS" then (srv, Http.Preflight)
  (* ---- SWARM CONTROL ---- *)
  else if route "/start" "POST" then handle_start env net req srv
  else if route "/stop" "POST" then handle_stop net srv
  (* ---- DATA ENDPOINTS ---- *)
  else if route "/status" "GET" then
    (srv, ok (Http.Running (bool_decide (is_Some (swarm srv)))
                (from_option Query.getAgentStatuses [] (swarm srv))))
  else if route "/positions" "GET" then
    (srv, ok (Http.Positions (from_option Query.getPositions [] (swarm srv))))
  else if route "/tokens" "GET" then
    (srv, ok (Http.Tokens (from_option Query.getScannedTokens [] (swarm srv))))
  else if route "/narratives" "GET" then
    (srv, ok (Http.Narratives (from_option Query.getNarratives [] (swarm srv))))
  else if route "/history" "GET" then
    (srv, ok (Http.History (from_option Query.getTradeHistory [] (swarm srv))))
  else if route "/logs" "GET" then
    (srv, ok (Http.Logs (last_n 200 (logBuffer srv))))
  else if route "/balance" "GET" then handle_balance net srv
  (* ---- TRADING ---- *)
  else if route "/buy" "POST" then handle_buy net req srv
  else if route "/sell" "POST" then handle_sell net req srv
  else if route "/search" "GET" then
    match swarm srv with
    | None => (srv, bad_request "Swarm not running")
    | Some _ =>
        (srv, ok (Http.Found
                    (searchTokens net (default EmptyString (Http.q req)))))
    end
  else (srv, Http.Json 404 (Http.Error "Not found")).

(** The WebSocket handlers [open] and [close]. *)
Definition ws_open (net : Net) (ws : nat) (srv : Server) : Server :=
  let joined :=
    if bool_decide (ws ∈ wsClients srv) then srv
    else set_wsClients (wsClients srv ++ [ws]) srv in
  let init :=
    {| Http.type := "init";
       Http.data :=
         Http.InitData (bool_decide (is_Some (swarm srv)))
           (last_n 100 (logBuffer srv))
           (from_option Query.getAgentStatuses [] (swarm srv));
       Http.timestamp := None |} in
  if delivers net ws then set_sent (sent joined ++ [(ws, init)]) joined
  else joined.

Definition ws_close (ws : nat) (srv : Server) : Server :=
  set_wsClients (List.filter (λ c, negb (Nat.eqb c ws)) (wsClients srv)) srv.

(** What happens to the server: a request to the API, a client that
    connects or leaves, and a timer of the swarm that fires. *)
Inductive Event :=
| Api (env : Env) (req : Http.Request)
| Connect (ws : nat)
| Leave (ws : nat)
| Fire (op : Op).

Definition step (net : Net) (ev : Event) (srv : Server) : Server :=
  match ev with
  | Api env req => fst (handleAPI env net req srv)
  | Connect ws => ws_open net ws srv
  | Leave ws => ws_close ws srv
  | Fire op =>
      match swarm srv with
      | Some s => fst (call net (λ s, (apply op s, Js.Normal tt)) s srv)
      | None => srv
      end
  end.

(** The server after a sequence of events, each with what the world
    answered while it was handled. *)
Definition serve (events : list (Net * Event)) (srv : Server) : Server :=
  fold_left (λ srv ev, step (fst ev) (snd ev) srv) events srv.

(** The server as the module starts it. *)
Definition boot (stored : DB) : Server :=
  {| swarm := None; file := stored; wsClients := []; logBuffer := [];
     sent := [] |}.

(** ** Sample requests *)

Module Wire.

Definition no_fields : Http.Fields :=
  {| Http.openrouterKey := None; Http.model := None; Http.rpcUrl := None;
     Http.walletKey := None; Http.maxPositionSol := None;
     Http.stopLossPct := None; Http.takeProfitPct := None;
     Http.maxConcurrentTrades := None; Http.minScoreToTrade := None;
     Http.scanIntervalMs := None; Http.slippageBps := None;
     Http.tokenAddress := None; Http.solAmount := None;
     Http.positionId := None |}.

(** The keys of a start request, the numbers left to their defaults. *)
Definition keys : Http.Fields :=
  {| Http.openrouterKey := Some "sk-or"; Http.model := None;
     Http.rpcUrl := Some "https://rpc"; Http.walletKey := Some "key";
     Http.maxPositionSol := None;
     Http.stopLossPct := None; Http.takeProfitPct := None;
     Http.maxConcurrentTrades := None; Http.minScoreToTrade := None;
     Http.scanIntervalMs := None; Http.slippageBps := None;
     Http.tokenAddress := None; Http.solAmount := None;
     Http.positionId := None |}.

(** The same keys with an endpoint that has no scheme. *)
Definition bad_endpoint : Http.Fields :=
  {| Http.openrouterKey := Some "sk-or"; Http.model := None;
     Http.rpcUrl := Some "rpc"; Http.walletKey := Some "key";
     Http.maxPositionSol := None;
     Http.stopLossPct := None; Http.takeProfitPct := None;
     Http.maxConcurrentTrades := None; Http.minScoreToTrade := None;
     Http.scanIntervalMs := None; Http.slippageBps := None;
     Http.tokenAddress := None; Http.solAmount := None;
     Http.positionId := None |}.

(** A sale of position 1. *)
Definition sell_1 : Http.Fields :=
  {| Http.openrouterKey := None; Http.model := None; Http.rpcUrl := None;
     Http.walletKey := None; Http.maxPositionSol := None;
     Http.stopLossPct := None; Http.takeProfitPct := None;
     Http.maxConcurrentTrades := None; Http.minScoreToTrade := None;
     Http.scanIntervalMs := None; Http.slippageBps := None;
     Http.tokenAddress := None; Http.solAmount := None;
     Http.positionId := Some 1%nat |}.

(** A buy of token A for 0.01 SOL. *)
Definition buy_A : Http.Fields :=
  {| Http.openrouterKey := None; Http.model := None; Http.rpcUrl := None;
     Http.walletKey := None; Http.maxPositionSol := None;
     Http.stopLossPct := None; Http.takeProfitPct := None;
     Http.maxConcurrentTrades := None; Http.minScoreToTrade := None;
     Http.scanIntervalMs := None; Http.slippageBps := None;
     Http.tokenAddress := Some "A"; Http.solAmount := Some (1 # 100)%Q;
     Http.positionId := None |}.

Definition post (path : string) (fields : Http.Fields) : Http.Request :=
  {| Http.method := "POST"; Http.pathname := path; Http.q := None;
     Http.body := Http.Object fields |}.

Definition get (path : string) : Http.Request :=
  {| Http.method := "GET"; Http.pathname := path; Http.q := None;
     Http.body :=
       Http.Unreadable {| Js.name := "SyntaxError";
                          Js.message := "Unexpected end of JSON input" |} |}.

Definition no_env : Env :=
  {| OPENROUTER_API_KEY := None; LLM_MODEL := None; SOLANA_RPC_URL := None;
     WALLET_PRIVATE_KEY := None |}.

(** A network in which every client takes what it is sent, with the calm
    world behind every method of the swarm. *)
Definition quiet_net : Net :=
  {| clock := 5000; delivers := λ _, true;
     stopping := Sample.calm; starting := Sample.calm;
     narrating := Sample.calm; hunting := Sample.calm;
     hunting_each := λ _, Sample.calm; trading := Sample.calm;
     searchTokens := λ _, [] |}.

(** The same network once the RPC endpoint has stopped answering. *)
Definition offline : Net :=
  {| clock := 6000; delivers := λ _, true;
     stopping := Sample.calm; starting := Sample.calm;
     narrating := Sample.calm; hunting := Sample.calm;
     hunting_each := λ _, Sample.calm;
     trading :=
       {| now := 6000;
          getBalance := Js.Throw Sample.down;
          jupiter := λ _, Js.Throw Sample.down;
          getTokenByAddress := λ _, None;
          getTrendingTokens := [];
          latestProfiles := [];
          llmScore := Js.Throw Sample.down;
          llmNarrativeAnalysis := Js.Throw Sample.down;
          createWallet := Js.Normal "pubkey";
          getConnection := Sample.connect;
          storeNarrative := λ _, Js.Throw Sample.refused;
          exceeds := λ _ _, false |};
     searchTokens := λ _, [] |}.

(** The quiet network with a market that has no price for any token. *)
Definition unpriced_net : Net :=
  {| clock := 5500; delivers := λ _, true;
     stopping := Sample.calm; starting := Sample.calm;
     narrating := Sample.calm; hunting := Sample.calm;
     hunting_each := λ _, Sample.calm; trading := Sample.unpriced;
     searchTokens := λ _, [] |}.

(** The server after one start request with the keys. *)
Definition up : Server :=
  serve [(quiet_net, Api no_env (post "/api/start" keys))] (boot empty_db).

(** The server after a start, a buy of token A while the market has no price
    for it, and a price tick that finds it still without one. *)
Definition up_unpriced : Server :=
  serve [(quiet_net, Api no_env (post "/api/start" keys));
         (unpriced_net, Api no_env (post "/api/buy" buy_A));
         (quiet_net, Fire (OpPriceUpdate (λ _, Sample.unpriced)))]
        (boot empty_db).

End Wire.

(** ** trading.ts: the requests to DexScreener *)

Module Dex.

(** The requests that the four functions make.  The request for the pairs of
    a token is told by the value that the address has in the data, the text
    of the URL being left out. *)
Inductive request :=
| Search (query : string)
| Boosts
| Profiles
| Pairs (tokenAddress : option Json.value).

(** A response: [res.ok], and what [res.json()] gives or throws. *)
Record response := { ok : bool; json : Js.Completion Json.value }.

(** [fetch]: a response, or a rejection. *)
Definition fetcher : Type := request → Js.Completion response.

Definition TypeError (message : string) : Js.Error :=
  {| Js.name := "TypeError"; Js.message := message |}.

(** Whether a value counts as true in a condition. *)
Definition truthy (v : Json.value) : bool :=
  match v with
  | Json.Null => false
  | Json.Bool b => b
  | Json.Num q => negb (Qeq_bool q 0)
  | Json.Str s => negb (Js.falsy s)
  | Json.Arr _ | Json.Obj _ => true
  end.

(** [v.key]: reading a property of [null] throws; a value that is not an
    object has none of the properties that are read here. *)
Definition prop (key : string) (v : Json.value)
  : Js.Completion (option Json.value) :=
  match v with
  | Json.Null => Js.Throw (TypeError "Cannot read properties of null")
  | _ => Js.Normal (Json.field key v)
  end.

(** [v?.[0]] *)
Definition first (v : Json.value) : option Json.value :=
  match v with
  | Json.Arr (x :: _) => Some x
  | Json.Str (String c _) => Some (Json.Str (String c EmptyString))
  | Json.Obj _ => Json.field "0" v
  | _ => None
  end.

(** [v || []] *)
Definition or_empty (v : option Json.value) : Json.value :=
  match v with
  | Some x => if truthy x then x else Json.Arr []
  | None => Json.Arr []
  end.

(** [t.chainId === "solana"] *)
Definition on_solana (t : Json.value) : Js.Completion bool :=
  match prop "chainId" t with
  | Js.Throw e => Js.Throw e
  | Js.Normal (Some (Json.Str chain)) => Js.Normal (String.eqb chain "solana")
  | Js.Normal _ => Js.Normal false
  end.

(** [items.filter(keep)] for a callback that may throw. *)
Fixpoint filter_with {A} (keep : A → Js.Completion bool) (items : list A)
  : Js.Completion (list A) :=
  match items with
  | [] => Js.Normal []
  | x :: rest =>
      match keep x with
      | Js.Throw e => Js.Throw e
      | Js.Normal b =>
          match filter_with keep rest with
          | Js.Throw e => Js.Throw e
          | Js.Normal kept => Js.Normal (if b then x :: kept else kept)
          end
      end
  end.

(** [v.filter(t => t.chainId === "solana")]: only an array has [filter]. *)
Definition solana_only (v : Json.value) : Js.Completion (list Json.value) :=
  match v with
  | Json.Arr items => filter_with on_solana items
  | _ => Js.Throw (TypeError "filter is not a function")
  end.

(** The outcome of a function whose body is a [try] with a [catch] that
    returns [fallback]. *)
Definition or_else {A} (fallback : A) (c : Js.Completion A) : A :=
  match c with Js.Normal a => a | Js.Throw _ => fallback end.

Section requests.

Variable fetch : fetcher.

(** [mapDexPair], which reads a pair into a [TokenInfo]; it is called on
    values that are not [null] and does not throw. *)
Variable mapDexPair : Json.value → Token.info.

(** The body of the loops over the tokens: the request for the pairs of [t]
    and the token made of the first pair, if the request gave one. *)
Definition pair_of (t : Json.value) : Js.Completion (option Token.info) :=
  match fetch (Pairs (Json.field "tokenAddress" t)) with
  | Js.Throw e => Js.Throw e
  | Js.Normal pairRes =>
      if ok pairRes
      then match json pairRes with
           | Js.Throw e => Js.Throw e
           | Js.Normal pairs =>
               match first pairs with
               | Some p =>
                   Js.Normal (if truthy p then Some (mapDexPair p) else None)
               | None => Js.Normal None
               end
           end
      else Js.Normal None
  end.

(** The list request of [getTrendingTokens] and [getNewPairs]: the entries
    on Solana, or an exception. *)
Definition listed (which : request) : Js.Completion (option (list Json.value)) :=
  match fetch which with
  | Js.Throw e => Js.Throw e
  | Js.Normal res =>
      if ok res
      then match json res with
           | Js.Throw e => Js.Throw e
           | Js.Normal data =>
               match solana_only (or_empty (Some data)) with
               | Js.Throw e => Js.Throw e
               | Js.Normal solTokens => Js.Normal (Some solTokens)
               end
           end
      else Js.Normal None
  end.

Definition searchTokens (query : string) : list Token.info :=
  or_else []
    (match fetch (Search query) with
     | Js.Throw e => Js.Throw e
     | Js.Normal res =>
         if ok res
         then match json res with
              | Js.Throw e => Js.Throw e
              | Js.Normal data =>
                  match prop "pairs" data with
                  | Js.Throw e => Js.Throw e
                  | Js.Normal pairs =>
                      match solana_only (or_empty pairs) with
                      | Js.Throw e => Js.Throw e
                      | Js.Normal kept => Js.Normal (mapDexPair <$> kept)
                      end
                  end
              end
         else Js.Normal []
     end).

Definition getTrendingTokens : list Token.info :=
  or_else []
    (match listed Boosts with
     | Js.Throw e => Js.Throw e
     | Js.Normal None => Js.Normal []
     | Js.Normal (Some solTokens) =>
         Js.Normal
           (omap (λ t, or_else None (pair_of t)) (take 20 solTokens))
     end).

Definition getNewPairs (minLiquidity : Q) : list Token.info :=
  or_else []
    (match listed Profiles with
     | Js.Throw e => Js.Throw e
     | Js.Normal None => Js.Normal []
     | Js.Normal (Some solTokens) =>
         Js.Normal
           (omap (λ t,
              match or_else None (pair_of t) with
              | Some token =>
                  if Qle_bool minLiquidity (Token.liquidity token)
                  then Some token else None
              | None => None
              end) (take 30 solTokens))
     end).

Definition getTokenByAddress (address : string) : option Token.info :=
  or_else None
    (match fetch (Pairs (Some (Json.Str address))) with
     | Js.Throw e => Js.Throw e
     | Js.Normal res =>
         if ok res
         then match json res with
              | Js.Throw e => Js.Throw e
              | Js.Normal pairs =>
                  match first pairs with
                  | Some p =>
                      Js.Normal
                        (if truthy p then Some (mapDexPair p) else None)
                  | None => Js.Normal None
                  end
              end
         else Js.Normal None
     end).

End requests.

End Dex.

(** The tokens that [getNewPairs] looks at before it compares the liquidity:
    of the first thirty latest profiles on Solana, those whose request for
    pair data gave a pair. *)
Definition latest_with_pairs (fetch : Dex.fetcher)
    (mapDexPair : Json.value → Token.info) : list Token.info :=
  match Dex.listed fetch Dex.Profiles with
  | Js.Normal (Some solTokens) =>
      omap (λ t, Dex.or_else None (Dex.pair_of fetch mapDexPair t))
        (take 30 solTokens)
  | _ => []
  end.

Module Feed.

Definition entry (chain address : string) : Json.value :=
  Json.Obj [("chainId", Json.Str chain); ("tokenAddress", Json.Str address)].

Definition pair (address : string) : Json.value :=
  Json.Obj [("baseToken", Json.Obj [("address", Json.Str address)])].

Definition answer (data : Json.value) : Js.Completion Dex.response :=
  Js.Normal {| Dex.ok := true; Dex.json := Js.Normal data |}.

(** A market with three latest profiles, two of them on Solana; the request
    for the pairs of the first is rejected, that of the second gives one
    pair. *)
Definition fetch : Dex.fetcher := λ r,
  match r with
  | Dex.Profiles =>
      answer (Json.Arr [entry "solana" "A"; entry "base" "B";
                        entry "solana" "C"])
  | Dex.Pairs (Some (Json.Str "C")) => answer (Json.Arr [pair "C"])
  | _ => Js.Throw {| Js.name := "TypeError"; Js.message := "fetch failed" |}
  end.

(** A reading of a pair that keeps the address only. *)
Definition read (p : Json.value) : Token.info :=
  match Json.field "baseToken" p with
  | Some base =>
      match Json.field "address" base with
      | Some (Json.Str a) => Sample.token a
      | _ => Sample.token EmptyString
      end
  | None => Sample.token EmptyString
  end.

End Feed.

(** * Properties *)

(** ** Lists *)

Lemma filter_map_shrinks {A} (p : A → bool) (g : A → A) (l : list A) :
  (∀ x, x ∈ l → p (g x) = true → p x = true) →
  (length (List.filter p (List.map g l)) ≤ length (List.filter p l))%nat.
Proof.
  induction l as [|x l IH]; intros H; simpl; [lia|].
  assert (IH' : (length (List.filter p (List.map g l))
                 ≤ length (List.filter p l))%nat).
  { apply IH. intros y Hy. apply H. by right. }
  destruct (p (g x)) eqn:Hg.
  - rewrite (H x); [simpl; lia | by left | done].
  - destruct (p x); simpl; lia.
Qed.

Lemma filter_map_same {A} (p : A → bool) (g : A → A) (l : list A) :
  (∀ x, p (g x) = p x) →
  List.filter p (List.map g l) = List.map g (List.filter p l).
Proof.
  intros H. induction l as [|x l IH]; simpl; [done|].
  rewrite H. destruct (p x); simpl; by rewrite IH.
Qed.

Lemma find_none_filter {A} (p : A → bool) (l : list A) :
  List.find p l = None → List.filter p l = [].
Proof.
  induction l as [|x l IH]; simpl; [done|].
  destruct (p x); [done | exact IH].
Qed.

Lemma find_unique {A} (key : A → nat) (k : nat) (l : list A) (x y : A) :
  NoDup (key <$> l) →
  List.find (λ r, Nat.eqb (key r) k) l = Some x →
  y ∈ l → key y = k → y = x.
Proof.
  induction l as [|z l IH]; simpl; intros Hnd Hfind Hy Hk; [done|].
  apply NoDup_cons in Hnd as [Hz Hnd].
  destruct (Nat.eqb (key z) k) eqn:Hzk.
  - apply Nat.eqb_eq in Hzk. injection Hfind as <-.
    apply elem_of_cons in Hy as [->|Hy]; [done|].
    exfalso. apply Hz. rewrite Hzk, <- Hk. by apply list_elem_of_fmap_2.
  - apply elem_of_cons in Hy as [->|Hy].
    + apply Nat.eqb_neq in Hzk. done.
    + by apply IH.
Qed.

(** ** The writes keep the invariants *)

Lemma ids_update positionId f d :
  (∀ r, Pos.id (f r) = Pos.id r) →
  Pos.id <$> positions (update_position positionId f d)
  = Pos.id <$> positions d.
Proof.
  intros Hf. cbn [update_position positions].
  induction (positions d) as [|r l IH]; [done|].
  cbn [List.map]. rewrite !fmap_cons, IH. f_equal.
  by destruct (Nat.eqb (Pos.id r) positionId); rewrite ?Hf.
Qed.

Lemma wf_update positionId f d :
  (∀ r, Pos.id (f r) = Pos.id r) →
  db_wf d → db_wf (update_position positionId f d).
Proof.
  intros Hf [Hnd Hle]. split; [by rewrite ids_update|].
  simpl. apply Forall_forall. intros r Hr.
  apply list_elem_of_In, in_map_iff in Hr as (r0 & <- & Hr0).
  apply list_elem_of_In in Hr0.
  rewrite Forall_forall in Hle. specialize (Hle _ Hr0).
  by destruct (Nat.eqb (Pos.id r0) positionId); rewrite ?Hf.
Qed.

Lemma wf_insert mk d :
  (∀ i, Pos.id (mk i) = i) →
  db_wf d → db_wf (insert_position mk d).
Proof.
  intros Hmk [Hnd Hle]. rewrite Forall_forall in Hle. split; simpl.
  - rewrite fmap_app. apply NoDup_app. split; [done|]. split.
    + intros i Hi Hin. simpl in Hin. rewrite Hmk in Hin.
      apply list_elem_of_singleton in Hin. subst i.
      apply list_elem_of_fmap in Hi as (r & Hr & Hin).
      specialize (Hle _ Hin). lia.
    + simpl. apply NoDup_singleton.
  - apply Forall_app. split.
    + apply Forall_forall. intros r Hr. specialize (Hle _ Hr). lia.
    + apply Forall_singleton. rewrite Hmk. lia.
Qed.

Lemma wf_move cfg manual d d' :
  db_move cfg manual d d' → db_wf d → db_wf d'.
Proof.
  destruct 1; intros Hwf; try exact Hwf;
    try (by apply wf_update); by apply wf_insert.
Qed.

Lemma decimals_update positionId f d :
  (∀ r, Pos.token_decimals (f r) = Pos.token_decimals r) →
  decimals_6 d → decimals_6 (update_position positionId f d).
Proof.
  intros Hf H. unfold decimals_6 in *. simpl.
  induction H as [|r l Hr Hl IH]; simpl; constructor; [|done].
  by destruct (Nat.eqb (Pos.id r) positionId); rewrite ?Hf.
Qed.

Lemma decimals_move cfg manual d d' :
  db_move cfg manual d d' → decimals_6 d → decimals_6 d'.
Proof.
  destruct 1; intros H6; try exact H6;
    try (by apply decimals_update);
    unfold decimals_6 in *; simpl; apply Forall_app; split; try done;
    by apply Forall_singleton.
Qed.



Lemma open_of_price a positionId price pnl d :
  length (open_of a (update_position positionId (Pos.set_price price pnl) d))
  = length (open_of a d).
Proof.
  unfold open_of. simpl.
  rewrite filter_map_same; [by rewrite length_map|].
  intros r. by destruct (Nat.eqb (Pos.id r) positionId).
Qed.



Lemma open_of_insert a mk d :
  open_of a (insert_position mk d)
  = (open_of a d ++ (if holds a (mk (S (positions_seq d)))
                     then [mk (S (positions_seq d))] else []))%list.
Proof. unfold open_of. simpl. by rewrite List.filter_app. Qed.

Lemma single_move cfg d d' :
  db_move cfg false d d' →
  db_wf d → one_open_per_token d → one_open_per_token d'.
Proof.
  intros Hmove Hwf Hone a. specialize (Hone a).
  destruct Hmove; try exact Hone.
  - by rewrite open_of_price.
  - etrans; [|exact Hone]. unfold open_of. simpl.
    apply filter_map_shrinks. intros r Hr.
    destruct (Nat.eqb (Pos.id r) positionId) eqn:E; [|done].
    apply Nat.eqb_eq in E. destruct Hwf as [Hnd _].
    rewrite (find_unique Pos.id positionId (positions d) pos r) by done.
    unfold holds. simpl. rewrite H0. rewrite andb_true_r.
    intros Ha. rewrite andb_true_iff in Ha. apply Ha.
  - rewrite open_of_insert.
    change (holds a (opened_position tokenAddress symbol price size result 6
                       time score narrative (S (positions_seq d))))
      with (String.eqb tokenAddress a && true).
    rewrite andb_true_r.
    destruct (String.eqb tokenAddress a) eqn:E.
    + apply String.eqb_eq in E. subst a.
      unfold open_of. rewrite find_none_filter; [simpl; lia | done].
    + by rewrite app_nil_r.
  - done.
Qed.

(** ** Reasoning rules for methods *)

Arguments mark : simpl never.
Arguments Js.double : simpl never.
Arguments rawAmount : simpl never.
Arguments executeBuy : simpl never.
Arguments executeSell : simpl never.
Arguments opened_position : simpl never.
Arguments buy_record : simpl never.
Arguments sell_record : simpl never.
Arguments insert_position : simpl never.
Arguments insert_trade : simpl never.
Arguments update_position : simpl never.
Arguments count_open : simpl never.
Arguments open_position_of : simpl never.
Arguments position_by_id : simpl never.
Arguments upsert_scanned : simpl never.
Arguments narrative_of : simpl never.
Arguments Math_min : simpl never.
Arguments Qltb : simpl never.
Arguments schedule : simpl never.

Lemma mark_frame w id status lastResult s :
  config (mark w id status lastResult s) = config s
  ∧ db (mark w id status lastResult s) = db s
  ∧ wallet (mark w id status lastResult s) = wallet s
  ∧ running (mark w id status lastResult s) = running s
  ∧ intervals (mark w id status lastResult s) = intervals s.
Proof. unfold mark. by destruct (agents s !! id). Qed.

Lemma config_mark w id status lastResult s :
  config (mark w id status lastResult s) = config s.
Proof. apply mark_frame. Qed.

Lemma db_mark w id status lastResult s :
  db (mark w id status lastResult s) = db s.
Proof. apply mark_frame. Qed.

Lemma wallet_mark w id status lastResult s :
  wallet (mark w id status lastResult s) = wallet s.
Proof. apply mark_frame. Qed.

Lemma running_mark w id status lastResult s :
  running (mark w id status lastResult s) = running s.
Proof. apply mark_frame. Qed.

Lemma intervals_mark w id status lastResult s :
  intervals (mark w id status lastResult s) = intervals s.
Proof. apply mark_frame. Qed.

Create Rewrite HintDb swarm.
#[local] Hint Rewrite config_mark db_mark wallet_mark running_mark
  intervals_mark : swarm.

(** Unfold the plumbing of a method and simplify the state it yields. *)
Ltac run_method :=
  unfold exec, keeps, setAgentStatus, log, modify_db, modify, bind, gets, ret,
    await, try_catch in *;
  simpl in *; autorewrite with swarm in *.

(** Close a goal that relates a state to the same state with other fields. *)
Ltac frame :=
  unfold quiet, follows; run_method; repeat split; try done.

Lemma quiet_refl manual s : quiet manual s s.
Proof. by repeat split. Qed.

Lemma quiet_trans manual s1 s2 s3 :
  quiet manual s1 s2 → quiet manual s2 s3 → quiet manual s1 s3.
Proof.
  intros (Hc & Hw & Hr & Hi & Hd) (Hc' & Hw' & Hr' & Hi' & Hd').
  repeat split; try congruence.
  rewrite Hc in Hd'. by etrans.
Qed.

Lemma follows_refl manual s : follows manual s s.
Proof. by split. Qed.

Lemma follows_trans manual s1 s2 s3 :
  follows manual s1 s2 → follows manual s2 s3 → follows manual s1 s3.
Proof.
  intros (Hc & Hd) (Hc' & Hd'). split; [congruence|].
  rewrite Hc in Hd'. by etrans.
Qed.

Lemma quiet_follows manual s s' : quiet manual s s' → follows manual s s'.
Proof. intros (Hc & _ & _ & _ & Hd). by split. Qed.

Lemma db_move_manual cfg manual d d' :
  db_move cfg false d d' → db_move cfg manual d d'.
Proof. destruct 1; try (by econstructor); done. Qed.

Section rules.

Context (R : Swarm → Swarm → Prop).
Hypothesis R_refl : ∀ s, R s s.
Hypothesis R_trans : ∀ s1 s2 s3, R s1 s2 → R s2 s3 → R s1 s3.

Lemma keeps_ret {A} (a : A) : keeps R (ret a).
Proof. intros s. apply R_refl. Qed.

Lemma keeps_gets {A} (f : Swarm → A) : keeps R (gets f).
Proof. intros s. apply R_refl. Qed.

Lemma keeps_await {A} (c : Js.Completion A) : keeps R (await c).
Proof. intros s. apply R_refl. Qed.

Lemma keeps_bind {A B} (m : M A) (k : A → M B) :
  keeps R m → (∀ a, keeps R (k a)) → keeps R (bind m k).
Proof.
  intros Hm Hk s. specialize (Hm s). unfold keeps, exec, bind in *.
  destruct (m s) as [s' [a|e]]; [|exact Hm].
  eapply R_trans; [exact Hm | apply Hk].
Qed.

(** A value read from the state may be used as a fact about that state. *)
Lemma keeps_gets_bind {A B} (f : Swarm → A) (k : A → M B) :
  (∀ s, R s (fst (k (f s) s))) → keeps R (bind (gets f) k).
Proof. intros H s. apply H. Qed.

Lemma keeps_try_catch {A} (body : M A) (handler : Js.Error → M A) :
  keeps R body → (∀ e, keeps R (handler e)) → keeps R (try_catch body handler).
Proof.
  intros Hb Hh s. specialize (Hb s). unfold keeps, exec, try_catch in *.
  destruct (body s) as [s' [a|e]]; [exact Hb|].
  eapply R_trans; [exact Hb | apply Hh].
Qed.

Lemma keeps_for_of {A} (xs : list A) (body : A → M unit) :
  (∀ x, keeps R (body x)) → keeps R (for_of xs body).
Proof.
  intros H. induction xs as [|x xs IH]; simpl.
  - apply keeps_ret.
  - apply keeps_bind; [apply H | intros _; exact IH].
Qed.

End rules.

Lemma returns_ret {A} (a : A) : returns (ret a).
Proof. intros s. by exists a. Qed.

Lemma returns_modify f : returns (modify f).
Proof. intros s. by exists tt. Qed.

Lemma returns_bind {A B} (m : M A) (k : A → M B) :
  returns m → (∀ a, returns (k a)) → returns (bind m k).
Proof.
  intros Hm Hk s. unfold bind. destruct (Hm s) as [a Ha].
  destruct (m s) as [s' c]. simpl in Ha. subst c. apply Hk.
Qed.

Lemma returns_try_catch {A} (body : M A) (handler : Js.Error → M A) :
  (∀ e, returns (handler e)) → returns (try_catch body handler).
Proof.
  intros Hh s. unfold try_catch. destruct (body s) as [s' [a|e]].
  - by exists a.
  - apply Hh.
Qed.

Lemma quiet_log manual w agent kind message :
  keeps (quiet manual) (log w agent kind message).
Proof. intros s. frame. Qed.

Lemma quiet_setAgentStatus manual w id status lastResult :
  keeps (quiet manual) (setAgentStatus w id status lastResult).
Proof. intros s. frame. Qed.

Lemma quiet_modify_db manual f :
  (∀ cfg d, db_move cfg manual d (f d)) →
  keeps (quiet manual) (modify_db f).
Proof. intros H s. frame. by apply rtc_once. Qed.

(** ** What each method writes *)

Lemma quiet_executeTrade manual w token score narrative :
  keeps (quiet manual) (executeTrade w token score narrative).
Proof.
  intros s. unfold executeTrade. unfold quiet. run_method.
  destruct (wallet s) eqn:Hw; run_method; [|by repeat split].
  destruct (Qle_bool _ _) eqn:Hmax; run_method; [by repeat split|].
  destruct (open_position_of _ _) eqn:Hheld; run_method; [by repeat split|].
  destruct (getBalance w) as [balance|e]; run_method; [|by repeat split].
  destruct (Qltb _ _); run_method; [by repeat split|].
  destruct (Trade.success _); run_method; repeat split; try done.
  - eapply rtc_l; [apply move_trade|]. apply rtc_once. by apply move_buy.
  - apply rtc_once, move_trade.
Qed.

Lemma quiet_closePosition manual w positionId reason :
  keeps (quiet manual) (closePosition w positionId reason).
Proof.
  intros s. unfold closePosition. unfold quiet. run_method.
  destruct (wallet s) eqn:Hw; run_method; [|by repeat split].
  destruct (position_by_id _ _) as [pos|] eqn:Hpos; run_method;
    [|by repeat split].
  destruct (Pos.is_open pos) eqn:Hopen; run_method; [|by repeat split].
  destruct (Trade.success _); run_method;
    [destruct (Pnl.toFixed _); run_method|];
    repeat split; try done;
    first [ apply rtc_once, move_trade
          | eapply rtc_l; [apply move_trade|]; apply rtc_once;
            by eapply move_close ].
Qed.

Lemma returns_log w agent kind message : returns (log w agent kind message).
Proof. apply returns_modify. Qed.

Lemma returns_setAgentStatus w id status lastResult :
  returns (setAgentStatus w id status lastResult).
Proof. apply returns_modify. Qed.

(** [closePosition] throws in one case only: after a sale of a position
    whose [pnl_pct] is NULL, when it makes the text of the log entry. *)
Lemma closePosition_throws w positionId reason s e :
  snd (closePosition w positionId reason s) = Js.Throw e →
  ∃ pos, position_by_id positionId (db s) = Some pos
         ∧ Pos.pnl_pct pos = Pnl.Null.
Proof.
  unfold closePosition. run_method.
  destruct (wallet s); run_method; [|done].
  destruct (position_by_id _ _) as [pos|]; run_method; [|done].
  destruct (Pos.is_open pos); run_method; [|done].
  destruct (Trade.success _); run_method; [|done].
  destruct (Pos.pnl_pct pos) eqn:Hpnl; run_method; try done.
  intros _. by exists pos.
Qed.

Lemma quiet_manualBuy w tokenAddress solAmount :
  keeps (quiet true) (manualBuy w tokenAddress solAmount).
Proof.
  intros s. unfold manualBuy. unfold quiet. run_method.
  destruct (wallet s) eqn:Hw; run_method; [|by repeat split].
  destruct (getTokenByAddress w tokenAddress) as [token|]; run_method;
    [|by repeat split].
  destruct (Trade.success _); run_method; repeat split; try done.
  - eapply rtc_l; [apply move_trade|]. apply rtc_once.
    by apply move_manual_buy.
  - apply rtc_once, move_trade.
Qed.

Lemma quiet_manualSell manual w positionId :
  keeps (quiet manual) (manualSell w positionId).
Proof.
  unfold manualSell.
  apply keeps_gets_bind. intros s.
  destruct (wallet s).
  - apply (keeps_gets_bind _). intros s'. clear s.
    destruct (List.find _ _).
    + apply (keeps_bind _ (quiet_trans manual)).
      * apply quiet_log.
      * intros _. apply (keeps_bind _ (quiet_trans manual)).
        -- apply quiet_closePosition.
        -- intros _. apply (keeps_ret _ (quiet_refl manual)).
    + apply (keeps_bind _ (quiet_trans manual)).
      * apply quiet_log.
      * intros _. apply (keeps_ret _ (quiet_refl manual)).
  - apply (keeps_bind _ (quiet_trans manual)).
    + apply quiet_log.
    + intros _. apply (keeps_ret _ (quiet_refl manual)).
Qed.

(** ** The rules at [quiet], and their automation *)

Lemma quiet_ret manual {A} (a : A) : keeps (quiet manual) (ret a).
Proof. apply keeps_ret, quiet_refl. Qed.

Lemma quiet_gets manual {A} (f : Swarm → A) : keeps (quiet manual) (gets f).
Proof. apply keeps_gets, quiet_refl. Qed.

Lemma quiet_await manual {A} (c : Js.Completion A) :
  keeps (quiet manual) (await c).
Proof. apply keeps_await, quiet_refl. Qed.

Lemma quiet_bind manual {A B} (m : M A) (k : A → M B) :
  keeps (quiet manual) m → (∀ a, keeps (quiet manual) (k a)) →
  keeps (quiet manual) (bind m k).
Proof. apply keeps_bind, quiet_trans. Qed.

Lemma quiet_try_catch manual {A} (body : M A) (handler : Js.Error → M A) :
  keeps (quiet manual) body → (∀ e, keeps (quiet manual) (handler e)) →
  keeps (quiet manual) (try_catch body handler).
Proof. apply keeps_try_catch, quiet_trans. Qed.

Lemma quiet_for_of manual {A} (xs : list A) (body : A → M unit) :
  (∀ x, keeps (quiet manual) (body x)) →
  keeps (quiet manual) (for_of xs body).
Proof. apply keeps_for_of; [apply quiet_refl | apply quiet_trans]. Qed.

Lemma quiet_tokenCache manual f :
  keeps (quiet manual) (modify (λ s, set_tokenCache (f s) s)).
Proof. intros s. frame. Qed.

Ltac quiet_tac :=
  repeat first
    [ apply quiet_ret | apply quiet_gets | apply quiet_await
    | apply quiet_log | apply quiet_setAgentStatus | apply quiet_tokenCache
    | apply quiet_executeTrade | apply quiet_closePosition
    | apply quiet_bind; [|intros ?]
    | apply quiet_try_catch; [|intros ?]
    | apply quiet_for_of; intros ?
    | apply quiet_modify_db; intros ? ?; constructor
    | match goal with
      | |- keeps _ (if ?b then _ else _) => destruct b
      | |- keeps _ (match ?x with _ => _ end) => destruct x
      end ].

Lemma returns_gets {A} (f : Swarm → A) : returns (gets f).
Proof. intros s. by eexists. Qed.

Ltac returns_tac :=
  repeat first
    [ apply returns_ret | apply returns_gets | apply returns_modify
    | apply returns_log
    | apply returns_setAgentStatus
    | apply returns_try_catch; intros ?
    | apply returns_bind; [|intros ?]
    | match goal with
      | |- returns (if ?b then _ else _) => destruct b
      | |- returns (match ?x with _ => _ end) => destruct x
      end ].

Lemma quiet_runPriceUpdater manual each :
  keeps (quiet manual) (runPriceUpdater each).
Proof. unfold runPriceUpdater. quiet_tac. Qed.

Lemma quiet_riskCheck manual w pos : keeps (quiet manual) (riskCheck w pos).
Proof. unfold riskCheck. quiet_tac. Qed.

Lemma quiet_runRiskManager manual w each :
  keeps (quiet manual) (runRiskManager w each).
Proof. unfold runRiskManager. quiet_tac. Qed.

Lemma quiet_saveNarrative manual w n :
  keeps (quiet manual) (saveNarrative w n).
Proof. unfold saveNarrative. quiet_tac. Qed.

Lemma quiet_runNarrativeScanner manual w :
  keeps (quiet manual) (runNarrativeScanner w).
Proof. unfold runNarrativeScanner. quiet_tac. apply quiet_saveNarrative. Qed.

Lemma quiet_scoreToken manual w token : keeps (quiet manual) (scoreToken w token).
Proof. unfold scoreToken. quiet_tac. Qed.

Lemma quiet_huntLoop manual each tokens scored :
  keeps (quiet manual) (huntLoop each tokens scored).
Proof.
  revert scored. induction tokens as [|token rest IH]; intros scored; simpl.
  - apply quiet_ret.
  - quiet_tac; try apply IH; apply quiet_scoreToken.
Qed.

Lemma quiet_runCoinHunter manual w each :
  keeps (quiet manual) (runCoinHunter w each).
Proof. unfold runCoinHunter. quiet_tac. apply quiet_huntLoop. Qed.

Lemma returns_runNarrativeScanner w : returns (runNarrativeScanner w).
Proof. unfold runNarrativeScanner. returns_tac. Qed.

Lemma returns_runCoinHunter w each : returns (runCoinHunter w each).
Proof. unfold runCoinHunter. returns_tac. Qed.

(** ** Start, stop and whole runs *)

Lemma follows_quiet manual {A} (m : M A) :
  keeps (quiet manual) m → keeps (follows manual) m.
Proof. intros H s. apply quiet_follows, H. Qed.

Lemma follows_bind manual {A B} (m : M A) (k : A → M B) :
  keeps (follows manual) m → (∀ a, keeps (follows manual) (k a)) →
  keeps (follows manual) (bind m k).
Proof. apply keeps_bind, follows_trans. Qed.

Lemma follows_try_catch manual {A} (body : M A) (handler : Js.Error → M A) :
  keeps (follows manual) body → (∀ e, keeps (follows manual) (handler e)) →
  keeps (follows manual) (try_catch body handler).
Proof. apply keeps_try_catch, follows_trans. Qed.

(** A write to a field other than [config] and [db]. *)
Lemma follows_modify manual f :
  (∀ s, config (f s) = config s ∧ db (f s) = db s) →
  keeps (follows manual) (modify f).
Proof.
  intros H s. destruct (H s) as [Hc Hd]. unfold follows, exec, modify. simpl.
  by rewrite Hc, Hd.
Qed.

Ltac follows_tac :=
  repeat first
    [ apply follows_quiet;
      first [ apply quiet_ret | apply quiet_gets | apply quiet_await
            | apply quiet_log | apply quiet_setAgentStatus
            | apply quiet_runNarrativeScanner | apply quiet_runCoinHunter ]
    | apply follows_modify; intros ?; by split
    | apply follows_bind; [|intros ?]
    | apply follows_try_catch; [|intros ?]
    | match goal with
      | |- keeps _ (if ?b then _ else _) => destruct b
      | |- keeps _ (match ?x with _ => _ end) => destruct x
      end ].

Lemma follows_start manual w wn wh each :
  keeps (follows manual) (start w wn wh each).
Proof. unfold start, loadWallet, deployAll, deploy. follows_tac. Qed.

Lemma follows_stop manual w : keeps (follows manual) (stop w).
Proof. unfold stop. follows_tac. Qed.

Lemma follows_apply op s : follows (is_manual_buy op) s (apply op s).
Proof.
  destruct op; simpl.
  - apply follows_start.
  - apply follows_stop.
  - apply quiet_follows, quiet_runNarrativeScanner.
  - apply quiet_follows, quiet_runCoinHunter.
  - apply quiet_follows, quiet_runRiskManager.
  - apply quiet_follows, quiet_runPriceUpdater.
  - apply quiet_follows, quiet_executeTrade.
  - apply quiet_follows, quiet_closePosition.
  - apply quiet_follows, quiet_manualBuy.
  - apply quiet_follows, quiet_manualSell.
Qed.

Lemma follows_manual manual s s' : follows false s s' → follows manual s s'.
Proof.
  intros [Hc Hd]. split; [done|].
  eapply rtc_subrel; [|exact Hd]. intros ??. apply db_move_manual.
Qed.

Lemma follows_run ops s : follows true s (run ops s).
Proof.
  revert s. induction ops as [|op ops IH]; intros s; simpl.
  - apply follows_refl.
  - eapply follows_trans; [|apply IH].
    destruct (is_manual_buy op) eqn:E.
    + rewrite <- E. apply follows_apply.
    + apply follows_manual. rewrite <- E. apply follows_apply.
Qed.

Lemma follows_run_auto ops s :
  forallb (λ op, negb (is_manual_buy op)) ops = true →
  follows false s (run ops s).
Proof.
  revert s. induction ops as [|op ops IH]; intros s Hops; simpl.
  - apply follows_refl.
  - simpl in Hops. apply andb_true_iff in Hops as [Hop Hops].
    eapply follows_trans; [|by apply IH].
    apply negb_true_iff in Hop. rewrite <- Hop. apply follows_apply.
Qed.

(** ** The invariants along a run *)

Lemma wf_follows manual s s' :
  follows manual s s' → db_wf (db s) → db_wf (db s').
Proof.
  intros [_ Hd]. induction Hd as [|d1 d2 d3 Hmove _ IH]; [done|].
  intros Hwf. apply IH. by eapply wf_move.
Qed.

Lemma decimals_follows manual s s' :
  follows manual s s' → decimals_6 (db s) → decimals_6 (db s').
Proof.
  intros [_ Hd]. induction Hd as [|d1 d2 d3 Hmove _ IH]; [done|].
  intros H6. apply IH. by eapply decimals_move.
Qed.


Lemma single_follows s s' :
  follows false s s' →
  db_wf (db s) → one_open_per_token (db s) → one_open_per_token (db s').
Proof.
  intros [_ Hd]. induction Hd as [|d1 d2 d3 Hmove _ IH]; [done|].
  intros Hwf Hone. apply IH.
  - by eapply wf_move.
  - by eapply single_move.
Qed.

Lemma empty_db_wf : db_wf empty_db.
Proof. split; simpl; constructor. Qed.

(** Every state reached from a fresh database has distinct row ids. *)
Lemma run_wf cfg ops : db_wf (db (run ops (new_Swarm cfg empty_db))).
Proof.
  apply (wf_follows true (new_Swarm cfg empty_db)).
  - apply follows_run.
  - apply empty_db_wf.
Qed.

(** ** llm.ts: parse failures *)

Example cleaned_fenced :
  LLM.cleaned ("```json" ++ String LLM.newline "{1}"
               ++ String LLM.newline "```  ") = "{1}".
Proof. reflexivity. Qed.

Example cleaned_plain_fence : LLM.cleaned "  ```null``` " = "null".
Proof. reflexivity. Qed.

Example cleaned_four_backticks : LLM.cleaned "````json x" = "` x".
Proof. reflexivity. Qed.

(** Once [llmChat] has answered, neither function throws, whatever
    [JSON.parse] does. *)
Lemma llm_replies_never_throw JSON_parse raw :
  (∃ v, LLM.llmScore JSON_parse (Js.Normal raw) = Js.Normal v)
  ∧ (∃ v, LLM.llmNarrativeAnalysis JSON_parse (Js.Normal raw) = Js.Normal v).
Proof.
  unfold LLM.llmScore, LLM.llmNarrativeAnalysis, Js.try_catch.
  destruct (JSON_parse (LLM.cleaned raw)); split; by eexists.
Qed.

(** C8.  For every raw reply whose cleaned text (code fences deleted, then
    trimmed) makes [JSON.parse] throw, [llmScore] returns normally the
    sentinel, whose [score] is 0 and whose [signal] is SKIP, and
    [llmNarrativeAnalysis] returns normally an object whose [narratives] is
    the empty array: the parse failure does not leave either function. *)
Theorem parse_failure_yields_sentinel
    (JSON_parse : string → Js.Completion Json.value) (raw : string)
    (e : Js.Error) :
  JSON_parse (LLM.cleaned raw) = Js.Throw e →
  LLM.llmScore JSON_parse (Js.Normal raw) = Js.Normal LLM.score_sentinel
  ∧ Json.field "score" LLM.score_sentinel = Some (Json.Num 0)
  ∧ Json.field "signal" LLM.score_sentinel = Some (Json.Str "SKIP")
  ∧ LLM.llmNarrativeAnalysis JSON_parse (Js.Normal raw)
    = Js.Normal LLM.narratives_sentinel
  ∧ Json.field "narratives" LLM.narratives_sentinel = Some (Json.Arr []).
Proof.
  intros Hparse. unfold LLM.llmScore, LLM.llmNarrativeAnalysis.
  rewrite Hparse. by repeat split.
Qed.

Lemma parse_failure_yields_sentinel_witness :
  LLM.parse_null_literal (LLM.cleaned "```json I cannot score this```")
  = Js.Throw {| Js.name := "SyntaxError"; Js.message := "Unexpected token" |}
  ∧ LLM.llmScore LLM.parse_null_literal
      (Js.Normal "```json I cannot score this```")
    = Js.Normal LLM.score_sentinel
  ∧ LLM.llmNarrativeAnalysis LLM.parse_null_literal
      (Js.Normal "```json I cannot score this```")
    = Js.Normal LLM.narratives_sentinel.
Proof.
  split; [reflexivity|].
  destruct (parse_failure_yields_sentinel LLM.parse_null_literal
              "```json I cannot score this```"
              {| Js.name := "SyntaxError"; Js.message := "Unexpected token" |}
              eq_refl) as (H1 & _ & _ & H2 & _).
  split; [exact H1 | exact H2].
Defined.

(** ** Executor: a swap that fails *)

Lemma failed_swap_has_error jupiter tokenAddress solAmount slippage time :
  (∀ request e, jupiter request = Js.Throw e → Js.name e ≠ EmptyString) →
  Trade.success (executeBuy jupiter tokenAddress solAmount slippage time)
    = false →
  Js.ostr_or
    (Trade.error (executeBuy jupiter tokenAddress solAmount slippage time))
    EmptyString ≠ EmptyString.
Proof.
  unfold executeBuy. intros Hnamed.
  destruct (jupiter _) as [f|e] eqn:Hswap; simpl; [done|].
  intros _. specialize (Hnamed _ _ Hswap).
  unfold Js.toString.
  destruct (Js.message e), (Js.name e); simpl; done.
Qed.

(** C7.  When the executor reaches the swap (a wallet is loaded, the number
    of OPEN positions is below the limit, the token is not held and the trade
    size is not below the dust floor) and [executeBuy] returns a result with
    [success = false], the method appends exactly one row to [trade_history],
    a BUY with [success = 0] and a non-empty [error], and leaves the table
    [positions] as it was.  The error text is non-empty because the value that
    the swap threw is an [Error] object, which carries the name of its class. *)
Theorem failed_buy_is_recorded (w : World) (token : Token.info) (score : Q)
    (narrative : string) (s : Swarm) (key : string) (balance : Z) :
  let tradeSize :=
    Math_min (maxPositionSol (config s))
             (inject_Z balance / LAMPORTS_PER_SOL * (3 # 10))%Q in
  let result :=
    executeBuy (jupiter w) (Token.address token) tradeSize
               (slippageBps (config s)) (now w) in
  let s' := exec (executeTrade w token score narrative) s in
  wallet s = Some key →
  Qle_bool (maxConcurrentTrades (config s))
           (inject_Z (Z.of_nat (count_open (db s)))) = false →
  open_position_of (Token.address token) (db s) = None →
  getBalance w = Js.Normal balance →
  Qltb tradeSize (5 # 1000) = false →
  Trade.success result = false →
  (∀ request e, jupiter w request = Js.Throw e → Js.name e ≠ EmptyString) →
  ∃ row,
    trade_history (db s') = (trade_history (db s) ++ [row])%list
    ∧ Ledger.trade_side row = Ledger.BUY
    ∧ Ledger.success row = 0%Z
    ∧ Ledger.error row ≠ EmptyString
    ∧ positions (db s') = positions (db s).
Proof.
  intros tradeSize result s' Hwallet Hmax Hheld Hbal Hsize Hfail Hnamed.
  subst s'. unfold executeTrade. run_method.
  rewrite Hwallet. run_method. rewrite Hmax. run_method.
  rewrite Hheld. run_method. rewrite Hbal. run_method.
  fold tradeSize. rewrite Hsize. run_method.
  fold result. rewrite Hfail. run_method.
  eexists. split; [reflexivity|].
  unfold buy_record. simpl. rewrite Hfail.
  repeat split; try done.
  by apply failed_swap_has_error.
Qed.

Lemma failed_buy_is_recorded_witness :
  ∃ row,
    trade_history
      (db (exec (executeTrade Sample.rejecting (Sample.token "A") 90 "AI")
                Sample.started))
    = [row]
    ∧ Ledger.trade_side row = Ledger.BUY
    ∧ Ledger.success row = 0%Z
    ∧ Ledger.error row ≠ EmptyString
    ∧ positions
        (db (exec (executeTrade Sample.rejecting (Sample.token "A") 90 "AI")
                  Sample.started)) = [].
Proof.
  apply (failed_buy_is_recorded Sample.rejecting (Sample.token "A") 90 "AI"
           Sample.started "pubkey" 1000000000%Z).
  - reflexivity.
  - reflexivity.
  - reflexivity.
  - reflexivity.
  - reflexivity.
  - reflexivity.
  - intros request e H. injection H as <-. discriminate.
Defined.

(** ** Executor: closing a position *)

Lemma position_by_id_update i j f d :
  (∀ r, Pos.id (f r) = Pos.id r) →
  position_by_id i (update_position j f d)
  = if Nat.eqb i j then f <$> position_by_id i d else position_by_id i d.
Proof.
  intros Hf. unfold position_by_id, update_position. simpl.
  induction (positions d) as [|r l IH]; simpl.
  - by destruct (Nat.eqb i j).
  - destruct (Nat.eqb (Pos.id r) j) eqn:Hrj.
    + rewrite Hf. destruct (Nat.eqb (Pos.id r) i) eqn:Hri.
      * apply Nat.eqb_eq in Hrj, Hri. subst.
        by rewrite Nat.eqb_refl.
      * exact IH.
    + destruct (Nat.eqb (Pos.id r) i) eqn:Hri; [|exact IH].
      apply Nat.eqb_eq in Hri. subst i. by rewrite Hrj.
Qed.

(** The state of the database after [closePosition] has sold. *)
Lemma closePosition_sold w positionId reason s key pos :
  wallet s = Some key →
  position_by_id positionId (db s) = Some pos →
  Pos.is_open pos = true →
  let result :=
    executeSell (jupiter w) (Pos.token_address pos) (Pos.token_amount pos)
      (Pos.token_decimals pos) (slippageBps (config s)) (now w) in
  Trade.success result = true →
  db (exec (closePosition w positionId reason) s)
  = update_position positionId
      (Pos.set_closed reason
         (Js.ostr_or (Trade.txHash result) EmptyString) (now w)
         (Js.onum_or (Trade.price result) (Pos.current_price pos))
         (Pos.pnl_pct pos))
      (insert_trade (sell_record pos result) (db s)).
Proof.
  intros Hwallet Hpos Hopen result Hsold.
  unfold closePosition. run_method.
  rewrite Hwallet. run_method. rewrite Hpos. run_method.
  rewrite Hopen. run_method. fold result. rewrite Hsold. run_method.
  by destruct (Pnl.toFixed _).
Qed.

(** The state of the database after [closePosition] has failed to sell. *)
Lemma closePosition_unsold w positionId reason s key pos :
  wallet s = Some key →
  position_by_id positionId (db s) = Some pos →
  Pos.is_open pos = true →
  let result :=
    executeSell (jupiter w) (Pos.token_address pos) (Pos.token_amount pos)
      (Pos.token_decimals pos) (slippageBps (config s)) (now w) in
  Trade.success result = false →
  db (exec (closePosition w positionId reason) s)
  = insert_trade (sell_record pos result) (db s).
Proof.
  intros Hwallet Hpos Hopen result Hsold.
  unfold closePosition. run_method.
  rewrite Hwallet. run_method. rewrite Hpos. run_method.
  rewrite Hopen. run_method. fold result. rewrite Hsold. by run_method.
Qed.

(** [closePosition] does nothing to the database without a wallet, for an
    unknown id and for a position that is not OPEN. *)
Lemma closePosition_noop w positionId reason s :
  wallet s = None
  ∨ position_by_id positionId (db s) = None
  ∨ (∃ pos, position_by_id positionId (db s) = Some pos
            ∧ Pos.is_open pos = false) →
  db (exec (closePosition w positionId reason) s) = db s.
Proof.
  unfold closePosition. run_method.
  intros [Hw | [Hp | (pos & Hp & Ho)]].
  - by rewrite Hw.
  - destruct (wallet s); [|done]. run_method. by rewrite Hp.
  - destruct (wallet s); [|done]. run_method. rewrite Hp. run_method.
    by rewrite Ho.
Qed.

(** C9.  When the sell succeeds, [closePosition] moves the position to the
    close reason and writes [exit_tx], [exit_time] and [current_price] (the
    sale price when the result has one that is not zero, else the stored
    price), while [pnl_pct] is written back as it was read before the sell.
    So the stored PnL is not recomputed from the exit price: there is a run
    after which [pnl_pct] differs from
    [(current_price - entry_price) / entry_price * 100]. *)
Theorem close_writes_back_stored_pnl (w : World) (positionId : nat)
    (reason : Status) (s : Swarm) (key : string) (pos : Pos.row) :
  let result :=
    executeSell (jupiter w) (Pos.token_address pos) (Pos.token_amount pos)
      (Pos.token_decimals pos) (slippageBps (config s)) (now w) in
  let s' := exec (closePosition w positionId reason) s in
  wallet s = Some key →
  position_by_id positionId (db s) = Some pos →
  Pos.is_open pos = true →
  Trade.success result = true →
  (∃ pos',
     position_by_id positionId (db s') = Some pos'
     ∧ Pos.status pos' = reason
     ∧ Pos.exit_tx pos' = Some (Js.ostr_or (Trade.txHash result) EmptyString)
     ∧ Pos.exit_time pos' = Some (now w)
     ∧ Pos.current_price pos'
       = Js.onum_or (Trade.price result) (Pos.current_price pos)
     ∧ Pos.pnl_pct pos' = Pos.pnl_pct pos
     ∧ Pos.entry_price pos' = Pos.entry_price pos)
  ∧ (∃ closed pnl,
       position_by_id 1
         (db (run [OpManualBuy Sample.calm "A" (1 # 100);
                   OpClosePosition Sample.calm 1 CLOSED] Sample.started))
       = Some closed
       ∧ Pos.status closed = CLOSED
       ∧ Pos.pnl_pct closed = Pnl.Num pnl
       ∧ ¬ (pnl
            == (Pos.current_price closed - Pos.entry_price closed)
               / Pos.entry_price closed * 100)%Q).
Proof.
  intros result s' Hwallet Hpos Hopen Hsold. split.
  - subst s'. rewrite (closePosition_sold w positionId reason s key pos) by done.
    rewrite position_by_id_update by done. rewrite Nat.eqb_refl.
    change (position_by_id positionId (insert_trade (sell_record pos _) (db s)))
      with (position_by_id positionId (db s)).
    rewrite Hpos. simpl. eexists. split; [reflexivity|]. by repeat split.
  - clear. eexists. exists 0%Q. split; [vm_compute; reflexivity|].
    split; [reflexivity|]. split; [reflexivity|].
    vm_compute. discriminate.
Qed.

Lemma close_writes_back_stored_pnl_witness :
  ∃ pos',
    position_by_id 1
      (db (exec (closePosition Sample.calm 1 STOPPED)
                (apply (OpManualBuy Sample.calm "A" (1 # 100)) Sample.started)))
    = Some pos'
    ∧ Pos.status pos' = STOPPED
    ∧ Pos.exit_time pos' = Some 1000%Z
    ∧ Pos.pnl_pct pos' = Pnl.Num 0.
Proof.
  destruct (close_writes_back_stored_pnl Sample.calm 1 STOPPED
              (apply (OpManualBuy Sample.calm "A" (1 # 100)) Sample.started)
              "pubkey"
              (opened_position "A" "SYM" 2 (1 # 100)
                 (executeBuy (jupiter Sample.calm) "A" (1 # 100) 500 1000)
                 6 1000 0 "Manual" 1)
              eq_refl eq_refl eq_refl eq_refl)
    as [(pos' & Hfind & Hstatus & _ & Htime & _ & Hpnl & _) _].
  exists pos'. by repeat split.
Defined.

(** ** Stored token decimals *)

Lemma find_elem_of {A} (p : A → bool) (l : list A) (x : A) :
  List.find p l = Some x → x ∈ l.
Proof. intros H. apply find_some in H as [H _]. by apply list_elem_of_In. Qed.

(** [closePosition] asks the swap gateway one question, and its writes depend
    on the gateway through the answer to that question only. *)
Lemma closePosition_request w w' positionId reason s pos :
  position_by_id positionId (db s) = Some pos →
  now w' = now w →
  jupiter w' {| Swap.inputMint := Pos.token_address pos;
                Swap.outputMint := SOL_MINT;
                Swap.amount :=
                  rawAmount (Pos.token_amount pos) (Pos.token_decimals pos);
                Swap.slippageBps := slippageBps (config s) |}
  = jupiter w {| Swap.inputMint := Pos.token_address pos;
                 Swap.outputMint := SOL_MINT;
                 Swap.amount :=
                   rawAmount (Pos.token_amount pos) (Pos.token_decimals pos);
                 Swap.slippageBps := slippageBps (config s) |} →
  db (exec (closePosition w' positionId reason) s)
  = db (exec (closePosition w positionId reason) s).
Proof.
  intros Hpos Hnow Hswap. unfold closePosition. run_method.
  destruct (wallet s); [|done]. run_method. rewrite Hpos. run_method.
  destruct (Pos.is_open pos); [|done]. run_method.
  assert (Hsame :
    executeSell (jupiter w') (Pos.token_address pos) (Pos.token_amount pos)
      (Pos.token_decimals pos) (slippageBps (config s)) (now w')
    = executeSell (jupiter w) (Pos.token_address pos) (Pos.token_amount pos)
        (Pos.token_decimals pos) (slippageBps (config s)) (now w)).
  { unfold executeSell. by rewrite Hswap, Hnow. }
  rewrite Hsame, Hnow.
  by destruct (Trade.success _); run_method.
Qed.

Lemma double_million : Js.double (pow10 6) = 1000000%Q.
Proof. vm_compute. reflexivity. Qed.

(** The amount asked for a position stored with six decimals. *)
Lemma rawAmount_6 tokenAmount :
  rawAmount tokenAmount 6
  = Qfloor (Js.double (Js.double tokenAmount * 1000000)).
Proof. unfold rawAmount. by rewrite double_million. Qed.

(** The product is rounded as the program rounds it: 0.000249 tokens are
    sold as 248 units, where the exact product has 249. *)
Example rawAmount_rounds_down :
  rawAmount (249 # 1000000) 6 = 248%Z
  ∧ Qfloor ((249 # 1000000) * 1000000) = 249%Z.
Proof. split; vm_compute; reflexivity. Qed.

(** The row that [closePosition] adds to [trade_history] records the answer
    of the swap gateway to the request that [executeSell] makes. *)
Lemma closePosition_records w positionId reason s key pos :
  wallet s = Some key →
  position_by_id positionId (db s) = Some pos →
  Pos.is_open pos = true →
  ∃ row,
    trade_history (db (exec (closePosition w positionId reason) s))
    = (trade_history (db s) ++ [row])%list
    ∧ Ledger.trade_side row = Ledger.SELL
    ∧ Ledger.token_amount row = Pos.token_amount pos
    ∧ match jupiter w
              {| Swap.inputMint := Pos.token_address pos;
                 Swap.outputMint := SOL_MINT;
                 Swap.amount :=
                   rawAmount (Pos.token_amount pos) (Pos.token_decimals pos);
                 Swap.slippageBps := slippageBps (config s) |} with
      | Js.Normal f =>
          Ledger.success row = 1%Z ∧ Ledger.tx_hash row = Swap.signature f
      | Js.Throw e => Ledger.success row = 0%Z
      end.
Proof.
  intros Hwallet Hpos Hopen.
  set (result :=
    executeSell (jupiter w) (Pos.token_address pos) (Pos.token_amount pos)
      (Pos.token_decimals pos) (slippageBps (config s)) (now w)).
  exists (sell_record pos result).
  assert (Hhistory :
    trade_history (db (exec (closePosition w positionId reason) s))
    = (trade_history (db s) ++ [sell_record pos result])%list).
  { destruct (Trade.success result) eqn:Hsold.
    - by rewrite (closePosition_sold w positionId reason s key pos).
    - by rewrite (closePosition_unsold w positionId reason s key pos). }
  split; [exact Hhistory|]. split; [done|]. split; [done|].
  subst result. unfold executeSell, sell_record.
  destruct (jupiter w _) as [f|e]; simpl; [|done].
  split; [done|]. by destruct (Swap.signature f).
Qed.

(** C10.  In every state reached from a fresh database, by any operations
    (the autonomous and the manual buy among them), every row of [positions]
    has [token_decimals = 6].  So the raw amount that [executeSell] computes
    for a stored position is [Math.floor(token_amount * 10^6)], the product
    being the double that the multiplication returns.  When [closePosition]
    sells such a position, the swap gateway is asked for that amount of the
    token: the row added to [trade_history] is a SELL of the token amount
    that succeeded exactly when the gateway filled the request for that
    amount, with the signature it returned, and what the gateway would answer
    to other requests changes nothing. *)
Theorem positions_store_six_decimals (cfg : SwarmConfig) (ops : list Op) :
  let s := run ops (new_Swarm cfg empty_db) in
  decimals_6 (db s)
  ∧ (∀ pos, pos ∈ positions (db s) →
       rawAmount (Pos.token_amount pos) (Pos.token_decimals pos)
       = Qfloor (Js.double (Js.double (Pos.token_amount pos) * 1000000)))
  ∧ (∀ w positionId reason key pos,
       wallet s = Some key →
       position_by_id positionId (db s) = Some pos →
       Pos.is_open pos = true →
       ∃ row,
         trade_history (db (exec (closePosition w positionId reason) s))
         = (trade_history (db s) ++ [row])%list
         ∧ Ledger.trade_side row = Ledger.SELL
         ∧ Ledger.token_amount row = Pos.token_amount pos
         ∧ match jupiter w
                   {| Swap.inputMint := Pos.token_address pos;
                      Swap.outputMint := SOL_MINT;
                      Swap.amount :=
                        Qfloor (Js.double
                                  (Js.double (Pos.token_amount pos) * 1000000));
                      Swap.slippageBps := slippageBps (config s) |} with
           | Js.Normal f =>
               Ledger.success row = 1%Z
               ∧ Ledger.tx_hash row = Swap.signature f
           | Js.Throw e => Ledger.success row = 0%Z
           end)
  ∧ (∀ w w' positionId reason pos,
       position_by_id positionId (db s) = Some pos →
       now w' = now w →
       jupiter w'
         {| Swap.inputMint := Pos.token_address pos;
            Swap.outputMint := SOL_MINT;
            Swap.amount :=
              Qfloor (Js.double (Js.double (Pos.token_amount pos) * 1000000));
            Swap.slippageBps := slippageBps (config s) |}
       = jupiter w
           {| Swap.inputMint := Pos.token_address pos;
              Swap.outputMint := SOL_MINT;
              Swap.amount :=
                Qfloor (Js.double (Js.double (Pos.token_amount pos) * 1000000));
              Swap.slippageBps := slippageBps (config s) |} →
       db (exec (closePosition w' positionId reason) s)
       = db (exec (closePosition w positionId reason) s)).
Proof.
  intros s.
  assert (H6 : decimals_6 (db s)).
  { apply (decimals_follows true (new_Swarm cfg empty_db)).
    - apply follows_run.
    - constructor. }
  assert (Hraw : ∀ pos, pos ∈ positions (db s) →
            rawAmount (Pos.token_amount pos) (Pos.token_decimals pos)
            = Qfloor (Js.double (Js.double (Pos.token_amount pos) * 1000000))).
  { intros pos Hpos. unfold decimals_6 in H6. rewrite Forall_forall in H6.
    rewrite (H6 pos Hpos). apply rawAmount_6. }
  split; [exact H6|]. split; [exact Hraw|]. split.
  - intros w positionId reason key pos Hwallet Hpos Hopen.
    rewrite <- Hraw by (by apply (find_elem_of _ _ _ Hpos)).
    by apply (closePosition_records w positionId reason s key pos).
  - intros w w' positionId reason pos Hpos Hnow Hswap.
    apply (closePosition_request w w' positionId reason s pos); try done.
    rewrite Hraw; [exact Hswap|].
    by apply (find_elem_of _ _ _ Hpos).
Qed.

Example manual_and_auto_rows_have_six_decimals :
  Pos.token_decimals
    <$> positions
          (db (run [OpManualBuy Sample.calm "A" (1 # 100);
                    OpExecuteTrade Sample.calm (Sample.token "B") 90 "AI"]
                   Sample.started_roomy))
  = [6%Z; 6%Z].
Proof. vm_compute. reflexivity. Qed.

(** ** The limit on OPEN positions *)




(** ** One OPEN position for each token *)

(** [executeTrade] on a token that is held writes nothing. *)
Lemma executeTrade_skips_held w token score narrative s held :
  open_position_of (Token.address token) (db s) = Some held →
  db (exec (executeTrade w token score narrative) s) = db s.
Proof.
  intros Hheld. unfold executeTrade. run_method.
  destruct (wallet s); [|done]. run_method.
  destruct (Qle_bool _ _); [done|]. run_method. by rewrite Hheld.
Qed.

(** C2, as the specification states it, fails: two manual buys of one token
    leave two OPEN rows for it. *)
Lemma manual_buy_duplicates_open_position :
  ¬ one_open_per_token
      (db (run [OpStart Sample.calm Sample.calm Sample.calm (λ _, Sample.calm);
                OpManualBuy Sample.calm "A" (1 # 100);
                OpManualBuy Sample.calm "A" (1 # 100)]
               (new_Swarm Sample.roomy empty_db))).
Proof. intros H. specialize (H "A"). vm_compute in H. lia. Qed.

(** C2, amended.  Every operation other than [manualBuy], run to its end,
    keeps at most one OPEN row for each token address, and an autonomous buy
    of a token that has an OPEN position writes nothing to the database.
    [manualBuy] does not look for an OPEN position of the token. *)
Theorem auto_trades_keep_one_open_per_token (cfg : SwarmConfig) (stored : DB)
    (ops : list Op) :
  db_wf stored →
  one_open_per_token stored →
  forallb (λ op, negb (is_manual_buy op)) ops = true →
  one_open_per_token (db (run ops (new_Swarm cfg stored)))
  ∧ (∀ w token score narrative held,
       open_position_of (Token.address token)
         (db (run ops (new_Swarm cfg stored))) = Some held →
       db (exec (executeTrade w token score narrative)
                (run ops (new_Swarm cfg stored)))
       = db (run ops (new_Swarm cfg stored))).
Proof.
  intros Hwf Hone Hops. split.
  - apply (single_follows (new_Swarm cfg stored)); try done.
    by apply follows_run_auto.
  - intros w token score narrative held.
    apply executeTrade_skips_held.
Qed.

Lemma auto_trades_keep_one_open_per_token_witness :
  length
    (positions
       (db (run [OpStart Sample.calm Sample.calm Sample.calm (λ _, Sample.calm);
                 OpExecuteTrade Sample.calm (Sample.token "A") 90 "AI";
                 OpExecuteTrade Sample.calm (Sample.token "A") 95 "AI"]
                (new_Swarm Sample.roomy empty_db)))) = 1
  ∧ one_open_per_token
      (db (run [OpStart Sample.calm Sample.calm Sample.calm (λ _, Sample.calm);
                OpExecuteTrade Sample.calm (Sample.token "A") 90 "AI";
                OpExecuteTrade Sample.calm (Sample.token "A") 95 "AI"]
               (new_Swarm Sample.roomy empty_db))).
Proof.
  split; [reflexivity|].
  apply (auto_trades_keep_one_open_per_token Sample.roomy empty_db).
  - apply empty_db_wf.
  - intros a. simpl. lia.
  - reflexivity.
Defined.

(** ** Manual trades *)

(** What [manualBuy] writes once the wallet is loaded and the token found. *)
Lemma manualBuy_writes w tokenAddress solAmount s key token :
  wallet s = Some key →
  getTokenByAddress w tokenAddress = Some token →
  let result :=
    executeBuy (jupiter w) tokenAddress solAmount (slippageBps (config s))
               (now w) in
  db (exec (manualBuy w tokenAddress solAmount) s)
  = if Trade.success result
    then insert_position
           (opened_position tokenAddress (Token.symbol token)
              (Token.price token) solAmount result 6 (now w) 0 "Manual")
           (insert_trade
              (buy_record tokenAddress (Token.symbol token) solAmount result)
              (db s))
    else insert_trade
           (buy_record tokenAddress (Token.symbol token) solAmount result)
           (db s).
Proof.
  intros Hwallet Htoken result. unfold manualBuy. run_method.
  rewrite Hwallet. run_method. rewrite Htoken. run_method. fold result.
  by destruct (Trade.success result); run_method.
Qed.

(** What [executeTrade] writes once its four checks have passed. *)
Lemma executeTrade_writes w token score narrative s key balance :
  let tradeSize :=
    Math_min (maxPositionSol (config s))
             (inject_Z balance / LAMPORTS_PER_SOL * (3 # 10))%Q in
  let result :=
    executeBuy (jupiter w) (Token.address token) tradeSize
               (slippageBps (config s)) (now w) in
  wallet s = Some key →
  Qle_bool (maxConcurrentTrades (config s))
           (inject_Z (Z.of_nat (count_open (db s)))) = false →
  open_position_of (Token.address token) (db s) = None →
  getBalance w = Js.Normal balance →
  Qltb tradeSize (5 # 1000) = false →
  db (exec (executeTrade w token score narrative) s)
  = if Trade.success result
    then insert_position
           (opened_position (Token.address token) (Token.symbol token)
              (Token.price token) tradeSize result 6 (now w) score narrative)
           (insert_trade
              (buy_record (Token.address token) (Token.symbol token)
                          tradeSize result)
              (db s))
    else insert_trade
           (buy_record (Token.address token) (Token.symbol token)
                       tradeSize result)
           (db s).
Proof.
  intros tradeSize result Hwallet Hmax Hheld Hbal Hsize.
  unfold executeTrade. run_method.
  rewrite Hwallet. run_method. rewrite Hmax. run_method.
  rewrite Hheld. run_method. rewrite Hbal. run_method.
  fold tradeSize. rewrite Hsize. run_method. fold result.
  by destruct (Trade.success result); run_method.
Qed.

(** Without a wallet neither buy path nor the manual sell writes anything,
    and the manual paths answer [null]. *)
Lemma no_wallet_no_writes w token score narrative tokenAddress solAmount
    positionId s :
  wallet s = None →
  db (exec (executeTrade w token score narrative) s) = db s
  ∧ db (exec (manualBuy w tokenAddress solAmount) s) = db s
  ∧ snd (manualBuy w tokenAddress solAmount s) = Js.Normal None
  ∧ db (exec (manualSell w positionId) s) = db s
  ∧ snd (manualSell w positionId s) = Js.Normal None.
Proof.
  intros Hwallet. unfold executeTrade, manualBuy, manualSell. run_method.
  rewrite Hwallet. by run_method.
Qed.

(** [manualSell] writes what [closePosition] with reason CLOSED writes. *)
Lemma manualSell_is_closePosition w positionId s :
  db (exec (manualSell w positionId) s)
  = db (exec (closePosition w positionId CLOSED) s).
Proof.
  unfold manualSell. run_method.
  destruct (wallet s) eqn:Hwallet.
  - run_method. destruct (List.find _ _) as [pos|] eqn:Hfind; run_method.
    + unfold closePosition. run_method. rewrite Hwallet. run_method.
      destruct (position_by_id _ _) as [p|]; run_method; [|done].
      destruct (Pos.is_open p); run_method; [|done].
      destruct (Trade.success _); run_method; [|done].
      by destruct (Pnl.toFixed _).
    + symmetry. apply closePosition_noop. right.
      destruct (position_by_id positionId (db s)) as [p|] eqn:Hp; [|by left].
      right. exists p. split; [done|].
      destruct (Pos.is_open p) eqn:Hopen; [|done].
      exfalso. unfold position_by_id in Hp.
      apply find_some in Hp as [Hin Hid].
      pose proof (find_none _ _ Hfind p Hin) as Hnone. simpl in Hnone.
      rewrite Hid, Hopen in Hnone. discriminate.
  - run_method. unfold closePosition. run_method. by rewrite Hwallet.
Qed.

(** C3, as the specification states it, fails: with the limit of one position
    reached, the executor refuses a buy of the size that the manual path
    carries out. *)
Lemma manual_buy_skips_refusal_checks :
  db (exec (manualBuy Sample.calm "B" (5 # 100))
           (apply (OpManualBuy Sample.calm "A" (5 # 100)) Sample.started))
  ≠ db (exec (executeTrade Sample.calm (Sample.token "B") 0 "Manual")
             (apply (OpManualBuy Sample.calm "A" (5 # 100)) Sample.started)).
Proof.
  intros H. apply (f_equal (λ d, length (positions d))) in H.
  vm_compute in H. discriminate.
Qed.

(** C3, amended.  Without a wallet both buy paths and the manual sell refuse
    alike: nothing is written, and the manual paths answer [null].  With a
    wallet loaded and the token found, [manualBuy] goes to the swap with the
    amount of the caller whatever the number of OPEN positions, the positions
    held and the size: it appends the BUY row and, on success, inserts an OPEN
    position with six decimals, score 0 and narrative Manual, both under the
    address that the caller gave.  Whenever the checks of [executeTrade] pass
    and its trade size is that amount, [executeTrade] called with the token
    data under that address, score 0 and narrative Manual makes the same
    writes.  [manualSell] makes the writes of [closePosition] with reason
    CLOSED. *)
Theorem manual_trades_share_the_writes (w : World) (tokenAddress : string)
    (solAmount : Q) (s : Swarm) :
  let result :=
    executeBuy (jupiter w) tokenAddress solAmount (slippageBps (config s))
               (now w) in
  (wallet s = None →
   ∀ token score narrative positionId,
     db (exec (executeTrade w token score narrative) s) = db s
     ∧ db (exec (manualBuy w tokenAddress solAmount) s) = db s
     ∧ snd (manualBuy w tokenAddress solAmount s) = Js.Normal None
     ∧ db (exec (manualSell w positionId) s) = db s
     ∧ snd (manualSell w positionId s) = Js.Normal None)
  ∧ (∀ key token,
       wallet s = Some key →
       getTokenByAddress w tokenAddress = Some token →
       db (exec (manualBuy w tokenAddress solAmount) s)
       = (if Trade.success result
          then insert_position
                 (opened_position tokenAddress (Token.symbol token)
                    (Token.price token) solAmount result 6 (now w) 0 "Manual")
                 (insert_trade
                    (buy_record tokenAddress (Token.symbol token) solAmount
                                result)
                    (db s))
          else insert_trade
                 (buy_record tokenAddress (Token.symbol token) solAmount result)
                 (db s))
       ∧ ∀ balance,
           Qle_bool (maxConcurrentTrades (config s))
                    (inject_Z (Z.of_nat (count_open (db s)))) = false →
           open_position_of tokenAddress (db s) = None →
           getBalance w = Js.Normal balance →
           Math_min (maxPositionSol (config s))
                    (inject_Z balance / LAMPORTS_PER_SOL * (3 # 10))%Q
           = solAmount →
           Qltb solAmount (5 # 1000) = false →
           db (exec (executeTrade w (filed_under tokenAddress token)
                                  0 "Manual") s)
           = db (exec (manualBuy w tokenAddress solAmount) s))
  ∧ (∀ positionId,
       db (exec (manualSell w positionId) s)
       = db (exec (closePosition w positionId CLOSED) s)).
Proof.
  intros result. split; [|split].
  - intros Hwallet token score narrative positionId.
    by apply no_wallet_no_writes.
  - intros key token Hwallet Htoken.
    pose proof (manualBuy_writes w tokenAddress solAmount s key token
                  Hwallet Htoken) as Hmanual.
    split; [exact Hmanual|].
    intros balance Hmax Hheld Hbal Hsize Hdust.
    rewrite Hmanual.
    rewrite (executeTrade_writes w (filed_under tokenAddress token) 0 "Manual"
               s key balance);
      cbn [filed_under Token.address Token.symbol Token.price];
      rewrite ?Hsize; done.
  - intros positionId. apply manualSell_is_closePosition.
Qed.

Lemma manual_trades_share_the_writes_witness :
  db (exec (executeTrade Sample.calm (filed_under "A" (Sample.token "Z"))
                         0 "Manual")
           Sample.started_roomy)
  = db (exec (manualBuy Sample.listing "A" (5 # 100)) Sample.started_roomy)
  ∧ length
      (positions
         (db (exec (manualBuy Sample.listing "A" (5 # 100))
                   Sample.started_roomy))) = 1.
Proof.
  destruct (manual_trades_share_the_writes Sample.listing "A" (5 # 100)
              Sample.started_roomy) as (_ & Hfound & _).
  destruct (Hfound "pubkey" (Sample.token "Z") eq_refl eq_refl)
    as [_ Hsame].
  split.
  - rewrite <- (Hsame 1000000000%Z); reflexivity.
  - vm_compute. reflexivity.
Defined.

(** ** Start *)

(** A method that returns hands its state to what follows it. *)
Lemma seq_returns {B} (m : M unit) (k : M B) s :
  returns m → bind m (λ _, k) s = k (fst (m s)).
Proof.
  intros Hm. unfold bind. destruct (Hm s) as [a Ha].
  destruct (m s) as [s1 c]. simpl in *. by subst c.
Qed.

Lemma returns_deployAll w : returns (deployAll w).
Proof. unfold deployAll, deploy. returns_tac. Qed.

Lemma mark_lookup w id status lastResult s id' :
  Agent.status <$> agents (mark w id status lastResult s) !! id'
  = if decide (id = id')
    then (λ _, status) <$> agents s !! id'
    else Agent.status <$> agents s !! id'.
Proof.
  unfold mark. destruct (agents s !! id) as [a|] eqn:Ha; simpl.
  - rewrite lookup_insert. destruct (decide (id = id')) as [<-|]; [|done].
    by rewrite Ha.
  - destruct (decide (id = id')) as [<-|]; [|done]. by rewrite Ha.
Qed.

Lemma exec_seq {B} (m : M unit) (k : M B) s :
  returns m → exec (bind m (λ _, k)) s = exec k (exec m s).
Proof. intros Hm. unfold exec. by rewrite seq_returns. Qed.

Lemma exec_setAgentStatus w id status lastResult s :
  exec (setAgentStatus w id status lastResult) s
  = mark w id status lastResult s.
Proof. done. Qed.

Lemma log_frame w agent kind message s :
  running (exec (log w agent kind message) s) = running s
  ∧ intervals (exec (log w agent kind message) s) = intervals s
  ∧ agents (exec (log w agent kind message) s) = agents s
  ∧ config (exec (log w agent kind message) s) = config s
  ∧ db (exec (log w agent kind message) s) = db s.
Proof. done. Qed.

Lemma deploy_frame w id name s :
  running (exec (deploy w id name) s) = running s
  ∧ intervals (exec (deploy w id name) s) = intervals s
  ∧ config (exec (deploy w id name) s) = config s.
Proof. unfold deploy. run_method. by autorewrite with swarm. Qed.

Lemma deploy_agents w id name s id' :
  Agent.status <$> agents (exec (deploy w id name) s) !! id'
  = if decide (id = id')
    then (λ _, Agent.running) <$> agents s !! id'
    else Agent.status <$> agents s !! id'.
Proof. unfold deploy. run_method. apply mark_lookup. Qed.

Lemma deploy_present w id name s id' :
  is_Some (agents s !! id') → is_Some (agents (exec (deploy w id name) s) !! id').
Proof.
  intros [a Ha]. rewrite <- (fmap_is_Some Agent.status), deploy_agents, Ha.
  by destruct (decide (id = id')).
Qed.

Lemma deploy_hit w id name s :
  is_Some (agents s !! id) → marked (exec (deploy w id name) s) id.
Proof.
  intros [a Ha]. unfold marked. rewrite deploy_agents, Ha.
  by rewrite decide_True.
Qed.

Lemma deploy_keep w id name s id' :
  marked s id' → marked (exec (deploy w id name) s) id'.
Proof.
  unfold marked. intros H. rewrite deploy_agents.
  destruct (decide (id = id')); [|done].
  by destruct (agents s !! id').
Qed.

(** After [deployAll] the swarm is running, its timers are as before and every
    agent that the constructor defines is marked running. *)
Lemma deployAll_marks_all w s :
  running (exec (deployAll w) s) = true
  ∧ intervals (exec (deployAll w) s) = intervals s
  ∧ config (exec (deployAll w) s) = config s
  ∧ ∀ id, id ∈ agentDefs.*1 → is_Some (agents s !! id) →
      marked (exec (deployAll w) s) id.
Proof.
  unfold deployAll.
  rewrite exec_seq by apply returns_modify.
  do 6 (rewrite exec_seq by (unfold deploy; returns_tac)).
  set (s0 := exec (modify (set_running true)) s).
  set (s1 := exec (deploy w "narrative" "Narrative Scanner") s0).
  set (s2 := exec (deploy w "hunter" "Coin Hunter") s1).
  set (s3 := exec (deploy w "whale" "Whale Tracker") s2).
  set (s4 := exec (deploy w "risk" "Risk Manager") s3).
  set (s5 := exec (deploy w "executor" "Executor") s4).
  set (s6 := exec (deploy w "backtest" "Backtester") s5).
  unfold marked.
  destruct (log_frame w "orchestrator" Log.success Log.AllAgentsOnline s6)
    as (-> & -> & -> & -> & _).
  destruct (deploy_frame w "backtest" "Backtester" s5) as (R6 & I6 & C6).
  destruct (deploy_frame w "executor" "Executor" s4) as (R5 & I5 & C5).
  destruct (deploy_frame w "risk" "Risk Manager" s3) as (R4 & I4 & C4).
  destruct (deploy_frame w "whale" "Whale Tracker" s2) as (R3 & I3 & C3).
  destruct (deploy_frame w "hunter" "Coin Hunter" s1) as (R2 & I2 & C2).
  destruct (deploy_frame w "narrative" "Narrative Scanner" s0)
    as (R1 & I1 & C1).
  fold s1 in R1, I1, C1. fold s2 in R2, I2, C2. fold s3 in R3, I3, C3.
  fold s4 in R4, I4, C4. fold s5 in R5, I5, C5. fold s6 in R6, I6, C6.
  split; [by rewrite R6, R5, R4, R3, R2, R1|].
  split; [by rewrite I6, I5, I4, I3, I2, I1|].
  split; [by rewrite C6, C5, C4, C3, C2, C1|].
  intros id Hid Ha.
  assert (H0 : is_Some (agents s0 !! id)) by exact Ha.
  fold (marked s6 id). subst s6 s5 s4 s3 s2 s1. cbn in Hid.
  repeat (apply elem_of_cons in Hid as [->|Hid];
          [by repeat first [ apply deploy_hit | apply deploy_keep
                           | apply deploy_present ] |]).
  by apply elem_of_nil in Hid.
Qed.

(** The wallet block writes neither agents, timers, flag nor database. *)
Lemma loadWallet_untouched w cfg s :
  untouched s (fst (loadWallet w cfg s))
  ∧ config (fst (loadWallet w cfg s)) = config s.
Proof.
  unfold loadWallet, untouched.
  destruct (Js.falsy (walletKey cfg)); run_method; [done|].
  destruct (createWallet w); run_method; [|done].
  by destruct (getBalance w); run_method.
Qed.

Lemma loadWallet_fails w cfg s :
  Js.falsy (walletKey cfg) = false →
  (∃ e, createWallet w = Js.Throw e ∨ getBalance w = Js.Throw e) →
  snd (loadWallet w cfg s) = Js.Normal false.
Proof.
  intros Hkey [e He]. unfold loadWallet. rewrite Hkey. run_method.
  destruct (createWallet w) as [key|e1]; run_method; [|done].
  destruct He as [He|He]; [done|]. by rewrite He.
Qed.

Lemma loadWallet_succeeds w cfg s :
  Js.falsy (walletKey cfg) = true
  ∨ (∃ key bal, createWallet w = Js.Normal key ∧ getBalance w = Js.Normal bal) →
  snd (loadWallet w cfg s) = Js.Normal true.
Proof.
  unfold loadWallet. intros [Hkey | (key & bal & Hk & Hb)].
  - by rewrite Hkey.
  - destruct (Js.falsy (walletKey cfg)); [done|]. run_method.
    rewrite Hk. run_method. by rewrite Hb.
Qed.

(** [start] once the configuration has passed validation. *)
Lemma start_validated w wn wh each s :
  running s = false →
  Js.falsy (openrouterKey (config s)) = false →
  Js.falsy (rpcUrl (config s)) = false →
  getConnection w (rpcUrl (config s)) = Js.Normal tt →
  start w wn wh each s
  = bind (loadWallet w (config s))
      (λ loaded,
         if negb loaded then ret tt
         else bind (deployAll w) (λ _,
              bind (runNarrativeScanner wn) (λ _,
              bind (runCoinHunter wh each) (λ _,
              modify (λ s2,
                set_intervals (intervals s2 ++ schedule (config s)) s2)))))
      (set_connection (Some (rpcUrl (config s)))
         (set_llmConfig
            (Some {| apiKey := openrouterKey (config s);
                     llm_model :=
                       Js.str_or (model (config s)) "deepseek/deepseek-chat" |})
            (exec (log w "orchestrator" Log.cmd Log.Initializing) s))).
Proof.
  intros Hrun Hkey Hrpc Hconn. unfold start.
  unfold bind at 1, gets at 1. rewrite Hrun.
  unfold bind at 1, log at 1, modify at 1.
  unfold bind at 1, gets at 1. cbn [config set_emitted].
  rewrite Hkey, Hrpc.
  unfold bind at 1, modify at 1. unfold bind at 1, await at 1.
  rewrite Hconn. unfold bind at 1, modify at 1.
  reflexivity.
Qed.

(** [start] when the connection cannot be opened: the exception leaves
    [start] after the log entry and the reasoning configuration. *)
Lemma start_unconnected w wn wh each s e :
  running s = false →
  Js.falsy (openrouterKey (config s)) = false →
  Js.falsy (rpcUrl (config s)) = false →
  getConnection w (rpcUrl (config s)) = Js.Throw e →
  start w wn wh each s
  = (set_llmConfig
       (Some {| apiKey := openrouterKey (config s);
                llm_model :=
                  Js.str_or (model (config s)) "deepseek/deepseek-chat" |})
       (exec (log w "orchestrator" Log.cmd Log.Initializing) s),
     Js.Throw e).
Proof.
  intros Hrun Hkey Hrpc Hconn. unfold start.
  unfold bind at 1, gets at 1. rewrite Hrun.
  unfold bind at 1, log at 1, modify at 1.
  unfold bind at 1, gets at 1. cbn [config set_emitted].
  rewrite Hkey, Hrpc.
  unfold bind at 1, modify at 1. unfold bind at 1, await at 1.
  rewrite Hconn. reflexivity.
Qed.

(** The constructor defines the six agents that [start] deploys. *)
Lemma new_Swarm_agents cfg stored id :
  is_Some (agents (new_Swarm cfg stored) !! id) ↔ id ∈ agentDefs.*1.
Proof.
  unfold new_Swarm. cbn [agents fold_left agentDefs fst snd fmap list_fmap].
  rewrite !lookup_insert_is_Some', lookup_empty, is_Some_alt.
  rewrite !elem_of_cons, elem_of_nil. intuition congruence.
Qed.

(** [start] on a swarm that is running does nothing. *)
Lemma start_when_running w wn wh each s :
  running s = true → start w wn wh each s = (s, Js.Normal tt).
Proof.
  intros Hrun. unfold start. unfold bind at 1, gets at 1. by rewrite Hrun.
Qed.

Lemma exec_start_unloaded w wn wh each s :
  running s = false →
  Js.falsy (openrouterKey (config s)) = false →
  Js.falsy (rpcUrl (config s)) = false →
  getConnection w (rpcUrl (config s)) = Js.Normal tt →
  snd (loadWallet w (config s) (validated w s)) = Js.Normal false →
  exec (start w wn wh each) s = fst (loadWallet w (config s) (validated w s)).
Proof.
  intros Hrun Hkey Hrpc Hconn Hload. unfold exec.
  rewrite start_validated by done. unfold bind at 1. fold (validated w s).
  destruct (loadWallet w (config s) (validated w s)) as [s1 c].
  simpl in Hload. subst c. reflexivity.
Qed.

Lemma exec_start_loaded w wn wh each s :
  running s = false →
  Js.falsy (openrouterKey (config s)) = false →
  Js.falsy (rpcUrl (config s)) = false →
  getConnection w (rpcUrl (config s)) = Js.Normal tt →
  snd (loadWallet w (config s) (validated w s)) = Js.Normal true →
  exec (start w wn wh each) s
  = exec (bind (deployAll w) (λ _,
          bind (runNarrativeScanner wn) (λ _,
          bind (runCoinHunter wh each) (λ _,
          modify (λ s2,
            set_intervals (intervals s2 ++ schedule (config s)) s2)))))
         (fst (loadWallet w (config s) (validated w s))).
Proof.
  intros Hrun Hkey Hrpc Hconn Hload. unfold exec.
  rewrite start_validated by done. unfold bind at 1. fold (validated w s).
  destruct (loadWallet w (config s) (validated w s)) as [s1 c].
  simpl in Hload. subst c. reflexivity.
Qed.

(** [start] when the configuration fails validation. *)
Lemma start_rejected w wn wh each s :
  running s = false →
  Js.falsy (openrouterKey (config s)) = true
  ∨ Js.falsy (rpcUrl (config s)) = true →
  ∃ message,
    start w wn wh each s
    = log w "orchestrator" Log.error message
        (exec (log w "orchestrator" Log.cmd Log.Initializing) s).
Proof.
  intros Hrun Hmissing. unfold start.
  unfold bind at 1, gets at 1. rewrite Hrun.
  unfold bind at 1, log at 1, modify at 1.
  unfold bind at 1, gets at 1. cbn [config set_emitted].
  destruct (Js.falsy (openrouterKey (config s))); [by eexists|].
  destruct Hmissing as [?|Hrpc]; [done|]. rewrite Hrpc. by eexists.
Qed.

Lemma running_set_intervals l s : running (set_intervals l s) = running s.
Proof. reflexivity. Qed.

(** The part of [start] that follows the wallet block. *)
Lemma launch_unfolds w wn wh each cfg s :
  exec (bind (deployAll w) (λ _,
        bind (runNarrativeScanner wn) (λ _,
        bind (runCoinHunter wh each) (λ _,
        modify (λ s2, set_intervals (intervals s2 ++ schedule cfg) s2))))) s
  = set_intervals
      (intervals (exec (runCoinHunter wh each)
                    (exec (runNarrativeScanner wn) (exec (deployAll w) s)))
       ++ schedule cfg)
      (exec (runCoinHunter wh each)
         (exec (runNarrativeScanner wn) (exec (deployAll w) s))).
Proof.
  rewrite exec_seq by apply returns_deployAll.
  rewrite exec_seq by apply returns_runNarrativeScanner.
  rewrite exec_seq by apply returns_runCoinHunter.
  reflexivity.
Qed.

(** C5, as the specification states it, fails: with the API key, the endpoint
    and a wallet key all present, [start] still deploys and schedules nothing
    when the wallet key cannot be decoded. *)
Lemma start_aborts_on_undecodable_wallet_key :
  Js.falsy (openrouterKey Sample.cfg) = false
  ∧ Js.falsy (rpcUrl Sample.cfg) = false
  ∧ Js.falsy (walletKey Sample.cfg) = false
  ∧ intervals
      (apply (OpStart Sample.bad_key Sample.calm Sample.calm (λ _, Sample.calm))
             (new_Swarm Sample.cfg empty_db)) = []
  ∧ running
      (apply (OpStart Sample.bad_key Sample.calm Sample.calm (λ _, Sample.calm))
             (new_Swarm Sample.cfg empty_db)) = false
  ∧ Agent.status
      <$> (map_to_list
             (agents
                (apply (OpStart Sample.bad_key Sample.calm Sample.calm
                                (λ _, Sample.calm))
                       (new_Swarm Sample.cfg empty_db)))).*2
    = replicate 6 Agent.idle.
Proof. repeat split; vm_compute; reflexivity. Qed.

(** An endpoint without a scheme: [start] throws, and the swarm is neither
    running nor scheduled. *)
Example start_throws_on_endpoint_without_scheme :
  let s := new_Swarm Sample.no_scheme empty_db in
  let out := start Sample.calm Sample.calm Sample.calm (λ _, Sample.calm) s in
  snd out
  = Js.Throw (Js.TypeError "Endpoint URL must start with http: or https:")
  ∧ running (fst out) = false
  ∧ intervals (fst out) = []
  ∧ connection (fst out) = None.
Proof. repeat split; vm_compute; reflexivity. Qed.

(** C5, amended.  [start] on a running swarm changes nothing.  For a swarm
    that is not running, [start] writes nothing to the agents, the timers,
    the running flag and the database when the API key or the endpoint is
    empty; when opening the connection to the endpoint throws, in which case
    [start] throws that exception; and when a wallet key is configured but
    creating the wallet or reading its balance throws.  Otherwise (the
    connection opens, and the wallet key is empty or the wallet loads) it
    sets the running flag and marks every agent running, runs one narrative
    scan and then one hunter scan, and after them appends four timers: the
    narrative scan every [2 * scanInterval], the hunter scan every
    [scanInterval], the risk check every 30000 ms and the price update every
    20000 ms, where [scanInterval] is [scanIntervalMs], or 60000 when that is
    zero. *)
Theorem start_aborts_or_schedules (w wn wh : World) (each : string → World)
    (s : Swarm) :
  let cfg := config s in
  let s' := exec (start w wn wh each) s in
  let scanInterval := Js.num_or (scanIntervalMs cfg) 60000 in
  (running s = true → s' = s)
  ∧ (running s = false →
     (Js.falsy (openrouterKey cfg) = true ∨ Js.falsy (rpcUrl cfg) = true →
        untouched s s')
     ∧ (Js.falsy (openrouterKey cfg) = false →
        Js.falsy (rpcUrl cfg) = false →
        ∀ e, getConnection w (rpcUrl cfg) = Js.Throw e →
          untouched s s'
          ∧ connection s' = connection s
          ∧ snd (start w wn wh each s) = Js.Throw e)
     ∧ (Js.falsy (openrouterKey cfg) = false →
        Js.falsy (rpcUrl cfg) = false →
        getConnection w (rpcUrl cfg) = Js.Normal tt →
        Js.falsy (walletKey cfg) = false →
        (∃ e, createWallet w = Js.Throw e ∨ getBalance w = Js.Throw e) →
        untouched s s')
     ∧ (Js.falsy (openrouterKey cfg) = false →
        Js.falsy (rpcUrl cfg) = false →
        getConnection w (rpcUrl cfg) = Js.Normal tt →
        Js.falsy (walletKey cfg) = true
        ∨ (∃ key bal,
             createWallet w = Js.Normal key ∧ getBalance w = Js.Normal bal) →
        ∃ s1,
          running s1 = true
          ∧ intervals s1 = intervals s
          ∧ (∀ id, id ∈ agentDefs.*1 → is_Some (agents s !! id) → marked s1 id)
          ∧ s' = set_intervals
                   (intervals s
                    ++ [ {| task := NarrativeScan; delay := (scanInterval * 2)%Q |};
                         {| task := HunterScan; delay := scanInterval |};
                         {| task := RiskCheck; delay := 30000 |};
                         {| task := PriceUpdate; delay := 20000 |} ])
                   (exec (runCoinHunter wh each)
                         (exec (runNarrativeScanner wn) s1))
          ∧ running s' = true)).
Proof.
  intros cfg s' scanInterval. split.
  { intros Hrun. subst s'. unfold exec.
    by rewrite start_when_running. }
  intros Hrun. split; [|split; [|split]].
  - intros Hmissing.
    destruct (start_rejected w wn wh each s Hrun Hmissing) as [message Heq].
    subst s'. unfold untouched, exec. rewrite Heq. by repeat split.
  - intros Hkey Hrpc e Hconn. subst s'. unfold untouched, exec.
    rewrite (start_unconnected w wn wh each s e) by done. by repeat split.
  - intros Hkey Hrpc Hconn Hwallet Hthrown. subst s'.
    pose proof (loadWallet_fails w cfg (validated w s) Hwallet Hthrown)
      as Hfails.
    rewrite exec_start_unloaded by done.
    destruct (loadWallet_untouched w cfg (validated w s))
      as [(Ha & Hi & Hr & Hd) _].
    unfold untouched. fold cfg. by rewrite Ha, Hi, Hr, Hd.
  - intros Hkey Hrpc Hconn Hloads. subst s'.
    pose proof (loadWallet_succeeds w cfg (validated w s) Hloads) as Hok.
    rewrite exec_start_loaded by done. fold cfg.
    destruct (loadWallet_untouched w cfg (validated w s))
      as [(Ha & Hi & Hr & Hd) Hc].
    set (s1 := fst (loadWallet w cfg (validated w s))) in *.
    destruct (deployAll_marks_all w s1) as (Hr1 & Hi1 & Hc1 & Hm1).
    exists (exec (deployAll w) s1).
    split; [exact Hr1|]. split; [rewrite Hi1; exact Hi|].
    split; [intros id Hid Hsome; apply Hm1; [exact Hid | by rewrite Ha]|].
    rewrite launch_unfolds.
    destruct (quiet_runNarrativeScanner false wn (exec (deployAll w) s1))
      as (_ & _ & Hr2 & Hi2 & _).
    destruct (quiet_runCoinHunter false wh each
                (exec (runNarrativeScanner wn) (exec (deployAll w) s1)))
      as (_ & _ & Hr3 & Hi3 & _).
    split.
    + rewrite Hi3, Hi2, Hi1, Hi. reflexivity.
    + rewrite running_set_intervals, Hr3, Hr2. exact Hr1.
Qed.

Lemma start_aborts_or_schedules_witness :
  running
    (exec (start Sample.calm Sample.calm Sample.calm (λ _, Sample.calm))
          (new_Swarm Sample.cfg empty_db)) = true
  ∧ intervals
      (exec (start Sample.calm Sample.calm Sample.calm (λ _, Sample.calm))
            (new_Swarm Sample.cfg empty_db))
    = [ {| task := NarrativeScan; delay := 120000 |};
        {| task := HunterScan; delay := 60000 |};
        {| task := RiskCheck; delay := 30000 |};
        {| task := PriceUpdate; delay := 20000 |} ].
Proof.
  destruct (start_aborts_or_schedules Sample.calm Sample.calm Sample.calm
              (λ _, Sample.calm) (new_Swarm Sample.cfg empty_db))
    as (_ & Hstart).
  destruct (Hstart eq_refl) as (_ & _ & _ & Hok).
  destruct (Hok eq_refl eq_refl eq_refl
              (or_intror (ex_intro _ "pubkey"
                 (ex_intro _ 1000000000%Z (conj eq_refl eq_refl)))))
    as (s1 & _ & _ & _ & Hstate & Hrunning).
  split; [exact Hrunning|].
  vm_compute. reflexivity.
Defined.

(** ** Price updater *)









Lemma NoDup_fmap_filter {A B} (f : A → B) (p : A → bool) (l : list A) :
  NoDup (f <$> l) → NoDup (f <$> List.filter p l).
Proof.
  induction l as [|x l IH]; [done|].
  rewrite fmap_cons. intros Hnd. apply NoDup_cons in Hnd as [Hx Hnd].
  cbn [List.filter]. destruct (p x); [|by apply IH].
  rewrite fmap_cons. apply NoDup_cons. split; [|by apply IH].
  intros Hin. apply Hx. apply list_elem_of_fmap in Hin as (y & -> & Hy).
  apply list_elem_of_fmap_2. apply list_elem_of_In in Hy.
  apply filter_In in Hy as [Hy _]. by apply list_elem_of_In.
Qed.

Lemma open_positions_NoDup d :
  db_wf d → NoDup (Pos.id <$> open_positions d).
Proof. intros [Hnd _]. by apply NoDup_fmap_filter. Qed.

Lemma elem_of_open_positions r d :
  r ∈ open_positions d ↔ r ∈ positions d ∧ Pos.status r = OPEN.
Proof.
  unfold open_positions. rewrite !list_elem_of_In, filter_In.
  unfold Pos.is_open. by rewrite bool_decide_eq_true.
Qed.




(** A position entered at a price of zero: after a price tick at a price of
    3 its [pnl_pct] is an infinity, and after one at a price of zero it is
    NULL. *)
Example price_tick_at_entry_zero :
  Pos.pnl_pct
    <$> positions
          (db (run [OpManualBuy Sample.unpriced "A" (1 # 100);
                    OpPriceUpdate (λ _, Sample.moved)] Sample.started_roomy))
  = [Pnl.Infinity]
  ∧ Pos.pnl_pct
      <$> positions
            (db (run [OpManualBuy Sample.unpriced "A" (1 # 100);
                      OpPriceUpdate (λ _, Sample.unpriced)]
                     Sample.started_roomy))
    = [Pnl.Null].
Proof. split; vm_compute; reflexivity. Qed.

(** ** Risk manager *)

(** The three ways in which [closePosition] leaves the database. *)
Lemma closePosition_cases w positionId reason s :
  db (exec (closePosition w positionId reason) s) = db s
  ∨ (∃ t, db (exec (closePosition w positionId reason) s)
          = insert_trade t (db s))
  ∨ (∃ t pos tx time price,
       wallet s ≠ None
       ∧ position_by_id positionId (db s) = Some pos
       ∧ Pos.is_open pos = true
       ∧ db (exec (closePosition w positionId reason) s)
         = update_position positionId
             (Pos.set_closed reason tx time price (Pos.pnl_pct pos))
             (insert_trade t (db s))).
Proof.
  unfold closePosition. run_method.
  destruct (wallet s) eqn:Hw; run_method; [|by left].
  destruct (position_by_id _ _) as [pos|] eqn:Hpos; run_method; [|by left].
  destruct (Pos.is_open pos) eqn:Hopen; run_method; [|by left].
  destruct (Trade.success _); run_method.
  - right. right. exists (sell_record pos
      (executeSell (jupiter w) (Pos.token_address pos) (Pos.token_amount pos)
         (Pos.token_decimals pos) (slippageBps (config s)) (now w))).
    exists pos. do 3 eexists. split; [done|]. split; [done|]. split; [done|].
    destruct (Pnl.toFixed _); reflexivity.
  - right. left. by eexists.
Qed.

(** Closing one position leaves the rows of the others as they are. *)
Lemma closePosition_other w positionId reason s i :
  i ≠ positionId →
  position_by_id i (db (exec (closePosition w positionId reason) s))
  = position_by_id i (db s).
Proof.
  intros Hne.
  destruct (closePosition_cases w positionId reason s)
    as [-> | [(t & ->) | (t & pos & tx & time & price & _ & _ & _ & ->)]];
    try done.
  rewrite position_by_id_update by done.
  apply Nat.eqb_neq in Hne. by rewrite Hne.
Qed.

(** A loop runs its passes in turn and ends with the first that throws. *)
Lemma for_of_cons_run {A} (x : A) (xs : list A) (body : A → M unit) s :
  for_of (x :: xs) body s
  = match body x s with
    | (s1, Js.Normal _) => for_of xs body s1
    | (s1, Js.Throw e) => (s1, Js.Throw e)
    end.
Proof. simpl. unfold bind. by destruct (body x s) as [s1 [[]|e]]. Qed.

Lemma for_of_app_run {A} (xs ys : list A) (body : A → M unit) s :
  for_of (xs ++ ys) body s
  = match for_of xs body s with
    | (s1, Js.Normal _) => for_of ys body s1
    | (s1, Js.Throw e) => (s1, Js.Throw e)
    end.
Proof.
  revert s. induction xs as [|x xs IH]; intros s; [done|].
  rewrite <- app_comm_cons, !for_of_cons_run.
  destruct (body x s) as [s1 [[]|e]]; [apply IH|done].
Qed.

(** One pass calls [closePosition] at most once, and for the position that
    the pass is for; it throws before that call only when it has to print a
    [pnl_pct] that is NULL. *)
Lemma riskCheck_closes_once w pos s :
  riskCheck w pos s = ret tt s
  ∨ (∃ e, riskCheck w pos s = (s, Js.Throw e)
          ∧ Pos.pnl_pct pos = Pnl.Null)
  ∨ ∃ kind message reason,
      riskCheck w pos s
      = bind (log w "risk" kind message)
             (λ _, closePosition w (Pos.id pos) reason) s.
Proof.
  remember (riskCheck w pos s) as r eqn:Hr.
  unfold riskCheck in Hr. unfold bind at 1 in Hr. unfold gets in Hr.
  cbn beta iota in Hr.
  destruct (Pnl.le (Pos.pnl_pct pos) _).
  { unfold bind at 1 in Hr. unfold await in Hr.
    destruct (Pos.pnl_pct pos) eqn:Hpnl; cbn in Hr; subst r;
      first [ right; left; eexists; split; reflexivity
            | right; right; do 3 eexists; reflexivity ]. }
  destruct (Pnl.ge (Pos.pnl_pct pos) _).
  { unfold bind at 1 in Hr. unfold await in Hr.
    destruct (Pos.pnl_pct pos) eqn:Hpnl; cbn in Hr; subst r;
      first [ right; left; eexists; split; reflexivity
            | right; right; do 3 eexists; reflexivity ]. }
  destruct (getTokenByAddress _ _) as [tokenData|]; [|by left].
  destruct (Qltb _ _); [|by left].
  right. right. subst r. do 3 eexists. reflexivity.
Qed.

Lemma exec_log_closePosition w kind message positionId reason s :
  db (exec (bind (log w "risk" kind message)
                 (λ _, closePosition w positionId reason)) s)
  = db (exec (closePosition w positionId reason)
             (exec (log w "risk" kind message) s)).
Proof. by rewrite exec_seq by apply returns_log. Qed.

Lemma riskCheck_other w pos s i :
  i ≠ Pos.id pos →
  position_by_id i (db (exec (riskCheck w pos) s)) = position_by_id i (db s).
Proof.
  intros Hne. unfold exec at 1.
  destruct (riskCheck_closes_once w pos s)
    as [-> | [(e & -> & _) | (kind & message & reason & ->)]]; [done|done|].
  change (position_by_id i
            (db (exec (bind (log w "risk" kind message)
                            (λ _, closePosition w (Pos.id pos) reason)) s))
          = position_by_id i (db s)).
  rewrite exec_log_closePosition. by rewrite closePosition_other.
Qed.

Lemma risk_loop_other each l s i :
  (∀ pos, pos ∈ l → Pos.id pos ≠ i) →
  position_by_id i
    (db (exec (for_of l (λ pos, riskCheck (each (Pos.id pos)) pos)) s))
  = position_by_id i (db s).
Proof.
  revert s. induction l as [|p l IH]; intros s Hl; [done|].
  unfold exec in *. rewrite for_of_cons_run.
  assert (Hp : position_by_id i (db (fst (riskCheck (each (Pos.id p)) p s)))
               = position_by_id i (db s)).
  { apply riskCheck_other. intros Heq. by apply (Hl p); [left|]. }
  destruct (riskCheck (each (Pos.id p)) p s) as [s1 [[]|e]];
    cbn [fst] in Hp |- *; [|exact Hp].
  rewrite IH; [exact Hp|]. intros pos Hpos. apply Hl. by right.
Qed.

Lemma same_db_refl s : same_db s s.
Proof. done. Qed.

Lemma same_db_trans s1 s2 s3 : same_db s1 s2 → same_db s2 s3 → same_db s1 s3.
Proof. unfold same_db. congruence. Qed.

Lemma same_db_log w agent kind message :
  keeps same_db (log w agent kind message).
Proof. by intros s. Qed.

Lemma same_db_setAgentStatus w id status lastResult :
  keeps same_db (setAgentStatus w id status lastResult).
Proof. intros s. rewrite exec_setAgentStatus. apply db_mark. Qed.

Ltac same_db_tac :=
  repeat first
    [ apply (keeps_ret same_db same_db_refl)
    | apply (keeps_gets same_db same_db_refl)
    | apply (keeps_await same_db same_db_refl)
    | apply same_db_log | apply same_db_setAgentStatus
    | apply (keeps_bind same_db same_db_trans); [|intros ?]
    | match goal with
      | |- keeps _ (if ?b then _ else _) => destruct b
      | |- keeps _ (match ?x with _ => _ end) => destruct x
      end ].

(** A [try] block that runs [m] and then something that only logs: whether
    [m] or the rest throws or not, the database is the one [m] left. *)
Lemma try_seq_db (m rest : M unit) (handler : Js.Error → M unit) s :
  keeps same_db rest →
  (∀ e, keeps same_db (handler e)) →
  db (exec (try_catch (bind m (λ _, rest)) handler) s) = db (exec m s).
Proof.
  intros Hrest Hhandler. unfold exec, try_catch, bind.
  destruct (m s) as [s1 [[]|e]]; cbn [fst].
  - specialize (Hrest s1). unfold same_db, exec in Hrest.
    destruct (rest s1) as [s2 [a|e]]; cbn [fst] in *; [done|].
    specialize (Hhandler e s2). unfold same_db, exec in Hhandler. congruence.
  - apply (Hhandler e s1).
Qed.

(** The database after a risk tick is the one that the loop over the OPEN
    positions leaves. *)
Lemma runRiskManager_db w each s :
  running s = true →
  db (exec (runRiskManager w each) s)
  = db (exec (for_of (open_positions (db s))
                (λ pos, riskCheck (each (Pos.id pos)) pos))
             (mark w "risk" Agent.running EmptyString s)).
Proof.
  intros Hrun. unfold runRiskManager.
  unfold exec at 1, bind at 1, gets at 1. rewrite Hrun. cbn [negb].
  unfold bind at 1, setAgentStatus at 1, modify at 1.
  set (s1 := mark w "risk" Agent.running EmptyString s).
  unfold try_catch at 1, bind at 1, gets at 1.
  assert (Hopen : open_positions (db s1) = open_positions (db s))
    by (subst s1; by rewrite db_mark).
  rewrite Hopen.
  destruct (open_positions (db s)) as [|p l].
  - simpl. apply db_mark.
  - match goal with
    | |- db (fst (let (s', c) := ?body s1 in _)) = _ =>
        change (db (exec (try_catch body
                  (λ e, bind (log w "risk" Log.error
                                (Log.RiskCheckFailed (Js.message e)))
                          (λ _, setAgentStatus w "risk" Agent.error
                                  (Js.message e)))) s1)
                = db (exec (for_of (p :: l)
                              (λ pos, riskCheck (each (Pos.id pos)) pos)) s1))
    end.
    apply try_seq_db.
    + same_db_tac.
    + intros e. same_db_tac.
Qed.

Lemma position_by_id_elem r d :
  db_wf d → r ∈ positions d → position_by_id (Pos.id r) d = Some r.
Proof.
  intros [Hnd _] Hr. unfold position_by_id.
  induction (positions d) as [|x l IH]; [by apply elem_of_nil in Hr|].
  rewrite fmap_cons in Hnd. apply NoDup_cons in Hnd as [Hx Hnd]. simpl.
  apply elem_of_cons in Hr as [->|Hr]; [by rewrite Nat.eqb_refl|].
  destruct (Nat.eqb (Pos.id x) (Pos.id r)) eqn:E; [|by apply IH].
  apply Nat.eqb_eq in E. exfalso. apply Hx. rewrite E.
  by apply list_elem_of_fmap_2.
Qed.

(** The stop-loss rule comes first: when it applies, the pass is the log
    entry of the stop loss followed by one [closePosition] for STOPPED,
    whatever the take-profit rule would say. *)
Lemma riskCheck_stop_loss w pos s :
  Pnl.le (Pos.pnl_pct pos) (- stopLossPct (config s)) = true →
  Pos.pnl_pct pos ≠ Pnl.Null →
  riskCheck w pos s
  = bind (log w "risk" Log.error
            (Log.HitStopLoss (Pos.symbol pos) (Pos.pnl_pct pos)))
         (λ _, closePosition w (Pos.id pos) STOPPED) s.
Proof.
  intros Hstop Hpnl.
  unfold riskCheck. unfold bind at 1. unfold gets. cbn beta iota.
  rewrite Hstop. by destruct (Pos.pnl_pct pos).
Qed.

(** The take-profit rule is second: it closes for TP_HIT only when the
    stop-loss rule does not apply, and then without a look at the
    liquidity. *)
Lemma riskCheck_take_profit w pos s :
  Pnl.le (Pos.pnl_pct pos) (- stopLossPct (config s)) = false →
  Pnl.ge (Pos.pnl_pct pos) (takeProfitPct (config s)) = true →
  Pos.pnl_pct pos ≠ Pnl.Null →
  riskCheck w pos s
  = bind (log w "risk" Log.success
            (Log.HitTakeProfit (Pos.symbol pos) (Pos.pnl_pct pos)))
         (λ _, closePosition w (Pos.id pos) TP_HIT) s.
Proof.
  intros Hstop Htake Hpnl.
  unfold riskCheck. unfold bind at 1. unfold gets. cbn beta iota.
  rewrite Hstop, Htake. by destruct (Pos.pnl_pct pos).
Qed.

(** The liquidity rule is third: it is reached when neither threshold is
    met, and it closes for STOPPED when the token data could be fetched and
    shows a liquidity below 3000. *)
Lemma riskCheck_liquidity w pos s :
  Pnl.le (Pos.pnl_pct pos) (- stopLossPct (config s)) = false →
  Pnl.ge (Pos.pnl_pct pos) (takeProfitPct (config s)) = false →
  riskCheck w pos s
  = match getTokenByAddress w (Pos.token_address pos) with
    | Some tokenData =>
        if Qltb (Token.liquidity tokenData) 3000
        then bind (log w "risk" Log.warn
                     (Log.LiquidityDropped (Pos.symbol pos)
                                           (Token.liquidity tokenData)))
                  (λ _, closePosition w (Pos.id pos) STOPPED) s
        else ret tt s
    | None => ret tt s
    end.
Proof.
  intros Hstop Htake.
  unfold riskCheck. unfold bind at 1. unfold gets. cbn beta iota.
  rewrite Hstop, Htake.
  destruct (getTokenByAddress _ _) as [tokenData|]; [|done].
  by destruct (Qltb _ _).
Qed.

Lemma quiet_risk_loop each l :
  keeps (quiet false)
    (for_of l (λ pos, riskCheck (each (Pos.id pos)) pos)).
Proof. apply quiet_for_of. intros pos. apply quiet_riskCheck. Qed.

(** The row of a position after [closePosition] for a reason. *)
Lemma closePosition_status w pos reason s :
  position_by_id (Pos.id pos) (db s) = Some pos →
  Pos.status pos = OPEN →
  let sale :=
    executeSell (jupiter w) (Pos.token_address pos) (Pos.token_amount pos)
      (Pos.token_decimals pos) (slippageBps (config s)) (now w) in
  if bool_decide (is_Some (wallet s)) && Trade.success sale
  then ∃ pos',
         position_by_id (Pos.id pos)
           (db (exec (closePosition w (Pos.id pos) reason) s)) = Some pos'
         ∧ Pos.status pos' = reason
  else position_by_id (Pos.id pos)
         (db (exec (closePosition w (Pos.id pos) reason) s)) = Some pos.
Proof.
  intros Hfind Hopen sale.
  assert (His_open : Pos.is_open pos = true)
    by (unfold Pos.is_open; by apply bool_decide_eq_true).
  destruct (wallet s) as [key|] eqn:Hwallet; cbn [bool_decide andb].
  - rewrite bool_decide_eq_true_2 by done. cbn [andb].
    destruct (Trade.success sale) eqn:Hsale.
    + rewrite (closePosition_sold w (Pos.id pos) reason s key pos); try done.
      rewrite position_by_id_update by done. rewrite Nat.eqb_refl.
      change (position_by_id (Pos.id pos) (insert_trade _ (db s)))
        with (position_by_id (Pos.id pos) (db s)).
      rewrite Hfind. simpl. by eexists.
    + rewrite (closePosition_unsold w (Pos.id pos) reason s key pos);
        try done.
  - rewrite bool_decide_eq_false_2 by (by intros [? ?]). cbn [andb].
    by rewrite closePosition_noop by (by left).
Qed.

(** The row of a position after the pass that closes it for [reason]. *)
Lemma closing_pass_status w pos kind message reason s :
  position_by_id (Pos.id pos) (db s) = Some pos →
  Pos.status pos = OPEN →
  let sale :=
    executeSell (jupiter w) (Pos.token_address pos) (Pos.token_amount pos)
      (Pos.token_decimals pos) (slippageBps (config s)) (now w) in
  ∃ pos',
    position_by_id (Pos.id pos)
      (db (exec (bind (log w "risk" kind message)
                      (λ _, closePosition w (Pos.id pos) reason)) s))
    = Some pos'
    ∧ Pos.status pos'
      = if bool_decide (is_Some (wallet s)) && Trade.success sale
        then reason else OPEN.
Proof.
  intros Hfind Hopen sale.
  rewrite exec_log_closePosition.
  set (s1 := exec (log w "risk" kind message) s).
  pose proof (closePosition_status w pos reason s1 Hfind Hopen) as Hclosed.
  cbv zeta in Hclosed.
  change (wallet s1) with (wallet s) in Hclosed.
  change (config s1) with (config s) in Hclosed.
  fold sale in Hclosed.
  destruct (bool_decide (is_Some (wallet s)) && Trade.success sale).
  - exact Hclosed.
  - by exists pos.
Qed.

(** A pass does not throw when the position it is for has a [pnl_pct] that
    is not NULL. *)
Lemma riskCheck_returns w pos s :
  position_by_id (Pos.id pos) (db s) = Some pos →
  Pos.pnl_pct pos ≠ Pnl.Null →
  ∃ a, snd (riskCheck w pos s) = Js.Normal a.
Proof.
  intros Hfind Hpnl.
  destruct (riskCheck_closes_once w pos s)
    as [-> | [(e & _ & Hnull) | (kind & message & reason & ->)]];
    [by eexists|done|].
  unfold bind at 1. unfold log at 1, modify at 1.
  match goal with
  | |- ∃ a, snd (closePosition w (Pos.id pos) reason ?s1) = _ =>
      destruct (closePosition w (Pos.id pos) reason s1) as [s2 [a|e]] eqn:E;
        [by eexists|];
      destruct (closePosition_throws w (Pos.id pos) reason s1 e)
        as (pos0 & Hfind0 & Hnull); [by rewrite E|]
  end.
  change (position_by_id (Pos.id pos) (db s) = Some pos0) in Hfind0.
  congruence.
Qed.

(** The loop over rows that are in the table as the loop finds them, none
    with a [pnl_pct] that is NULL, does not throw. *)
Lemma risk_loop_returns each l s :
  NoDup (Pos.id <$> l) →
  (∀ p, p ∈ l → position_by_id (Pos.id p) (db s) = Some p
                 ∧ Pos.pnl_pct p ≠ Pnl.Null) →
  ∃ a, snd (for_of l (λ pos, riskCheck (each (Pos.id pos)) pos) s)
       = Js.Normal a.
Proof.
  revert s. induction l as [|p l IH]; intros s Hnd Hl; [by eexists|].
  rewrite fmap_cons in Hnd. apply NoDup_cons in Hnd as [Hp Hnd].
  rewrite for_of_cons_run.
  destruct (Hl p) as [Hfind Hpnl]; [by left|].
  destruct (riskCheck_returns (each (Pos.id p)) p s Hfind Hpnl) as [a Ha].
  assert (Hrest : ∀ q, q ∈ l →
            position_by_id (Pos.id q)
              (db (exec (riskCheck (each (Pos.id p)) p) s)) = Some q
            ∧ Pos.pnl_pct q ≠ Pnl.Null).
  { intros q Hq. destruct (Hl q) as [Hfq Hpq]; [by right|]. split; [|done].
    rewrite riskCheck_other; [done|].
    intros Heq. apply Hp. rewrite <- Heq. by apply list_elem_of_fmap_2. }
  unfold exec in Hrest.
  destruct (riskCheck (each (Pos.id p)) p s) as [s1 c]. cbn [snd fst] in *.
  subst c. by apply IH.
Qed.

(** What a pass adds to [trade_history]: nothing, or the sale of the
    position that the pass is for. *)
Lemma riskCheck_ledger w pos s :
  position_by_id (Pos.id pos) (db s) = Some pos →
  trade_history (db (exec (riskCheck w pos) s)) = trade_history (db s)
  ∨ trade_history (db (exec (riskCheck w pos) s))
    = (trade_history (db s)
       ++ [sell_record pos
             (executeSell (jupiter w) (Pos.token_address pos)
                (Pos.token_amount pos) (Pos.token_decimals pos)
                (slippageBps (config s)) (now w))])%list.
Proof.
  intros Hfind. unfold exec.
  destruct (riskCheck_closes_once w pos s)
    as [-> | [(e & -> & _) | (kind & message & reason & ->)]];
    [by left|by left|].
  change (fst (bind (log w "risk" kind message)
                    (λ _, closePosition w (Pos.id pos) reason) s))
    with (exec (bind (log w "risk" kind message)
                     (λ _, closePosition w (Pos.id pos) reason)) s).
  rewrite exec_log_closePosition.
  set (s1 := exec (log w "risk" kind message) s).
  destruct (wallet s) as [key|] eqn:Hwallet.
  - destruct (Pos.is_open pos) eqn:Hopen.
    + right.
      destruct (Trade.success
                  (executeSell (jupiter w) (Pos.token_address pos)
                     (Pos.token_amount pos) (Pos.token_decimals pos)
                     (slippageBps (config s1)) (now w))) eqn:Hsold.
      * by rewrite (closePosition_sold w (Pos.id pos) reason s1 key pos).
      * by rewrite (closePosition_unsold w (Pos.id pos) reason s1 key pos).
    + left. rewrite closePosition_noop; [done|].
      right. right. by exists pos.
  - left. rewrite closePosition_noop; [done|]. by left.
Qed.

(** The loop sells each position at most once: what it adds to
    [trade_history] are the sales of some of the rows it goes through, each
    taken once, in their order. *)
Lemma risk_loop_ledger each l s :
  NoDup (Pos.id <$> l) →
  (∀ p, p ∈ l → position_by_id (Pos.id p) (db s) = Some p) →
  ∃ closed,
    closed `sublist_of` l
    ∧ trade_history
        (db (exec (for_of l (λ pos, riskCheck (each (Pos.id pos)) pos)) s))
      = (trade_history (db s) ++ (risk_sale each (config s) <$> closed))%list.
Proof.
  revert s. induction l as [|p l IH]; intros s Hnd Hl.
  { exists []. split; [done|]. by rewrite app_nil_r. }
  rewrite fmap_cons in Hnd. apply NoDup_cons in Hnd as [Hp Hnd].
  pose proof (riskCheck_ledger (each (Pos.id p)) p s (Hl p ltac:(by left)))
    as Hpass.
  assert (Hrest : ∀ q, q ∈ l →
            position_by_id (Pos.id q)
              (db (exec (riskCheck (each (Pos.id p)) p) s)) = Some q).
  { intros q Hq. rewrite riskCheck_other; [apply Hl; by right|].
    intros Heq. apply Hp. rewrite <- Heq. by apply list_elem_of_fmap_2. }
  destruct (quiet_riskCheck false (each (Pos.id p)) p s) as (Hcfg & _).
  unfold exec in *. rewrite for_of_cons_run.
  destruct (riskCheck (each (Pos.id p)) p s) as [s1 [[]|e]];
    cbn [fst] in *.
  - destruct (IH s1 Hnd Hrest) as (closed & Hsub & Hhistory).
    rewrite Hhistory, Hcfg.
    destruct Hpass as [-> | ->].
    + exists closed. split; [by apply sublist_cons|done].
    + exists (p :: closed). split; [by apply sublist_skip|].
      by rewrite <- app_assoc.
  - destruct Hpass as [-> | ->].
    + exists []. split; [apply sublist_nil_l|]. by rewrite app_nil_r.
    + exists [p]. split; [apply sublist_skip, sublist_nil_l|done].
Qed.

(** The pass of a risk tick for one OPEN position.  It starts in a state
    with the configuration and the wallet of the tick and with the row of the
    position as the tick found it.  Either the tick has ended before this
    pass, because an earlier pass threw, and the row is as it was; or what
    the pass leaves of the row is what the tick leaves.  The second is the
    case when no OPEN position has a [pnl_pct] that is NULL. *)
Lemma risk_tick_at w each s pos :
  running s = true →
  db_wf (db s) →
  pos ∈ open_positions (db s) →
  ∃ sa,
    config sa = config s
    ∧ wallet sa = wallet s
    ∧ position_by_id (Pos.id pos) (db sa) = Some pos
    ∧ (position_by_id (Pos.id pos) (db (exec (runRiskManager w each) s))
       = Some pos
       ∨ position_by_id (Pos.id pos) (db (exec (runRiskManager w each) s))
         = position_by_id (Pos.id pos)
             (db (exec (riskCheck (each (Pos.id pos)) pos) sa)))
    ∧ (Forall (λ r, Pos.pnl_pct r ≠ Pnl.Null) (open_positions (db s)) →
       position_by_id (Pos.id pos) (db (exec (runRiskManager w each) s))
       = position_by_id (Pos.id pos)
           (db (exec (riskCheck (each (Pos.id pos)) pos) sa))).
Proof.
  intros Hrun Hwf Hpos.
  pose proof (open_positions_NoDup (db s) Hwf) as Hnd.
  rewrite runRiskManager_db by done.
  set (s1 := mark w "risk" Agent.running EmptyString s).
  apply elem_of_open_positions in Hpos as Hrow. destruct Hrow as [Hin Hopen].
  assert (Hrows : ∀ p, p ∈ open_positions (db s) →
            position_by_id (Pos.id p) (db s1) = Some p).
  { intros p Hp. apply elem_of_open_positions in Hp as [Hp _].
    subst s1. rewrite db_mark. by apply position_by_id_elem. }
  apply list_elem_of_split in Hpos as (l1 & l2 & Hsplit).
  rewrite Hsplit in Hnd, Hrows |- *.
  rewrite fmap_app, fmap_cons in Hnd.
  apply NoDup_app in Hnd as (Hnd1 & Hl1 & Hnd).
  apply NoDup_cons in Hnd as [Hl2 _].
  set (sa := exec (for_of l1 (λ pos, riskCheck (each (Pos.id pos)) pos)) s1).
  exists sa.
  destruct (quiet_risk_loop each l1 s1) as (Hcfg & Hwal & _).
  fold sa in Hcfg, Hwal.
  assert (Hfind : position_by_id (Pos.id pos) (db sa) = Some pos).
  { subst sa. rewrite risk_loop_other.
    - apply Hrows. apply elem_of_app. right. by left.
    - intros p Hp Heq. apply (Hl1 (Pos.id p)).
      + by apply list_elem_of_fmap_2.
      + rewrite Heq. by left. }
  assert (Hafter :
    position_by_id (Pos.id pos)
      (db (exec (for_of (pos :: l2)
                   (λ pos, riskCheck (each (Pos.id pos)) pos)) sa))
    = position_by_id (Pos.id pos)
        (db (exec (riskCheck (each (Pos.id pos)) pos) sa))).
  { unfold exec. rewrite for_of_cons_run.
    destruct (riskCheck (each (Pos.id pos)) pos sa) as [sb [[]|e]];
      cbn [fst]; [|done].
    apply (risk_loop_other each l2 sb).
    intros p Hp Heq. apply Hl2. rewrite <- Heq.
    by apply list_elem_of_fmap_2. }
  split; [rewrite Hcfg; subst s1; by rewrite config_mark|].
  split; [rewrite Hwal; subst s1; by rewrite wallet_mark|].
  split; [exact Hfind|].
  assert (Hloop :
    exec (for_of (l1 ++ pos :: l2)
            (λ pos, riskCheck (each (Pos.id pos)) pos)) s1
    = match snd (for_of l1 (λ pos, riskCheck (each (Pos.id pos)) pos) s1) with
      | Js.Normal _ =>
          exec (for_of (pos :: l2)
                  (λ pos, riskCheck (each (Pos.id pos)) pos)) sa
      | Js.Throw _ => sa
      end).
  { unfold sa, exec. rewrite for_of_app_run.
    by destruct (for_of l1 _ s1) as [? [[]|e]]. }
  rewrite Hloop. split.
  - destruct (snd (for_of l1 _ s1)); [right; exact Hafter | left; exact Hfind].
  - intros Hnonnull.
    destruct (risk_loop_returns each l1 s1 Hnd1) as [a Ha].
    { intros p Hp. split.
      - apply Hrows. apply elem_of_app. by left.
      - rewrite Forall_forall in Hnonnull. apply Hnonnull.
        apply elem_of_app. by left. }
    rewrite Ha. exact Hafter.
Qed.

(** C4.  Take an OPEN position whose [pnl_pct] is at or below minus
    [stopLossPct] and at or above [takeProfitPct], as the program compares
    them.  The rules are tried in the order stop loss, take profit,
    liquidity.  So the pass of the risk manager for that position takes the
    branch of the stop loss: it is the stop-loss entry in the log followed by
    [closePosition] for STOPPED, and only for a [pnl_pct] that is NULL, which
    compares as 0 and cannot be printed, it throws before it logs or closes
    anything.  After the tick the position is STOPPED or still OPEN, never
    TP_HIT; it is STOPPED exactly when a wallet is loaded and the sale
    succeeded, provided that no pass of the tick throws, which only printing
    a [pnl_pct] that is NULL makes it do.  A position that meets the take
    profit and not the stop loss is closed for TP_HIT without a look at its
    liquidity, and the liquidity is looked at only when neither threshold is
    met.  A tick goes through each OPEN position once, a pass calls
    [closePosition] at most once and for its own position, and so what a tick
    adds to [trade_history] are the sales of some of the OPEN positions, each
    sold once. *)
Theorem stop_loss_takes_precedence (w : World) (each : nat → World)
    (s : Swarm) (pos : Pos.row) :
  let cfg := config s in
  let s' := exec (runRiskManager w each) s in
  let sale :=
    executeSell (jupiter (each (Pos.id pos))) (Pos.token_address pos)
      (Pos.token_amount pos) (Pos.token_decimals pos) (slippageBps cfg)
      (now (each (Pos.id pos))) in
  Pnl.le (Pos.pnl_pct pos) (- stopLossPct cfg) = true →
  Pnl.ge (Pos.pnl_pct pos) (takeProfitPct cfg) = true →
  running s = true →
  db_wf (db s) →
  pos ∈ open_positions (db s) →
  (∀ w0 s0, config s0 = cfg →
     (Pos.pnl_pct pos ≠ Pnl.Null →
      riskCheck w0 pos s0
      = bind (log w0 "risk" Log.error
                (Log.HitStopLoss (Pos.symbol pos) (Pos.pnl_pct pos)))
             (λ _, closePosition w0 (Pos.id pos) STOPPED) s0)
     ∧ (Pos.pnl_pct pos = Pnl.Null →
        ∃ e, riskCheck w0 pos s0 = (s0, Js.Throw e)))
  ∧ (∃ pos',
       position_by_id (Pos.id pos) (db s') = Some pos'
       ∧ (Pos.status pos' = STOPPED ∨ Pos.status pos' = OPEN)
       ∧ Pos.status pos' ≠ TP_HIT
       ∧ (Forall (λ r, Pos.pnl_pct r ≠ Pnl.Null) (open_positions (db s)) →
          Pos.status pos'
          = if bool_decide (is_Some (wallet s)) && Trade.success sale
            then STOPPED else OPEN))
  ∧ (∀ w0 p s0,
       Pnl.le (Pos.pnl_pct p) (- stopLossPct (config s0)) = false →
       (Pnl.ge (Pos.pnl_pct p) (takeProfitPct (config s0)) = true →
        Pos.pnl_pct p ≠ Pnl.Null →
        riskCheck w0 p s0
        = bind (log w0 "risk" Log.success
                  (Log.HitTakeProfit (Pos.symbol p) (Pos.pnl_pct p)))
               (λ _, closePosition w0 (Pos.id p) TP_HIT) s0)
       ∧ (Pnl.ge (Pos.pnl_pct p) (takeProfitPct (config s0)) = false →
          riskCheck w0 p s0
          = match getTokenByAddress w0 (Pos.token_address p) with
            | Some tokenData =>
                if Qltb (Token.liquidity tokenData) 3000
                then bind (log w0 "risk" Log.warn
                             (Log.LiquidityDropped (Pos.symbol p)
                                (Token.liquidity tokenData)))
                          (λ _, closePosition w0 (Pos.id p) STOPPED) s0
                else ret tt s0
            | None => ret tt s0
            end))
  ∧ NoDup (Pos.id <$> open_positions (db s))
  ∧ (∃ closed,
       closed `sublist_of` open_positions (db s)
       ∧ trade_history (db s')
         = (trade_history (db s) ++ (risk_sale each cfg <$> closed))%list)
  ∧ (∀ w0 p s0,
       riskCheck w0 p s0 = ret tt s0
       ∨ (∃ e, riskCheck w0 p s0 = (s0, Js.Throw e)
               ∧ Pos.pnl_pct p = Pnl.Null)
       ∨ ∃ kind message reason,
           riskCheck w0 p s0
           = bind (log w0 "risk" kind message)
                  (λ _, closePosition w0 (Pos.id p) reason) s0).
Proof.
  intros cfg s' sale Hstop Htake Hrun Hwf Hpos.
  pose proof (open_positions_NoDup (db s) Hwf) as Hnd.
  assert (Hpass : ∀ w0 s0, config s0 = cfg →
            Pos.pnl_pct pos ≠ Pnl.Null →
            riskCheck w0 pos s0
            = bind (log w0 "risk" Log.error
                      (Log.HitStopLoss (Pos.symbol pos) (Pos.pnl_pct pos)))
                   (λ _, closePosition w0 (Pos.id pos) STOPPED) s0).
  { intros w0 s0 Hcfg Hpnl. apply riskCheck_stop_loss; [|done].
    by rewrite Hcfg. }
  assert (Hnull : ∀ w0 s0, config s0 = cfg →
            Pos.pnl_pct pos = Pnl.Null →
            ∃ e, riskCheck w0 pos s0 = (s0, Js.Throw e)).
  { intros w0 s0 Hcfg Hpnl. eexists.
    unfold riskCheck. unfold bind at 1. unfold gets. cbn beta iota.
    rewrite Hcfg. fold cfg. rewrite Hstop. by rewrite Hpnl. }
  split; [by intros w0 s0 Hcfg; split; [apply Hpass|apply Hnull]|].
  split; [|split; [|split; [|split]]].
  - destruct (risk_tick_at w each s pos Hrun Hwf Hpos)
      as (sa & Hcfg & Hwal & Hfind & Htick & Hexact).
    pose proof Hpos as Hin.
    apply elem_of_open_positions in Hpos as [_ Hopen].
    assert (Hstays :
      ∃ pos', position_by_id (Pos.id pos)
                  (db (exec (riskCheck (each (Pos.id pos)) pos) sa))
                = Some pos'
              ∧ (Pos.status pos' = STOPPED ∨ Pos.status pos' = OPEN)
              ∧ Pos.status pos' ≠ TP_HIT
              ∧ (Pos.pnl_pct pos ≠ Pnl.Null →
                 Pos.status pos'
                 = if bool_decide (is_Some (wallet s)) && Trade.success sale
                   then STOPPED else OPEN)).
    { assert (Hcases : Pos.pnl_pct pos = Pnl.Null
                       ∨ Pos.pnl_pct pos ≠ Pnl.Null)
        by (destruct (Pos.pnl_pct pos); first [by left|by right]).
      destruct Hcases as [Hpnl|Hpnl].
      - exists pos. unfold exec.
        destruct (Hnull (each (Pos.id pos)) sa Hcfg Hpnl) as [e ->].
        split; [exact Hfind|]. split; [by right|].
        split; [by rewrite Hopen|done].
      - destruct (closing_pass_status (each (Pos.id pos)) pos Log.error
                    (Log.HitStopLoss (Pos.symbol pos) (Pos.pnl_pct pos))
                    STOPPED sa Hfind Hopen) as (pos1 & Hfind1 & Hstatus1).
        rewrite Hwal, Hcfg in Hstatus1. fold cfg sale in Hstatus1.
        exists pos1. unfold exec at 1.
        rewrite Hpass by done. split; [exact Hfind1|].
        rewrite Hstatus1.
        split; [destruct (_ && _); [by left|by right]|].
        split; [by destruct (_ && _)|done]. }
    destruct Hstays as (pos1 & Hreached & Hkind & Hnot & Hstatus1).
    subst s'. destruct Htick as [Hsame | Hdone].
    + exists pos. split; [exact Hsame|]. split; [by right|].
      split; [by rewrite Hopen|].
      intros Hall. specialize (Hexact Hall).
      rewrite Hexact, Hreached in Hsame. injection Hsame as <-.
      apply Hstatus1. rewrite Forall_forall in Hall. by apply Hall.
    + exists pos1. split; [by rewrite Hdone|].
      split; [exact Hkind|]. split; [exact Hnot|].
      intros Hall. apply Hstatus1. rewrite Forall_forall in Hall.
      by apply Hall.
  - intros w0 p s0 Hstop0. split.
    + intros Htake0 Hp. by apply riskCheck_take_profit.
    + intros Htake0. by apply riskCheck_liquidity.
  - exact Hnd.
  - subst s'. rewrite runRiskManager_db by done.
    set (s1 := mark w "risk" Agent.running EmptyString s).
    destruct (risk_loop_ledger each (open_positions (db s)) s1 Hnd)
      as (closed & Hsub & Hhistory).
    { intros p Hp. apply elem_of_open_positions in Hp as [Hp _].
      subst s1. rewrite db_mark. by apply position_by_id_elem. }
    exists closed. split; [exact Hsub|].
    rewrite Hhistory. subst s1. by rewrite db_mark, config_mark.
  - intros w0 p s0. apply riskCheck_closes_once.
Qed.

Lemma stop_loss_takes_precedence_witness :
  ∃ pos',
    position_by_id 1
      (db (exec (runRiskManager Sample.calm (λ _, Sample.calm)) Sample.on_edge))
    = Some pos'
    ∧ Pos.status pos' = STOPPED.
Proof.
  destruct (stop_loss_takes_precedence Sample.calm (λ _, Sample.calm)
              Sample.on_edge Sample.bought)
    as (_ & (pos' & Hfind & _ & _ & Hstatus) & _).
  - vm_compute. reflexivity.
  - vm_compute. reflexivity.
  - vm_compute. reflexivity.
  - apply run_wf.
  - vm_compute. left.
  - exists pos'. split; [exact Hfind|].
    rewrite Hstatus.
    + vm_compute. reflexivity.
    + vm_compute. repeat constructor. discriminate.
Defined.

(** On the boundary a [pnl_pct] that is NULL meets both thresholds, since it
    compares as 0: the pass takes the branch of the stop loss and throws
    there, so the position is not closed, for either reason. *)
Example a_null_pnl_on_the_edge_is_not_closed :
  let s :=
    run [OpStart Sample.calm Sample.calm Sample.calm (λ _, Sample.calm);
         OpManualBuy Sample.unpriced "A" (1 # 100);
         OpPriceUpdate (λ _, Sample.unpriced);
         OpRiskCheck Sample.calm (λ _, Sample.calm)]
        (new_Swarm Sample.edge empty_db) in
  (λ r, (Pos.pnl_pct r, Pos.status r)) <$> positions (db s)
  = [(Pnl.Null, OPEN)]
  ∧ Agent.status <$> agents s !! "risk" = Some Agent.error.
Proof. vm_compute. done. Qed.

(** A position that meets the take profit is closed for TP_HIT although
    the liquidity of its token has dropped below 3000. *)
Example take_profit_comes_before_liquidity :
  Pos.status
    <$> positions
          (db (run [OpManualBuy Sample.calm "A" (1 # 100);
                    OpPriceUpdate (λ _, Sample.soaring);
                    OpRiskCheck Sample.calm (λ _, Sample.soaring)]
                   Sample.started_roomy))
  = [TP_HIT].
Proof. vm_compute. reflexivity. Qed.

(** A position entered at a price of zero: the price tick stores an
    infinity, which the next risk tick takes for a profit. *)
Example infinite_pnl_takes_profit :
  (λ r, (Pos.pnl_pct r, Pos.status r))
    <$> positions
          (db (run [OpManualBuy Sample.unpriced "A" (1 # 100);
                    OpPriceUpdate (λ _, Sample.moved);
                    OpRiskCheck Sample.calm (λ _, Sample.calm)]
                   Sample.started_roomy))
  = [(Pnl.Infinity, TP_HIT)].
Proof. vm_compute. reflexivity. Qed.

(** * Properties of the rest of the program *)

(** ** Nothing is deleted *)

Lemma move_appends cfg manual d d' :
  db_move cfg manual d d' →
  trade_history d `prefix_of` trade_history d'
  ∧ (Pos.id <$> positions d) `prefix_of` (Pos.id <$> positions d')
  ∧ (positions_seq d ≤ positions_seq d')%nat.
Proof.
  destruct 1;
    try (rewrite ids_update by done);
    unfold insert_trade, set_narratives, set_scanned_tokens, insert_position,
      update_position; simpl;
    rewrite ?fmap_app;
    repeat split; try done; try lia; by apply prefix_app_r.
Qed.

Lemma moves_append cfg manual d d' :
  rtc (db_move cfg manual) d d' →
  trade_history d `prefix_of` trade_history d'
  ∧ (Pos.id <$> positions d) `prefix_of` (Pos.id <$> positions d')
  ∧ (positions_seq d ≤ positions_seq d')%nat.
Proof.
  induction 1 as [|d1 d2 d3 Hmove _ (IH1 & IH2 & IH3)]; [done|].
  destruct (move_appends _ _ _ _ Hmove) as (H1 & H2 & H3).
  repeat split; [by etrans | by etrans | lia].
Qed.

(** X1.  No sequence of operations deletes or reorders what the tables
    [trade_history] and [positions] hold: the trade rows of the start state
    are an initial segment of the trade rows afterwards, the row ids of the
    positions are an initial segment of the row ids afterwards, and the
    counter that numbers new positions never goes down. *)
Theorem tables_only_grow (ops : list Op) (s : Swarm) :
  trade_history (db s) `prefix_of` trade_history (db (run ops s))
  ∧ (Pos.id <$> positions (db s))
      `prefix_of` (Pos.id <$> positions (db (run ops s)))
  ∧ (positions_seq (db s) ≤ positions_seq (db (run ops s)))%nat.
Proof. destruct (follows_run ops s) as [_ Hd]. by eapply moves_append. Qed.

(** ** A position that has left OPEN *)

Lemma same_but_price_refl r : same_but_price r r.
Proof. by repeat split. Qed.

Lemma same_but_price_trans r1 r2 r3 :
  same_but_price r1 r2 → same_but_price r2 r3 → same_but_price r1 r3.
Proof. unfold same_but_price. intros H12 H23. intuition congruence. Qed.

Lemma lookup_update_position positionId f d i :
  positions (update_position positionId f d) !! i
  = (λ r, if Nat.eqb (Pos.id r) positionId then f r else r)
      <$> positions d !! i.
Proof.
  unfold update_position. simpl.
  revert i. induction (positions d) as [|x l IH]; intros [|i]; simpl; done.
Qed.

Lemma move_keeps_closed cfg manual d d' i r :
  db_move cfg manual d d' → db_wf d →
  positions d !! i = Some r → Pos.is_open r = false →
  ∃ r', positions d' !! i = Some r' ∧ same_but_price r r'.
Proof.
  intros Hmove Hwf Hi Hclosed.
  destruct Hmove as [d t|d l|d m|d positionId price pnl
                    |d positionId pos reason tx time price pnl Hpos Hopen
                    |d a sym price size result time score narr _ _
                    |d a sym price size result time _].
  - exists r. split; [done | apply same_but_price_refl].
  - exists r. split; [done | apply same_but_price_refl].
  - exists r. split; [done | apply same_but_price_refl].
  - rewrite lookup_update_position, Hi. simpl.
    by destruct (Nat.eqb (Pos.id r) positionId); eexists; split.
  - rewrite lookup_update_position, Hi. simpl.
    destruct (Nat.eqb (Pos.id r) positionId) eqn:E.
    + exfalso. apply Nat.eqb_eq in E. destruct Hwf as [Hnd _].
      assert (r = pos) as ->.
      { eapply find_unique; [exact Hnd | exact Hpos | | exact E].
        by eapply list_elem_of_lookup_2. }
      congruence.
    + exists r. split; [done | apply same_but_price_refl].
  - exists r. split; [|apply same_but_price_refl].
    unfold insert_position. simpl. by apply lookup_app_l_Some.
  - exists r. split; [|apply same_but_price_refl].
    unfold insert_position. simpl. by apply lookup_app_l_Some.
Qed.

Lemma same_but_price_open r r' :
  same_but_price r r' → Pos.is_open r' = Pos.is_open r.
Proof.
  intros H. unfold Pos.is_open.
  assert (Pos.status r' = Pos.status r) as -> by apply H. done.
Qed.

Lemma moves_keep_closed cfg manual d d' i r :
  rtc (db_move cfg manual) d d' → db_wf d →
  positions d !! i = Some r → Pos.is_open r = false →
  ∃ r', positions d' !! i = Some r' ∧ same_but_price r r'.
Proof.
  intros Hd. revert r.
  induction Hd as [d|d1 d2 d3 Hmove _ IH]; intros r Hwf Hi Hclosed.
  - exists r. split; [done | apply same_but_price_refl].
  - destruct (move_keeps_closed _ _ _ _ _ _ Hmove Hwf Hi Hclosed)
      as (r2 & Hi2 & H12).
    destruct (IH r2) as (r3 & Hi3 & H23); try done.
    + by eapply wf_move.
    + by rewrite (same_but_price_open r r2).
    + exists r3. split; [done | by eapply same_but_price_trans].
Qed.

(** X2.  A position that is no longer OPEN is final.  Starting from a table
    with distinct row ids, after any sequence of operations the row is still
    at its place and its status, exit transaction, exit time and every other
    column except [current_price] and [pnl_pct] are what they were: nothing
    reopens a position or closes it a second time. *)
Theorem closed_positions_are_final (ops : list Op) (s : Swarm) (i : nat)
    (r : Pos.row) :
  db_wf (db s) →
  positions (db s) !! i = Some r →
  Pos.is_open r = false →
  ∃ r', positions (db (run ops s)) !! i = Some r' ∧ same_but_price r r'.
Proof.
  intros Hwf Hi Hclosed. destruct (follows_run ops s) as [_ Hd].
  by eapply moves_keep_closed.
Qed.

Lemma closed_positions_are_final_witness :
  ∃ r',
    positions
      (db (run [OpManualBuy Sample.calm "B" (1 # 100);
                OpPriceUpdate (λ _, Sample.moved);
                OpManualSell Sample.calm 1]
               Demo.sold)) !! 0%nat = Some r'
    ∧ same_but_price Demo.sold_row r'.
Proof.
  apply (closed_positions_are_final _ Demo.sold 0 Demo.sold_row).
  - apply run_wf.
  - vm_compute. reflexivity.
  - vm_compute. reflexivity.
Defined.

(** ** The size of an automatic trade *)

Lemma Math_min_le_l a b : (Math_min a b <= a)%Q.
Proof.
  unfold Math_min. destruct (Qle_bool a b) eqn:E; [apply Qle_refl|].
  destruct (Qlt_le_dec b a) as [H|H]; [by apply Qlt_le_weak|].
  apply Qle_bool_iff in H. congruence.
Qed.

Lemma Math_min_le_r a b : (Math_min a b <= b)%Q.
Proof.
  unfold Math_min. destruct (Qle_bool a b) eqn:E; [|apply Qle_refl].
  by apply Qle_bool_iff.
Qed.

Lemma Qltb_false a b : Qltb a b = false → (b <= a)%Q.
Proof.
  unfold Qltb. intros H. apply negb_false_iff in H. by apply Qle_bool_iff.
Qed.

(** [executeTrade] either leaves the database or goes to the swap with the
    trade size and writes what the swap gave. *)
Lemma executeTrade_cases w token score narrative s :
  let s' := exec (executeTrade w token score narrative) s in
  db s' = db s
  ∨ ∃ balance,
      let size :=
        Math_min (maxPositionSol (config s))
                 (inject_Z balance / LAMPORTS_PER_SOL * (3 # 10))%Q in
      let result :=
        executeBuy (jupiter w) (Token.address token) size
                   (slippageBps (config s)) (now w) in
      let traded :=
        insert_trade
          (buy_record (Token.address token) (Token.symbol token) size result)
          (db s) in
      getBalance w = Js.Normal balance
      ∧ Qltb size (5 # 1000) = false
      ∧ db s'
        = if Trade.success result
          then insert_position
                 (opened_position (Token.address token) (Token.symbol token)
                    (Token.price token) size result 6 (now w) score narrative)
                 traded
          else traded.
Proof.
  intros s'. subst s'. unfold executeTrade. run_method.
  destruct (wallet s) eqn:Hw; run_method; [|by left].
  destruct (Qle_bool _ _) eqn:Hmax; run_method; [by left|].
  destruct (open_position_of _ _) eqn:Hheld; run_method; [by left|].
  destruct (getBalance w) as [balance|e] eqn:Hbal; run_method; [|by left].
  destruct (Qltb _ _) eqn:Hsize; run_method; [by left|].
  right. exists balance. split; [done|]. split; [done|].
  by destruct (Trade.success _); run_method.
Qed.

(** X3.  Whatever the market and the wallet hold, [executeTrade] either
    writes nothing to the database or spends one trade size: it appends one
    row to [trade_history], a BUY whose SOL amount is at least 0.005, at most
    [maxPositionSol] and at most three tenths of the wallet balance, and it
    opens at most one position, with that amount as its entry. *)
Theorem auto_trade_size_is_bounded (w : World) (token : Token.info) (score : Q)
    (narrative : string) (s : Swarm) :
  let s' := exec (executeTrade w token score narrative) s in
  db s' = db s
  ∨ ∃ balance size,
      getBalance w = Js.Normal balance
      ∧ (5 # 1000 <= size)%Q
      ∧ (size <= maxPositionSol (config s))%Q
      ∧ (size <= inject_Z balance / LAMPORTS_PER_SOL * (3 # 10))%Q
      ∧ (∃ row,
           trade_history (db s') = (trade_history (db s) ++ [row])%list
           ∧ Ledger.trade_side row = Ledger.BUY
           ∧ Ledger.sol_amount row = size)
      ∧ (positions (db s') = positions (db s)
         ∨ ∃ row,
             positions (db s') = (positions (db s) ++ [row])%list
             ∧ Pos.entry_sol row = size
             ∧ Pos.status row = OPEN).
Proof.
  intros s'.
  destruct (executeTrade_cases w token score narrative s)
    as [Hsame | (balance & Hbal & Hsize & Hdb)]; [by left|].
  right. exists balance. eexists. split; [done|].
  split; [by apply Qltb_false|].
  split; [apply Math_min_le_l|]. split; [apply Math_min_le_r|].
  subst s'. rewrite Hdb.
  destruct (Trade.success _).
  - split; [by eexists|]. right. by eexists.
  - split; [by eexists|]. by left.
Qed.

(** ** What a manual sell reports *)




(** ** Scan-only mode *)

Lemma same_but_price_all l : Forall2 same_but_price l l.
Proof. induction l; constructor; [apply same_but_price_refl | done]. Qed.

Lemma same_but_price_all_trans l1 l2 l3 :
  Forall2 same_but_price l1 l2 → Forall2 same_but_price l2 l3 →
  Forall2 same_but_price l1 l3.
Proof.
  intros H. revert l3. induction H as [|r1 r2 l1 l2 Hr _ IH]; inversion 1; subst;
    constructor; [by eapply same_but_price_trans | by apply IH].
Qed.

Lemma scan_only_refl s : scan_only s s.
Proof.
  split; [done|]. intros _ Hw. repeat split; try done.
  apply same_but_price_all.
Qed.

Lemma scan_only_trans s1 s2 s3 :
  scan_only s1 s2 → scan_only s2 s3 → scan_only s1 s3.
Proof.
  intros [Hc H12] [Hc' H23]. split; [congruence|]. intros Hkey Hw.
  destruct (H12 Hkey Hw) as (Hw2 & Ht2 & Hp2).
  rewrite Hc in H23. destruct (H23 Hkey Hw2) as (Hw3 & Ht3 & Hp3).
  repeat split; [done | congruence |].
  by eapply same_but_price_all_trans.
Qed.

(** A step that leaves the configuration, the wallet and the database. *)
Lemma scan_only_frame s s' :
  config s' = config s → wallet s' = wallet s → db s' = db s →
  scan_only s s'.
Proof.
  intros Hc Hw Hd. split; [done|]. intros _ Hnone.
  rewrite Hw, Hd. repeat split; try done. apply same_but_price_all.
Qed.

Lemma scan_only_quiet_db {A} (m : M A) :
  keeps (quiet true) m → keeps same_db m → keeps scan_only m.
Proof.
  intros Hq Hd s. destruct (Hq s) as (Hc & Hw & _). specialize (Hd s).
  by apply scan_only_frame.
Qed.

Lemma scan_only_log w agent kind message :
  keeps scan_only (log w agent kind message).
Proof. intros s. by apply scan_only_frame. Qed.

Lemma scan_only_setAgentStatus w id status lastResult :
  keeps scan_only (setAgentStatus w id status lastResult).
Proof. intros s. apply scan_only_frame; run_method; done. Qed.

Lemma scan_only_modify f :
  (∀ s, config (f s) = config s ∧ wallet (f s) = wallet s ∧ db (f s) = db s) →
  keeps scan_only (modify f).
Proof. intros H s. destruct (H s) as (?&?&?). by apply scan_only_frame. Qed.

(** A write to the database that keeps the books. *)
Lemma scan_only_modify_db f :
  (∀ d, trade_history (f d) = trade_history d
        ∧ Forall2 same_but_price (positions d) (positions (f d))) →
  keeps scan_only (modify_db f).
Proof.
  intros H s. destruct (H (db s)) as [Ht Hp]. split; [done|].
  intros _ Hw. by repeat split.
Qed.

Lemma same_but_price_update positionId price pnl d :
  Forall2 same_but_price (positions d)
    (positions (update_position positionId (Pos.set_price price pnl) d)).
Proof.
  unfold update_position. simpl.
  induction (positions d) as [|r l IH]; simpl; constructor; [|done].
  by destruct (Nat.eqb (Pos.id r) positionId).
Qed.

Lemma scan_only_executeTrade w token score narrative :
  keeps scan_only (executeTrade w token score narrative).
Proof.
  intros s. split.
  - apply (quiet_executeTrade true).
  - intros _ Hw. unfold executeTrade. run_method. rewrite Hw. run_method.
    repeat split; try done. apply same_but_price_all.
Qed.

Lemma scan_only_closePosition w positionId reason :
  keeps scan_only (closePosition w positionId reason).
Proof.
  intros s. split.
  - apply (quiet_closePosition true).
  - intros _ Hw. unfold closePosition. run_method. rewrite Hw. run_method.
    repeat split; try done. apply same_but_price_all.
Qed.

Lemma scan_only_manualBuy w tokenAddress solAmount :
  keeps scan_only (manualBuy w tokenAddress solAmount).
Proof.
  intros s. split.
  - apply quiet_manualBuy.
  - intros _ Hw. unfold manualBuy. run_method. rewrite Hw. run_method.
    repeat split; try done. apply same_but_price_all.
Qed.

Lemma scan_only_manualSell w positionId :
  keeps scan_only (manualSell w positionId).
Proof.
  intros s. split.
  - apply (quiet_manualSell true).
  - intros _ Hw. unfold manualSell. run_method. rewrite Hw. run_method.
    repeat split; try done. apply same_but_price_all.
Qed.

Ltac scan_only_tac :=
  repeat first
    [ apply (keeps_ret _ scan_only_refl)
    | apply (keeps_gets _ scan_only_refl)
    | apply (keeps_await _ scan_only_refl)
    | apply scan_only_log | apply scan_only_setAgentStatus
    | apply scan_only_executeTrade | apply scan_only_closePosition
    | apply scan_only_modify; intros ?; by repeat split
    | apply (keeps_bind _ scan_only_trans); [|intros ?]
    | apply (keeps_try_catch _ scan_only_trans); [|intros ?]
    | apply (keeps_for_of _ scan_only_refl scan_only_trans); intros ?
    | apply scan_only_modify_db; intros ?; split;
      [ done | first [ apply same_but_price_update | apply same_but_price_all ] ]
    | match goal with
      | |- keeps _ (if ?b then _ else _) => destruct b
      | |- keeps _ (match ?x with _ => _ end) => destruct x
      end ].

Lemma scan_only_runPriceUpdater each : keeps scan_only (runPriceUpdater each).
Proof. unfold runPriceUpdater, updatePrice. scan_only_tac. Qed.

Lemma scan_only_runRiskManager w each :
  keeps scan_only (runRiskManager w each).
Proof. unfold runRiskManager, riskCheck. scan_only_tac. Qed.

Lemma scan_only_runNarrativeScanner w :
  keeps scan_only (runNarrativeScanner w).
Proof. unfold runNarrativeScanner, saveNarrative. scan_only_tac. Qed.

Lemma scan_only_scoreToken w token : keeps scan_only (scoreToken w token).
Proof. unfold scoreToken. scan_only_tac. Qed.

Lemma scan_only_huntLoop each tokens scored :
  keeps scan_only (huntLoop each tokens scored).
Proof.
  revert scored. induction tokens as [|token rest IH]; intros scored; simpl.
  - apply (keeps_ret _ scan_only_refl).
  - scan_only_tac; try apply IH; apply scan_only_scoreToken.
Qed.

Lemma scan_only_runCoinHunter w each : keeps scan_only (runCoinHunter w each).
Proof. unfold runCoinHunter. scan_only_tac. apply scan_only_huntLoop. Qed.

Lemma scan_only_stop w : keeps scan_only (stop w).
Proof. unfold stop. scan_only_tac. Qed.

Lemma scan_only_launch w wn wh each cfg :
  keeps scan_only
    (bind (deployAll w) (λ _,
     bind (runNarrativeScanner wn) (λ _,
     bind (runCoinHunter wh each) (λ _,
     modify (λ s2, set_intervals (intervals s2 ++ schedule cfg) s2))))).
Proof.
  apply (keeps_bind _ scan_only_trans);
    [unfold deployAll, deploy; scan_only_tac|intros _].
  apply (keeps_bind _ scan_only_trans);
    [apply scan_only_runNarrativeScanner|intros _].
  apply (keeps_bind _ scan_only_trans);
    [apply scan_only_runCoinHunter|intros _].
  scan_only_tac.
Qed.

Lemma scan_only_start w wn wh each : keeps scan_only (start w wn wh each).
Proof.
  intros s. split; [apply (follows_start true)|]. intros Hwkey Hw.
  assert (Hsame : ∀ s', config s' = config s → wallet s' = wallet s →
                        db s' = db s →
            wallet s' = None
            ∧ trade_history (db s') = trade_history (db s)
            ∧ Forall2 same_but_price (positions (db s)) (positions (db s'))).
  { intros s' Hc Hw' Hd. rewrite Hw', Hd. repeat split; try done.
    apply same_but_price_all. }
  destruct (running s) eqn:Hrun.
  { unfold exec. rewrite start_when_running by done. by apply Hsame. }
  destruct (Js.falsy (openrouterKey (config s))) eqn:Hkey.
  { destruct (start_rejected w wn wh each s Hrun (or_introl Hkey))
      as [message Heq].
    unfold exec. rewrite Heq. by apply Hsame. }
  destruct (Js.falsy (rpcUrl (config s))) eqn:Hrpc.
  { destruct (start_rejected w wn wh each s Hrun (or_intror Hrpc))
      as [message Heq].
    unfold exec. rewrite Heq. by apply Hsame. }
  destruct (getConnection w (rpcUrl (config s))) as [[]|e] eqn:Hconn.
  2: { unfold exec. rewrite (start_unconnected w wn wh each s e) by done.
       by apply Hsame. }
  rewrite exec_start_loaded;
    [|done|done|done|done|by apply loadWallet_succeeds; left].
  set (s1 := fst (loadWallet w (config s) (validated w s))).
  assert (Hs1 : config s1 = config s ∧ wallet s1 = None ∧ db s1 = db s).
  { subst s1. unfold loadWallet. rewrite Hwkey. by run_method. }
  destruct Hs1 as (Hc1 & Hw1 & Hd1).
  destruct (scan_only_launch w wn wh each (config s) s1) as [_ Hrest].
  rewrite Hc1, Hd1 in Hrest. by apply Hrest.
Qed.

Lemma scan_only_apply op s : scan_only s (apply op s).
Proof.
  destruct op; simpl.
  - apply scan_only_start.
  - apply scan_only_stop.
  - apply scan_only_runNarrativeScanner.
  - apply scan_only_runCoinHunter.
  - apply scan_only_runRiskManager.
  - apply scan_only_runPriceUpdater.
  - apply scan_only_executeTrade.
  - apply scan_only_closePosition.
  - apply scan_only_manualBuy.
  - apply scan_only_manualSell.
Qed.

Lemma scan_only_run ops s : scan_only s (run ops s).
Proof.
  revert s. induction ops as [|op ops IH]; intros s; simpl.
  - apply scan_only_refl.
  - eapply scan_only_trans; [apply scan_only_apply | apply IH].
Qed.

(** X5.  Scan-only mode never trades.  A swarm constructed with an empty
    wallet key never loads a wallet, and no sequence of operations on it,
    manual buys and sells included, adds a row to [trade_history], opens a
    position or closes one: the positions found in the database stay in
    place, each with all its columns except [current_price] and [pnl_pct],
    which the price updater goes on writing. *)
Theorem scan_only_mode_never_trades (cfg : SwarmConfig) (stored : DB)
    (ops : list Op) :
  Js.falsy (walletKey cfg) = true →
  let s' := run ops (new_Swarm cfg stored) in
  wallet s' = None
  ∧ trade_history (db s') = trade_history stored
  ∧ Forall2 same_but_price (positions stored) (positions (db s')).
Proof.
  intros Hkey s'. destruct (scan_only_run ops (new_Swarm cfg stored)) as [_ H].
  by apply H.
Qed.

Lemma scan_only_mode_never_trades_witness :
  let s' :=
    run [OpStart Sample.calm Sample.calm Sample.calm (λ _, Sample.calm);
         OpManualBuy Sample.calm "C" (1 # 100);
         OpPriceUpdate (λ _, Sample.moved);
         OpRiskCheck Sample.calm (λ _, Sample.calm);
         OpManualSell Sample.calm 1]
        (new_Swarm Demo.no_key (db Sample.two_open)) in
  wallet s' = None
  ∧ trade_history (db s') = trade_history (db Sample.two_open)
  ∧ Forall2 same_but_price (positions (db Sample.two_open)) (positions (db s')).
Proof.
  apply (scan_only_mode_never_trades Demo.no_key (db Sample.two_open)).
  reflexivity.
Defined.

(** ** Stop *)

Lemma tick_when_stopped s :
  running s = false →
  ∀ w each_token each_position,
    apply (OpNarrativeScan w) s = s
    ∧ apply (OpHunterScan w each_token) s = s
    ∧ apply (OpRiskCheck w each_position) s = s
    ∧ apply (OpPriceUpdate each_position) s = s.
Proof.
  intros Hrun w each_token each_position.
  unfold apply, exec. repeat split.
  - unfold runNarrativeScanner, bind at 1, gets at 1. by rewrite Hrun.
  - unfold runCoinHunter, bind at 1, gets at 1. by rewrite Hrun.
  - unfold runRiskManager, bind at 1, gets at 1. by rewrite Hrun.
  - unfold runPriceUpdater, bind at 1, gets at 1. by rewrite Hrun.
Qed.

(** X6.  [stop] recalls the swarm: afterwards the running flag is off, no
    timer is left, the same agents exist and every one of them is idle, and
    neither the wallet nor the database was touched.  A tick of any of the
    four recurring tasks that still arrives after [stop] changes nothing at
    all. *)
Theorem stop_recalls_the_swarm (w : World) (s : Swarm) :
  let s' := exec (stop w) s in
  running s' = false
  ∧ intervals s' = []
  ∧ (∀ id, Agent.status <$> agents s' !! id
           = (λ _, Agent.idle) <$> agents s !! id)
  ∧ wallet s' = wallet s
  ∧ db s' = db s
  ∧ ∀ w' each_token each_position,
      apply (OpNarrativeScan w') s' = s'
      ∧ apply (OpHunterScan w' each_token) s' = s'
      ∧ apply (OpRiskCheck w' each_position) s' = s'
      ∧ apply (OpPriceUpdate each_position) s' = s'.
Proof.
  intros s'.
  assert (Hrun : running s' = false) by done.
  split; [done|]. split; [done|]. split.
  { intros id. subst s'. unfold stop. run_method.
    rewrite lookup_fmap. by destruct (agents s !! id). }
  split; [done|]. split; [done|].
  by apply tick_when_stopped.
Qed.

(** ** Narrative scanner *)

(** An entry that has the declared shape is no [null], and its tokens can be
    joined. *)
Lemma typed_entry n item :
  Narr.typed n = Some item → n ≠ Json.Null ∧ Narr.joined n = Js.Normal tt.
Proof.
  unfold Narr.typed, Narr.joined. intros Htyped. split.
  - by intros ->.
  - destruct (Json.field "name" n) as [[]|]; try done.
    destruct (Json.field "score" n) as [[]|]; try done.
    by destruct (Json.field "tokens" n) as [[]|].
Qed.

(** One pass of the loop: it throws before the INSERT and writes nothing, or
    it stores a row and then throws if the tokens cannot be joined. *)
Lemma saveNarrative_cases w n s :
  (narratives (db (exec (saveNarrative w n) s)) = narratives (db s)
   ∧ ∃ e, snd (saveNarrative w n s) = Js.Throw e)
  ∨ ∃ row,
      inserted w n row
      ∧ narratives (db (exec (saveNarrative w n) s))
        = (narratives (db s) ++ [row])%list
      ∧ snd (saveNarrative w n s) = Narr.joined n.
Proof.
  assert (Hrow : ∀ c : Js.Completion Narr.row,
    n ≠ Json.Null →
    (∀ row, c = Js.Normal row → inserted w n row) →
    let m :=
      bind (await c) (λ row,
      bind (modify_db (λ d, set_narratives (narratives d ++ [row]) d)) (λ _,
      bind (await (Narr.joined n)) (λ _,
        log w "narrative" (if hot w n then Log.success else Log.info)
          (Log.NarrativeFound n)))) in
    (narratives (db (exec m s)) = narratives (db s)
     ∧ ∃ e, snd (m s) = Js.Throw e)
    ∨ ∃ row, inserted w n row
        ∧ narratives (db (exec m s)) = (narratives (db s) ++ [row])%list
        ∧ snd (m s) = Narr.joined n).
  { intros [row|e] Hn Hc m; subst m.
    - right. exists row. split; [by apply Hc|].
      run_method. by destruct (Narr.joined n) as [[]|e].
    - left. run_method. split; [done|by exists e]. }
  assert (Hstore : ∀ row,
    match Narr.typed n with
    | Some item => Js.Normal (narrative_row w item)
    | None => storeNarrative w n
    end = Js.Normal row →
    n ≠ Json.Null → inserted w n row).
  { intros row Heq Hn. split; [done|].
    destruct (Narr.typed n); [by injection Heq as <-|done]. }
  destruct n; first
    [ left; split; [done|by eexists]
    | apply Hrow; [done|intros row Heq; by apply Hstore] ].
Qed.

(** The loop stores a row for each entry up to the first whose pass throws,
    that one included if it throws after its INSERT. *)
Lemma save_loop w entries s :
  ∃ saved rows,
    saved `prefix_of` entries
    ∧ Forall2 (inserted w) saved rows
    ∧ narratives (db (exec (for_of entries (saveNarrative w)) s))
      = (narratives (db s) ++ rows)%list
    ∧ (saved ≠ entries →
       ∃ e, snd (for_of entries (saveNarrative w) s) = Js.Throw e).
Proof.
  revert s. induction entries as [|n entries IH]; intros s.
  { exists [], []. rewrite app_nil_r. by repeat split. }
  unfold exec. rewrite for_of_cons_run.
  destruct (saveNarrative_cases w n s)
    as [(Hsame & e & He) | (row & Hrow & Hadded & Hjoined)];
    unfold exec in *.
  - destruct (saveNarrative w n s) as [s1 c]. cbn [fst snd] in *. subst c.
    cbn [fst].
    exists [], []. split; [apply prefix_nil|]. split; [constructor|].
    split; [by rewrite app_nil_r|]. intros _. by exists e.
  - destruct (saveNarrative w n s) as [s1 c]. cbn [fst snd] in *. subst c.
    destruct (Narr.joined n) as [[]|e].
    + destruct (IH s1) as (saved & rows & Hprefix & Hrows & Hafter & Hthrows).
      exists (n :: saved), (row :: rows).
      split; [by apply prefix_cons|]. split; [by constructor|].
      split; [by rewrite Hafter, Hadded, <- app_assoc|].
      intros Hne. apply Hthrows. by intros ->.
    + cbn [fst]. rewrite Hadded.
      exists [n], [row]. split; [apply prefix_cons, prefix_nil|].
      split; [constructor; [exact Hrow|constructor]|]. split; [done|].
      intros _. by exists e.
Qed.

(** The loop over entries that all have the declared shape stores a row for
    each and does not throw. *)
Lemma save_loop_typed w entries items s :
  Forall2 (λ n item, Narr.typed n = Some item) entries items →
  narratives (db (exec (for_of entries (saveNarrative w)) s))
  = (narratives (db s) ++ (narrative_row w <$> items))%list
  ∧ snd (for_of entries (saveNarrative w) s) = Js.Normal tt.
Proof.
  intros Htyped. revert s.
  induction Htyped as [|n item entries items Hn _ IH]; intros s.
  { by rewrite app_nil_r. }
  unfold exec in *. rewrite for_of_cons_run.
  destruct (typed_entry n item Hn) as [Hnull Hjoin].
  assert (Hpass : saveNarrative w n s
    = (exec (log w "narrative" (if hot w n then Log.success else Log.info)
               (Log.NarrativeFound n))
         (set_db (set_narratives
                    (narratives (db s) ++ [narrative_row w item]) (db s)) s),
       Js.Normal tt)).
  { unfold saveNarrative. rewrite Hn. destruct n; try done;
      run_method; by rewrite Hjoin. }
  rewrite Hpass. destruct (IH (exec (log w "narrative"
      (if hot w n then Log.success else Log.info) (Log.NarrativeFound n))
      (set_db (set_narratives
                 (narratives (db s) ++ [narrative_row w item]) (db s)) s)))
    as [Hrows Hret].
  split; [|exact Hret]. rewrite Hrows. cbn. by rewrite <- app_assoc.
Qed.

Lemma other_tables_refl s : other_tables s s.
Proof. done. Qed.

Lemma other_tables_trans s1 s2 s3 :
  other_tables s1 s2 → other_tables s2 s3 → other_tables s1 s3.
Proof. unfold other_tables. intros (?&?&?) (?&?&?). repeat split; congruence. Qed.

Lemma other_tables_same s s' : db s' = db s → other_tables s s'.
Proof. unfold other_tables. by intros ->. Qed.

Lemma other_tables_runNarrativeScanner w :
  keeps other_tables (runNarrativeScanner w).
Proof.
  unfold runNarrativeScanner, saveNarrative.
  repeat first
    [ apply (keeps_ret _ other_tables_refl)
    | apply (keeps_gets _ other_tables_refl)
    | apply (keeps_await _ other_tables_refl)
    | apply (keeps_bind _ other_tables_trans); [|intros ?]
    | apply (keeps_try_catch _ other_tables_trans); [|intros ?]
    | apply (keeps_for_of _ other_tables_refl other_tables_trans); intros ?
    | match goal with
      | |- keeps _ (log _ _ _ _) => intros ?; by apply other_tables_same
      | |- keeps _ (setAgentStatus _ _ _ _) =>
          intros ?; apply other_tables_same; rewrite exec_setAgentStatus;
          apply db_mark
      | |- keeps _ (modify_db _) => by intros ?
      | |- keeps _ (if ?b then _ else _) => destruct b
      | |- keeps _ (match ?x with _ => _ end) => destruct x
      end ].
Qed.

(** The scan once the market requests have returned tokens. *)
Lemma runNarrativeScanner_unfolds w s :
  running s = true →
  (getTrendingTokens w ++ getNewPairs (latestProfiles w) 3000)%list ≠ [] →
  runNarrativeScanner w s
  = try_catch
      (bind (await (llmNarrativeAnalysis w)) (λ analysis,
       bind (modify_db (set_narratives [])) (λ _,
       bind (await (Narr.entries analysis)) (λ found,
       bind (for_of found (saveNarrative w)) (λ _,
         setAgentStatus w "narrative" Agent.running
           ("Found " ++ pretty (length found) ++ " narratives"))))))
      (λ e,
         bind (log w "narrative" Log.error
                 (Log.NarrativeScanFailed (Js.message e)))
              (λ _, setAgentStatus w "narrative" Agent.error (Js.message e)))
      (exec (log w "narrative" Log.info Log.ScanningNarratives)
         (mark w "narrative" Agent.running EmptyString s)).
Proof.
  intros Hrun Hfound. unfold runNarrativeScanner.
  unfold bind at 1, gets at 1. rewrite Hrun. cbn [negb].
  unfold bind at 1, setAgentStatus at 1, modify at 1.
  destruct (getTrendingTokens w ++ getNewPairs (latestProfiles w) 3000)%list
    as [|t l]; [done|].
  unfold try_catch at 1 2. unfold bind at 1. unfold log at 1, modify at 1.
  reflexivity.
Qed.

(** The state after a scan whose analysis has replied. *)
Lemma runNarrativeScanner_replied w s analysis :
  running s = true →
  (getTrendingTokens w ++ getNewPairs (latestProfiles w) 3000)%list ≠ [] →
  llmNarrativeAnalysis w = Js.Normal analysis →
  let failed e s2 :=
    mark w "narrative" Agent.error (Js.message e)
      (exec (log w "narrative" Log.error
               (Log.NarrativeScanFailed (Js.message e))) s2) in
  let s1 :=
    set_db (set_narratives []
              (db (mark w "narrative" Agent.running EmptyString s)))
      (exec (log w "narrative" Log.info Log.ScanningNarratives)
         (mark w "narrative" Agent.running EmptyString s)) in
  exec (runNarrativeScanner w) s
  = match Narr.entries analysis with
    | Js.Throw e => failed e s1
    | Js.Normal entries =>
        match for_of entries (saveNarrative w) s1 with
        | (s2, Js.Normal _) =>
            mark w "narrative" Agent.running
              ("Found " ++ pretty (length entries) ++ " narratives") s2
        | (s2, Js.Throw e) => failed e s2
        end
    end.
Proof.
  intros Hrun Hfound Hreply failed s1. unfold exec at 1.
  rewrite runNarrativeScanner_unfolds by done.
  unfold try_catch. unfold bind at 1, await at 1. rewrite Hreply.
  unfold bind at 1, modify_db at 1, modify at 1.
  unfold bind at 1, await at 1.
  destruct (Narr.entries analysis) as [entries|e]; [|done].
  unfold bind at 1. fold s1.
  by destruct (for_of entries (saveNarrative w) _) as [s2 [[]|e]].
Qed.

Lemma mark_present {B} (b : B) w id status lastResult s id' :
  (λ _, b) <$> agents (mark w id status lastResult s) !! id'
  = (λ _, b) <$> agents s !! id'.
Proof.
  unfold mark. destruct (agents s !! id) as [a|] eqn:Ha; simpl; [|done].
  destruct (decide (id = id')) as [<-|Hne].
  - by rewrite lookup_insert_eq, Ha.
  - by rewrite lookup_insert_ne.
Qed.

(** The agent entry at the end of a scan, whose first step has marked the
    agent. *)
Lemma narrative_agent_after w s s1 status lastResult :
  agents s1 = agents (mark w "narrative" Agent.running EmptyString s) →
  agent_went "narrative" status s (mark w "narrative" status lastResult s1).
Proof.
  intros Hagents. unfold agent_went.
  rewrite mark_lookup. destruct (decide _); [|done].
  rewrite Hagents. apply mark_present.
Qed.

Lemma saveNarrative_agents w n s :
  agents (exec (saveNarrative w n) s) = agents s.
Proof.
  unfold saveNarrative. destruct n; try done; run_method;
    repeat match goal with
           | |- context [match ?x with _ => _ end] => destruct x
           end; done.
Qed.

Lemma save_loop_agents w entries s :
  agents (exec (for_of entries (saveNarrative w)) s) = agents s.
Proof.
  revert s. induction entries as [|n entries IH]; intros s; [done|].
  unfold exec in *. rewrite for_of_cons_run.
  pose proof (saveNarrative_agents w n s) as Hpass. unfold exec in Hpass.
  destruct (saveNarrative w n s) as [s1 [[]|e]]; cbn [fst] in *; [|done].
  by rewrite IH.
Qed.

(** X7.  A narrative scan on a running swarm.  When the market requests
    return no token, or when they return tokens and the analysis throws, the
    table [narratives] is as before, since the rows are deleted only after
    the reply has arrived.  When the analysis replies, the old rows are
    deleted whatever the reply is.  If the reply has no narratives that can
    be gone through, the table is left empty and the agent goes to [error].
    Otherwise the table holds the rows stored for the entries of the reply up
    to the first whose pass throws, in their order, and the agent goes to
    [error] unless there is a row for every entry.  When every entry has the
    declared shape, the table holds one row for each, and the agent stays
    [running].  In no case does the scan write to [positions],
    [trade_history] or [scanned_tokens]. *)
Theorem narrative_scan_replaces_the_table (w : World) (s : Swarm) :
  let s' := exec (runNarrativeScanner w) s in
  let found :=
    (getTrendingTokens w ++ getNewPairs (latestProfiles w) 3000)%list in
  running s = true →
  (found = [] → narratives (db s') = narratives (db s))
  ∧ (found ≠ [] → ∀ e, llmNarrativeAnalysis w = Js.Throw e →
       narratives (db s') = narratives (db s)
       ∧ agent_went "narrative" Agent.error s s')
  ∧ (found ≠ [] → ∀ analysis, llmNarrativeAnalysis w = Js.Normal analysis →
       (∀ e, Narr.entries analysis = Js.Throw e →
          narratives (db s') = []
          ∧ agent_went "narrative" Agent.error s s')
       ∧ (∀ entries, Narr.entries analysis = Js.Normal entries →
            (∃ saved,
               saved `prefix_of` entries
               ∧ Forall2 (inserted w) saved (narratives (db s'))
               ∧ (saved ≠ entries → agent_went "narrative" Agent.error s s'))
            ∧ (∀ items,
                 Forall2 (λ n item, Narr.typed n = Some item) entries items →
                 narratives (db s') = narrative_row w <$> items
                 ∧ agent_went "narrative" Agent.running s s')))
  ∧ other_tables s s'.
Proof.
  intros s' found Hrun.
  split; [|split; [|split]]; [| | |apply other_tables_runNarrativeScanner].
  - intros Hfound. subst s'. unfold runNarrativeScanner. run_method.
    rewrite Hrun. run_method. fold found. rewrite Hfound. by run_method.
  - intros Hfound e He. subst s'. unfold exec.
    rewrite runNarrativeScanner_unfolds by done.
    unfold try_catch, bind at 1, await at 1. rewrite He.
    unfold bind, log, setAgentStatus, modify, exec. cbn [fst]. split.
    + rewrite db_mark. cbn [db set_emitted]. by rewrite db_mark.
    + by apply narrative_agent_after.
  - intros Hfound analysis Hreply. subst s'.
    rewrite (runNarrativeScanner_replied w s analysis) by done.
    set (s1 := set_db (set_narratives []
                 (db (mark w "narrative" Agent.running EmptyString s)))
                 (exec (log w "narrative" Log.info Log.ScanningNarratives)
                    (mark w "narrative" Agent.running EmptyString s))).
    assert (Hagents1 :
      agents s1 = agents (mark w "narrative" Agent.running EmptyString s))
      by done.
    split.
    { intros e He. rewrite He, db_mark. split; [done|].
      by apply narrative_agent_after. }
    intros entries Hentries. rewrite Hentries.
    pose proof (save_loop_agents w entries s1) as Hkept.
    unfold exec in Hkept. split.
    + destruct (save_loop w entries s1)
        as (saved & rows & Hprefix & Hrows & Hafter & Hthrows).
      unfold exec in Hafter. exists saved. split; [done|].
      destruct (for_of entries (saveNarrative w) s1) as [s2 [[]|e]];
        cbn [fst snd] in *; rewrite db_mark.
      * rewrite Hafter.
        split; [exact Hrows|]. intros Hne. by destruct (Hthrows Hne).
      * cbn [exec log modify fst db set_emitted].
        rewrite Hafter. split; [exact Hrows|]. intros _.
        apply narrative_agent_after. cbn. congruence.
    + intros items Htyped.
      destruct (save_loop_typed w entries items s1 Htyped) as [Hrows Hret].
      unfold exec in Hrows.
      destruct (for_of entries (saveNarrative w) s1) as [s2 c].
      cbn [fst snd] in *. subst c. rewrite db_mark, Hrows.
      split; [done|]. apply narrative_agent_after. congruence.
Qed.

Lemma narrative_scan_replaces_the_table_witness :
  narratives (db (exec (runNarrativeScanner Demo.busy) Sample.started))
  = narrative_row Demo.busy <$> Demo.themes.
Proof.
  destruct (narrative_scan_replaces_the_table Demo.busy Sample.started
              ltac:(vm_compute; reflexivity)) as (_ & _ & Hreplied & _).
  destruct (Hreplied ltac:(vm_compute; discriminate) _ eq_refl)
    as [_ Hentries].
  destruct (Hentries _ eq_refl) as [_ Htyped].
  apply Htyped. repeat constructor.
Defined.

(** A reply that parses to an object without narratives empties the table
    and sends the agent to [error]. *)
Example reply_without_narratives_empties_the_table :
  let before := exec (runNarrativeScanner Demo.busy) Sample.started in
  let after := exec (runNarrativeScanner Demo.garbled) before in
  length (narratives (db before)) = 2%nat
  ∧ narratives (db after) = []
  ∧ Agent.status <$> agents after !! "narrative" = Some Agent.error.
Proof. vm_compute. done. Qed.

(** An entry without tokens is stored and ends the scan: the table is left
    with that row alone, although the reply had two more entries. *)
Example entry_without_tokens_ends_the_scan :
  let before := exec (runNarrativeScanner Demo.busy) Sample.started in
  let after := exec (runNarrativeScanner Demo.sloppy) before in
  narratives (db after) = [Demo.bare_row]
  ∧ Agent.status <$> agents after !! "narrative" = Some Agent.error.
Proof. vm_compute. done. Qed.

(** ** Coin hunter *)

(** What one scoring pass does to the tables: the row of the token in
    [scanned_tokens] apart, it adds at most one position, which is a position
    of the token with a score that reaches [minScoreToTrade]. *)
Lemma scoreToken_writes w token s :
  let s1 := fst (scoreToken w token s) in
  config s1 = config s
  ∧ (∀ a, a ≠ Token.address token →
          scanned_tokens (db s1) !! a = scanned_tokens (db s) !! a)
  ∧ (positions (db s1) = positions (db s)
     ∨ ∃ row, positions (db s1) = (positions (db s) ++ [row])%list
              ∧ hunted (config s) token row).
Proof.
  intros s1. subst s1. split; [apply (quiet_scoreToken true)|].
  unfold scoreToken. run_method.
  destruct (llmScore w) as [result|e]; run_method; [|by split; [|left]].
  match goal with
  | |- context [(if ?c then executeTrade _ _ _ _ else _) ?s1] =>
      destruct c eqn:Hc; set (scored := s1)
  end.
  - assert (Hscanned : ∀ a, a ≠ Token.address token →
              scanned_tokens (db scored) !! a = scanned_tokens (db s) !! a).
    { intros a Ha. subst scored. unfold upsert_scanned. simpl.
      by rewrite lookup_insert_ne. }
    assert (Hpos : positions (db scored) = positions (db s)) by done.
    assert (Hcfg : config scored = config s) by done.
    clearbody scored.
    apply andb_true_iff in Hc as [Hc _].
    apply andb_true_iff in Hc as [_ Hmin]. apply Qle_bool_iff in Hmin.
    pose proof (executeTrade_cases w token (Scan.score result)
                  (narrative_of (db s) token) scored) as Hcases.
    unfold exec in Hcases. cbv zeta in Hcases. rewrite Hcfg in Hcases.
    destruct (executeTrade _ _ _ _ scored) as [s2 [[]|e]];
      simpl in Hcases |- *;
      (destruct Hcases as [-> | (balance & _ & _ & ->)];
         [by split; [|left]|]);
      (destruct (Trade.success _);
         [ split; [done|]; right; eexists; split; [by rewrite <- Hpos|];
           by repeat split
         | split; [done|]; by left ]).
  - run_method. split; [|by left].
    intros a Ha. unfold upsert_scanned. simpl. by rewrite lookup_insert_ne.
Qed.

(** One turn of the scoring loop. *)
Lemma huntLoop_cons each token rest scored s :
  huntLoop each (token :: rest) scored s
  = if negb (running s) then (s, Js.Normal scored)
    else
      let w := each (Token.address token) in
      if match scanned_tokens (db s) !! Token.address token with
         | Some row => bool_decide (now w - Scan.last_seen row < 300000)%Z
         | None => false
         end
      then huntLoop each rest scored s
      else match scoreToken w token s with
           | (s1, Js.Normal ok) =>
               huntLoop each rest (if ok then S scored else scored) s1
           | (s1, Js.Throw e) => (s1, Js.Throw e)
           end.
Proof.
  cbn [huntLoop]. unfold bind at 1, gets at 1.
  destruct (running s); [|done]. cbn [negb].
  unfold bind at 1, gets at 1.
  destruct (scanned_tokens (db s) !! Token.address token) as [row|]; [|done].
  by destruct (bool_decide _).
Qed.

(** A token that was scored less than five minutes ago keeps its row. *)
Lemma huntLoop_skips_recent each tokens scored s a row :
  scanned_tokens (db s) !! a = Some row →
  (now (each a) - Scan.last_seen row < 300000)%Z →
  scanned_tokens (db (fst (huntLoop each tokens scored s))) !! a = Some row.
Proof.
  intros Hrow Hrecent. revert scored s Hrow.
  induction tokens as [|token rest IH]; intros scored s Hrow; [done|].
  rewrite huntLoop_cons. destruct (negb (running s)); [done|]. cbn zeta.
  destruct (decide (a = Token.address token)) as [->|Hne].
  - rewrite Hrow. rewrite bool_decide_eq_true_2 by done. by apply IH.
  - destruct (match scanned_tokens (db s) !! Token.address token with
              | Some _ => _ | None => _ end); [by apply IH|].
    destruct (scoreToken_writes (each (Token.address token)) token s)
      as (_ & Hother & _).
    specialize (Hother a Hne).
    destruct (scoreToken _ token s) as [s1 [ok|e]]; simpl in Hother.
    + apply IH. by rewrite Hother.
    + simpl. by rewrite Hother.
Qed.

(** The positions that the scoring loop opens. *)
Lemma huntLoop_opens each tokens scored s :
  config (fst (huntLoop each tokens scored s)) = config s
  ∧ ∃ new,
      positions (db (fst (huntLoop each tokens scored s)))
      = (positions (db s) ++ new)%list
      ∧ (length new ≤ length tokens)%nat
      ∧ Forall (λ r, ∃ t, t ∈ tokens ∧ hunted (config s) t r) new.
Proof.
  revert scored s. induction tokens as [|token rest IH]; intros scored s.
  { split; [done|]. exists []. by rewrite app_nil_r. }
  assert (Hrest : ∀ scored' s1 added,
    config s1 = config s →
    positions (db s1) = (positions (db s) ++ added)%list →
    (length added ≤ 1)%nat →
    Forall (hunted (config s) token) added →
    config (fst (huntLoop each rest scored' s1)) = config s
    ∧ ∃ new,
        positions (db (fst (huntLoop each rest scored' s1)))
        = (positions (db s) ++ new)%list
        ∧ (length new ≤ length (token :: rest))%nat
        ∧ Forall (λ r, ∃ t, t ∈ token :: rest ∧ hunted (config s) t r) new).
  { intros scored' s1 added Hcfg Hpos Hlen Hadded.
    destruct (IH scored' s1) as (Hcfg' & new & Hnew & Hle & Hall).
    split; [congruence|]. exists (added ++ new)%list.
    split; [by rewrite Hnew, Hpos, app_assoc|].
    split; [rewrite length_app; simpl; lia|].
    apply Forall_app. split.
    - eapply Forall_impl; [exact Hadded|]. intros r Hr. exists token.
      split; [by left | done].
    - eapply Forall_impl; [exact Hall|]. intros r (t & Ht & Hr). exists t.
      split; [by right | by rewrite <- Hcfg]. }
  rewrite huntLoop_cons. destruct (negb (running s)).
  { split; [done|]. exists []. rewrite app_nil_r. split; [done|].
    split; [simpl; lia | constructor]. }
  cbn zeta.
  destruct (match scanned_tokens (db s) !! Token.address token with
            | Some _ => _ | None => _ end).
  { apply (Hrest scored s []); try done. by rewrite app_nil_r. simpl; lia. }
  destruct (scoreToken_writes (each (Token.address token)) token s)
    as (Hcfg & _ & Hpos).
  destruct (scoreToken _ token s) as [s1 [ok|e]]; simpl in Hcfg, Hpos.
  - destruct Hpos as [Hpos | (row & Hpos & Hrow)].
    + apply (Hrest _ s1 []); try done. by rewrite app_nil_r. simpl; lia.
    + apply (Hrest _ s1 [row]); try done. by apply Forall_singleton.
  - simpl. split; [done|].
    destruct Hpos as [Hpos | (row & Hpos & Hrow)].
    + exists []. rewrite app_nil_r. split; [done|].
      split; [simpl; lia | constructor].
    + exists [row]. split; [done|]. split; [simpl; lia|].
      apply Forall_singleton. exists token. split; [by left | done].
Qed.

(** The database that a hunter scan leaves is the one its scoring loop
    leaves, started on the database of the scan. *)
Lemma runCoinHunter_db w each s :
  ∃ s0 tokens,
    config s0 = config s ∧ db s0 = db s
    ∧ tokens `sublist_of`
        take 15 (List.filter candidate
                   (unique ∅ (getTrendingTokens w
                              ++ getNewPairs (latestProfiles w) 5000)%list))
    ∧ db (exec (runCoinHunter w each) s)
      = db (fst (huntLoop each tokens 0 s0))
    ∧ config (exec (runCoinHunter w each) s)
      = config (fst (huntLoop each tokens 0 s0)).
Proof.
  set (filtered :=
         List.filter candidate
           (unique ∅ (getTrendingTokens w
                      ++ getNewPairs (latestProfiles w) 5000)%list)).
  destruct (running s) eqn:Hrun.
  - exists (exec (log w "hunter" Log.info
                    (Log.CandidatesFound (length filtered)))
              (exec (log w "hunter" Log.info Log.Hunting)
                 (mark w "hunter" Agent.running EmptyString s))),
           (take 15 filtered).
    split; [by run_method|]. split; [by run_method|]. split; [done|].
    unfold runCoinHunter. run_method. rewrite Hrun. run_method.
    fold filtered.
    by destruct (huntLoop _ _ _ _) as [s1 [n|e]]; run_method.
  - exists s, []. split; [done|]. split; [done|].
    split; [apply sublist_nil_l|].
    unfold runCoinHunter. run_method. rewrite Hrun. by run_method.
Qed.

(** X8.  A hunter scan does not score again a token that it scored less
    than five minutes before: the row of that token in [scanned_tokens] is
    after the scan what it was before, whatever the market lists. *)
Theorem hunter_skips_recently_scored (w : World) (each : string → World)
    (s : Swarm) (a : string) (row : Scan.row) :
  scanned_tokens (db s) !! a = Some row →
  (now (each a) - Scan.last_seen row < 300000)%Z →
  scanned_tokens (db (exec (runCoinHunter w each) s)) !! a = Some row.
Proof.
  intros Hrow Hrecent.
  destruct (runCoinHunter_db w each s) as (s0 & tokens & _ & Hdb & _ & -> & _).
  apply huntLoop_skips_recent; [by rewrite Hdb | done].
Qed.

Lemma hunter_skips_recently_scored_witness :
  scanned_tokens
    (db (exec (runCoinHunter Demo.busy (λ _, Demo.busy)) Demo.hunted_once))
    !! "A"
  = Some Demo.scored_row.
Proof.
  apply hunter_skips_recently_scored.
  - vm_compute. reflexivity.
  - vm_compute. reflexivity.
Defined.

(** ** Deduplication *)

Lemma unique_elem seen l t :
  t ∈ unique seen l → t ∈ l ∧ Token.address t ∉ seen.
Proof.
  revert seen. induction l as [|x l IH]; intros seen; simpl.
  - by intros ?%elem_of_nil.
  - destruct (bool_decide (Token.address x ∈ seen)) eqn:Hx.
    + intros Hin. apply IH in Hin as [Hin Hseen]. split; [by right | done].
    + apply bool_decide_eq_false in Hx.
      intros Hin. apply elem_of_cons in Hin as [Heq|Hin].
      * subst t. split; [by left | done].
      * apply IH in Hin as [Hin Hseen]. split; [by right|].
        by apply not_elem_of_union in Hseen as [_ Hseen].
Qed.

Lemma unique_NoDup seen l : NoDup (Token.address <$> unique seen l).
Proof.
  revert seen. induction l as [|x l IH]; intros seen; simpl.
  - constructor.
  - destruct (bool_decide (Token.address x ∈ seen)); [apply IH|].
    rewrite fmap_cons. constructor; [|apply IH].
    intros (t & Heq & Hin)%list_elem_of_fmap.
    apply unique_elem in Hin as [_ Hseen].
    apply not_elem_of_union in Hseen as [Hseen _].
    by apply not_elem_of_singleton in Hseen.
Qed.

Lemma unique_sublist seen l : unique seen l `sublist_of` l.
Proof.
  revert seen. induction l as [|x l IH]; intros seen; simpl; [done|].
  destruct (bool_decide (Token.address x ∈ seen)).
  - by apply sublist_cons.
  - by apply sublist_skip.
Qed.

(** The first token of an address not seen before is kept. *)
Lemma unique_first seen l1 t l2 :
  Token.address t ∉ seen →
  Token.address t ∉ Token.address <$> l1 →
  t ∈ unique seen (l1 ++ t :: l2).
Proof.
  revert seen. induction l1 as [|x l1 IH]; intros seen Hseen Hl1; simpl.
  - rewrite bool_decide_eq_false_2 by done. by left.
  - rewrite fmap_cons, not_elem_of_cons in Hl1. destruct Hl1 as [Hx Hl1].
    destruct (bool_decide (Token.address x ∈ seen)).
    + by apply IH.
    + right. apply IH; [|done].
      apply not_elem_of_union. by rewrite not_elem_of_singleton.
Qed.

(** X9.  The deduplication of the hunter keeps, for each address, the first
    token that has it and nothing else: the result is a sublist of its input
    in which no address occurs twice, and a token whose address no earlier
    token has is in the result. *)
Theorem dedupe_keeps_first_of_each_address (l : list Token.info) :
  NoDup (Token.address <$> unique ∅ l)
  ∧ unique ∅ l `sublist_of` l
  ∧ ∀ l1 t l2,
      l = (l1 ++ t :: l2)%list →
      Token.address t ∉ Token.address <$> l1 →
      t ∈ unique ∅ l.
Proof.
  split; [apply unique_NoDup|]. split; [apply unique_sublist|].
  intros l1 t l2 -> Hfirst. apply unique_first; [|done].
  apply not_elem_of_empty.
Qed.

(** ** What the hunter buys *)

(** X10.  The positions that one hunter scan opens.  The scan changes no
    position that exists; it adds at most fifteen, and every one of them is
    an OPEN position in a token that the market requests of this scan
    returned and that passed the filter on liquidity, market cap, volume and
    buys, entered at the price of that token, with a score that is at least
    [minScoreToTrade]. *)
Theorem hunter_opens_only_filtered_tokens (w : World) (each : string → World)
    (s : Swarm) :
  let s' := exec (runCoinHunter w each) s in
  let pool :=
    (getTrendingTokens w ++ getNewPairs (latestProfiles w) 5000)%list in
  config s' = config s
  ∧ ∃ new,
      positions (db s') = (positions (db s) ++ new)%list
      ∧ (length new ≤ 15)%nat
      ∧ Forall (λ r, ∃ t, t ∈ pool ∧ candidate t = true
                          ∧ hunted (config s) t r) new.
Proof.
  intros s' pool. subst s'.
  destruct (runCoinHunter_db w each s)
    as (s0 & tokens & Hcfg & Hdb & Hsub & -> & ->).
  destruct (huntLoop_opens each tokens 0 s0) as (Hcfg' & new & -> & Hlen & Hall).
  split; [congruence|]. exists new. split; [by rewrite Hdb|].
  split.
  - apply sublist_length in Hsub. rewrite length_take in Hsub. lia.
  - eapply Forall_impl; [exact Hall|]. intros r (t & Ht & Hr).
    exists t. rewrite <- Hcfg.
    assert (Hin : t ∈ List.filter candidate (unique ∅ pool)).
    { eapply subseteq_take. eapply sublist_subseteq; [exact Hsub | exact Ht]. }
    apply list_elem_of_In, filter_In in Hin as [Hin Hcand].
    apply list_elem_of_In, unique_elem in Hin as [Hin _]. done.
Qed.

(** ** llm.ts: what cleaning leaves *)

Lemma prefix_cons c pat d s :
  String.prefix (String c pat) (String d s)
  = Ascii.eqb d c && String.prefix pat s.
Proof.
  cbn [String.prefix].
  destruct (Ascii.ascii_dec c d) as [->|Hne].
  - by rewrite Ascii.eqb_refl.
  - destruct (Ascii.eqb_spec d c); [congruence | done].
Qed.

Lemma prefix_fence s : String.prefix "```" s = (3 <=? ticks s)%nat.
Proof.
  change "```" with (String backtick (String backtick (String backtick EmptyString))).
  destruct s as [|c1 s]; [done|]. rewrite prefix_cons. cbn [ticks].
  destruct (Ascii.eqb c1 backtick); [|done]. cbn [andb].
  destruct s as [|c2 s]; [done|]. rewrite prefix_cons. cbn [ticks].
  destruct (Ascii.eqb c2 backtick); [|done]. cbn [andb].
  destruct s as [|c3 s]; [done|]. rewrite prefix_cons. cbn [ticks].
  destruct (Ascii.eqb c3 backtick); [|done]. by destruct s.
Qed.

Lemma ticks_fence s :
  (3 ≤ ticks s)%nat →
  ∃ s', s = String backtick (String backtick (String backtick s'))
        ∧ ticks s = (3 + ticks s')%nat.
Proof.
  destruct s as [|c1 [|c2 [|c3 s]]]; cbn [ticks]; try lia.
  - destruct (Ascii.eqb c1 backtick); lia.
  - destruct (Ascii.eqb c1 backtick); [|lia].
    destruct (Ascii.eqb c2 backtick); lia.
  - destruct (Ascii.eqb_spec c1 backtick) as [->|]; [|lia].
    destruct (Ascii.eqb_spec c2 backtick) as [->|]; [|lia].
    destruct (Ascii.eqb_spec c3 backtick) as [->|]; [|lia].
    intros _. by exists s.
Qed.

(** Deleting the fences of three backticks: a fence at the head goes, any
    other character stays. *)
Lemma remove_fence_hit s :
  LLM.remove_matches "```" false 0 false
    (String backtick (String backtick (String backtick s)))
  = LLM.remove_matches "```" false 0 false s.
Proof. by destruct s. Qed.

Lemma remove_fence_miss c s :
  (ticks (String c s) < 3)%nat →
  LLM.remove_matches "```" false 0 false (String c s)
  = String c (LLM.remove_matches "```" false 0 false s).
Proof.
  intros Hlt. cbn [LLM.remove_matches andb]. rewrite prefix_fence.
  by rewrite (proj2 (Nat.leb_gt _ _)) by lia.
Qed.

(** What is left starts with fewer than three backticks and holds no run of
    three. *)
Lemma remove_fence_clean n s :
  (String.length s ≤ n)%nat →
  ticks (LLM.remove_matches "```" false 0 false s) = (ticks s mod 3)%nat
  ∧ includes (LLM.remove_matches "```" false 0 false s) "```" = false.
Proof.
  revert s. induction n as [|n IH]; intros s Hlen.
  { destruct s; [done | simpl in Hlen; lia]. }
  destruct s as [|c s]; [done|].
  destruct (le_lt_dec 3 (ticks (String c s))) as [Hge|Hlt].
  - destruct (ticks_fence _ Hge) as (s' & Heq & Hticks').
    rewrite Hticks'. injection Heq as -> ->.
    rewrite remove_fence_hit.
    destruct (IH s') as [Hticks Hnone]; [simpl in *; lia|].
    split; [|done]. rewrite Hticks.
    replace (3 + ticks s')%nat with (ticks s' + 1 * 3)%nat by lia.
    by rewrite Nat.Div0.mod_add.
  - rewrite remove_fence_miss by done.
    destruct (IH s) as [Hticks Hnone]; [simpl in *; lia|].
    assert (Hhead : ticks (String c
                      (LLM.remove_matches "```" false 0 false s))
                    = ticks (String c s)).
    { cbn [ticks] in *. destruct (Ascii.eqb c backtick); [|done].
      rewrite Hticks. rewrite Nat.mod_small; lia. }
    split.
    + rewrite Hhead. rewrite Nat.mod_small; lia.
    + cbn [includes]. rewrite Hnone, prefix_fence, Hhead.
      by rewrite (proj2 (Nat.leb_gt _ _)) by lia.
Qed.

Lemma prefix_empty s : String.prefix EmptyString s = true.
Proof. by destruct s. Qed.

Lemma includes_cons c s n : includes s n = true → includes (String c s) n = true.
Proof. intros H. cbn [includes]. rewrite H. apply orb_true_r. Qed.

Lemma includes_trimStart s n :
  includes (LLM.trimStart s) n = true → includes s n = true.
Proof.
  induction s as [|c s IH]; [done|]. cbn [LLM.trimStart].
  destruct (LLM.is_space c); [|done]. intros H. by apply includes_cons, IH.
Qed.

(** What [trimEnd] gives for a string that is not empty. *)
Lemma trimEnd_cons c s :
  LLM.trimEnd (String c s)
  = match LLM.trimEnd s with
    | EmptyString => if LLM.is_space c then EmptyString else String c EmptyString
    | t => String c t
    end.
Proof. reflexivity. Qed.

Lemma prefix_trimEnd n s :
  String.prefix n (LLM.trimEnd s) = true → String.prefix n s = true.
Proof.
  revert n. induction s as [|c s IH]; intros n; [done|].
  destruct n as [|d n]; [done|].
  rewrite trimEnd_cons, (prefix_cons d n c s).
  destruct (LLM.trimEnd s) as [|c' t] eqn:E.
  - destruct (LLM.is_space c); [done|]. rewrite prefix_cons.
    intros [-> Hn]%andb_true_iff. cbn [andb]. by apply IH.
  - rewrite prefix_cons. intros [-> Hn]%andb_true_iff. cbn [andb].
    by apply IH.
Qed.

Lemma includes_trimEnd s n :
  includes (LLM.trimEnd s) n = true → includes s n = true.
Proof.
  induction s as [|c s IH]; [done|].
  intros H.
  assert (Hcases : String.prefix n (LLM.trimEnd (String c s)) = true
                   ∨ includes (LLM.trimEnd s) n = true).
  { rewrite trimEnd_cons in *.
    destruct (LLM.trimEnd s) as [|c' t].
    - destruct (LLM.is_space c).
      + left. cbn [includes] in H. by rewrite orb_false_r in H.
      + cbn [includes] in H. apply orb_true_iff in H as [H|H]; [by left|].
        by right.
    - cbn [includes] in H. apply orb_true_iff in H as [H|H]; [by left|].
      by right. }
  destruct Hcases as [Hhead|Htail].
  - apply prefix_trimEnd in Hhead. cbn [includes]. by rewrite Hhead.
  - by apply includes_cons, IH.
Qed.

Lemma cleaned_no_fence raw : includes (LLM.cleaned raw) "```" = false.
Proof.
  unfold LLM.cleaned, LLM.trim.
  destruct (includes _ _) eqn:E; [|done].
  apply includes_trimEnd, includes_trimStart in E.
  by rewrite (proj2 (remove_fence_clean _ _ (Nat.le_refl _))) in E.
Qed.

Lemma prefix_append_false a b s :
  String.prefix a s = false → String.prefix (String.append a b) s = false.
Proof.
  revert s. induction a as [|d a IH]; intros s.
  - by rewrite prefix_empty.
  - destruct s as [|c s]; [done|].
    change (String.append (String d a) b) with (String d (String.append a b)).
    rewrite !prefix_cons. destruct (Ascii.eqb c d); [|done]. apply IH.
Qed.

(** A text without a fence passes both deletions unchanged. *)
Lemma no_fence_no_match pat rest x :
  pat = String.append "```" rest →
  includes x "```" = false →
  LLM.remove_matches pat false 0 false x = x
  ∧ LLM.remove_matches pat true 0 false x = x.
Proof.
  intros ->. induction x as [|c x IH]; [done|].
  cbn [includes]. intros [Hhead Htail]%orb_false_iff.
  destruct (IH Htail) as [IH1 IH2].
  cbn [LLM.remove_matches andb].
  rewrite (prefix_append_false _ rest _ Hhead). by rewrite IH1, IH2.
Qed.

Lemma trimStart_head s :
  match LLM.trimStart s with
  | EmptyString => True
  | String c _ => LLM.is_space c = false
  end.
Proof.
  induction s as [|c s IH]; [done|]. cbn [LLM.trimStart].
  by destruct (LLM.is_space c) eqn:E.
Qed.

Lemma trimEnd_head c s :
  LLM.trimEnd (String c s) = EmptyString
  ∨ ∃ t, LLM.trimEnd (String c s) = String c t.
Proof.
  rewrite trimEnd_cons. destruct (LLM.trimEnd s).
  - destruct (LLM.is_space c); [by left | right; by eexists].
  - right. by eexists.
Qed.

Lemma trimEnd_idem s : LLM.trimEnd (LLM.trimEnd s) = LLM.trimEnd s.
Proof.
  induction s as [|c s IH]; [done|]. rewrite trimEnd_cons.
  destruct (LLM.trimEnd s) as [|c' t] eqn:E.
  - destruct (LLM.is_space c) eqn:Hc; [done|].
    rewrite trimEnd_cons. cbn [LLM.trimEnd]. by rewrite Hc.
  - rewrite trimEnd_cons. by rewrite IH.
Qed.

Lemma trim_idem s : LLM.trim (LLM.trim s) = LLM.trim s.
Proof.
  unfold LLM.trim. pose proof (trimStart_head s) as Hhead.
  destruct (LLM.trimStart s) as [|c t]; [done|].
  destruct (trimEnd_head c t) as [-> | [t' Ht']]; [done|].
  rewrite Ht'. cbn [LLM.trimStart]. rewrite Hhead, <- Ht'.
  apply trimEnd_idem.
Qed.

(** X11.  What [llmScore] and [llmNarrativeAnalysis] hand to [JSON.parse]
    holds no run of three backticks, whatever the reply was, and cleaning it
    a second time would change nothing. *)
Theorem cleaning_leaves_no_fence (raw : string) :
  includes (LLM.cleaned raw) "```" = false
  ∧ LLM.cleaned (LLM.cleaned raw) = LLM.cleaned raw.
Proof.
  split; [apply cleaned_no_fence|].
  pose proof (cleaned_no_fence raw) as Hnone.
  unfold LLM.cleaned at 1.
  rewrite (proj2 (no_fence_no_match "```json" "json" _ eq_refl Hnone)).
  rewrite (proj1 (no_fence_no_match "```" EmptyString _ eq_refl Hnone)).
  unfold LLM.cleaned. apply trim_idem.
Qed.

(** ** Risk manager: the liquidity rule *)

(** X12.  The liquidity rule of the risk manager.  Take an OPEN position that
    meets neither the stop loss nor the take profit.  When the data of its
    token cannot be fetched, or shows a liquidity of 3000 or more, a risk
    tick leaves the row of the position as it is.  When the data shows a
    liquidity below 3000, the tick closes the position unless it has ended
    before it reaches the position: the row is then STOPPED or as it was, and
    if no OPEN position has a [pnl_pct] that is NULL, which is what makes a
    pass throw and so end the tick, the position is STOPPED when a wallet is
    loaded and the sale succeeded, and still OPEN otherwise. *)
Theorem risk_tick_liquidity_rule (w : World) (each : nat → World)
    (s : Swarm) (pos : Pos.row) :
  let cfg := config s in
  let w0 := each (Pos.id pos) in
  let s' := exec (runRiskManager w each) s in
  let sale :=
    executeSell (jupiter w0) (Pos.token_address pos) (Pos.token_amount pos)
      (Pos.token_decimals pos) (slippageBps cfg) (now w0) in
  running s = true →
  db_wf (db s) →
  pos ∈ open_positions (db s) →
  Pnl.le (Pos.pnl_pct pos) (- stopLossPct cfg) = false →
  Pnl.ge (Pos.pnl_pct pos) (takeProfitPct cfg) = false →
  (getTokenByAddress w0 (Pos.token_address pos) = None
   ∨ (∃ tokenData,
        getTokenByAddress w0 (Pos.token_address pos) = Some tokenData
        ∧ (3000 <= Token.liquidity tokenData)%Q) →
   position_by_id (Pos.id pos) (db s') = Some pos)
  ∧ (∀ tokenData,
       getTokenByAddress w0 (Pos.token_address pos) = Some tokenData →
       (Token.liquidity tokenData < 3000)%Q →
       ∃ pos',
         position_by_id (Pos.id pos) (db s') = Some pos'
         ∧ (Pos.status pos' = STOPPED ∨ pos' = pos)
         ∧ (Forall (λ r, Pos.pnl_pct r ≠ Pnl.Null) (open_positions (db s)) →
            Pos.status pos'
            = if bool_decide (is_Some (wallet s)) && Trade.success sale
              then STOPPED else OPEN)).
Proof.
  intros cfg w0 s' sale Hrun Hwf Hpos Hstop Htake.
  destruct (risk_tick_at w each s pos Hrun Hwf Hpos)
    as (sa & Hcfg & Hwal & Hfind & Htick & Hexact).
  apply elem_of_open_positions in Hpos as [_ Hopen].
  subst s'. unfold exec in Htick, Hexact |- *.
  rewrite (riskCheck_liquidity (each (Pos.id pos)) pos sa) in Htick, Hexact
    by (by rewrite Hcfg).
  fold w0 in Htick, Hexact.
  split.
  - intros Hfine.
    destruct Htick as [Hsame | Hdone]; [exact Hsame|]. rewrite Hdone.
    destruct Hfine as [-> | (tokenData & -> & Hliq)]; [done|].
    unfold Qltb. apply Qle_bool_iff in Hliq. by rewrite Hliq.
  - intros tokenData Hdata Hliq. rewrite Hdata in Htick, Hexact.
    assert (Hlow : Qltb (Token.liquidity tokenData) 3000 = true).
    { unfold Qltb. destruct (Qle_bool _ _) eqn:E; [|done].
      apply Qle_bool_iff in E. by apply Qlt_not_le in Hliq. }
    rewrite Hlow in Htick, Hexact.
    destruct (closing_pass_status w0 pos Log.warn
                (Log.LiquidityDropped (Pos.symbol pos)
                   (Token.liquidity tokenData)) STOPPED sa Hfind Hopen)
      as (pos1 & Hfind1 & Hstatus1).
    rewrite Hwal, Hcfg in Hstatus1. fold cfg sale in Hstatus1.
    unfold exec in Hfind1.
    destruct Htick as [Hsame | Hdone].
    + exists pos. split; [exact Hsame|]. split; [by right|].
      intros Hall. specialize (Hexact Hall).
      rewrite Hexact, Hfind1 in Hsame. by injection Hsame as <-.
    + exists pos1. split; [by rewrite Hdone|]. split; [|done].
      rewrite Hstatus1.
      destruct (bool_decide _ && Trade.success sale) eqn:Hcond;
        [by left|right].
      pose proof (closePosition_status w0 pos STOPPED
                    (exec (log w0 "risk" Log.warn
                             (Log.LiquidityDropped (Pos.symbol pos)
                                (Token.liquidity tokenData))) sa)
                    Hfind Hopen) as Hrow.
      cbv zeta in Hrow.
      change (wallet (exec _ sa)) with (wallet sa) in Hrow.
      change (config (exec _ sa)) with (config sa) in Hrow.
      rewrite Hwal, Hcfg in Hrow. fold cfg sale in Hrow.
      rewrite Hcond in Hrow. rewrite <- exec_log_closePosition in Hrow.
      unfold exec in Hrow. congruence.
Qed.

Lemma risk_tick_liquidity_rule_witness :
  ∃ pos',
    position_by_id 1
      (db (exec (runRiskManager Sample.calm (λ _, Demo.thin)) Sample.two_open))
    = Some pos'
    ∧ Pos.status pos' = STOPPED.
Proof.
  destruct (risk_tick_liquidity_rule Sample.calm (λ _, Demo.thin)
              Sample.two_open Sample.bought) as [_ Hlow].
  - vm_compute. reflexivity.
  - apply run_wf.
  - vm_compute. left.
  - vm_compute. reflexivity.
  - vm_compute. reflexivity.
  - destruct (Hlow _ eq_refl) as (pos' & Hfind & _ & Hstatus).
    + vm_compute. reflexivity.
    + exists pos'. split; [exact Hfind|].
      rewrite Hstatus.
      * vm_compute. reflexivity.
      * vm_compute. repeat constructor; discriminate.
Defined.

(** A position whose [pnl_pct] is NULL ends the tick when it is sold: the
    position after it stays OPEN, although the liquidity of its token has
    dropped, a wallet is loaded and the sale would succeed. *)
Example a_null_pnl_ends_the_risk_tick :
  let s :=
    run [OpManualBuy Sample.unpriced "A" (1 # 100);
         OpManualBuy Sample.calm "B" (1 # 100);
         OpPriceUpdate (λ id, if Nat.eqb id 1 then Sample.unpriced
                              else Sample.calm);
         OpRiskCheck Sample.calm (λ _, Demo.drained)]
        Sample.started_roomy in
  Pos.pnl_pct <$> head (positions (db s)) = Some Pnl.Null
  ∧ Pos.status <$> positions (db s) = [STOPPED; OPEN]
  ∧ Agent.status <$> agents s !! "risk" = Some Agent.error.
Proof. vm_compute. done. Qed.

(** ** index.ts: broadcasting *)

Lemma filter_twice {A} (p q : A → bool) (l : list A) :
  List.filter p (List.filter q l) = List.filter (λ x, q x && p x) l.
Proof.
  induction l as [|x l IH]; [done|]. cbn [List.filter].
  destruct (q x); cbn [andb List.filter]; [|done]. by rewrite IH.
Qed.

Lemma filter_all {A} (l : list A) : List.filter (λ _, true) l = l.
Proof. induction l as [|x l IH]; [done|]. cbn [List.filter]. by rewrite IH. Qed.

(** The loop of [broadcast] over the clients [l]: the clients of [l] that
    take the message are recorded, the others leave the set. *)
Lemma broadcast_loop net msg l srv :
  let srv' := fold_left (send_or_drop net msg) l srv in
  swarm srv' = swarm srv
  ∧ file srv' = file srv
  ∧ logBuffer srv' = logBuffer srv
  ∧ sent srv'
    = (sent srv ++ ((λ ws, (ws, msg)) <$> List.filter (delivers net) l))%list
  ∧ wsClients srv'
    = List.filter
        (λ c, forallb (λ ws, delivers net ws || negb (Nat.eqb c ws)) l)
        (wsClients srv).
Proof.
  revert srv. induction l as [|ws l IH]; intros srv; cbn [fold_left].
  - cbn [List.filter fmap list_fmap forallb]. rewrite app_nil_r.
    repeat split; try done. by rewrite filter_all.
  - destruct (IH (send_or_drop net msg srv ws)) as (H1 & H2 & H3 & H4 & H5).
    cbv zeta. rewrite H1, H2, H3, H4, H5. clear IH H1 H2 H3 H4 H5.
    unfold send_or_drop. cbn [List.filter forallb].
    destruct (delivers net ws) eqn:Hws.
    + cbn [swarm file logBuffer sent wsClients set_sent orb andb].
      rewrite fmap_cons, <- app_assoc. by repeat split.
    + cbn [swarm file logBuffer sent wsClients set_wsClients orb andb].
      repeat split; try done. apply filter_twice.
Qed.

Lemma forallb_self net l c :
  c ∈ l →
  forallb (λ ws, delivers net ws || negb (Nat.eqb c ws)) l = delivers net c.
Proof.
  intros Hc. destruct (delivers net c) eqn:Hd.
  - apply forallb_forall. intros ws _.
    destruct (Nat.eqb_spec c ws) as [<-|]; [by rewrite Hd|].
    apply orb_true_r.
  - apply not_true_iff_false. intros Hall.
    rewrite forallb_forall in Hall.
    specialize (Hall c (proj1 (list_elem_of_In _ _) Hc)).
    by rewrite Hd, Nat.eqb_refl in Hall.
Qed.

Lemma filter_ext_in' {A} (p q : A → bool) (l : list A) :
  (∀ x, x ∈ l → p x = q x) → List.filter p l = List.filter q l.
Proof.
  intros H. apply filter_ext_in. intros x Hx. apply H.
  by apply list_elem_of_In.
Qed.

(** What [broadcast] does. *)
Lemma broadcast_effect net type data srv :
  let msg :=
    {| Http.type := type; Http.data := data;
       Http.timestamp := Some (clock net) |} in
  let srv' := broadcast net type data srv in
  swarm srv' = swarm srv
  ∧ file srv' = file srv
  ∧ logBuffer srv' = logBuffer srv
  ∧ wsClients srv' = List.filter (delivers net) (wsClients srv)
  ∧ sent srv'
    = (sent srv
       ++ ((λ ws, (ws, msg)) <$> List.filter (delivers net) (wsClients srv)))%list.
Proof.
  intros msg srv'. subst srv'. unfold broadcast. fold msg.
  destruct (broadcast_loop net msg (wsClients srv) srv)
    as (H1 & H2 & H3 & H4 & H5).
  repeat split; try done. rewrite H5.
  apply filter_ext_in'. intros c Hc. by apply forallb_self.
Qed.

(** X13.  [broadcast] tries every connected client once, in the order in
    which they connected.  The clients whose [send] returns get the message,
    stamped with the time of the broadcast; the clients whose [send] throws
    are removed from [wsClients], so that no later broadcast tries them.
    Nothing else changes: not the swarm and not the log buffer. *)
Theorem broadcast_drops_failing_clients (net : Net) (type : string)
    (data : Http.Payload) (srv : Server) :
  let msg :=
    {| Http.type := type; Http.data := data;
       Http.timestamp := Some (clock net) |} in
  let srv' := broadcast net type data srv in
  wsClients srv' = List.filter (delivers net) (wsClients srv)
  ∧ sent srv'
    = (sent srv
       ++ ((λ ws, (ws, msg)) <$> List.filter (delivers net) (wsClients srv)))%list
  ∧ swarm srv' = swarm srv
  ∧ logBuffer srv' = logBuffer srv
  ∧ ∀ net' type' data',
      Forall (λ m, delivers net (fst m) = true)
        (drop (length (sent srv'))
              (sent (broadcast net' type' data' srv'))).
Proof.
  intros msg srv'.
  destruct (broadcast_effect net type data srv) as (H1 & H2 & H3 & H4 & H5).
  fold srv' in H1, H2, H3, H4, H5.
  split; [done|]. split; [done|]. split; [done|]. split; [done|].
  intros net' type' data'.
  destruct (broadcast_effect net' type' data' srv') as (_ & _ & _ & _ & ->).
  rewrite drop_app_length. rewrite H4.
  apply Forall_fmap, Forall_forall. intros ws Hws. simpl.
  apply list_elem_of_In, filter_In in Hws as [Hws _].
  by apply filter_In in Hws as [_ Hws].
Qed.

(** ** index.ts: the log buffer *)

Lemma onSwarmLog_buffer net log srv :
  logBuffer (onSwarmLog net log srv)
  = if (500 <? length (logBuffer srv ++ [log]))%nat
    then drop 100 (logBuffer srv ++ [log])%list
    else (logBuffer srv ++ [log])%list.
Proof.
  unfold onSwarmLog.
  by destruct (broadcast_effect net "log" (Http.LogData log)
                 (set_logBuffer
                    (if (500 <? length (logBuffer srv ++ [log]))%nat
                     then drop 100 (logBuffer srv ++ [log])%list
                     else (logBuffer srv ++ [log])%list) srv))
    as (_ & _ & -> & _).
Qed.

Lemma onSwarmLog_bounded net log srv :
  (length (logBuffer srv) ≤ 500)%nat →
  (length (logBuffer (onSwarmLog net log srv)) ≤ 500)%nat.
Proof.
  intros Hlen. rewrite onSwarmLog_buffer.
  destruct (500 <? _)%nat eqn:E.
  - rewrite length_drop, length_app. simpl. lia.
  - apply Nat.ltb_ge in E. exact E.
Qed.

Lemma relay_bounded net before after srv :
  (length (logBuffer srv) ≤ 500)%nat →
  (length (logBuffer (relay net before after srv)) ≤ 500)%nat.
Proof.
  unfold relay. generalize (drop (length (emitted before)) (emitted after)).
  intros l. revert srv. induction l as [|log l IH]; intros srv Hlen; [done|].
  cbn [fold_left]. apply IH. by apply onSwarmLog_bounded.
Qed.

Lemma call_bounded {A} net (m : M A) s srv :
  (length (logBuffer srv) ≤ 500)%nat →
  (length (logBuffer (fst (call net m s srv))) ≤ 500)%nat.
Proof. intros Hlen. unfold call. cbn [fst]. by apply relay_bounded. Qed.

Lemma broadcast_bounded net type data srv :
  (length (logBuffer srv) ≤ 500)%nat →
  (length (logBuffer (broadcast net type data srv)) ≤ 500)%nat.
Proof.
  intros Hlen.
  by destruct (broadcast_effect net type data srv) as (_ & _ & -> & _).
Qed.

Lemma handleAPI_bounded env net req srv :
  (length (logBuffer srv) ≤ 500)%nat →
  (length (logBuffer (fst (handleAPI env net req srv))) ≤ 500)%nat.
Proof.
  intros Hlen. unfold handleAPI.
  repeat match goal with
         | |- context [if ?c then _ else _] =>
             match c with
             | String.eqb _ _ => destruct c
             | andb _ _ => destruct c
             end
         end; try exact Hlen.
  - unfold handle_start. destruct (Http.body req) as [e|b]; [exact Hlen|].
    set (stopped := match swarm srv with Some _ => _ | None => _ end).
    assert (Hstopped : (length (logBuffer (fst stopped)) ≤ 500)%nat).
    { subst stopped. destruct (swarm srv); [by apply call_bounded | done]. }
    destruct (snd stopped); [|exact Hstopped].
    match goal with
    | |- context [call net ?m ?s ?v] =>
        pose proof (call_bounded net m s v Hstopped) as Hstarted;
        destruct (snd (call net m s v)); [|exact Hstarted]
    end.
    by apply broadcast_bounded.
  - unfold handle_stop. destruct (swarm srv) as [s|]; [|exact Hlen].
    pose proof (call_bounded net (stop (stopping net)) s srv Hlen) as H.
    destruct (snd _); [by apply broadcast_bounded | exact H].
  - unfold handle_balance. destruct (swarm srv) as [s|]; [|exact Hlen].
    pose proof (call_bounded net (Query.getBalance (trading net)) s srv Hlen)
      as H.
    destruct (snd _) as [[[sol address]|]|e]; exact H.
  - unfold handle_buy. destruct (swarm srv) as [s|]; [|exact Hlen].
    destruct (Http.body req) as [e|b]; [exact Hlen|].
    destruct (_ || _); [exact Hlen|].
    match goal with
    | |- context [call net ?m ?s ?v] =>
        pose proof (call_bounded net m s v Hlen) as H;
        destruct (snd (call net m s v)); [|exact H]
    end.
    by apply broadcast_bounded.
  - unfold handle_sell. destruct (swarm srv) as [s|]; [|exact Hlen].
    destruct (Http.body req) as [e|b]; [exact Hlen|].
    destruct (Http.positionId b) as [[|positionId]|]; try exact Hlen.
    match goal with
    | |- context [call net ?m ?s ?v] =>
        pose proof (call_bounded net m s v Hlen) as H;
        destruct (snd (call net m s v)); [|exact H]
    end.
    by apply broadcast_bounded.
  - by destruct (swarm srv).
Qed.

Lemma step_bounded net ev srv :
  (length (logBuffer srv) ≤ 500)%nat →
  (length (logBuffer (step net ev srv)) ≤ 500)%nat.
Proof.
  intros Hlen. destruct ev as [env req|ws|ws|op]; cbn [step].
  - by apply handleAPI_bounded.
  - unfold ws_open. destruct (bool_decide _), (delivers net ws); exact Hlen.
  - exact Hlen.
  - destruct (swarm srv); [by apply call_bounded | exact Hlen].
Qed.

Lemma serve_bounded events srv :
  (length (logBuffer srv) ≤ 500)%nat →
  (length (logBuffer (serve events srv)) ≤ 500)%nat.
Proof.
  unfold serve. revert srv.
  induction events as [|[net ev] events IH]; intros srv Hlen; [done|].
  cbn [fold_left]. apply IH. by apply step_bounded.
Qed.

(** X14.  The log buffer of the server never holds more than 500 entries,
    whatever requests, connections and timers the server has seen since it
    started.  An entry that the swarm logs goes to the end of the buffer;
    when that makes 501 entries, the 100 oldest are dropped. *)
Theorem log_buffer_stays_bounded (events : list (Net * Event)) (stored : DB)
    (net : Net) (log : Log.entry) :
  let srv := serve events (boot stored) in
  let srv' := onSwarmLog net log srv in
  (length (logBuffer srv) ≤ 500)%nat
  ∧ (length (logBuffer srv') ≤ 500)%nat
  ∧ last (logBuffer srv') = Some log
  ∧ logBuffer srv'
    = if bool_decide (length (logBuffer srv) = 500%nat)
      then (drop 100 (logBuffer srv) ++ [log])%list
      else (logBuffer srv ++ [log])%list.
Proof.
  intros srv srv'.
  assert (Hlen : (length (logBuffer srv) ≤ 500)%nat).
  { apply serve_bounded. simpl. lia. }
  split; [exact Hlen|]. split; [by apply onSwarmLog_bounded|].
  assert (Hbuf : logBuffer srv'
    = if bool_decide (length (logBuffer srv) = 500%nat)
      then (drop 100 (logBuffer srv) ++ [log])%list
      else (logBuffer srv ++ [log])%list).
  { subst srv'. rewrite onSwarmLog_buffer, length_app. cbn [length].
    destruct (bool_decide_reflect (length (logBuffer srv) = 500%nat)) as [E|E].
    - rewrite (proj2 (Nat.ltb_lt _ _)) by lia.
      rewrite drop_app_le by lia. done.
    - by rewrite (proj2 (Nat.ltb_ge _ _)) by lia. }
  split; [|exact Hbuf].
  rewrite Hbuf. destruct (bool_decide _); apply last_snoc.
Qed.

(** ** index.ts: the routes *)

Lemma onSwarmLog_swarm net log srv :
  swarm (onSwarmLog net log srv) = swarm srv.
Proof.
  unfold onSwarmLog.
  by destruct (broadcast_effect net "log" (Http.LogData log)
                 (set_logBuffer
                    (if (500 <? length (logBuffer srv ++ [log]))%nat
                     then drop 100 (logBuffer srv ++ [log])%list
                     else (logBuffer srv ++ [log])%list) srv))
    as (-> & _).
Qed.

Lemma relay_swarm net before after srv :
  swarm (relay net before after srv) = swarm srv.
Proof.
  unfold relay. generalize (drop (length (emitted before)) (emitted after)).
  intros l. revert srv. induction l as [|log l IH]; intros srv; [done|].
  cbn [fold_left]. by rewrite IH, onSwarmLog_swarm.
Qed.

(** After a method of the swarm has run, the server holds the swarm as the
    method left it. *)
Lemma call_swarm {A} net (m : M A) s srv :
  swarm (fst (call net m s srv)) = Some (exec m s)
  ∧ snd (call net m s srv) = snd (m s).
Proof. unfold call. cbn [fst snd]. by rewrite relay_swarm. Qed.

Lemma broadcast_swarm net type data srv :
  swarm (broadcast net type data srv) = swarm srv.
Proof. by destruct (broadcast_effect net type data srv) as (-> & _). Qed.

Lemma stop_returns w s : snd (stop w s) = Js.Normal tt.
Proof. done. Qed.

Lemma stop_stops w s :
  running (exec (stop w) s) = false
  ∧ intervals (exec (stop w) s) = []
  ∧ wallet (exec (stop w) s) = wallet s
  ∧ config (exec (stop w) s) = config s
  ∧ db (exec (stop w) s) = db s.
Proof. done. Qed.

(** What follows the making of the connection in [start] does not throw. *)
Lemma returns_launch w wn wh each cfg :
  returns
    (bind (loadWallet w cfg)
       (λ loaded,
          if negb loaded then ret tt
          else bind (deployAll w) (λ _,
               bind (runNarrativeScanner wn) (λ _,
               bind (runCoinHunter wh each) (λ _,
               modify (λ s2,
                 set_intervals (intervals s2 ++ schedule cfg) s2)))))).
Proof.
  unfold loadWallet, deployAll, deploy.
  repeat first
    [ apply returns_runNarrativeScanner | apply returns_runCoinHunter
    | apply returns_ret | apply returns_gets | apply returns_modify
    | apply returns_log | apply returns_setAgentStatus
    | apply returns_try_catch; intros ?
    | apply returns_bind; [|intros ?]
    | match goal with
      | |- returns (if ?b then _ else _) => destruct b
      | |- returns (match ?x with _ => _ end) => destruct x
      end ].
Qed.

(** [start] throws only where it makes the connection. *)
Lemma start_outcome w wn wh each s :
  snd (start w wn wh each s)
  = if running s || Js.falsy (openrouterKey (config s))
       || Js.falsy (rpcUrl (config s))
    then Js.Normal tt
    else getConnection w (rpcUrl (config s)).
Proof.
  destruct (running s) eqn:Hrun; cbn [orb].
  { by rewrite start_when_running. }
  destruct (Js.falsy (openrouterKey (config s))) eqn:Hkey; cbn [orb].
  { by destruct (start_rejected w wn wh each s Hrun (or_introl Hkey))
      as [message ->]. }
  destruct (Js.falsy (rpcUrl (config s))) eqn:Hrpc.
  { by destruct (start_rejected w wn wh each s Hrun (or_intror Hrpc))
      as [message ->]. }
  destruct (getConnection w (rpcUrl (config s))) as [[]|e] eqn:Hconn.
  - rewrite start_validated by done.
    destruct (returns_launch w wn wh each (config s)
                (set_connection (Some (rpcUrl (config s)))
                   (set_llmConfig
                      (Some {| apiKey := openrouterKey (config s);
                               llm_model :=
                                 Js.str_or (model (config s))
                                           "deepseek/deepseek-chat" |})
                      (exec (log w "orchestrator" Log.cmd Log.Initializing)
                            s)))) as [[] Hret].
    exact Hret.
  - by rewrite (start_unconnected w wn wh each s e).
Qed.

Lemma route_stop env net req srv :
  Http.method req = "POST" → Http.pathname req = "/api/stop" →
  handleAPI env net req srv = handle_stop net srv.
Proof. intros Hm Hp. unfold handleAPI. by rewrite Hm, Hp. Qed.

Lemma route_status env net req srv :
  Http.method req = "GET" → Http.pathname req = "/api/status" →
  handleAPI env net req srv
  = (srv, ok (Http.Running (bool_decide (is_Some (swarm srv)))
                (from_option Query.getAgentStatuses [] (swarm srv)))).
Proof. intros Hm Hp. unfold handleAPI. by rewrite Hm, Hp. Qed.

Lemma route_start env net req srv :
  Http.method req = "POST" → Http.pathname req = "/api/start" →
  handleAPI env net req srv = handle_start env net req srv.
Proof. intros Hm Hp. unfold handleAPI. by rewrite Hm, Hp. Qed.

Lemma route_buy env net req srv :
  Http.method req = "POST" → Http.pathname req = "/api/buy" →
  handleAPI env net req srv = handle_buy net req srv.
Proof. intros Hm Hp. unfold handleAPI. by rewrite Hm, Hp. Qed.

Lemma route_sell env net req srv :
  Http.method req = "POST" → Http.pathname req = "/api/sell" →
  handleAPI env net req srv = handle_sell net req srv.
Proof. intros Hm Hp. unfold handleAPI. by rewrite Hm, Hp. Qed.

Lemma handle_stop_effect net srv s :
  swarm srv = Some s →
  snd (handle_stop net srv) = ok (Http.Ok "Swarm stopped")
  ∧ swarm (fst (handle_stop net srv)) = Some (exec (stop (stopping net)) s).
Proof.
  intros Hs. unfold handle_stop. rewrite Hs.
  destruct (call_swarm net (stop (stopping net)) s srv) as [Hswarm Hsnd].
  rewrite Hsnd, stop_returns. cbn [fst snd].
  by rewrite broadcast_swarm.
Qed.

(** X15.  [GET /status] reports whether a swarm object exists, not whether
    it runs.  After [POST /stop] on a server that has a swarm, the swarm is
    stopped (running flag off, no timers) and stays in place, so a status
    request that follows answers [running: true]. *)
Theorem status_reports_running_after_stop (env env' : Env) (net net' : Net)
    (stop_request status_request : Http.Request) (srv : Server) (s : Swarm) :
  let stopped := handleAPI env net stop_request srv in
  swarm srv = Some s →
  Http.method stop_request = "POST" →
  Http.pathname stop_request = "/api/stop" →
  Http.method status_request = "GET" →
  Http.pathname status_request = "/api/status" →
  snd stopped = ok (Http.Ok "Swarm stopped")
  ∧ (∃ s', swarm (fst stopped) = Some s'
           ∧ running s' = false ∧ intervals s' = [])
  ∧ ∃ agents,
      handleAPI env' net' status_request (fst stopped)
      = (fst stopped, ok (Http.Running true agents)).
Proof.
  intros stopped Hs Hm Hp Hm' Hp'. subst stopped.
  rewrite route_stop by done.
  destruct (handle_stop_effect net srv s Hs) as [Hanswer Hswarm].
  split; [done|]. split.
  - eexists. split; [exact Hswarm|]. by split.
  - rewrite route_status by done. rewrite Hswarm. by eexists.
Qed.

Lemma status_reports_running_after_stop_witness :
  let stopped :=
    handleAPI Wire.no_env Wire.quiet_net (Wire.post "/api/stop" Wire.no_fields)
              Wire.up in
  ∃ agents,
    handleAPI Wire.no_env Wire.quiet_net (Wire.get "/api/status") (fst stopped)
    = (fst stopped, ok (Http.Running true agents)).
Proof.
  destruct (status_reports_running_after_stop Wire.no_env Wire.no_env
              Wire.quiet_net Wire.quiet_net
              (Wire.post "/api/stop" Wire.no_fields) (Wire.get "/api/status")
              Wire.up
              (exec (start Sample.calm Sample.calm Sample.calm
                           (λ _, Sample.calm))
                    (new_Swarm (config_of Wire.no_env Wire.keys) empty_db)))
    as (_ & _ & Hstatus).
  - vm_compute. reflexivity.
  - reflexivity.
  - reflexivity.
  - reflexivity.
  - reflexivity.
  - exact Hstatus.
Defined.

(** ** index.ts: starting through the API *)

(** The messages that the calls of [onSwarmLog] send are log messages. *)
Lemma onSwarmLog_sent net log srv :
  ∃ told,
    sent (onSwarmLog net log srv) = (sent srv ++ told)%list
    ∧ Forall (λ m, Http.type (snd m) = "log") told.
Proof.
  unfold onSwarmLog.
  destruct (broadcast_effect net "log" (Http.LogData log)
              (set_logBuffer
                 (if (500 <? length (logBuffer srv ++ [log]))%nat
                  then drop 100 (logBuffer srv ++ [log])%list
                  else (logBuffer srv ++ [log])%list) srv))
    as (_ & _ & _ & _ & ->).
  eexists. split; [reflexivity|]. by apply Forall_fmap, Forall_true.
Qed.

Lemma relay_sent net before after srv :
  ∃ told,
    sent (relay net before after srv) = (sent srv ++ told)%list
    ∧ Forall (λ m, Http.type (snd m) = "log") told.
Proof.
  unfold relay. generalize (drop (length (emitted before)) (emitted after)).
  intros l. revert srv. induction l as [|log l IH]; intros srv.
  { exists []. by rewrite app_nil_r. }
  cbn [fold_left].
  destruct (IH (onSwarmLog net log srv)) as (told2 & -> & Hlogs2).
  destruct (onSwarmLog_sent net log srv) as (told1 & -> & Hlogs1).
  exists (told1 ++ told2)%list. rewrite app_assoc. split; [done|].
  by apply Forall_app.
Qed.

Lemma call_sent {A} net (m : M A) s srv :
  ∃ told,
    sent (fst (call net m s srv)) = (sent srv ++ told)%list
    ∧ Forall (λ m, Http.type (snd m) = "log") told.
Proof.
  unfold call. cbn [fst].
  apply (relay_sent net s (fst (m s)) (set_swarm (Some (fst (m s))) srv)).
Qed.

(** What [POST /start] with a readable body does: the swarm in place, if any,
    is stopped, a swarm is constructed on the database and started; if
    [start] returns, the clients are told, and if it throws, the request
    fails.  Either way the new swarm is in place, and up to there the
    clients were sent log messages only. *)
Lemma handle_start_effect env net req srv b :
  Http.body req = Http.Object b →
  let stored :=
    match swarm srv with Some old => db old | None => file srv end in
  let fresh := new_Swarm (config_of env b) stored in
  let starts :=
    start (starting net) (narrating net) (hunting net) (hunting_each net) in
  ∃ prev told,
    swarm prev = Some (exec starts fresh)
    ∧ sent prev = (sent srv ++ told)%list
    ∧ Forall (λ m, Http.type (snd m) = "log") told
    ∧ handle_start env net req srv
      = match snd (starts fresh) with
        | Js.Normal _ =>
            (broadcast net "status"
               (Http.StatusData true
                  (Some (Query.getAgentStatuses (exec starts fresh)))) prev,
             ok (Http.Ok "Swarm started"))
        | Js.Throw e => (prev, failed e)
        end.
Proof.
  intros Hbody stored fresh starts. unfold handle_start. rewrite Hbody.
  set (stopped := match swarm srv with Some _ => _ | None => _ end).
  assert (Hstopped : snd stopped = Js.Normal tt
                     ∧ match swarm (fst stopped) with
                       | Some old => db old
                       | None => file (fst stopped)
                       end = stored
                     ∧ ∃ told,
                         sent (fst stopped) = (sent srv ++ told)%list
                         ∧ Forall (λ m, Http.type (snd m) = "log") told).
  { subst stopped stored. destruct (swarm srv) as [old|] eqn:Hs.
    - destruct (call_swarm net (stop (stopping net)) old srv) as [-> ->].
      split; [done|]. split; [done|]. apply call_sent.
    - cbn [fst snd]. rewrite Hs. split; [done|]. split; [done|].
      exists []. by rewrite app_nil_r. }
  destruct Hstopped as (-> & -> & told1 & Hsent1 & Hlogs1).
  fold fresh starts.
  destruct (call_swarm net starts fresh (fst stopped)) as [Hswarm Hsnd].
  destruct (call_sent net starts fresh (fst stopped))
    as (told2 & Hsent2 & Hlogs2).
  exists (fst (call net starts fresh (fst stopped))), (told1 ++ told2)%list.
  split; [exact Hswarm|].
  split; [by rewrite Hsent2, Hsent1, app_assoc|].
  split; [by apply Forall_app|].
  rewrite Hsnd, Hswarm. by destruct (snd (starts fresh)) as [[]|e].
Qed.

Lemma config_of_rpcUrl env b : Js.falsy (rpcUrl (config_of env b)) = false.
Proof.
  unfold config_of. cbn [rpcUrl].
  destruct (Http.rpcUrl b) as [[|c u]|]; cbn [Js.ostr_or Js.str_or]; try done;
    by destruct (SOLANA_RPC_URL env) as [[|c' u']|].
Qed.

(** X16.  [POST /start] with a readable body leaves in place a new swarm
    with the configuration built from the body and the environment, whose
    RPC URL is never empty, so [start] cannot stop at the check of the
    endpoint.  When neither the body nor the environment has an OpenRouter
    key, that swarm is not running and has no timer; the request is all the
    same answered 200 with "Swarm started", and the clients are told
    [running: true].  The answer is the same whenever the connection to the
    endpoint can be made.  When there is a key and making the connection
    throws, as it does for a URL that does not start with http: or https:,
    the request is answered 500 with the message of the error, the new swarm
    is not running and has no timer, and the clients are sent log messages
    only, no status. *)
Theorem start_request_answer (env : Env) (net : Net)
    (req : Http.Request) (srv : Server) (b : Http.Fields) :
  let out := handleAPI env net req srv in
  let cfg := config_of env b in
  Http.method req = "POST" →
  Http.pathname req = "/api/start" →
  Http.body req = Http.Object b →
  ∃ s',
    swarm (fst out) = Some s'
    ∧ config s' = cfg
    ∧ Js.falsy (rpcUrl cfg) = false
    ∧ (Js.falsy (openrouterKey cfg) = true →
       running s' = false ∧ intervals s' = [])
    ∧ (Js.falsy (openrouterKey cfg) = true
       ∨ getConnection (starting net) (rpcUrl cfg) = Js.Normal tt →
       snd out = ok (Http.Ok "Swarm started")
       ∧ ∃ told,
           sent (fst out)
           = (told ++ ((λ ws, (ws,
                {| Http.type := "status";
                   Http.data :=
                     Http.StatusData true (Some (Query.getAgentStatuses s'));
                   Http.timestamp := Some (clock net) |}))
                <$> wsClients (fst out)))%list)
    ∧ (∀ e,
         Js.falsy (openrouterKey cfg) = false →
         getConnection (starting net) (rpcUrl cfg) = Js.Throw e →
         snd out = Http.Json 500 (Http.Error (Js.message e))
         ∧ running s' = false
         ∧ intervals s' = []
         ∧ ∃ told,
             sent (fst out) = (sent srv ++ told)%list
             ∧ Forall (λ m, Http.type (snd m) = "log") told).
Proof.
  intros out cfg Hm Hp Hbody. subst out. rewrite route_start by done.
  destruct (handle_start_effect env net req srv b Hbody)
    as (prev & told & Hprev & Hsent & Hlogs & ->).
  set (fresh := new_Swarm (config_of env b) _) in *.
  set (starts := start (starting net) (narrating net) (hunting net)
                   (hunting_each net)) in *.
  set (s' := exec starts fresh) in *.
  pose proof (start_outcome (starting net) (narrating net) (hunting net)
                (hunting_each net) fresh) as Hout.
  fold starts in Hout.
  change (running fresh) with false in Hout.
  change (config fresh) with cfg in Hout.
  pose proof (config_of_rpcUrl env b) as Hrpc. fold cfg in Hrpc.
  rewrite Hrpc in Hout. cbn [orb] in Hout. rewrite orb_false_r in Hout.
  assert (Hcfg : config s' = cfg).
  { subst s' starts.
    by destruct (follows_start true (starting net) (narrating net)
                   (hunting net) (hunting_each net) fresh) as [-> _]. }
  assert (Hidle : Js.falsy (openrouterKey cfg) = true →
                  running s' = false ∧ intervals s' = []).
  { intros Hkey. subst s' starts.
    destruct (start_rejected (starting net) (narrating net) (hunting net)
                (hunting_each net) fresh eq_refl (or_introl Hkey))
      as [message Heq].
    unfold exec. by rewrite Heq. }
  assert (Hswarm : swarm (fst (match snd (starts fresh) with
      | Js.Normal _ =>
          (broadcast net "status"
             (Http.StatusData true (Some (Query.getAgentStatuses s'))) prev,
           ok (Http.Ok "Swarm started"))
      | Js.Throw e => (prev, failed e)
      end)) = Some s').
  { destruct (snd (starts fresh)); cbn [fst]; [|done].
    by rewrite broadcast_swarm. }
  exists s'. split; [exact Hswarm|]. split; [exact Hcfg|].
  split; [exact Hrpc|]. split; [exact Hidle|]. split.
  - intros Hok.
    assert (Hret : snd (starts fresh) = Js.Normal tt).
    { rewrite Hout. destruct Hok as [-> | ->]; [done|].
      by destruct (Js.falsy (openrouterKey cfg)). }
    rewrite Hret. cbn [fst snd]. split; [done|].
    destruct (broadcast_effect net "status"
                (Http.StatusData true (Some (Query.getAgentStatuses s'))) prev)
      as (_ & _ & _ & -> & ->).
    by eexists.
  - intros e Hkey Hconn.
    assert (Hthrow : snd (starts fresh) = Js.Throw e)
      by (by rewrite Hout, Hkey).
    rewrite Hthrow. cbn [fst snd]. split; [done|].
    assert (Hstate : running s' = false ∧ intervals s' = []).
    { subst s' starts. unfold exec.
      by rewrite (start_unconnected (starting net) (narrating net)
                    (hunting net) (hunting_each net) fresh e). }
    destruct Hstate as [Hrun Hint]. split; [exact Hrun|]. split; [exact Hint|].
    by exists told.
Qed.

Lemma start_request_answer_witness :
  snd (handleAPI Wire.no_env Wire.quiet_net
         (Wire.post "/api/start" Wire.no_fields) (boot empty_db))
  = ok (Http.Ok "Swarm started")
  ∧ ∃ s',
      swarm (fst (handleAPI Wire.no_env Wire.quiet_net
                    (Wire.post "/api/start" Wire.no_fields) (boot empty_db)))
      = Some s'
      ∧ running s' = false.
Proof.
  destruct (start_request_answer Wire.no_env Wire.quiet_net
              (Wire.post "/api/start" Wire.no_fields) (boot empty_db)
              Wire.no_fields eq_refl eq_refl eq_refl)
    as (s' & Hswarm & _ & _ & Hidle & Hanswer & _).
  split; [by destruct (Hanswer (or_introl eq_refl))|].
  exists s'. split; [exact Hswarm|]. by destruct (Hidle eq_refl).
Defined.

(** A start request with the keys and an endpoint that has no scheme is
    answered 500, and no client is told of a status. *)
Example start_request_with_a_bad_endpoint :
  let out :=
    handleAPI Wire.no_env Wire.quiet_net
      (Wire.post "/api/start" Wire.bad_endpoint) (boot empty_db) in
  snd out
  = Http.Json 500
      (Http.Error "Endpoint URL must start with http: or https:")
  ∧ (running <$> swarm (fst out)) = Some false.
Proof. vm_compute. done. Qed.

(** ** index.ts: trading through the API *)

(** What [manualBuy] returns once the wallet is loaded and the token found. *)
Lemma manualBuy_result w tokenAddress solAmount s key token :
  wallet s = Some key →
  getTokenByAddress w tokenAddress = Some token →
  snd (manualBuy w tokenAddress solAmount s)
  = Js.Normal (Some (executeBuy (jupiter w) tokenAddress solAmount
                                (slippageBps (config s)) (now w))).
Proof.
  intros Hwallet Htoken. unfold manualBuy. run_method.
  rewrite Hwallet. run_method. rewrite Htoken. run_method.
  by destruct (Trade.success _); run_method.
Qed.

Lemma manualBuy_frame w tokenAddress solAmount s :
  running (exec (manualBuy w tokenAddress solAmount) s) = running s
  ∧ intervals (exec (manualBuy w tokenAddress solAmount) s) = intervals s.
Proof.
  by destruct (quiet_manualBuy w tokenAddress solAmount s)
    as (_ & _ & -> & -> & _).
Qed.

(** X17.  [POST /stop] does not switch off manual trading.  On a server
    whose swarm has a wallet, a buy request that arrives after the stop
    request is carried out like any other: when the token is found and the
    swap goes through, the answer is the successful trade and the stopped
    swarm has one more OPEN position. *)
Theorem buy_after_stop_still_trades (env env' : Env) (net net' : Net)
    (stop_request buy_request : Http.Request) (srv : Server) (s : Swarm)
    (key tokenAddress : string) (solAmount : Q) (b : Http.Fields)
    (token : Token.info) :
  let stopped := fst (handleAPI env net stop_request srv) in
  let out := handleAPI env' net' buy_request stopped in
  let result :=
    executeBuy (jupiter (trading net')) tokenAddress solAmount
               (slippageBps (config s)) (now (trading net')) in
  swarm srv = Some s →
  wallet s = Some key →
  Http.method stop_request = "POST" →
  Http.pathname stop_request = "/api/stop" →
  Http.method buy_request = "POST" →
  Http.pathname buy_request = "/api/buy" →
  Http.body buy_request = Http.Object b →
  Http.tokenAddress b = Some tokenAddress →
  Js.falsy tokenAddress = false →
  Http.solAmount b = Some solAmount →
  Qeq_bool solAmount 0 = false →
  getTokenByAddress (trading net') tokenAddress = Some token →
  Trade.success result = true →
  snd out = ok (Http.Traded result)
  ∧ ∃ s',
      swarm (fst out) = Some s'
      ∧ running s' = false
      ∧ intervals s' = []
      ∧ positions (db s')
        = (positions (db s)
           ++ [opened_position tokenAddress (Token.symbol token)
                 (Token.price token) solAmount result 6
                 (now (trading net')) 0 "Manual"
                 (S (positions_seq (db s)))])%list.
Proof.
  intros stopped out result Hs Hwallet Hm Hp Hm' Hp' Hbody Haddr Hfalsy Hamount
    Hzero Htoken Hsuccess.
  subst out stopped. rewrite (route_stop env net stop_request srv) by done.
  destruct (handle_stop_effect net srv s Hs) as [_ Hstopped].
  rewrite route_buy by done. unfold handle_buy.
  rewrite Hstopped, Hbody, Haddr, Hamount. cbn [from_option id no_number].
  rewrite Hfalsy, Hzero. cbn [orb].
  set (s1 := exec (stop (stopping net)) s) in *.
  match goal with
  | |- context [call net' ?m ?s ?v] =>
      destruct (call_swarm net' m s v) as [Hswarm Hsnd];
      rewrite Hsnd
  end.
  rewrite (manualBuy_result _ _ _ s1 key token) by done.
  cbn [fst snd]. split; [done|].
  rewrite broadcast_swarm, Hswarm. eexists. split; [done|].
  destruct (manualBuy_frame (trading net') tokenAddress solAmount s1)
    as [-> ->].
  split; [done|]. split; [done|].
  rewrite (manualBuy_writes _ _ _ s1 key token) by done.
  change (config s1) with (config s). fold result. by rewrite Hsuccess.
Qed.

Lemma buy_after_stop_still_trades_witness :
  let stopped :=
    fst (handleAPI Wire.no_env Wire.quiet_net
           (Wire.post "/api/stop" Wire.no_fields) Wire.up) in
  let out :=
    handleAPI Wire.no_env Wire.quiet_net (Wire.post "/api/buy" Wire.buy_A)
              stopped in
  ∃ s', swarm (fst out) = Some s'
        ∧ running s' = false
        ∧ length (positions (db s')) = 1%nat.
Proof.
  destruct (buy_after_stop_still_trades Wire.no_env Wire.no_env
              Wire.quiet_net Wire.quiet_net
              (Wire.post "/api/stop" Wire.no_fields)
              (Wire.post "/api/buy" Wire.buy_A) Wire.up
              (exec (start Sample.calm Sample.calm Sample.calm
                           (λ _, Sample.calm))
                    (new_Swarm (config_of Wire.no_env Wire.keys) empty_db))
              "pubkey" "A" (1 # 100) Wire.buy_A (Sample.token "A"))
    as (_ & s' & Hswarm & Hrun & _ & Hpos).
  - vm_compute. reflexivity.
  - vm_compute. reflexivity.
  - reflexivity.
  - reflexivity.
  - reflexivity.
  - reflexivity.
  - reflexivity.
  - reflexivity.
  - reflexivity.
  - reflexivity.
  - reflexivity.
  - reflexivity.
  - vm_compute. reflexivity.
  - exists s'. split; [exact Hswarm|]. split; [exact Hrun|].
    rewrite Hpos, length_app. vm_compute. reflexivity.
Defined.

(** ** index.ts: the requests that fail *)

Lemma returns_manualBuy w tokenAddress solAmount :
  returns (manualBuy w tokenAddress solAmount).
Proof. unfold manualBuy. returns_tac. Qed.

(** [manualSell] throws only where [closePosition] prints a [pnl_pct] that
    is NULL, which is after the sale has succeeded and the row was closed. *)
Lemma manualSell_throws w positionId s e :
  snd (manualSell w positionId s) = Js.Throw e →
  ∃ pos,
    is_Some (wallet s)
    ∧ position_by_id positionId (db s) = Some pos
    ∧ Pos.status pos = OPEN
    ∧ Pos.pnl_pct pos = Pnl.Null
    ∧ Trade.success
        (executeSell (jupiter w) (Pos.token_address pos) (Pos.token_amount pos)
           (Pos.token_decimals pos) (slippageBps (config s)) (now w)) = true.
Proof.
  unfold manualSell. run_method.
  destruct (wallet s) as [key|] eqn:Hwallet; run_method; [|done].
  destruct (List.find _ _) as [found|] eqn:Hfind; run_method; [|done].
  unfold closePosition. run_method. rewrite Hwallet. run_method.
  destruct (position_by_id positionId (db s)) as [pos|] eqn:Hpos;
    run_method; [|done].
  destruct (Pos.is_open pos) eqn:Hopen; run_method; [|done].
  destruct (Trade.success _) eqn:Hsold; run_method; [|done].
  destruct (Pos.pnl_pct pos) eqn:Hpnl; run_method; try done.
  intros _. exists pos. split; [done|]. split; [done|].
  split; [by apply bool_decide_eq_true in Hopen|]. by split.
Qed.

Lemma getBalance_result w s :
  snd (Query.getBalance w s)
  = match wallet s, getBalance w with
    | None, _ => Js.Normal None
    | Some address, Js.Normal bal =>
        Js.Normal (Some ((inject_Z bal / LAMPORTS_PER_SOL)%Q, address))
    | Some _, Js.Throw e => Js.Throw e
    end.
Proof.
  unfold Query.getBalance. run_method.
  destruct (wallet s); run_method; [|done]. by destruct (getBalance w).
Qed.

(** X18.  The requests that are answered with status 500.  There are four
    kinds, and no other: a [POST] to [/start], [/buy] or [/sell] whose body
    cannot be read, answered with the message of that error (for [/buy] and
    [/sell] only when a swarm exists, since its absence is reported first);
    a [GET /balance] on a swarm with a wallet when the RPC request for the
    balance fails; a [POST /start] with an OpenRouter key when making the
    connection to the endpoint throws; and a [POST /sell] of an OPEN position
    whose [pnl_pct] is NULL, once the sale has succeeded.  Stopping and
    buying make no request fail. *)
Theorem requests_that_answer_500 (env : Env) (net : Net) (req : Http.Request)
    (srv : Server) (reply : Http.Reply) :
  let path := remove_first "/api" (Http.pathname req) in
  snd (handleAPI env net req srv) = Http.Json 500 reply →
  (∃ e, Http.body req = Http.Unreadable e
        ∧ reply = Http.Error (Js.message e)
        ∧ Http.method req = "POST"
        ∧ (path = "/start"
           ∨ (path = "/buy" ∨ path = "/sell") ∧ is_Some (swarm srv)))
  ∨ (∃ s address e,
       swarm srv = Some s
       ∧ wallet s = Some address
       ∧ getBalance (trading net) = Js.Throw e
       ∧ reply = Http.Error (Js.message e)
       ∧ Http.method req = "GET"
       ∧ path = "/balance")
  ∨ (∃ b e,
       Http.body req = Http.Object b
       ∧ Js.falsy (openrouterKey (config_of env b)) = false
       ∧ getConnection (starting net) (rpcUrl (config_of env b)) = Js.Throw e
       ∧ reply = Http.Error (Js.message e)
       ∧ Http.method req = "POST"
       ∧ path = "/start")
  ∨ (∃ s b positionId pos,
       swarm srv = Some s
       ∧ Http.body req = Http.Object b
       ∧ Http.positionId b = Some positionId
       ∧ is_Some (wallet s)
       ∧ position_by_id positionId (db s) = Some pos
       ∧ Pos.status pos = OPEN
       ∧ Pos.pnl_pct pos = Pnl.Null
       ∧ Trade.success
           (executeSell (jupiter (trading net)) (Pos.token_address pos)
              (Pos.token_amount pos) (Pos.token_decimals pos)
              (slippageBps (config s)) (now (trading net))) = true
       ∧ Http.method req = "POST"
       ∧ path = "/sell").
Proof.
  intros path. unfold handleAPI. fold path.
  destruct (String.eqb (Http.method req) "OPTIONS"); [done|].
  destruct (String.eqb_spec path "/start") as [Hstart|_]; cbn [andb].
  { destruct (String.eqb_spec (Http.method req) "POST") as [Hpost|_].
    - destruct (Http.body req) as [e|b] eqn:Hbody.
      + unfold handle_start. rewrite Hbody.
        intros [= <-]. left. exists e. by repeat split; [|left].
      + destruct (handle_start_effect env net req srv b Hbody)
          as (prev & told & _ & _ & _ & ->).
        rewrite start_outcome.
        change (running (new_Swarm (config_of env b) _)) with false.
        change (config (new_Swarm (config_of env b) _))
          with (config_of env b).
        rewrite config_of_rpcUrl. cbn [orb]. rewrite orb_false_r.
        destruct (Js.falsy (openrouterKey (config_of env b))) eqn:Hkey;
          [done|].
        destruct (getConnection (starting net) (rpcUrl (config_of env b)))
          as [[]|e] eqn:Hconn; [done|].
        intros [= <-]. right. right. left. by exists b, e.
    - rewrite Hstart. by cbn. }
  destruct (String.eqb_spec path "/stop") as [Hstop|_]; cbn [andb].
  { destruct (String.eqb_spec (Http.method req) "POST") as [Hpost|_].
    - unfold handle_stop. destruct (swarm srv) as [s|]; [|done].
      destruct (call_swarm net (stop (stopping net)) s srv) as [_ ->].
      by rewrite stop_returns.
    - rewrite Hstop. by cbn. }
  destruct (String.eqb_spec path "/status") as [->|_]; cbn [andb].
  { destruct (String.eqb (Http.method req) "GET"); [done|]. by cbn. }
  destruct (String.eqb_spec path "/positions") as [->|_]; cbn [andb].
  { destruct (String.eqb (Http.method req) "GET"); [done|]. by cbn. }
  destruct (String.eqb_spec path "/tokens") as [->|_]; cbn [andb].
  { destruct (String.eqb (Http.method req) "GET"); [done|]. by cbn. }
  destruct (String.eqb_spec path "/narratives") as [->|_]; cbn [andb].
  { destruct (String.eqb (Http.method req) "GET"); [done|]. by cbn. }
  destruct (String.eqb_spec path "/history") as [->|_]; cbn [andb].
  { destruct (String.eqb (Http.method req) "GET"); [done|]. by cbn. }
  destruct (String.eqb_spec path "/logs") as [->|_]; cbn [andb].
  { destruct (String.eqb (Http.method req) "GET"); [done|]. by cbn. }
  destruct (String.eqb_spec path "/balance") as [Hbalance|_]; cbn [andb].
  { destruct (String.eqb_spec (Http.method req) "GET") as [Hget|_].
    - unfold handle_balance. destruct (swarm srv) as [s|] eqn:Hs; [|done].
      destruct (call_swarm net (Query.getBalance (trading net)) s srv)
        as [_ ->].
      rewrite getBalance_result.
      destruct (wallet s) as [address|] eqn:Hwallet; [|done].
      destruct (getBalance (trading net)) as [bal|e] eqn:Hbal; [done|].
      intros [= <-]. right. left. by exists s, address, e.
    - rewrite Hbalance. by cbn. }
  destruct (String.eqb_spec path "/buy") as [Hbuy|_]; cbn [andb].
  { destruct (String.eqb_spec (Http.method req) "POST") as [Hpost|_].
    - unfold handle_buy. destruct (swarm srv) as [s|] eqn:Hs; [|done].
      destruct (Http.body req) as [e|b] eqn:Hbody.
      + intros [= <-]. left. exists e.
        repeat split; try done. right. by split; [left|].
      + destruct (_ || _); [done|].
        match goal with
        | |- context [call net ?m ?s ?v] =>
            destruct (call_swarm net m s v) as [_ ->]
        end.
        destruct (returns_manualBuy (trading net)
                    (default EmptyString (Http.tokenAddress b))
                    (default 0%Q (Http.solAmount b)) s) as [result ->].
        done.
    - rewrite Hbuy. by cbn. }
  destruct (String.eqb_spec path "/sell") as [Hsell|_]; cbn [andb].
  { destruct (String.eqb_spec (Http.method req) "POST") as [Hpost|_].
    - unfold handle_sell. destruct (swarm srv) as [s|] eqn:Hs; [|done].
      destruct (Http.body req) as [e|b] eqn:Hbody.
      + intros [= <-]. left. exists e.
        repeat split; try done. right. by split; [right|].
      + destruct (Http.positionId b) as [[|positionId]|] eqn:Hid; try done.
        match goal with
        | |- context [call net ?m ?s ?v] =>
            destruct (call_swarm net m s v) as [_ ->]
        end.
        destruct (snd (manualSell (trading net) (S positionId) s))
          as [result|e] eqn:Hsold; [done|].
        intros _. right. right. right.
        destruct (manualSell_throws (trading net) (S positionId) s e Hsold)
          as (pos & Hwallet & Hpos & Hopen & Hpnl & Hsale).
        by exists s, b, (S positionId), pos.
    - rewrite Hsell. by cbn. }
  destruct (String.eqb path "/search" && String.eqb (Http.method req) "GET");
    [|done].
  by destruct (swarm srv).
Qed.

Lemma requests_that_answer_500_witness :
  ∃ s address,
    swarm Wire.up = Some s
    ∧ wallet s = Some address
    ∧ snd (handleAPI Wire.no_env Wire.offline (Wire.get "/api/balance") Wire.up)
      = Http.Json 500 (Http.Error "down").
Proof.
  destruct (requests_that_answer_500 Wire.no_env Wire.offline
              (Wire.get "/api/balance") Wire.up (Http.Error "down"))
    as [(e & _ & _ & Hpost & _)
       | [(s & address & e & Hs & Hw & _)
         | [(b & e & Hbody & _) | (s & b & i & pos & _ & Hbody & _)]]].
  - vm_compute. reflexivity.
  - discriminate Hpost.
  - exists s, address. split; [exact Hs|]. split; [exact Hw|].
    vm_compute. reflexivity.
  - discriminate Hbody.
  - discriminate Hbody.
Defined.

(** The sale of a position whose [pnl_pct] is NULL is answered 500, although
    the tokens were sold and the position is closed. *)
Example sale_of_an_unpriced_position_fails :
  let out :=
    handleAPI Wire.no_env Wire.quiet_net
      (Wire.post "/api/sell" Wire.sell_1) Wire.up_unpriced in
  ((λ s, Pos.pnl_pct <$> positions (db s)) <$> swarm Wire.up_unpriced)
  = Some [Pnl.Null]
  ∧ (∃ message, snd out = Http.Json 500 (Http.Error message))
  ∧ ((λ s, Pos.status <$> positions (db s)) <$> swarm (fst out))
    = Some [CLOSED].
Proof. vm_compute. split; [done|]. split; [by eexists|done]. Qed.

(** ** trading.ts: formatting *)

Lemma Qfloor_lt (x : Q) (n : Z) : (Qfloor x < n)%Z ↔ (x < inject_Z n)%Q.
Proof.
  split.
  - intros H. eapply Qlt_le_trans; [apply Qlt_floor|].
    rewrite <- Zle_Qle. lia.
  - intros H. rewrite Zlt_Qlt. eapply Qle_lt_trans; [apply Qfloor_le | done].
Qed.

(** The floor of a quotient by a positive integer, on numerator and
    denominator. *)
Lemma Qfloor_div_pos (x : Q) (a : positive) :
  Qfloor (x / inject_Z (Z.pos a)) = (Qnum x / Z.pos (Qden x * a))%Z.
Proof.
  destruct x as [n d]. unfold Qdiv, Qinv, Qmult, Qfloor, inject_Z. simpl.
  by rewrite Z.mul_1_r.
Qed.

Lemma Qfloor_div_div (x : Q) (a b : positive) :
  Qfloor (inject_Z (Qfloor (x / inject_Z (Z.pos a))) / inject_Z (Z.pos b))
  = Qfloor (x / inject_Z (Z.pos (a * b))).
Proof.
  rewrite !Qfloor_div_pos. cbn [Qnum Qden inject_Z].
  rewrite Z.div_div by lia. f_equal. lia.
Qed.

Lemma Qlt_div_pos (x : Q) (a : positive) (n : Z) :
  (x / inject_Z (Z.pos a) < inject_Z n)%Q
  ↔ (x < inject_Z (n * Z.pos a))%Q.
Proof.
  assert (Hpos : (0 < inject_Z (Z.pos a))%Q) by done.
  rewrite inject_Z_mult. split.
  - intros H. apply (Qmult_lt_r _ _ _ Hpos) in H.
    rewrite Qmult_comm, Qmult_div_r in H; [done|].
    by intros E%Qeq_bool_neq.
  - intros H. apply Qlt_shift_div_r; done.
Qed.

(** X19.  [formatAge] picks its unit by the age itself and shows the whole
    number of that unit: minutes below one hour, hours below one day, days
    from then on, in each case the age divided by the length of the unit and
    rounded down.  A creation time in the future therefore gives a negative
    number of minutes, however far ahead it is. *)
Theorem age_is_shown_in_whole_units (now : Z) (createdAt : Q) :
  let age := (inject_Z now - createdAt)%Q in
  ((age < 3600000)%Q →
   formatAge now createdAt = pretty (Qfloor (age / 60000)) +:+ "m")
  ∧ ((3600000 <= age)%Q → (age < 86400000)%Q →
     formatAge now createdAt = pretty (Qfloor (age / 3600000)) +:+ "h")
  ∧ ((86400000 <= age)%Q →
     formatAge now createdAt = pretty (Qfloor (age / 86400000)) +:+ "d")
  ∧ ((inject_Z now < createdAt)%Q →
     (Qfloor (age / 60000) < 0)%Z).
Proof.
  intros age.
  assert (Hmins : ∀ n : Z,
    (Qfloor (age / 60000) <? n)%Z = true ↔ (age < inject_Z (n * 60000))%Q).
  { intros n. rewrite Z.ltb_lt, Qfloor_lt.
    apply (Qlt_div_pos age 60000 n). }
  assert (Hhours : Qfloor (inject_Z (Qfloor (age / 60000)) / 60)
                   = Qfloor (age / 3600000))
    by apply (Qfloor_div_div age 60000 60).
  assert (Hdays : Qfloor (inject_Z (Qfloor (age / 3600000)) / 24)
                  = Qfloor (age / 86400000))
    by apply (Qfloor_div_div age 3600000 24).
  assert (Hh : ∀ n : Z,
    (Qfloor (age / 3600000) <? n)%Z = true
    ↔ (age < inject_Z (n * 3600000))%Q).
  { intros n. rewrite Z.ltb_lt, Qfloor_lt.
    apply (Qlt_div_pos age 3600000 n). }
  unfold formatAge. fold age. cbv zeta. rewrite Hhours, Hdays.
  split; [|split; [|split]].
  - intros Hlt. by rewrite (proj2 (Hmins 60%Z)).
  - intros Hge Hlt.
    destruct (Qfloor (age / 60000) <? 60)%Z eqn:E.
    { apply (Hmins 60%Z) in E. by apply Qle_not_lt in Hge. }
    by rewrite (proj2 (Hh 24%Z)).
  - intros Hge.
    destruct (Qfloor (age / 60000) <? 60)%Z eqn:E.
    { apply (Hmins 60%Z) in E. exfalso. apply (Qle_not_lt _ _ Hge).
      eapply Qlt_trans; [exact E | done]. }
    destruct (Qfloor (age / 3600000) <? 24)%Z eqn:E'; [|done].
    apply (Hh 24%Z) in E'. by apply Qle_not_lt in Hge.
  - intros Hfuture. apply Z.ltb_lt, (Hmins 0%Z).
    subst age. rewrite <- (Qplus_lt_l _ _ createdAt).
    setoid_replace (inject_Z now - createdAt + createdAt)%Q
      with (inject_Z now) using relation Qeq by ring.
    change (inject_Z (0 * 60000)) with 0%Q. by rewrite Qplus_0_l.
Qed.

Lemma Qle_bool_false a b : Qle_bool a b = false ↔ (b < a)%Q.
Proof.
  split.
  - intros H. apply Qnot_le_lt. intros Hle%Qle_bool_iff. congruence.
  - intros H. apply not_true_iff_false. intros Hle%Qle_bool_iff.
    by apply Qle_not_lt in Hle.
Qed.

(** *** Rounding to a double *)

Lemma nearest_even_ge (y : Q) (K : Z) :
  (inject_Z K <= y)%Q → (K ≤ Js.nearest_even y)%Z.
Proof.
  intros H. unfold Js.nearest_even.
  assert (K ≤ Qfloor y)%Z
    by (rewrite <- (Qfloor_Z K); by apply Qfloor_resp_le).
  destruct (_ ?= _)%Q; [destruct (Z.even _)|..]; lia.
Qed.

Lemma nearest_even_le (y : Q) (K : Z) :
  (y <= inject_Z K)%Q → (Js.nearest_even y ≤ K)%Z.
Proof.
  intros H. unfold Js.nearest_even.
  assert (Hf : (Qfloor y ≤ K)%Z)
    by (rewrite <- (Qfloor_Z K); by apply Qfloor_resp_le).
  destruct (Z.eq_dec (Qfloor y) K) as [Heq|Hne].
  - assert (Hlt : (y - inject_Z (Qfloor y) < 1 # 2)%Q).
    { rewrite Heq. apply Qle_lt_trans with (y := 0%Q); [|done].
      by apply (Qplus_le_l _ _ (inject_Z K)); ring_simplify. }
    destruct (Qcompare_spec (y - inject_Z (Qfloor y)) (1 # 2)) as [He|_|Hgt].
    + rewrite He in Hlt. by apply Qlt_irrefl in Hlt.
    + lia.
    + exfalso. apply (Qlt_irrefl (1 # 2)). by eapply Qlt_trans.
  - destruct (_ ?= _)%Q; [destruct (Z.even _)|..]; lia.
Qed.

Lemma Qpower_2_pos (k : Z) : (0 < Qpower 2 k)%Q.
Proof. by apply Qpower_0_lt. Qed.

Lemma Qpower_2_Z (k : Z) : (0 ≤ k)%Z → (Qpower 2 k == inject_Z (2 ^ k))%Q.
Proof. intros Hk. by rewrite Zpower_Qpower. Qed.

(** The binade of a positive number holds it. *)
Lemma binade_spec (x : Q) :
  (0 < x)%Q →
  (Qpower 2 (Js.binade x) <= x)%Q ∧ (x < Qpower 2 (Js.binade x + 1))%Q.
Proof.
  destruct x as [n d]. intros Hpos.
  assert (Hn : (0 < n)%Z) by (unfold Qlt in Hpos; simpl in Hpos; lia).
  unfold Js.binade. cbn [Qnum Qden]. rewrite Z.abs_eq by lia.
  set (a := Z.log2 n). set (b := Z.log2 (Z.pos d)).
  pose proof (Z.log2_spec n Hn) as [Hna Hna'].
  pose proof (Z.log2_spec (Z.pos d) eq_refl) as [Hdb Hdb'].
  pose proof (Z.log2_nonneg n) as Ha0.
  pose proof (Z.log2_nonneg (Z.pos d)) as Hb0.
  fold a in Hna, Hna', Ha0. fold b in Hdb, Hdb', Hb0.
  assert (Hpa : (0 < 2 ^ a)%Z) by (apply Z.pow_pos_nonneg; lia).
  assert (Hpb : (0 < 2 ^ b)%Z) by (apply Z.pow_pos_nonneg; lia).
  destruct (Qle_bool (Qpower 2 (a - b)) (n # d)) eqn:Htest.
  - split; [by apply Qle_bool_iff|].
    replace (a - b + 1)%Z with (Z.succ a - b)%Z by lia.
    rewrite Qpower_minus by done.
    rewrite (Qpower_2_Z (Z.succ a)), (Qpower_2_Z b) by lia.
    apply Qlt_shift_div_l.
    + change (inject_Z 0 < inject_Z (2 ^ b))%Q. by rewrite <- Zlt_Qlt.
    + unfold Qlt, Qmult, inject_Z. cbn [Qnum Qden]. nia.
  - split.
    + replace (a - b - 1)%Z with (a - Z.succ b)%Z by lia.
      rewrite Qpower_minus by done.
      rewrite (Qpower_2_Z a), (Qpower_2_Z (Z.succ b)) by lia.
      apply Qle_shift_div_r.
      * change (inject_Z 0 < inject_Z (2 ^ Z.succ b))%Q.
        rewrite <- Zlt_Qlt. apply Z.pow_pos_nonneg; lia.
      * unfold Qle, Qmult, inject_Z. cbn [Qnum Qden]. nia.
    + replace (a - b - 1 + 1)%Z with (a - b)%Z by lia.
      apply Qnot_le_lt. intros Hle. apply Qle_bool_iff in Hle. congruence.
Qed.

Lemma double_nonzero (x : Q) :
  (0 < x)%Q →
  (Js.double x
   == inject_Z (Js.nearest_even
                  (x / Qpower 2 (Z.max (Js.binade x - 52) (-1074))))
      * Qpower 2 (Z.max (Js.binade x - 52) (-1074)))%Q.
Proof.
  intros Hpos. unfold Js.double.
  destruct (Qeq_bool x 0) eqn:E.
  - apply Qeq_bool_iff in E. rewrite E in Hpos. by apply Qlt_irrefl in Hpos.
  - apply Qred_correct.
Qed.

(** Rounding does not go below a power of two that the number reaches. *)
Lemma double_ge_pow2 (x : Q) (j : Z) :
  (Qpower 2 j <= x)%Q → (-1022 ≤ j)%Z → (Qpower 2 j <= Js.double x)%Q.
Proof.
  intros Hge Hj.
  assert (Hpos : (0 < x)%Q)
    by (eapply Qlt_le_trans; [apply (Qpower_2_pos j)|done]).
  destruct (binade_spec x Hpos) as [Hlow Hhigh].
  set (e := Js.binade x) in *.
  assert (He : (j ≤ e)%Z).
  { assert (j < e + 1)%Z; [|lia].
    apply (Qpower_lt_compat_l_inv 2); [|done].
    by eapply Qle_lt_trans. }
  rewrite double_nonzero by done. fold e.
  rewrite Z.max_l by lia.
  pose proof (Qpower_2_pos (e - 52)) as Hulp.
  assert (Hk : (2 ^ 52 ≤ Js.nearest_even (x / Qpower 2 (e - 52)))%Z).
  { apply nearest_even_ge. apply Qle_shift_div_l; [done|].
    rewrite <- Qpower_2_Z by lia. rewrite <- Qpower_plus by done.
    by replace (52 + (e - 52))%Z with e by lia. }
  apply Qle_trans with (y := Qpower 2 e);
    [by apply Qpower_le_compat_l|].
  replace e with (52 + (e - 52))%Z at 1 by lia.
  rewrite Qpower_plus by done. rewrite Qpower_2_Z by lia.
  apply Qmult_le_compat_r; [|by apply Qlt_le_weak].
  by rewrite <- Zle_Qle.
Qed.

(** Rounding does not go above a number that is itself on the grid. *)
Lemma double_le_dyadic (x : Q) (m j E : Z) :
  (0 < x)%Q →
  (x <= inject_Z m * Qpower 2 j)%Q →
  (x < Qpower 2 E)%Q →
  (E - 53 ≤ j)%Z → (-1074 ≤ j)%Z →
  (Js.double x <= inject_Z m * Qpower 2 j)%Q.
Proof.
  intros Hpos Hle Hlt HE Hj.
  destruct (binade_spec x Hpos) as [Hlow _].
  set (e := Js.binade x) in *.
  assert (He : (e < E)%Z).
  { apply (Qpower_lt_compat_l_inv 2); [|done]. by eapply Qle_lt_trans. }
  rewrite double_nonzero by done. fold e.
  set (k := Z.max (e - 52) (-1074)).
  assert (Hk : (k ≤ j)%Z) by lia.
  pose proof (Qpower_2_pos k) as Hulp.
  assert (Hgrid : (inject_Z m * Qpower 2 j
                   == inject_Z (m * 2 ^ (j - k)) * Qpower 2 k)%Q).
  { rewrite inject_Z_mult, <- Qpower_2_Z by lia.
    rewrite <- Qmult_assoc, <- Qpower_plus by done.
    by replace (j - k + k)%Z with j by lia. }
  rewrite Hgrid.
  apply Qmult_le_compat_r; [|by apply Qlt_le_weak].
  rewrite <- Zle_Qle. apply nearest_even_le.
  apply Qle_shift_div_r; [done|]. by rewrite <- Hgrid.
Qed.

(** *** The figure that [formatMcap] shows *)

Lemma digit_length (r : Z) :
  (0 ≤ r < 10)%Z → String.length (pretty r) = 1%nat.
Proof.
  intros Hr.
  assert (Hcases : r = 0%Z ∨ r = 1%Z ∨ r = 2%Z ∨ r = 3%Z ∨ r = 4%Z ∨ r = 5%Z
                   ∨ r = 6%Z ∨ r = 7%Z ∨ r = 8%Z ∨ r = 9%Z) by lia.
  repeat destruct Hcases as [->|Hcases]; try reflexivity.
  subst r. reflexivity.
Qed.

Lemma Qltb_nonneg (x : Q) : (0 <= x)%Q → Qltb x 0 = false.
Proof.
  intros Hx. unfold Qltb. apply Qle_bool_iff in Hx. by rewrite Hx.
Qed.

Lemma below_exponent_notation (x : Q) :
  (x < pow10 21)%Q → Qle_bool (pow10 21) x = false.
Proof. apply Qle_bool_false. Qed.

(** [toFixed(1)] and [toFixed(0)] of a number that is not negative and is
    below 10^21. *)
Lemma toFixed_1 exponent_notation (x : Q) :
  (0 <= x)%Q → (x < pow10 21)%Q →
  toFixed exponent_notation 1 x
  = pretty (Qfloor (x * 10 + (1 # 2)) `div` 10)%Z +:+ "." +:+
    pretty (Qfloor (x * 10 + (1 # 2)) `mod` 10)%Z.
Proof.
  intros Hx Hbig. unfold toFixed.
  rewrite Qltb_nonneg, below_exponent_notation by done.
  change (10 ^ Z.of_nat 1)%Z with 10%Z. change (inject_Z 10) with 10%Q.
  rewrite digit_length by (apply Z.mod_pos_bound; lia).
  reflexivity.
Qed.

Lemma toFixed_0 exponent_notation (x : Q) :
  (0 <= x)%Q → (x < pow10 21)%Q →
  toFixed exponent_notation 0 x = pretty (Qfloor (x + (1 # 2))).
Proof.
  intros Hx Hbig. unfold toFixed.
  rewrite Qltb_nonneg, below_exponent_notation by done.
  change (10 ^ Z.of_nat 0)%Z with 1%Z. f_equal.
  apply Qfloor_comp. change (inject_Z 1) with 1%Q. ring.
Qed.

(** The tenths that are shown for a number between two bounds. *)
Lemma tenths_bounds (x : Q) (lo hi : Z) :
  (inject_Z lo <= x)%Q → (x <= inject_Z hi)%Q →
  (10 * lo ≤ Qfloor (x * 10 + (1 # 2)) ≤ 10 * hi)%Z.
Proof.
  intros Hlo Hhi. split.
  - rewrite <- (Qfloor_Z (10 * lo)). apply Qfloor_resp_le.
    rewrite inject_Z_mult. change (inject_Z 10) with 10%Q.
    apply Qle_trans with (y := (x * 10)%Q).
    + rewrite (Qmult_comm x). by apply Qmult_le_l.
    + rewrite <- (Qplus_0_r (x * 10)) at 1. by apply Qplus_le_r.
  - assert (Hlt : (Qfloor (x * 10 + (1 # 2)) < 10 * hi + 1)%Z); [|lia].
    apply Qfloor_lt. rewrite inject_Z_plus, inject_Z_mult.
    change (inject_Z 10) with 10%Q. change (inject_Z 1) with 1%Q.
    apply Qle_lt_trans with (y := (10 * inject_Z hi + (1 # 2))%Q).
    + apply Qplus_le_l. rewrite (Qmult_comm x). by apply Qmult_le_l.
    + by apply Qplus_lt_r.
Qed.

(** The quotient by a unit, rounded to a double, stays between the bounds
    of the quotient. *)
Lemma unit_quotient (n : Q) (unit : positive) (m j E : Z) :
  (inject_Z (Z.pos unit) <= n)%Q →
  (n <= inject_Z m * Qpower 2 j * inject_Z (Z.pos unit))%Q →
  (inject_Z m * Qpower 2 j < Qpower 2 E)%Q →
  (E - 53 ≤ j)%Z → (-1074 ≤ j)%Z →
  (1 <= Js.double (n / inject_Z (Z.pos unit)))%Q
  ∧ (Js.double (n / inject_Z (Z.pos unit)) <= inject_Z m * Qpower 2 j)%Q.
Proof.
  intros Hlo Hhi HE Hj Hj'.
  assert (Hunit : (0 < inject_Z (Z.pos unit))%Q) by done.
  assert (H1 : (1 <= n / inject_Z (Z.pos unit))%Q).
  { apply Qle_shift_div_l; [done|]. by rewrite Qmult_1_l. }
  assert (H2 : (n / inject_Z (Z.pos unit) <= inject_Z m * Qpower 2 j)%Q)
    by (by apply Qle_shift_div_r).
  split.
  - by apply (double_ge_pow2 _ 0).
  - apply (double_le_dyadic _ m j E); try done.
    + by apply Qlt_le_trans with (y := 1%Q).
    + by eapply Qle_lt_trans.
Qed.

(** X20.  The figure that [formatMcap] shows.  An amount from 1000 on is
    divided by the largest of the units K, M and B that it reaches, and the
    quotient is shown with one decimal, rounded to the nearest tenth, a half
    going up: the figure is at least 1.0, and at most 1000.0 for K and M.
    It reaches 1000.0 itself, since the unit is chosen before the rounding:
    999950 is shown as 1000.0K.  An amount below 1000 that is not negative is
    shown without unit as the nearest integer, which is at most 1000, and a
    negative amount as the nearest integer to its size behind a minus
    sign. *)
Theorem mcap_is_shown_in_the_largest_unit (exponent_notation : Q → string)
    (n : Q) :
  let fixed1 (t : Z) :=
    pretty (t `div` 10)%Z +:+ "." +:+ pretty (t `mod` 10)%Z in
  let tenths (x : Q) := Qfloor (Js.double x * 10 + (1 # 2)) in
  let shown := formatMcap exponent_notation n in
  ((0 <= n)%Q → (n < 1000)%Q →
   shown = pretty (Qfloor (n + (1 # 2)))
   ∧ (0 ≤ Qfloor (n + (1 # 2)) ≤ 1000)%Z)
  ∧ ((1000 <= n)%Q → (n < 1000000)%Q →
     shown = fixed1 (tenths (n / 1000)%Q) +:+ "K"
     ∧ (10 ≤ tenths (n / 1000)%Q ≤ 10000)%Z)
  ∧ ((1000000 <= n)%Q → (n < 1000000000)%Q →
     shown = fixed1 (tenths (n / 1000000)%Q) +:+ "M"
     ∧ (10 ≤ tenths (n / 1000000)%Q ≤ 10000)%Z)
  ∧ ((1000000000 <= n)%Q → (n <= pow10 29)%Q →
     shown = fixed1 (tenths (n / 1000000000)%Q) +:+ "B"
     ∧ (10 ≤ tenths (n / 1000000000)%Q)%Z)
  ∧ ((n < 0)%Q → (- pow10 21 < n)%Q →
     shown = "-" +:+ pretty (Qfloor (- n + (1 # 2)))).
Proof.
  intros fixed1 tenths shown. subst shown. unfold formatMcap.
  split; [|split; [|split; [|split]]].
  - intros Hge Hlt.
    rewrite (proj2 (Qle_bool_false 1000000000 n))
      by (eapply Qlt_trans; [exact Hlt | done]).
    rewrite (proj2 (Qle_bool_false 1000000 n))
      by (eapply Qlt_trans; [exact Hlt | done]).
    rewrite (proj2 (Qle_bool_false 1000 n)) by done.
    rewrite toFixed_0; [|done|by eapply Qlt_trans; [exact Hlt|]].
    split; [done|]. split.
    + rewrite <- (Qfloor_Z 0). apply Qfloor_resp_le.
      apply Qle_trans with (y := n); [done|].
      rewrite <- (Qplus_0_r n) at 1. by apply Qplus_le_r.
    + assert (Hfloor : (Qfloor (n + (1 # 2)) < 1001)%Z); [|lia].
      apply Qfloor_lt.
      apply Qlt_trans with (y := (1000 + (1 # 2))%Q); [|done].
      by apply Qplus_lt_l.
  - intros Hge Hlt.
    rewrite (proj2 (Qle_bool_false 1000000000 n))
      by (eapply Qlt_trans; [exact Hlt | done]).
    rewrite (proj2 (Qle_bool_false 1000000 n)) by done.
    rewrite (proj2 (Qle_bool_iff 1000 n)) by done.
    destruct (unit_quotient n 1000 125 3 10) as [H1 H2];
      [done|by apply Qlt_le_weak|done|lia|lia|].
    rewrite toFixed_1;
      [|by apply Qle_trans with (y := 1%Q)|by eapply Qle_lt_trans].
    split; [done|]. by apply (tenths_bounds _ 1 1000).
  - intros Hge Hlt.
    rewrite (proj2 (Qle_bool_false 1000000000 n)) by done.
    rewrite (proj2 (Qle_bool_iff 1000000 n)) by done.
    destruct (unit_quotient n 1000000 125 3 10) as [H1 H2];
      [done|by apply Qlt_le_weak|done|lia|lia|].
    rewrite toFixed_1;
      [|by apply Qle_trans with (y := 1%Q)|by eapply Qle_lt_trans].
    split; [done|]. by apply (tenths_bounds _ 1 1000).
  - intros Hge Hle.
    rewrite (proj2 (Qle_bool_iff 1000000000 n)) by done.
    destruct (unit_quotient n 1000000000 95367431640625 20 67) as [H1 H2];
      [done|done|done|lia|lia|].
    rewrite toFixed_1;
      [|by apply Qle_trans with (y := 1%Q)|by eapply Qle_lt_trans].
    split; [done|].
    assert (Hlow : (inject_Z 1 <= Js.double (n / 1000000000))%Q) by done.
    unfold tenths.
    rewrite <- (Qfloor_Z 10). apply Qfloor_resp_le.
    apply Qle_trans with (y := (Js.double (n / 1000000000) * 10)%Q).
    + rewrite Qmult_comm. change (inject_Z 10) with (10 * 1)%Q.
      by apply Qmult_le_l.
    + rewrite <- (Qplus_0_r (_ * 10)) at 1. by apply Qplus_le_r.
  - intros Hneg Hbig.
    assert (Hlt : (n < 1000)%Q) by (by eapply Qlt_trans).
    rewrite (proj2 (Qle_bool_false 1000000000 n))
      by (eapply Qlt_trans; [exact Hlt | done]).
    rewrite (proj2 (Qle_bool_false 1000000 n))
      by (eapply Qlt_trans; [exact Hlt | done]).
    rewrite (proj2 (Qle_bool_false 1000 n)) by done.
    unfold toFixed.
    assert (Hsign : Qltb n 0 = true).
    { unfold Qltb. by rewrite (proj2 (Qle_bool_false 0 n)). }
    rewrite Hsign.
    rewrite below_exponent_notation.
    + change (10 ^ Z.of_nat 0)%Z with 1%Z. do 2 f_equal.
      apply Qfloor_comp. change (inject_Z 1) with 1%Q. ring.
    + apply Qopp_lt_compat in Hbig. by rewrite Qopp_involutive in Hbig.
Qed.

Example figures_of_formatMcap :
  formatMcap (λ _, "1e+21") 999950 = "1000.0K"
  ∧ formatMcap (λ _, "1e+21") 1234567 = "1.2M"
  ∧ formatMcap (λ _, "1e+21") 1500000000 = "1.5B"
  ∧ formatMcap (λ _, "1e+21") (1999 # 2) = "1000"
  ∧ formatMcap (λ _, "1e+21") (- (1 # 4)) = "-0".
Proof. repeat split; vm_compute; reflexivity. Qed.

(** ** swarm.ts: what the server reads *)

Lemma insert_desc_perm {A} (key : A → Q) r l : insert_desc key r l ≡ₚ r :: l.
Proof.
  induction l as [|x l IH]; [done|]. cbn [insert_desc].
  destruct (Qltb (key x) (key r)); [done|].
  rewrite IH. apply Permutation_swap.
Qed.

Lemma insert_desc_sorted {A} (key : A → Q) r l :
  descending key l → descending key (insert_desc key r l).
Proof.
  induction l as [|x l IH]; [by split|]. cbn [insert_desc descending].
  intros [Hx Hl]. destruct (Qltb (key x) (key r)) eqn:E.
  - cbn [descending]. split; [|by split].
    assert (Hxr : (key x <= key r)%Q).
    { unfold Qltb in E. apply negb_true_iff in E.
      apply Qle_bool_false in E. by apply Qlt_le_weak. }
    constructor; [done|].
    eapply Forall_impl; [exact Hx|]. intros y Hy.
    by apply (Qle_trans _ (key x)).
  - cbn [descending]. split; [|by apply IH].
    rewrite insert_desc_perm. constructor; [|done].
    unfold Qltb in E. apply negb_false_iff in E. by apply Qle_bool_iff.
Qed.

Lemma order_desc_spec {A} (key : A → Q) l :
  order_desc key l ≡ₚ l ∧ descending key (order_desc key l).
Proof.
  unfold order_desc.
  assert (H : ∀ acc, descending key acc →
    fold_left (λ sorted r, insert_desc key r sorted) l acc ≡ₚ (l ++ acc)%list
    ∧ descending key (fold_left (λ sorted r, insert_desc key r sorted) l acc)).
  { induction l as [|x l IH]; intros acc Hacc; [done|].
    cbn [fold_left]. destruct (IH (insert_desc key x acc)) as [Hp Hs].
    - by apply insert_desc_sorted.
    - split; [|done]. rewrite Hp, insert_desc_perm.
      by rewrite <- Permutation_middle. }
  destruct (H [] I) as [Hp Hs]. split; [|done]. by rewrite Hp, app_nil_r.
Qed.

Lemma descending_take {A} (key : A → Q) k l :
  descending key l →
  descending key (take k l)
  ∧ ∀ x y, x ∈ take k l → y ∈ drop k l → (key y <= key x)%Q.
Proof.
  revert k. induction l as [|a l IH]; intros k Hl.
  - rewrite take_nil, drop_nil. split; [done|]. by intros x y ?%elem_of_nil.
  - destruct k as [|k]; cbn [take drop].
    + split; [done|]. by intros x y ?%elem_of_nil.
    + destruct Hl as [Ha Hl]. destruct (IH k Hl) as [Hs Htop].
      split.
      * split; [|done]. eapply Forall_forall. intros y Hy.
        rewrite Forall_forall in Ha. apply Ha. by eapply subseteq_take.
      * intros x y Hx Hy. apply elem_of_cons in Hx as [->|Hx].
        -- rewrite Forall_forall in Ha. apply Ha. by eapply subseteq_drop.
        -- by apply Htop.
Qed.

Lemma descending_fmap {A B} (f : A → B) (key : B → Q) (l : list A) :
  descending (λ x, key (f x)) l → descending key (f <$> l).
Proof.
  induction l as [|x l IH]; [done|]. intros [Hx Hl].
  rewrite fmap_cons. cbn [descending]. split; [|by apply IH].
  apply Forall_fmap. eapply Forall_impl; [exact Hx|]. by intros y Hy.
Qed.

(** [ORDER BY key DESC LIMIT limit] gives the first rows. *)
Lemma take_order_desc {A} (limit : nat) (key : A → Q) (rows : list A) :
  first_rows limit key rows (take limit (order_desc key rows)).
Proof.
  destruct (order_desc_spec key rows) as [Hperm Hsorted].
  destruct (descending_take key limit _ Hsorted) as [Htake Htop].
  assert (Hlen : length (order_desc key rows) = length rows)
    by by rewrite Hperm.
  split; [rewrite length_take; lia|].
  split; [rewrite length_take; lia|].
  split; [done|].
  exists (drop limit (order_desc key rows)).
  split; [by rewrite take_drop | done].
Qed.

(** X21.  What the dashboard is given.  [getPositions] hands out every row
    of [positions], OPEN or not, each once, latest entry first.
    [getNarratives], [getTradeHistory] and [getScannedTokens] hand out the
    first 10, 100 and 50 rows of their tables in descending order of score,
    time and score: no row that is left out ranks above one that is handed
    out, and none is left out while there is room. *)
Theorem dashboard_queries_return_the_top_rows (s : Swarm) :
  (Query.getPositions s ≡ₚ Position.of_row <$> positions (db s)
   ∧ descending (λ p, inject_Z (Position.entryTime p)) (Query.getPositions s))
  ∧ first_rows 10 Narr.row_score (narratives (db s)) (Query.getNarratives s)
  ∧ first_rows 100 (λ t, inject_Z (Ledger.timestamp t))
      (trade_history (db s)) (Query.getTradeHistory s)
  ∧ first_rows 50 (λ kv, Scan.row_score (snd kv))
      (map_to_list (scanned_tokens (db s))) (Query.getScannedTokens s).
Proof.
  split; [|split; [|split]]; try apply take_order_desc.
  unfold Query.getPositions.
  destruct (order_desc_spec (λ r, inject_Z (Pos.entry_time r))
              (positions (db s))) as [Hperm Hsorted].
  split; [by f_equiv|]. by apply descending_fmap.
Qed.

(** ** trading.ts: the requests to DexScreener *)

Lemma omap_length_le {A B} (f : A → option B) (l : list A) :
  (List.length (omap f l) ≤ List.length l)%nat.
Proof.
  induction l as [|x l IH]; [done|].
  cbn [omap list_omap]. destruct (f x); simpl; lia.
Qed.

Lemma omap_filter {A B} (f : A → option B) (keep : B → bool) (l : list A) :
  omap (λ x, match f x with
             | Some y => if keep y then Some y else None
             | None => None
             end) l
  = List.filter keep (omap f l).
Proof.
  induction l as [|x l IH]; [done|].
  cbn. destruct (f x) as [y|]; cbn; [|exact IH].
  destruct (keep y); cbn; [by f_equal|exact IH].
Qed.

Lemma getNewPairs_refines fetch mapDexPair minLiquidity :
  Dex.getNewPairs fetch mapDexPair minLiquidity
  = getNewPairs (latest_with_pairs fetch mapDexPair) minLiquidity.
Proof.
  unfold Dex.getNewPairs, latest_with_pairs, getNewPairs.
  destruct (Dex.listed fetch Dex.Profiles) as [[solTokens|]|e]; try done.
  cbn [Dex.or_else].
  apply (omap_filter (λ t, Dex.or_else None (Dex.pair_of fetch mapDexPair t))
           (λ t, Qle_bool minLiquidity (Token.liquidity t))).
Qed.

Lemma latest_with_pairs_length fetch mapDexPair :
  (List.length (latest_with_pairs fetch mapDexPair) ≤ 30)%nat.
Proof.
  unfold latest_with_pairs.
  destruct (Dex.listed fetch Dex.Profiles) as [[solTokens|]|e];
    simpl; try lia.
  etrans; [apply omap_length_le|]. rewrite length_take. lia.
Qed.

Lemma filter_length_le {A} (keep : A → bool) (l : list A) :
  (List.length (List.filter keep l) ≤ List.length l)%nat.
Proof.
  induction l as [|x l IH]; [done|]. simpl. destruct (keep x); simpl; lia.
Qed.

Lemma filter_sublist {A} (keep : A → bool) (l : list A) :
  List.filter keep l `sublist_of` l.
Proof.
  induction l as [|x l IH]; [done|]. simpl.
  destruct (keep x); by constructor.
Qed.

Lemma filter_narrower {A} (keep keep' : A → bool) (l : list A) :
  (∀ x, keep x = true → keep' x = true) →
  List.filter keep l `sublist_of` List.filter keep' l.
Proof.
  intros Himp. induction l as [|x l IH]; [done|]. simpl.
  destruct (keep x) eqn:Hk.
  - rewrite (Himp x Hk). by constructor.
  - destruct (keep' x); [by constructor|done].
Qed.

(** X22.  [getNewPairs], request by request, returns what the model of the
    swarm takes it to return: the first thirty latest profiles on Solana
    that have pair data, cut down to those with the liquidity asked for.  So
    it never returns more than thirty tokens, every token has at least that
    liquidity, and asking for more liquidity only takes tokens away;
    [getTrendingTokens] never returns more than twenty. *)
Theorem new_pairs_are_few_and_liquid
    (fetch : Dex.fetcher) (mapDexPair : Json.value → Token.info)
    (minLiquidity higher : Q) :
  Dex.getNewPairs fetch mapDexPair minLiquidity
    = getNewPairs (latest_with_pairs fetch mapDexPair) minLiquidity
  ∧ (List.length (Dex.getNewPairs fetch mapDexPair minLiquidity) ≤ 30)%nat
  ∧ Forall (λ t, (minLiquidity <= Token.liquidity t)%Q)
      (Dex.getNewPairs fetch mapDexPair minLiquidity)
  ∧ ((minLiquidity <= higher)%Q →
     Dex.getNewPairs fetch mapDexPair higher
       `sublist_of` Dex.getNewPairs fetch mapDexPair minLiquidity)
  ∧ (List.length (Dex.getTrendingTokens fetch mapDexPair) ≤ 20)%nat.
Proof.
  rewrite !getNewPairs_refines. unfold getNewPairs.
  split; [done|]. split; [|split; [|split]].
  - etrans; [apply filter_length_le|apply latest_with_pairs_length].
  - apply Forall_forall. intros t Ht.
    apply list_elem_of_In, filter_In in Ht as [_ Ht].
    by apply Qle_bool_iff.
  - intros Hle. apply filter_narrower. intros t Ht.
    apply Qle_bool_iff. apply Qle_bool_iff in Ht. by eapply Qle_trans.
  - unfold Dex.getTrendingTokens.
    destruct (Dex.listed fetch Dex.Boosts) as [[solTokens|]|e];
      simpl; try lia.
    etrans; [apply omap_length_le|]. rewrite length_take. lia.
Qed.

(** X23.  A request for pair data that fails costs one token only: when the
    list of latest profiles was read, a token is returned by [getNewPairs]
    exactly when it is the first pair of one of the first thirty profiles on
    Solana, its own request went through, and it has the liquidity asked
    for, whatever became of the requests for the other profiles. *)
Theorem a_failed_pair_request_skips_one_token
    (fetch : Dex.fetcher) (mapDexPair : Json.value → Token.info)
    (minLiquidity : Q) (solTokens : list Json.value) (token : Token.info) :
  Dex.listed fetch Dex.Profiles = Js.Normal (Some solTokens) →
  token ∈ Dex.getNewPairs fetch mapDexPair minLiquidity
  ↔ ∃ t, t ∈ take 30 solTokens
       ∧ Dex.pair_of fetch mapDexPair t = Js.Normal (Some token)
       ∧ (minLiquidity <= Token.liquidity token)%Q.
Proof.
  intros Hlist. unfold Dex.getNewPairs. rewrite Hlist. cbn [Dex.or_else].
  rewrite list_elem_of_omap. split.
  - intros (t & Ht & Hsome). exists t. split; [done|].
    destruct (Dex.pair_of fetch mapDexPair t) as [[token'|]|e]; try done.
    cbn [Dex.or_else] in Hsome.
    destruct (Qle_bool minLiquidity (Token.liquidity token')) eqn:Hle;
      [|done].
    simplify_eq. split; [done|]. by apply Qle_bool_iff.
  - intros (t & Ht & Hpair & Hle). exists t. split; [done|].
    rewrite Hpair. cbn [Dex.or_else].
    by rewrite (proj2 (Qle_bool_iff _ _) Hle).
Qed.

Lemma a_failed_pair_request_skips_one_token_witness :
  Dex.listed Feed.fetch Dex.Profiles
    = Js.Normal (Some [Feed.entry "solana" "A"; Feed.entry "solana" "C"])
  ∧ (Sample.token "C" ∈ Dex.getNewPairs Feed.fetch Feed.read 5000
     ↔ ∃ t, t ∈ take 30 [Feed.entry "solana" "A"; Feed.entry "solana" "C"]
          ∧ Dex.pair_of Feed.fetch Feed.read t
            = Js.Normal (Some (Sample.token "C"))
          ∧ (5000 <= Token.liquidity (Sample.token "C"))%Q).
Proof.
  split; [reflexivity|].
  apply (a_failed_pair_request_skips_one_token Feed.fetch Feed.read 5000).
  reflexivity.
Defined.
